(* ===== verification/_CoqProject ===== *)
-Q . S2P
Prelude.v
GoLib.v
Types.v
KeyPath.v
Net.v
Crypto.v
Plugin.v
KeyManager.v
PluginModel.v
PluginProps.v
PluginTheorems.v
PluginEntry.v
PluginConc.v
ConcLiveness.v
Sha256.v
Interfaces.v
VaultClient.v
EvmSigner.v
CosmosSigner.v
Float64.v
Json.v
Amino.v
JsonProps.v
JsonRoundtrip.v
JsonSound.v
HttpJson.v
HttpJsonProps.v
AminoScan.v
SignerTheorems.v
AminoTheorems.v
Mount.v
EndToEnd.v
EndToEndTheorems.v
ClientTheorems.v
Config.v
Limiter.v
Telemetry.v
Gateway.v
GatewayHandlers.v
GatewayTheorems.v
ResponseTypes.v
GatewayListing.v
ListWorkers.v
ChainsRace.v
GatewayChecks.v
Middleware.v
Origin.v
Startup.v
Cli.v
CliTheorems.v
CliChecks.v
JsonIndent.v
SwaggerPost.v
SwaggerProps.v
SwaggerTheorems.v
OpenApi.v
MiddlewareTheorems.v
TelemetryTheorems.v
OpenApiTheorems.v
ApiContract.v
MiddlewareChecks.v
