(* ===== verification/Prelude.v ===== *)
(** * kms-wrapper: a verification development

    kms-wrapper keeps secp256k1 keys in HashiCorp Vault and signs Ethereum and
    Cosmos payloads with them.  It has four layers, each of which talks to the
    next:

    - a Vault secrets plugin ([internal/plugin]) stores the keys and is the
      only code that sees private keys;
    - a Vault client ([internal/vault]) calls the plugin over Vault's HTTP API;
    - two signers ([internal/signer/evm], [internal/signer/cosmos]) build
      chain-specific signatures from the client's raw [(r, s)];
    - a REST gateway ([internal/gateway]) authenticates callers, limits their
      rate, authorizes each key for a chain and calls the signers.

    The command line ([cmd/kms-wrapper]) loads the configuration
    ([internal/config]), runs the gateway behind its start-up guards and offers
    the key and sign operations directly; a build step
    ([cmd/swagger-postprocess]) prepares the OpenAPI document the gateway
    serves.

    Every key carries an allow-list of chains, a non-empty subset of
    {evm, cosmos}, checked by the gateway and again by the plugin.

    ** Files

    Shared:
    - [Prelude]: errors with their [errors.Is] chain, the state-passing
      programs with early return and panic in which handlers are written
      ([let!], [;;;], [guard], [check], [try_], [catch]), a weakest-precondition
      calculus for them, tactics.
    - [GoLib]: what the sources use of Go's standard library (strings, strconv,
      hex, base64, math/big bytes, sorting, interface values, RFC 3339).
    - [Sha256]: SHA-256 and HMAC, executable, checked on the published vectors.
    - [Net]: [net.ParseIP], [ParseCIDR], [IPNet.Contains], [SplitHostPort].
    - [Types]: [pkg/types].  [KeyPath]: [internal/keypath], [vault/path.go].
    - [Crypto]: go-ethereum's crypto package as a class with laws, and a toy
      model of the laws.  [Interfaces]: the Go interfaces between components.

    Plugin:
    - [Plugin]: [backend.go], [path_keys.go], [path_keys_update.go],
      [path_sign.go]; one definition per handler over a [backend] (its lock
      table and Vault's storage), and the operation tables ([operations]).
    - [KeyManager]: the abstract machine: a map from names to entries with the
      transitions create, back-fill, widen, delete and skip, and its
      invariants.
    - [PluginModel]: an in-memory storage with injected faults and an entry
      codec.  [PluginProps]: the abstraction relation [Rep], the simulation,
      and what each request does on a fault-free vault.  [PluginTheorems]: the
      claims.
    - [PluginEntry]: the path patterns, [newBackend], [Factory] and
      [cmd/kms-vault-plugin/main.go].
    - [PluginConc]: handlers as sequences of storage operations under the
      per-key locks, interleaved arbitrarily.  [ConcLiveness]: they finish.

    Client and signers:
    - [VaultClient]: [client.go]: the client's state (public-key cache, last
      token lookup, hooks), its methods, start-up, and the renewal goroutine as
      a step function.  [ClientTheorems]: its claims.
    - [EvmSigner], [CosmosSigner] (with [internal/keyinfo]): written against
      the class [SignVault]; [SignVaultSpec] is the contract they rely on.
      [SignerTheorems]: their claims against the contract.
    - [Float64], [Json]: what [encoding/json] does with a document: the
      decoder's token interface, [Unmarshal] into [any] (numbers rounded to
      [float64]), [Marshal].  [Amino]: [SignAmino], the duplicate-key scan and
      canonicalisation.  [JsonProps], [JsonRoundtrip], [JsonSound]: strings,
      numbers and values print and read back.  [AminoScan]: the scan agrees
      with the reader.  [AminoTheorems]: the claims.
    - [Mount]: what Vault does between client and plugin (a class of laws).
      [EndToEnd]: the client over a mounted plugin keeps [SignVaultSpec].
      [EndToEndTheorems]: the composed claims, and an in-memory Vault that
      satisfies [Mount].

    Gateway:
    - [HttpJson]: request bodies and cursors as [encoding/json] decodes them
      into the structs of [pkg/types] (case folding of names, repeated and
      unknown members, the 1 MiB limit), and the texts of the response structs.
      [HttpJsonProps]: round trips.  [ResponseTypes]: the documented response
      types as schemas, and that the handlers' answers have them.
    - [Limiter]: [principal_limiter.go], [auth.go].
    - [Telemetry]: [metrics.go]'s collectors, log records and the handler of
      [requestid.go] that adds the request id; what the server emits is a list
      of events in its state.
    - [Gateway]: [chains_cache.go], [health_cache.go], [probes.go] and the
      response helpers; [GatewayHandlers]: the handlers of [gateway.go].
    - [GatewayTheorems], [GatewayListing]: their claims for arbitrary key
      stores and signers, and creation through all layers; [GatewayChecks]:
      the gateway wired as the program wires it, over the in-memory Vault.
    - [ListWorkers]: the worker pool of [listKeys] as a step relation over the
      shared slice.  [ChainsRace]: concurrent authorizations and chain updates
      on the shared cache as a step relation.
    - [Middleware]: routing ([appRoutes], [routes]), [auth.go]'s middleware,
      rate limiting, deprecation headers, [requestid.go], [recover.go], the 405
      rewriter, the route counters and the access log, as handlers over a
      [GState] (the server, its limiters, the response's headers).
      [MiddlewareTheorems], [TelemetryTheorems]: its claims;
      [MiddlewareChecks]: requests through the whole chain.
    - [OpenApi]: the document of [docs/docs.go] as a JSON value, and its
      registration.  [OpenApiTheorems]: it is published and served as it is.
      [ApiContract]: the routes and the answers of the gateway against it.
    - [Origin]: [origin.go] and the swagger document's [servers].
    - [Startup]: [NewOrFail], the limiter sweeper, [ListenAndServe].

    Programs:
    - [Config]: [internal/config]; viper is the class [ViperLib].
    - [Cli]: [root.go] and [main.go]: each command as a program over a [Proc]
      (its configuration, output, client and gateway).  [CliTheorems],
      [CliChecks]: its claims and their witnesses.
    - [JsonIndent]: [json.MarshalIndent] and that it reads back.
      [SwaggerPost]: [cmd/swagger-postprocess/main.go] as functions on decoded
      documents and on files.  [SwaggerProps], [SwaggerTheorems]: its claims.

    ** What the theorems show

    - Plugin.  The handlers refine the key manager under arbitrary requests
      and storage faults, so that every stored record is well formed, key
      material never changes and allow-lists only grow while a key exists.  A
      signature is only made by a stored key for a chain of its allow-list.
      Each handler's reply and effect is characterised on every branch for a
      fault-free vault, and replies do not depend on private keys.
    - Client.  Vault errors are classified by status; the public-key cache
      memoises for the process lifetime; renewal is paced as documented.
    - Signers.  A returned EVM signature recovers to the vault's public key,
      whatever the vault does; with a vault that keeps its contract each
      operation succeeds.  Amino documents with a repeated key are refused, and
      what is signed is a canonical form that does not depend on the order of
      members.
    - Gateway.  Authorization decisions are justified by a fresh or recent
      allow-list; a 200 from a sign endpoint implies authorization and carries
      the signer's answer; pagination is complete; chain updates reach the
      cache; the limiter map is bounded; readiness is what it says.
    - Request chain.  Without the bearer token no handler outside the public
      endpoints runs; every request is answered under a well-formed request
      id, panics included; signatures come only from authenticated requests
      within their rate.
    - Telemetry.  Every request ends its trace with one access line and its
      counters, or with one panic line and its counter; every observation fits
      a registered collector; what is emitted does not depend on the supplied
      token beyond the decision about it.
    - API contract.  The documented operations are the routes under [/v1], with
      the documented authentication; every answer to one conforms to the schema
      of its status, and the statuses the document leaves out are listed; the
      document is a fixed point of the build step.
    - Wire format.  Request structs decode from their encodings, and every
      handler response is a JSON text of the documented type for its status.
    - Origin.  Forwarded headers count only from trusted proxies, which are
      recognised by their leading bits; the served document names the resolved
      origin and is otherwise the generated one.
    - Start-up.  The gateway listens only behind its token and swagger guards;
      whatever is configured, its limits and timeouts are positive.
    - Command line.  A failed command prints no result; a key created on the
      command line signs there, through client, HTTP and plugin.
    - OpenAPI build step.  It refuses a document with an unresolved
      discriminator before writing anything; what it writes is normalised, is
      the same text in both documents and in the template of [docs.go], and
      reads back; what an interrupted run leaves is stated.
    - Concurrency.  Interleaved creates and chain updates keep refining the key
      manager and always finish; a delete of the same key can be undone by a
      concurrent update.  The worker pool of the listing calls the store once
      per key, writes each answer to its own entry and ends.  Racing
      authorizations never grant a chain the store does not allow, and never
      deny one that an earlier update added.
    - Composition.  Keys created through the gateway or the client sign
      correctly through all layers, and a chain outside the allow-list is
      refused with a permission error.

    ** Modelling choices

    Code outside the repository is a class whose laws state documented
    behaviour: [logical.Storage] and field data, the entry's JSON encoding,
    go-ethereum's crypto and transactions, bech32, RIPEMD-160 and protowire,
    [x/time/rate], the Vault HTTP API.  Each law class has an executable
    instance, so no theorem is vacuous.  Randomness and the clock are inputs.
    Integers are [Z] with the wrap-around written out where it can happen
    ([wrap64] in [renewalInterval]); the iteration order of Go maps is a
    parameter where it matters ([Limiter]) and irrelevant where a sort follows
    ([ParseChains]).  Fuel: [validProto_loop] runs for the length of the buffer
    (each field takes at least one byte), [connect] for three attempts, the
    observer [crawl] for one page per key, and the JSON readers and the scan
    for twice the length of the text (every second call takes a character;
    [scans_total], [Unmarshal_Marshal]); numbers are printed from at most 17
    digits, with the exact expansion behind them.  Texts of [encoding/json]
    errors are not modelled.  Response bodies are structured values, whose text
    is [body_text].  A decoded document is a list of members in the order of
    their keys.  Failed file writes leave arbitrary content ([fs_faults]).  The
    fuel of [conforms] and [covers] is 16, above the depth of the document's
    schemas with their references followed (a schema deeper than the fuel is
    refused, never accepted).  Attributes of log records are texts, as [fmt]
    prints them; the stack trace of a panic line is left out.  In the step
    relations a call of the store and a critical section of a mutex are one
    action each.

    ** Not modelled

    The values of counters and histograms and their buckets, the debug line of
    [resolveOrigin], the log lines of the client's renewal goroutine, of
    [serve] and of the plugin process.  The timeout of a listing job is an error
    of the store.  The parsing of flags (cobra), of configuration files (viper)
    and of URLs is a parameter.  Paths with percent escapes in routing are not
    modelled. *)

From stdpp Require Export base tactics decidable option list strings gmap fin_maps sets sorting pretty.
From Stdlib Require Export ZArith Lia Ascii.
From Stdlib Require Init.Byte Strings.Byte.

(** ** Bytes and strings *)

(** A Go byte and a Go byte slice. *)
Abbreviation byte := Init.Byte.byte.
Abbreviation bytes := (list Init.Byte.byte).

#[export] Instance byte_eq_dec : EqDecision byte := Strings.Byte.byte_eq_dec.

(** ** Errors *)

(** The sentinel errors the program compares with [errors.Is]: those of
    [pkg/types], the Vault client's [ErrNotImplemented], and the two
    [logical] sentinels of the Vault SDK the plugin returns. *)
Inductive sentinel :=
  | ErrNotFound
  | ErrPermission
  | ErrInvalidInput
  | ErrBadRequest
  | ErrNotImplemented
  | ErrInvalidRequest
  | ErrPermissionDenied.

#[export] Instance sentinel_eq_dec : EqDecision sentinel.
Proof. solve_decision. Defined.

(** A Go [error] value: its text and the sentinels its [%w] chain holds. *)
Record error := mkError { Error : string; wraps : list sentinel }.

#[export] Instance error_eq_dec : EqDecision error.
Proof. solve_decision. Defined.

(** [errors.New] and [fmt.Errorf] without [%w]. *)
Definition errors_New (msg : string) : error := mkError msg [].

(** [fmt.Errorf(pre + "%w" + post, e)]. *)
Definition Errorf_w (pre : string) (e : error) (post : string) : error :=
  mkError (pre +:+ Error e +:+ post) (wraps e).

(** [errors.Is(e, k)] for one of the sentinels. *)
Definition errors_Is (e : error) (k : sentinel) : bool := bool_decide (k ∈ wraps e).

(** A Go [(T, error)] pair in which exactly one side is meaningful. *)
Inductive result (A : Type) :=
  | Ok (a : A)
  | Err (e : error).
Arguments Ok {A} a.
Arguments Err {A} e.

#[export] Instance result_eq_dec `{EqDecision A} : EqDecision (result A).
Proof. solve_decision. Defined.

Definition is_Ok {A} (r : result A) : bool := match r with Ok _ => true | Err _ => false end.

(** ** Programs: state passing, early return and panics *)

(** How a Go function call ends: with a value, or in a panic. *)
Inductive outcome (A : Type) :=
  | Val (a : A)
  | Panic (msg : string).
Arguments Val {A} a.
Arguments Panic {A} msg.

(** A Go call over the mutable world [S]. *)
Definition M (S A : Type) : Type := S → S * outcome A.

(** How a statement of a function body with return type [R] ends: it falls
    through with a value, it executes [return], or it panics. *)
Inductive flow (R A : Type) :=
  | Next (a : A)
  | Return (r : R)
  | Abrupt (msg : string).
Arguments Next {R A} a.
Arguments Return {R A} r.
Arguments Abrupt {R A} msg.

Definition Prog (S R A : Type) : Type := S → S * flow R A.

Section prog.
Context {S R : Type}.

Definition next {A} (a : A) : Prog S R A := λ s, (s, Next a).

Definition return_ {A} (r : R) : Prog S R A := λ s, (s, Return r).

Definition abrupt {A} (msg : string) : Prog S R A := λ s, (s, Abrupt msg).

Definition bind {A B} (p : Prog S R A) (k : A → Prog S R B) : Prog S R B := λ s,
  match p s with
  | (s', Next a) => k a s'
  | (s', Return r) => (s', Return r)
  | (s', Abrupt m) => (s', Abrupt m)
  end.

(** [if b { return r }] *)
Definition guard (b : bool) (r : R) : Prog S R unit := λ s,
  (s, if b then Return r else Next tt).

(** A call whose panics propagate. *)
Definition call {A} (m : M S A) : Prog S R A := λ s,
  match m s with
  | (s', Val a) => (s', Next a)
  | (s', Panic msg) => (s', Abrupt msg)
  end.

(** [x, err := f(); if err != nil { return h(err) }] *)
Definition try_ {A} (m : M S (result A)) (h : error → R) : Prog S R A := λ s,
  match m s with
  | (s', Val (Ok a)) => (s', Next a)
  | (s', Val (Err e)) => (s', Return (h e))
  | (s', Panic msg) => (s', Abrupt msg)
  end.

(** The same for a pure callee. *)
Definition check {A} (r : result A) (h : error → R) : Prog S R A := λ s,
  (s, match r with Ok a => Next a | Err e => Return (h e) end).

(** [g(); return], for a call [g] that gives the result. *)
Definition finish {A} (m : M S R) : Prog S R A := bind (call m) return_.

(** [if err != nil { g(err); return }] *)
Definition or_finish {A} (r : result A) (g : error → M S R) : Prog S R A :=
  match r with Ok a => next a | Err e => finish (g e) end.

(** [x, err := f(); if err != nil { g(err); return }] *)
Definition catch {A} (m : M S (result A)) (g : error → M S R) : Prog S R A :=
  bind (call m) (λ r, or_finish r g).

Definition get : Prog S R S := λ s, (s, Next s).

Definition put (s : S) : Prog S R unit := λ _, (s, Next tt).

(** The whole function: falling off the end returns the last value. *)
Definition body (p : Prog S R R) : M S R := λ s,
  match p s with
  | (s', Next r) => (s', Val r)
  | (s', Return r) => (s', Val r)
  | (s', Abrupt m) => (s', Panic m)
  end.
End prog.

Declare Scope go_scope.
Delimit Scope go_scope with go.
Open Scope go_scope.

Notation "'let!' x := p 'in' q" := (bind p (λ x, q))
  (at level 10, x pattern, p at level 100, q at level 200) : go_scope.
Notation "p ';;;' q" := (bind p (λ _, q))
  (at level 199, right associativity) : go_scope.

(** ** Tactics *)

(** Boolean guards as propositions. *)
Ltac to_prop :=
  repeat match goal with
  | H : bool_decide _ = true |- _ => apply bool_decide_eq_true_1 in H
  | H : bool_decide _ = false |- _ => apply bool_decide_eq_false_1 in H
  | H : andb _ _ = true |- _ => apply andb_true_iff in H as [? ?]
  | H : orb _ _ = false |- _ => apply orb_false_iff in H as [? ?]
  | H : negb _ = true |- _ => apply negb_true_iff in H
  | H : negb _ = false |- _ => apply negb_false_iff in H
  | H : Nat.eqb _ _ = true |- _ => apply Nat.eqb_eq in H
  | H : Nat.eqb _ _ = false |- _ => apply Nat.eqb_neq in H
  | H : Nat.ltb _ _ = true |- _ => apply Nat.ltb_lt in H
  | H : Nat.ltb _ _ = false |- _ => apply Nat.ltb_ge in H
  | H : Z.eqb _ _ = true |- _ => apply Z.eqb_eq in H
  | H : Z.eqb _ _ = false |- _ => apply Z.eqb_neq in H
  | H : Z.ltb _ _ = true |- _ => apply Z.ltb_lt in H
  | H : Z.ltb _ _ = false |- _ => apply Z.ltb_ge in H
  | H : Z.leb _ _ = true |- _ => apply Z.leb_le in H
  | H : Z.leb _ _ = false |- _ => apply Z.leb_gt in H
  end.

(** Prove a property of every member of an explicit list. *)
Ltac forall_list :=
  repeat (apply Forall_cons_2; [try done|]); try apply Forall_nil_2.

(** ** Shared lemmas *)

Lemma elem_of_filter_bool {A} (f : A → bool) (x : A) (l : list A) :
  x ∈ List.filter f l ↔ x ∈ l ∧ f x = true.
Proof. rewrite !list_elem_of_In. apply filter_In. Qed.

Lemma Forall_forallb {A} (f : A → bool) (l : list A) :
  forallb f l = true ↔ Forall (λ x, f x = true) l.
Proof. rewrite forallb_forall, Forall_forall. setoid_rewrite list_elem_of_In. done. Qed.

(** ** Reasoning about programs

    [wp p Q s]: running the statement [p] from [s] ends in a state and a flow
    that satisfy [Q]; [mwp] is the same for a whole call.  The rules below
    follow the combinators, so that a proof about a function body visits its
    branches in the order of the source. *)

Section wp.
Context {S R : Type}.

Definition wp {A} (p : Prog S R A) (Q : S → flow R A → Prop) (s : S) : Prop :=
  Q (p s).1 (p s).2.

Definition mwp {A} (m : M S A) (Q : S → outcome A → Prop) (s : S) : Prop :=
  Q (m s).1 (m s).2.

Lemma wp_bind {A B} (p : Prog S R A) (k : A → Prog S R B) Q s :
  wp p (λ s' f, match f with
                | Next a => wp (k a) Q s'
                | Return r => Q s' (Return r)
                | Abrupt m => Q s' (Abrupt m)
                end) s →
  wp (bind p k) Q s.
Proof. unfold wp, bind. by destruct (p s) as [s' []]. Qed.

Lemma wp_next {A} (a : A) Q s : Q s (Next a) → wp (next a) Q s.
Proof. done. Qed.

Lemma wp_return {A} (r : R) Q s : Q s (Return r) → wp (A:=A) (return_ r) Q s.
Proof. done. Qed.

Lemma wp_abrupt {A} msg Q s : Q s (Abrupt msg) → wp (A:=A) (abrupt msg) Q s.
Proof. done. Qed.

Lemma wp_guard b r Q s :
  (b = true → Q s (Return r)) → (b = false → Q s (Next tt)) → wp (guard b r) Q s.
Proof. unfold wp, guard. destruct b; auto. Qed.

Lemma wp_check {A} (x : result A) h Q s :
  (∀ a, x = Ok a → Q s (Next a)) → (∀ e, x = Err e → Q s (Return (h e))) → wp (check x h) Q s.
Proof. unfold wp, check. destruct x; simpl; auto. Qed.

Lemma wp_call {A} (m : M S A) Q s :
  mwp m (λ s' o, match o with Val a => Q s' (Next a) | Panic msg => Q s' (Abrupt msg) end) s →
  wp (call m) Q s.
Proof. unfold wp, mwp, call. by destruct (m s) as [s' []]. Qed.

Lemma wp_try {A} (m : M S (result A)) h Q s :
  mwp m (λ s' o, match o with
                 | Val (Ok a) => Q s' (Next a)
                 | Val (Err e) => Q s' (Return (h e))
                 | Panic msg => Q s' (Abrupt msg)
                 end) s →
  wp (try_ m h) Q s.
Proof. unfold wp, mwp, try_. by destruct (m s) as [s' [[]|]]. Qed.

(** What is left to show of a call that gives the result. *)
Definition returns {A} (Q : S → flow R A → Prop) (s : S) (o : outcome R) : Prop :=
  match o with Val r => Q s (Return r) | Panic msg => Q s (Abrupt msg) end.

Lemma wp_finish {A} (m : M S R) (Q : S → flow R A → Prop) s : mwp m (returns Q) s → wp (finish m) Q s.
Proof. unfold wp, mwp, finish, bind, call, returns. by destruct (m s) as [s' []]. Qed.

Lemma wp_or_finish {A} (x : result A) g Q s :
  (∀ a, x = Ok a → Q s (Next a)) → (∀ e, x = Err e → mwp (g e) (returns Q) s) → wp (or_finish x g) Q s.
Proof. intros Hok Hno. destruct x as [a|e]; [by apply Hok|by apply wp_finish, Hno]. Qed.

Lemma wp_catch {A} (m : M S (result A)) g Q s :
  mwp m (λ s' o, match o with
                 | Val (Ok a) => Q s' (Next a)
                 | Val (Err e) => mwp (g e) (returns Q) s'
                 | Panic msg => Q s' (Abrupt msg)
                 end) s →
  wp (catch m g) Q s.
Proof.
  intros Hm. apply wp_bind, wp_call. unfold mwp in *. destruct (m s) as [s' [[a|e]|msg]]; try done.
  by apply wp_finish.
Qed.

Lemma wp_get Q s : Q s (Next s) → wp get Q s.
Proof. done. Qed.

Lemma wp_put t Q s : Q t (Next tt) → wp (put t) Q s.
Proof. done. Qed.

Lemma mwp_body (p : Prog S R R) Q s :
  wp p (λ s' f, match f with
                | Next r => Q s' (Val r)
                | Return r => Q s' (Val r)
                | Abrupt m => Q s' (Panic m)
                end) s →
  mwp (body p) Q s.
Proof. unfold wp, mwp, body. by destruct (p s) as [s' []]. Qed.

Lemma mwp_mono {A} (m : M S A) (P Q : S → outcome A → Prop) s :
  mwp m P s → (∀ s' o, P s' o → Q s' o) → mwp m Q s.
Proof. unfold mwp. auto. Qed.

(** A call proved to return [a] in a state that satisfies [P]. *)
Lemma mwp_val {A} (m : M S A) (P : S → Prop) (a : A) s :
  mwp m (λ s' o, o = Val a ∧ P s') s → ∃ s', m s = (s', Val a) ∧ P s'.
Proof. unfold mwp. destruct (m s) as [s' o]. simpl. intros [-> ?]. eauto. Qed.

Lemma mwp_run {A} (m : M S A) (Q : S → outcome A → Prop) s s' o :
  mwp m Q s → m s = (s', o) → Q s' o.
Proof. unfold mwp. intros H Hm. by rewrite Hm in H. Qed.
End wp.

(** One rule of the calculus, chosen by the head of the program. *)
Ltac wp_step :=
  lazymatch goal with
  | |- mwp (body _) _ _ => apply mwp_body
  | |- wp (bind _ _) _ _ => apply wp_bind
  | |- wp (next _) _ _ => apply wp_next
  | |- wp (return_ _) _ _ => apply wp_return
  | |- wp (abrupt _) _ _ => apply wp_abrupt
  | |- wp (guard _ _) _ _ => apply wp_guard; intros ?
  | |- wp (check _ _) _ _ => apply wp_check; intros ? ?
  | |- wp (call _) _ _ => apply wp_call
  | |- wp (try_ _ _) _ _ => apply wp_try
  | |- wp (finish _) _ _ => apply wp_finish
  | |- wp (or_finish _ _) _ _ => apply wp_or_finish; intros ? ?
  | |- wp (catch _ _) _ _ => apply wp_catch
  | |- wp get _ _ => apply wp_get
  | |- wp (put _) _ _ => apply wp_put
  | |- wp (match ?x with _ => _ end) _ _ => destruct x eqn:?
  | |- wp (let _ := _ in _) _ _ => cbv zeta
  end; cbv beta iota zeta;
  repeat match goal with u : unit |- _ => destruct u end.

Create HintDb kms discriminated.
Create Rewrite HintDb kms.
