(* ===== verification/GoLib.v ===== *)
(** * The parts of Go's standard library the program uses

    [strings], [strconv], [encoding/hex], [encoding/base64], the big-endian
    conversions of [math/big], the [interface{}] values that cross the Vault
    API, and RFC 3339 timestamps.  A Go string is a [string] of bytes.

    Byte-level faithfulness: [TrimSpace] removes every rune of Unicode's
    White_Space property in its UTF-8 encoding, as Go does.  [ToLower] maps the
    ASCII capitals and leaves other bytes alone; Go also maps non-ASCII
    capitals, of which only U+0130 and U+212A have ASCII images ("i" and "k"),
    and neither letter occurs in a string the program compares a lowered
    string with ("evm", "cosmos", "http", "https"). *)

From S2P Require Import Prelude.
From Stdlib Require Import SpecFloat.

(** ** strings *)

(** [strings.Split(s, sep)] for a one-byte separator. *)
Fixpoint Split (s : string) (sep : ascii) : list string :=
  match s with
  | EmptyString => [""]
  | String c s' =>
      if decide (c = sep) then "" :: Split s' sep
      else match Split s' sep with
           | [] => [String c ""]
           | w :: ws => String c w :: ws
           end
  end.

(** [strings.Join(ws, sep)] *)
Fixpoint Join (ws : list string) (sep : string) : string :=
  match ws with
  | [] => ""
  | [w] => w
  | w :: ws' => w +:+ sep +:+ Join ws' sep
  end.

(** [strings.CutPrefix(s, pre)]: [None] when [s] does not start with [pre]. *)
Fixpoint CutPrefix (s pre : string) : option string :=
  match pre, s with
  | EmptyString, _ => Some s
  | String p pre', String c s' => if decide (p = c) then CutPrefix s' pre' else None
  | String _ _, EmptyString => None
  end.

(** [strings.HasPrefix] *)
Definition HasPrefix (s pre : string) : bool :=
  match CutPrefix s pre with Some _ => true | None => false end.

(** [strings.TrimPrefix] *)
Definition TrimPrefix (s pre : string) : string := default s (CutPrefix s pre).

(** [strings.HasSuffix] *)
Fixpoint HasSuffix (s suf : string) : bool :=
  if decide (s = suf) then true
  else match s with EmptyString => false | String _ s' => HasSuffix s' suf end.

(** [strings.TrimSuffix] *)
Fixpoint TrimSuffix (s suf : string) : string :=
  if decide (s = suf) then ""
  else match s with EmptyString => "" | String c s' => String c (TrimSuffix s' suf) end.

(** [strings.Contains(s, sub)] *)
Fixpoint Contains (s sub : string) : bool :=
  HasPrefix s sub ||
  match s with EmptyString => false | String _ s' => Contains s' sub end.

(** [s[:strings.LastIndex(s, c)]] when the byte [c] occurs in [s]. *)
Fixpoint BeforeLast (s : string) (c : ascii) : option string :=
  match s with
  | EmptyString => None
  | String d s' =>
      match BeforeLast s' c with
      | Some h => Some (String d h)
      | None => if decide (d = c) then Some "" else None
      end
  end.

(** [s[:strings.Index(s, c)]] when the byte [c] occurs in [s]. *)
Fixpoint BeforeFirst (s : string) (c : ascii) : option string :=
  match s with
  | EmptyString => None
  | String d s' => if decide (d = c) then Some "" else String d <$> BeforeFirst s' c
  end.

(** [strings.ToLower] on ASCII capitals. *)
Definition lower_ascii (c : ascii) : ascii :=
  let n := N_of_ascii c in
  if ((65 <=? n) && (n <=? 90))%N then ascii_of_N (n + 32) else c.

Fixpoint ToLower (s : string) : string :=
  match s with
  | EmptyString => ""
  | String c s' => String (lower_ascii c) (ToLower s')
  end.

(** The one-, two- and three-byte UTF-8 encodings of white-space runes. *)
Definition space1 (c : ascii) : bool :=
  let n := N_of_ascii c in ((9 <=? n) && (n <=? 13) || (n =? 32))%N.

Definition space2 (c d : ascii) : bool :=
  let m := N_of_ascii d in
  ((N_of_ascii c =? 194) && ((m =? 133) || (m =? 160)))%N.

Definition space3 (c d e : ascii) : bool :=
  let l := N_of_ascii c in let m := N_of_ascii d in let n := N_of_ascii e in
  ((l =? 225) && (m =? 154) && (n =? 128)
   || (l =? 226) && (m =? 128) &&
      ((128 <=? n) && (n <=? 138) || (n =? 168) || (n =? 169) || (n =? 175))
   || (l =? 226) && (m =? 129) && (n =? 159)
   || (l =? 227) && (m =? 128) && (n =? 128))%N.

Fixpoint TrimLeftSpace (s : string) : string :=
  match s with
  | EmptyString => ""
  | String c s1 =>
      if space1 c then TrimLeftSpace s1
      else match s1 with
           | EmptyString => s
           | String d s2 =>
               if space2 c d then TrimLeftSpace s2
               else match s2 with
                    | EmptyString => s
                    | String e s3 => if space3 c d e then TrimLeftSpace s3 else s
                    end
           end
  end.

Fixpoint TrimRightSpace (s : string) : string :=
  if decide (TrimLeftSpace s = "") then ""
  else match s with EmptyString => "" | String c s' => String c (TrimRightSpace s') end.

(** [strings.TrimSpace] *)
Definition TrimSpace (s : string) : string := TrimRightSpace (TrimLeftSpace s).

(** [strings.TrimRight(s, "c")] for a one-byte cutset. *)
Fixpoint TrimRight (s : string) (c : ascii) : string :=
  match s with
  | EmptyString => ""
  | String d s' =>
      match TrimRight s' c with
      | EmptyString => if decide (d = c) then "" else String d ""
      | w => String d w
      end
  end.

(** Does every byte of [s] satisfy [f]?  (A regexp [^[class]*$].) *)
Fixpoint string_forall (f : ascii → bool) (s : string) : bool :=
  match s with
  | EmptyString => true
  | String c s' => f c && string_forall f s'
  end.

(** [sort.Strings]: Go compares strings byte-wise, as [String.le] does. *)
Definition sort_Strings (l : list string) : list string := merge_sort String.le l.

(** ** strconv *)

Definition maxInt64 : Z := 9223372036854775807.
Definition minInt64 : Z := -9223372036854775808.

(** Two's-complement wrap-around of a 64-bit integer. *)
Definition wrap64 (z : Z) : Z := (z + 2 ^ 63) mod 2 ^ 64 - 2 ^ 63.

Fixpoint parse_digits (s : string) (acc : Z) : option Z :=
  match s with
  | EmptyString => Some acc
  | String c s' =>
      match Ascii.is_nat c with
      | Some d => parse_digits s' (10 * acc + Z.of_nat d)
      | None => None
      end
  end.

(** [strconv.Atoi] on a 64-bit platform; [None] is any error. *)
Definition Atoi (s : string) : option Z :=
  let '(neg, ds) :=
    match s with
    | String "-" r => (true, r)
    | String "+" r => (false, r)
    | _ => (false, s)
    end in
  if decide (ds = "") then None
  else match parse_digits ds 0 with
       | None => None
       | Some n =>
           let z := if neg then (- n)%Z else n in
           if ((minInt64 <=? z) && (z <=? maxInt64))%Z then Some z else None
       end.

(** [strconv.Itoa] *)
Definition Itoa (z : Z) : string := pretty z.

(** ** Bytes *)

Definition byte_N (b : byte) : N := Byte.to_N b.
Definition byte_Z (b : byte) : Z := Z.of_N (Byte.to_N b).

(** The byte [z mod 256]. *)
Definition byte_of_N (n : N) : byte :=
  match Byte.of_N (n mod 256) with Some b => b | None => Byte.x00 end.

(** [[]byte(s)] and [string(b)] *)
Definition bytes_of_string (s : string) : bytes := String.list_byte_of_string s.
Definition string_of_bytes (b : bytes) : string := String.string_of_list_byte b.

(** ** encoding/hex *)

Definition hexdigit (n : N) : ascii :=
  if (n <? 10)%N then ascii_of_N (48 + n) else ascii_of_N (87 + n).

(** [hex.EncodeToString] *)
Fixpoint hex_EncodeToString (b : bytes) : string :=
  match b with
  | [] => ""
  | x :: b' =>
      String (hexdigit (N.shiftr (byte_N x) 4))
        (String (hexdigit (N.land (byte_N x) 15)) (hex_EncodeToString b'))
  end.

Definition fromHexChar (c : ascii) : option N :=
  let n := N_of_ascii c in
  (if (48 <=? n) && (n <=? 57) then Some (n - 48)
   else if (97 <=? n) && (n <=? 102) then Some (n - 87)
   else if (65 <=? n) && (n <=? 70) then Some (n - 55)
   else None)%N.

Inductive hex_error :=
  | InvalidByteError (c : ascii)
  | ErrLength.

(** [hex.DecodeString], without the partial output it returns beside an
    error (no caller uses it). *)
Fixpoint hex_DecodeString (s : string) : hex_error + bytes :=
  match s with
  | EmptyString => inr []
  | String c EmptyString =>
      match fromHexChar c with Some _ => inl ErrLength | None => inl (InvalidByteError c) end
  | String c (String d s') =>
      match fromHexChar c, fromHexChar d with
      | None, _ => inl (InvalidByteError c)
      | _, None => inl (InvalidByteError d)
      | Some h, Some l =>
          match hex_DecodeString s' with
          | inl e => inl e
          | inr b => inr (byte_of_N (16 * h + l) :: b)
          end
      end
  end.

(** The [Error()] text: [%#U] of an invalid byte prints its code point and,
    when it is printable, the rune itself in UTF-8. *)
Definition upper_hexdigit (n : N) : ascii :=
  if (n <? 10)%N then ascii_of_N (48 + n) else ascii_of_N (55 + n).

Definition utf8_latin1 (n : N) : string :=
  if (n <? 128)%N then String (ascii_of_N n) ""
  else String (ascii_of_N (192 + N.shiftr n 6)) (String (ascii_of_N (128 + N.land n 63)) "").

Definition IsPrint_latin1 (n : N) : bool :=
  ((32 <=? n) && (n <=? 126) || (161 <=? n) && negb (n =? 173))%N.

Definition hex_error_text (e : hex_error) : string :=
  match e with
  | ErrLength => "encoding/hex: odd length hex string"
  | InvalidByteError c =>
      let n := N_of_ascii c in
      "encoding/hex: invalid byte: U+00" +:+
      String (upper_hexdigit (N.shiftr n 4)) (String (upper_hexdigit (N.land n 15)) "") +:+
      (if IsPrint_latin1 n then " '" +:+ utf8_latin1 n +:+ "'" else "")
  end.

(** ** encoding/base64 *)

(** The two alphabets differ in the digits 62 and 63. *)
Inductive b64_encoding := StdEncoding | URLEncoding.

Definition b64_char (enc : b64_encoding) (n : N) : ascii :=
  if (n <? 26)%N then ascii_of_N (65 + n)
  else if (n <? 52)%N then ascii_of_N (71 + n)
  else if (n <? 62)%N then ascii_of_N (n - 4)
  else if (n =? 62)%N then (match enc with StdEncoding => "+" | URLEncoding => "-" end)%char
  else (match enc with StdEncoding => "/" | URLEncoding => "_" end)%char.

Definition b64_val (enc : b64_encoding) (c : ascii) : option N :=
  let n := N_of_ascii c in
  (if (65 <=? n) && (n <=? 90) then Some (n - 65)
   else if (97 <=? n) && (n <=? 122) then Some (n - 71)
   else if (48 <=? n) && (n <=? 57) then Some (n + 4)
   else if decide (c = b64_char enc 62) then Some 62
   else if decide (c = b64_char enc 63) then Some 63
   else None)%N.

Definition pad_char : ascii := "="%char.

(** [enc.EncodeToString] *)
Fixpoint b64_Encode (enc : b64_encoding) (b : bytes) : string :=
  match b with
  | [] => ""
  | [x] =>
      let n := (byte_N x * 65536)%N in
      String (b64_char enc (n / 262144)) (String (b64_char enc (n / 4096 mod 64))
        (String pad_char (String pad_char "")))
  | [x; y] =>
      let n := (byte_N x * 65536 + byte_N y * 256)%N in
      String (b64_char enc (n / 262144)) (String (b64_char enc (n / 4096 mod 64))
        (String (b64_char enc (n / 64 mod 64)) (String pad_char "")))
  | x :: y :: z :: b' =>
      let n := (byte_N x * 65536 + byte_N y * 256 + byte_N z)%N in
      String (b64_char enc (n / 262144)) (String (b64_char enc (n / 4096 mod 64))
        (String (b64_char enc (n / 64 mod 64)) (String (b64_char enc (n mod 64))
          (b64_Encode enc b'))))
  end.

Definition is_newline (c : ascii) : bool := (N_of_ascii c =? 10)%N || (N_of_ascii c =? 13)%N.

(** Skip newlines, advancing the input offset. *)
Fixpoint skip_newlines (si : N) (src : string) : N * string :=
  match src with
  | String c s' => if is_newline c then skip_newlines (si + 1) s' else (si, src)
  | EmptyString => (si, src)
  end.

(** What may follow the padding: newlines only. *)
Definition b64_after_padding (si : N) (src : string) (out : bytes) : N + bytes :=
  match skip_newlines si src with
  | (_, EmptyString) => inr out
  | (si', _) => inl si'
  end.

(** [enc.DecodeString]: [decodeQuantum] iterated.  [dbuf] holds the digits of
    the current quantum, [si] the input offset; an error is Go's
    [CorruptInputError] offset. *)
Fixpoint b64_decode (enc : b64_encoding) (si : N) (dbuf : list N) (src : string)
    : N + bytes :=
  match src with
  | EmptyString =>
      match dbuf with
      | [] => inr []
      | _ => inl (si - N.of_nat (length dbuf))%N
      end
  | String c s' =>
      match b64_val enc c with
      | Some v =>
          match dbuf with
          | [a; b; d] =>
              let n := (a * 262144 + b * 4096 + d * 64 + v)%N in
              match b64_decode enc (si + 1) [] s' with
              | inl e => inl e
              | inr out =>
                  inr (byte_of_N (n / 65536) :: byte_of_N (n / 256) :: byte_of_N n :: out)
              end
          | _ => b64_decode enc (si + 1) (dbuf ++ [v]) s'
          end
      | None =>
          if is_newline c then b64_decode enc (si + 1) dbuf s'
          else if negb (bool_decide (c = pad_char)) then inl si
          else match dbuf with
          | [a; b] =>
              match skip_newlines (si + 1) s' with
              | (si', EmptyString) => inl si'
              | (si', String p s'') =>
                  if decide (p = pad_char)
                  then b64_after_padding (si' + 1) s''
                         [byte_of_N ((a * 262144 + b * 4096) / 65536)]
                  else inl (si' - 1)%N
              end
          | [a; b; d] =>
              let n := (a * 262144 + b * 4096 + d * 64)%N in
              b64_after_padding (si + 1) s' [byte_of_N (n / 65536); byte_of_N (n / 256)]
          | _ => inl si
          end
      end
  end.

Definition b64_DecodeString (enc : b64_encoding) (s : string) : result bytes :=
  match b64_decode enc 0 [] s with
  | inl off => Err (errors_New ("illegal base64 data at input byte " +:+ pretty off))
  | inr b => Ok b
  end.

(** ** math/big *)

(** [new(big.Int).SetBytes(b)]: big-endian, unsigned. *)
Definition SetBytes (b : bytes) : Z := fold_left (λ acc x, (acc * 256 + byte_Z x)%Z) b 0%Z.

(** The [n] low-order bytes of a non-negative integer, big-endian. *)
Fixpoint be_bytes (n : nat) (z : Z) : bytes :=
  match n with
  | O => []
  | S n' => be_bytes n' (z / 256) ++ [byte_of_N (Z.to_N (z mod 256))]
  end.

(** [x.FillBytes(buf)] for a buffer of [n] bytes: panics when the absolute
    value does not fit. *)
Definition FillBytes (n : nat) (z : Z) : outcome bytes :=
  if (Z.abs z <? 256 ^ Z.of_nat n)%Z then Val (be_bytes n (Z.abs z))
  else Panic "math/big: buffer too small to fit value".

(** [interface{}] values as they come out of JSON or of the Vault SDK. *)
Inductive any :=
  | ANil
  | ABool (b : bool)
  | AString (s : string)
  | AFloat64 (f : spec_float)   (** IEEE 754 binary64 *)
  | AInt (z : Z)
  | AInt64 (z : Z)
  | ANumber (s : string)        (** [json.Number] *)
  | AStrings (l : list string)  (** [[]string] *)
  | AList (l : list any)        (** [[]interface{}] *)
  | AMap (l : list (string * any)).

(** [v.(string)] in its two-value form. *)
Definition as_string (v : any) : option string :=
  match v with AString s => Some s | _ => None end.

(** [s, _ := v.(string)]: the zero value when the assertion fails. *)
Definition as_string_or_zero (v : any) : string := default "" (as_string v).

(** ** float64 and durations *)

(** float64 arithmetic at its width. *)
Definition f64_div : spec_float → spec_float → spec_float := SFdiv 53 1024.
Definition f64_of_Z (z : Z) : spec_float := binary_normalize 53 1024 z 0 false.

(** [f <= 0]; false for a NaN. *)
Definition f64_nonpos (f : spec_float) : bool := SFleb f (S754_zero false).

(** [time.Second], in nanoseconds. *)
Definition second : Z := 1000000000.

(** ** RFC 3339 timestamps *)

(** An instant and the offset of its location, in seconds east of UTC. *)
Record Timestamp := mkTimestamp { unix_ns : Z; zone_off : Z }.

#[export] Instance Timestamp_eq_dec : EqDecision Timestamp.
Proof. solve_decision. Defined.

(** Year, month and day of a day count since 1970-01-01 (proleptic
    Gregorian calendar). *)
Definition civil_of_days (days : Z) : Z * Z * Z :=
  (let z := days + 719468 in
   let era := z / 146097 in
   let doe := z - era * 146097 in
   let yoe := (doe - doe / 1460 + doe / 36524 - doe / 146096) / 365 in
   let doy := doe - (365 * yoe + yoe / 4 - yoe / 100) in
   let mp := (5 * doy + 2) / 153 in
   let d := doy - (153 * mp + 2) / 5 + 1 in
   let m := if mp <? 10 then mp + 3 else mp - 9 in
   let y := yoe + era * 400 + (if m <=? 2 then 1 else 0) in
   (y, m, d))%Z.

(** Zero-padded decimal of a given width. *)
Fixpoint zeros (n : nat) : string :=
  match n with O => "" | S n' => String "0" (zeros n') end.

Definition pad (w : nat) (z : Z) : string :=
  let s := pretty z in zeros (w - String.length s) +:+ s.

(** [t.Format(time.RFC3339Nano)]: the fraction without trailing zeros. *)
Definition Format_RFC3339Nano (t : Timestamp) : string :=
  (let local := unix_ns t + zone_off t * 1000000000 in
   let secs := local / 1000000000 in
   let frac := local mod 1000000000 in
   let '(y, m, d) := civil_of_days (secs / 86400) in
   let sod := secs mod 86400 in
   let hm (s : Z) := pad 2 (s / 3600) +:+ ":" +:+ pad 2 (s / 60 mod 60) in
   pad 4 y +:+ "-" +:+ pad 2 m +:+ "-" +:+ pad 2 d +:+ "T" +:+
   hm sod +:+ ":" +:+ pad 2 (sod mod 60) +:+
   (if decide (frac = 0) then "" else "." +:+ TrimRight (pad 9 frac) "0") +:+
   (if decide (zone_off t = 0) then "Z"
    else if 0 <? zone_off t then "+" +:+ hm (zone_off t)
    else "-" +:+ hm (- zone_off t)))%Z.

(** ** Lemmas: Split and Join *)

Lemma Split_nonempty s c : Split s c ≠ [].
Proof. destruct s as [|d s]; simpl; [done|]. repeat case_match; done. Qed.

Lemma Join_cons w ws sep :
  ws ≠ [] → Join (w :: ws) sep = w +:+ sep +:+ Join ws sep.
Proof. by destruct ws. Qed.

Lemma string_app_nil_r (s : string) : s +:+ "" = s.
Proof. induction s as [|a s IH]; [done|]. change (String a (s +:+ "") = String a s). by rewrite IH. Qed.

Lemma string_app_assoc (s t u : string) : (s +:+ t) +:+ u = s +:+ t +:+ u.
Proof. induction s as [|a s IH]; [done|]. change (String a ((s +:+ t) +:+ u) = String a (s +:+ t +:+ u)). by rewrite IH. Qed.

(** Splitting and joining again gives the string back. *)
Lemma Join_Split s c : Join (Split s c) (String c "") = s.
Proof.
  induction s as [|d s IH]; [done|]. simpl.
  pose proof (Split_nonempty s c) as Hne.
  case_decide as Hd; subst.
  - rewrite Join_cons by done. rewrite IH. done.
  - destruct (Split s c) as [|w ws]; [done|]. destruct ws; simpl in *; by subst.
Qed.

(** No separator occurs in a part. *)
Lemma Split_no_sep s c : Forall (λ w, string_forall (λ d, negb (bool_decide (d = c))) w = true) (Split s c).
Proof.
  induction s as [|d s IH]; simpl; [by repeat constructor|].
  case_decide as Hd; [by constructor|].
  destruct (Split s c) as [|w ws].
  - constructor; [|done]. simpl. rewrite bool_decide_eq_false_2; done.
  - inversion IH; subst. constructor; [|done]. simpl. rewrite bool_decide_eq_false_2; done.
Qed.

Lemma Split_app_sep w s c :
  string_forall (λ d, negb (bool_decide (d = c))) w = true →
  Split (w +:+ String c s) c = w :: Split s c.
Proof.
  induction w as [|d w IH]; simpl.
  - intros _. by rewrite decide_True.
  - intros [Hd Hw]%andb_true_iff. to_prop. rewrite decide_False by done.
    change (match Split (w +:+ String c s) c with
            | [] => [String d ""] | w' :: ws => String d w' :: ws end = String d w :: Split s c).
    by rewrite IH.
Qed.

Lemma Split_no_sep_single w c :
  string_forall (λ d, negb (bool_decide (d = c))) w = true → Split w c = [w].
Proof.
  induction w as [|d w IH]; simpl; [done|].
  intros [Hd Hw]%andb_true_iff. to_prop. rewrite decide_False by done. by rewrite IH.
Qed.

(** Joining parts without separators and splitting gives the parts back. *)
Lemma Split_Join ws c :
  ws ≠ [] →
  Forall (λ w, string_forall (λ d, negb (bool_decide (d = c))) w = true) ws →
  Split (Join ws (String c "")) c = ws.
Proof.
  intros Hne Hws. induction Hws as [|w ws Hw Hws IH]; [done|].
  destruct ws as [|w' ws].
  - by apply Split_no_sep_single.
  - rewrite Join_cons by done.
    change (w +:+ String c "" +:+ Join (w' :: ws) (String c ""))
      with (w +:+ String c (Join (w' :: ws) (String c ""))).
    rewrite Split_app_sep by done. by rewrite IH.
Qed.

Lemma Split_snoc_sep s c : Split (s +:+ String c "") c = Split s c ++ [""].
Proof.
  induction s as [|d s IH].
  - simpl. by rewrite decide_True.
  - change (Split (String d (s +:+ String c "")) c = Split (String d s) c ++ [""]). simpl.
    pose proof (Split_nonempty s c). rewrite IH. case_decide; [done|]. by destruct (Split s c).
Qed.

(** ** Lemmas: prefixes and suffixes *)

Lemma CutPrefix_app pre s : CutPrefix (pre +:+ s) pre = Some s.
Proof.
  induction pre as [|p pre IH]; [by destruct s|].
  change (CutPrefix (String p (pre +:+ s)) (String p pre) = Some s). simpl.
  by rewrite decide_True.
Qed.

Lemma CutPrefix_Some s pre r : CutPrefix s pre = Some r ↔ s = pre +:+ r.
Proof.
  split; [|intros ->; apply CutPrefix_app].
  revert s. induction pre as [|p pre IH]; intros s; simpl; [by destruct s; intros [= <-]|].
  destruct s as [|c s]; simpl; [done|]. case_decide; [|done]. subst. intros ->%IH. done.
Qed.

Lemma HasPrefix_app pre s : HasPrefix (pre +:+ s) pre = true.
Proof. unfold HasPrefix. by rewrite CutPrefix_app. Qed.

Lemma HasPrefix_true s pre : HasPrefix s pre = true ↔ ∃ r, s = pre +:+ r.
Proof.
  unfold HasPrefix. setoid_rewrite <- CutPrefix_Some.
  destruct (CutPrefix s pre); split; [by eauto|done|done|intros [? ?]; done].
Qed.

Lemma TrimPrefix_app pre s : TrimPrefix (pre +:+ s) pre = s.
Proof. unfold TrimPrefix. by rewrite CutPrefix_app. Qed.

Lemma HasSuffix_app s suf : HasSuffix (s +:+ suf) suf = true.
Proof.
  induction s as [|c s IH].
  - change ("" +:+ suf) with suf. destruct suf; simpl; by rewrite ?decide_True.
  - change (HasSuffix (String c (s +:+ suf)) suf = true). simpl. case_decide; [done|exact IH].
Qed.

Lemma HasSuffix_true s suf : HasSuffix s suf = true ↔ ∃ r, s = r +:+ suf.
Proof.
  split; [|intros [r ->]; apply HasSuffix_app].
  induction s as [|c s IH]; simpl; case_decide as Hd; try done; intros Hs.
  - by exists "".
  - by exists "".
  - destruct (IH Hs) as [r ->]. by exists (String c r).
Qed.

Lemma string_length_app (s t : string) :
  String.length (s +:+ t) = String.length s + String.length t.
Proof.
  induction s as [|a s IH]; [done|].
  change (S (String.length (s +:+ t)) = S (String.length s + String.length t)). by rewrite IH.
Qed.

Lemma TrimSuffix_app s suf : TrimSuffix (s +:+ suf) suf = s.
Proof.
  induction s as [|c s IH].
  - change ("" +:+ suf) with suf. destruct suf; simpl; by rewrite ?decide_True.
  - change (TrimSuffix (String c (s +:+ suf)) suf = String c s). simpl.
    rewrite decide_False; [by rewrite IH|].
    intros Heq%(f_equal String.length). simpl in Heq. rewrite string_length_app in Heq. lia.
Qed.

Lemma TrimSuffix_id s suf : HasSuffix s suf = false → TrimSuffix s suf = s.
Proof.
  induction s as [|c s IH]; simpl; case_decide; try done. intros H'. by rewrite IH.
Qed.

Lemma string_forall_app f s t :
  string_forall f (s +:+ t) = string_forall f s && string_forall f t.
Proof.
  induction s as [|c s IH]; [done|].
  change (f c && string_forall f (s +:+ t) = f c && string_forall f s && string_forall f t).
  by rewrite IH, andb_assoc.
Qed.

Lemma string_forall_impl (f g : ascii → bool) s :
  (∀ c, f c = true → g c = true) → string_forall f s = true → string_forall g s = true.
Proof.
  intros Hfg. induction s as [|c s IH]; [done|].
  simpl. intros [Hc Hs]%andb_true_iff. rewrite (Hfg _ Hc). by apply IH.
Qed.

(** ** Lemmas: hex *)

Lemma hex_byte_roundtrip (x : byte) :
  ∃ h l, fromHexChar (hexdigit (N.shiftr (byte_N x) 4)) = Some h
    ∧ fromHexChar (hexdigit (N.land (byte_N x) 15)) = Some l
    ∧ byte_of_N (16 * h + l) = x.
Proof. destruct x; vm_compute; eauto. Qed.

(** [hex.DecodeString(hex.EncodeToString(b))] is [b]. *)
Lemma hex_roundtrip b : hex_DecodeString (hex_EncodeToString b) = inr b.
Proof.
  induction b as [|x b IH]; [done|]. simpl.
  destruct (hex_byte_roundtrip x) as (h & l & -> & -> & Hx). by rewrite IH, Hx.
Qed.

Lemma hex_length b : String.length (hex_EncodeToString b) = 2 * length b.
Proof. induction b as [|x b IH]; simpl in *; [done|]. rewrite IH. lia. Qed.

(** ** Lemmas: base64 *)

Lemma b64_digits_range (P : N → Prop) :
  Forall P (N.of_nat <$> seq 0 64) → ∀ n, (n < 64)%N → P n.
Proof.
  intros HP n Hn. rewrite Forall_forall in HP. apply HP.
  apply list_elem_of_fmap. exists (N.to_nat n). split; [lia|]. apply elem_of_seq. lia.
Qed.

Lemma b64_val_char enc n : (n < 64)%N → b64_val enc (b64_char enc n) = Some n.
Proof.
  revert n. apply b64_digits_range. destruct enc; by repeat constructor.
Qed.

Lemma byte_N_lt x : (byte_N x < 256)%N.
Proof. unfold byte_N. pose proof (Strings.Byte.to_N_bounded x). lia. Qed.

Lemma byte_of_N_mod n x : (n mod 256)%N = byte_N x → byte_of_N n = x.
Proof. unfold byte_of_N, byte_N. intros ->. by rewrite Byte.of_to_N. Qed.

Lemma byte_of_N_byte_N x : byte_of_N (byte_N x) = x.
Proof. apply byte_of_N_mod. apply N.mod_small, byte_N_lt. Qed.

Lemma b64_quantum_3 (a b c : N) :
  (a < 256 → b < 256 → c < 256 →
   let n := a * 65536 + b * 256 + c in
   n / 262144 < 64 ∧
   (n / 262144 * 262144 + n / 4096 mod 64 * 4096 + n / 64 mod 64 * 64 + n mod 64) = n)%N.
Proof. intros Ha Hb Hc n. subst n. split; [apply N.Div0.div_lt_upper_bound; lia|].
  pose proof (N.div_mod' (a * 65536 + b * 256 + c) 64).
  pose proof (N.div_mod' ((a * 65536 + b * 256 + c) / 64) 64).
  pose proof (N.div_mod' ((a * 65536 + b * 256 + c) / 64 / 64) 64).
  rewrite !N.Div0.div_div in *. change (64 * 64)%N with 4096%N in *.
  change (4096 * 64)%N with 262144%N in *. lia.
Qed.

Lemma b64_decode_quantum enc si (d0 d1 d2 d3 : N) s :
  (d0 < 64)%N → (d1 < 64)%N → (d2 < 64)%N → (d3 < 64)%N →
  let n := (d0 * 262144 + d1 * 4096 + d2 * 64 + d3)%N in
  b64_decode enc si [] (String (b64_char enc d0) (String (b64_char enc d1)
    (String (b64_char enc d2) (String (b64_char enc d3) s)))) =
  match b64_decode enc (si + 1 + 1 + 1 + 1) [] s with
  | inl e => inl e
  | inr out => inr (byte_of_N (n / 65536) :: byte_of_N (n / 256) :: byte_of_N n :: out)
  end.
Proof. intros. simpl. by rewrite !b64_val_char. Qed.

Lemma list_ind3 {A} (P : list A → Prop) :
  P [] → (∀ x, P [x]) → (∀ x y, P [x; y]) →
  (∀ x y z l, P l → P (x :: y :: z :: l)) → ∀ l, P l.
Proof.
  intros H0 H1 H2 H3. fix IH 1. intros [|x [|y [|z l]]]; [done|apply H1|apply H2|].
  apply H3, IH.
Qed.

Lemma N_div_mod_byte (a b c : N) :
  (a < 256)%N → (b < 256)%N → (c < 256)%N →
  let n := (a * 65536 + b * 256 + c)%N in
  ((n / 65536) mod 256 = a ∧ (n / 256) mod 256 = b ∧ n mod 256 = c)%N.
Proof.
  intros Ha Hb Hc n.
  assert (n / 65536 = a)%N as -> by (symmetry; apply (N.div_unique _ _ _ (b * 256 + c)); subst n; lia).
  assert (n / 256 = a * 256 + b)%N as -> by (symmetry; apply (N.div_unique _ _ _ c); subst n; lia).
  split_and!.
  - by apply N.mod_small.
  - symmetry. apply (N.mod_unique _ _ a); lia.
  - symmetry. apply (N.mod_unique _ _ (a * 256 + b)); subst n; lia.
Qed.

Lemma b64_pad_not_digit enc : b64_val enc pad_char = None.
Proof. by destruct enc. Qed.

Lemma b64_tail1 enc si x : b64_decode enc si [] (b64_Encode enc [x]) = inr [x].
Proof.
  pose proof (byte_N_lt x) as Hx.
  pose proof (b64_quantum_3 (byte_N x) 0 0) as Hq. rewrite !N.add_0_r in Hq.
  destruct Hq as [Hlt Heq]; try lia.
  pose proof (N_div_mod_byte (byte_N x) 0 0) as Hb. rewrite !N.add_0_r in Hb.
  destruct Hb as (Hb & _ & _); try lia.
  cbn [b64_Encode]. set (n := (byte_N x * 65536)%N) in *.
  assert (n / 64 mod 64 = 0)%N as Hd2.
  { subst n. replace (byte_N x * 65536)%N with (byte_N x * 16 * 64 * 64)%N by lia.
    rewrite N.div_mul, N.Div0.mod_mul; lia. }
  assert (n mod 64 = 0)%N as Hd3.
  { subst n. replace (byte_N x * 65536)%N with (byte_N x * 1024 * 64)%N by lia.
    apply N.Div0.mod_mul. }
  cbn [b64_decode]. rewrite !b64_val_char by (done || apply N.mod_lt; done).
  cbn [b64_decode app]. rewrite b64_pad_not_digit. simpl.
  unfold b64_after_padding; simpl. f_equal. f_equal. apply byte_of_N_mod.
  rewrite Hd2, Hd3 in Heq. rewrite <- Hb. f_equal. f_equal. lia.
Qed.

Lemma b64_tail2 enc si x y : b64_decode enc si [] (b64_Encode enc [x; y]) = inr [x; y].
Proof.
  pose proof (byte_N_lt x) as Hx. pose proof (byte_N_lt y) as Hy.
  pose proof (b64_quantum_3 (byte_N x) (byte_N y) 0) as Hq. rewrite !N.add_0_r in Hq.
  destruct Hq as [Hlt Heq]; try lia.
  pose proof (N_div_mod_byte (byte_N x) (byte_N y) 0) as Hb. rewrite !N.add_0_r in Hb.
  destruct Hb as (Hb1 & Hb2 & _); try lia.
  cbn [b64_Encode]. set (n := (byte_N x * 65536 + byte_N y * 256)%N) in *.
  assert (n mod 64 = 0)%N as Hd3.
  { subst n. replace (byte_N x * 65536 + byte_N y * 256)%N
      with ((byte_N x * 1024 + byte_N y * 4) * 64)%N by lia. apply N.Div0.mod_mul. }
  cbn [b64_decode]. rewrite !b64_val_char by (done || apply N.mod_lt; done).
  cbn [b64_decode app]. rewrite b64_pad_not_digit. simpl.
  unfold b64_after_padding; simpl. rewrite Hd3, N.add_0_r in Heq.
  rewrite Heq. by rewrite (byte_of_N_mod _ _ Hb1), (byte_of_N_mod _ _ Hb2).
Qed.

(** Base64 decoding inverts encoding, in both alphabets. *)
Lemma b64_roundtrip_at enc b : ∀ si, b64_decode enc si [] (b64_Encode enc b) = inr b.
Proof.
  induction b as [|x|x y|x y z b IH] using list_ind3; intros si;
    [done|apply b64_tail1|apply b64_tail2|].
  pose proof (byte_N_lt x) as Hx. pose proof (byte_N_lt y) as Hy. pose proof (byte_N_lt z) as Hz.
  destruct (b64_quantum_3 (byte_N x) (byte_N y) (byte_N z)) as [Hlt Heq]; try lia.
  destruct (N_div_mod_byte (byte_N x) (byte_N y) (byte_N z)) as (Hb1 & Hb2 & Hb3); try lia.
  cbn [b64_Encode]. rewrite b64_decode_quantum by (done || apply N.mod_lt; done).
  rewrite IH, Heq.
  by rewrite (byte_of_N_mod _ _ Hb1), (byte_of_N_mod _ _ Hb2), (byte_of_N_mod _ _ Hb3).
Qed.

Lemma b64_roundtrip enc b : b64_DecodeString enc (b64_Encode enc b) = Ok b.
Proof. unfold b64_DecodeString. by rewrite b64_roundtrip_at. Qed.

Lemma b64_Encode_nonempty enc b : b ≠ [] → b64_Encode enc b ≠ "".
Proof. by destruct b as [|? [|? [|? ?]]]. Qed.

(** ** Lemmas: big-endian integers *)

Lemma byte_Z_range x : (0 ≤ byte_Z x < 256)%Z.
Proof. unfold byte_Z. pose proof (byte_N_lt x) as H. unfold byte_N in H. lia. Qed.

Lemma SetBytes_snoc b x : SetBytes (b ++ [x]) = (SetBytes b * 256 + byte_Z x)%Z.
Proof. unfold SetBytes. by rewrite fold_left_app. Qed.

Lemma SetBytes_range b : (0 ≤ SetBytes b < 256 ^ Z.of_nat (length b))%Z.
Proof.
  induction b as [|x b IH] using rev_ind; [done|].
  rewrite SetBytes_snoc, length_app. simpl. pose proof (byte_Z_range x).
  rewrite Nat2Z.inj_add, Z.pow_add_r by lia. simpl. nia.
Qed.

Lemma length_be_bytes n z : length (be_bytes n z) = n.
Proof. revert z. induction n as [|n IH]; intros z; simpl; [done|]. rewrite length_app, IH. simpl. lia. Qed.

Lemma byte_of_N_Z x : byte_of_N (Z.to_N (byte_Z x)) = x.
Proof. unfold byte_Z. rewrite N2Z.id. apply byte_of_N_byte_N. Qed.

(** [FillBytes] writes back the bytes [SetBytes] read. *)
Lemma be_bytes_SetBytes b : be_bytes (length b) (SetBytes b) = b.
Proof.
  induction b as [|x b IH] using rev_ind; [done|].
  rewrite SetBytes_snoc, length_app, Nat.add_comm. simpl.
  pose proof (byte_Z_range x).
  rewrite Z.div_add_l, Z.div_small, Z.add_0_r by lia. rewrite IH.
  rewrite Z.add_comm, Z.mod_add, Z.mod_small by lia. by rewrite byte_of_N_Z.
Qed.

Lemma byte_Z_of_mod z : byte_Z (byte_of_N (Z.to_N (z mod 256))) = (z mod 256)%Z.
Proof.
  unfold byte_Z, byte_of_N. pose proof (Z.mod_pos_bound z 256).
  rewrite N.mod_small by lia.
  destruct (Byte.of_N _) as [b|] eqn:Hb.
  - apply Byte.to_of_N in Hb. rewrite Hb. lia.
  - apply Strings.Byte.of_N_None_iff in Hb. lia.
Qed.

Lemma SetBytes_be_bytes n z : (0 ≤ z)%Z → SetBytes (be_bytes n z) = (z mod 256 ^ Z.of_nat n)%Z.
Proof.
  revert z. induction n as [|n IH]; intros z Hz; cbn [be_bytes].
  - simpl. by rewrite Z.mod_1_r.
  - rewrite SetBytes_snoc, IH, byte_Z_of_mod by (apply Z.div_pos; lia).
    rewrite Nat2Z.inj_succ, Z.pow_succ_r by lia.
    rewrite (Z.mul_comm 256 (256 ^ _)), (Z.mul_comm (256 ^ _) 256).
    rewrite Z.rem_mul_r by lia. lia.
Qed.

Lemma FillBytes_fits n z :
  (0 ≤ z < 256 ^ Z.of_nat n)%Z → FillBytes n z = Val (be_bytes n z).
Proof.
  intros Hz. unfold FillBytes. rewrite Z.abs_eq by lia.
  assert ((z <? 256 ^ Z.of_nat n)%Z = true) as -> by (apply Z.ltb_lt; lia). done.
Qed.

Lemma FillBytes_SetBytes b : FillBytes (length b) (SetBytes b) = Val b.
Proof. rewrite FillBytes_fits by apply SetBytes_range. by rewrite be_bytes_SetBytes. Qed.

(** ** Lemmas: sorting strings *)

Lemma sort_Strings_perm l : sort_Strings l ≡ₚ l.
Proof. apply merge_sort_Permutation. Qed.

Lemma sort_Strings_sorted l : Sorted String.le (sort_Strings l).
Proof. apply Sorted_merge_sort, _. Qed.

Lemma elem_of_sort_Strings x l : x ∈ sort_Strings l ↔ x ∈ l.
Proof. by rewrite sort_Strings_perm. Qed.

(** Sorting forgets the order of its input. *)
Lemma sort_Strings_Proper l1 l2 : l1 ≡ₚ l2 → sort_Strings l1 = sort_Strings l2.
Proof.
  intros Hp. apply (StronglySorted_unique String.le).
  - apply Sorted_StronglySorted; [apply _|apply sort_Strings_sorted].
  - apply Sorted_StronglySorted; [apply _|apply sort_Strings_sorted].
  - by rewrite !sort_Strings_perm.
Qed.

Lemma sort_Strings_id l : Sorted String.le l → sort_Strings l = l.
Proof.
  intros Hs. apply (StronglySorted_unique String.le).
  - apply Sorted_StronglySorted; [apply _|apply sort_Strings_sorted].
  - by apply Sorted_StronglySorted; [apply _|].
  - apply sort_Strings_perm.
Qed.

#[export] Hint Rewrite hex_roundtrip b64_roundtrip length_be_bytes TrimPrefix_app CutPrefix_app
  string_app_nil_r : kms.
#[export] Hint Resolve sort_Strings_perm sort_Strings_sorted SetBytes_range length_be_bytes : kms.
