(* ===== verification/Types.v ===== *)
(** * Shared types: [pkg/types/types.go]

    The closed set of signing chains, its parser, and the request and
    response structs of the REST API. *)

From S2P Require Import Prelude GoLib.

(** ** Sentinel errors as values *)

Definition errNotFound : error := mkError "not found" [ErrNotFound].
Definition errPermission : error := mkError "permission denied" [ErrPermission].
Definition errBadRequest : error := mkError "bad request" [ErrBadRequest].

(** ** Chains *)

(** [type Chain string] *)
Abbreviation Chain := string (only parsing).

Definition ChainEVM : Chain := "evm".
Definition ChainCosmos : Chain := "cosmos".

(** The verbatim message of create-time validation. *)
Definition errChainsSubset : string :=
  "chains is required and must be a non-empty subset of [evm, cosmos]".

(** [Chain(strings.ToLower(strings.TrimSpace(raw)))] *)
Definition canonChain (raw : string) : Chain := ToLower (TrimSpace raw).

(** The loop that fills the [seen] map. *)
Fixpoint parseChains_loop (ins : list string) (seen : gset Chain) : result (gset Chain) :=
  match ins with
  | [] => Ok seen
  | raw :: ins' =>
      let c := canonChain raw in
      if bool_decide (c = ChainEVM) || bool_decide (c = ChainCosmos)
      then parseChains_loop ins' ({[c]} ∪ seen)
      else Err (errors_New errChainsSubset)
  end.

(** Lowercases, dedupes, sorts, and validates closed-set membership.  The
    iteration order of the map is immaterial: the list is sorted
    ([sort_Strings_Proper]). *)
Definition ParseChains (ins : list string) : result (list Chain) :=
  match parseChains_loop ins ∅ with
  | Err e => Err e
  | Ok seen =>
      if size seen =? 0 then Err (errors_New errChainsSubset)
      else Ok (sort_Strings (elements seen))
  end.

(** Reports whether [c] is in [chains]. *)
Fixpoint ChainsContain (chains : list Chain) (c : Chain) : bool :=
  match chains with
  | [] => false
  | x :: chains' => if decide (x = c) then true else ChainsContain chains' c
  end.

(** ** Request and response bodies *)

Record EVMSignRequest := mkEVMSignRequest {
  evm_Type : string;
  evm_KeyPath : string;
  evm_ChainID : Z;          (** int64 *)
  evm_RawTx : string;
  evm_PersonalMessage : string;
  evm_EIP712Digest : string }.

Record CosmosSignRequest := mkCosmosSignRequest {
  cos_KeyPath : string;
  cos_HRP : string;
  cos_SignMode : string;
  cos_SignDoc : string }.

Record SignatureParts := mkSignatureParts { sp_R : string; sp_S : string; sp_V : Z }.

Record SignResponse := mkSignResponse {
  sr_SignedTx : string;
  sr_Signature : string;
  sr_PubKey : string;
  sr_Parts : option SignatureParts;
  sr_CosmosAddress : string }.

Record KeyInfo := mkKeyInfo {
  ki_Path : string;
  ki_PublicKeyHex : string;
  ki_EVMAddress : string;
  ki_CosmosAddress : string;
  ki_Chains : list Chain }.

Record KeyCreateRequest := mkKeyCreateRequest {
  kc_Path : string;
  kc_Chains : list Chain }.

Record KeyCreateResponse := mkKeyCreateResponse {
  kcr_KeyInfo : KeyInfo;
  kcr_AlreadyExisted : bool }.

Record KeyListEntry := mkKeyListEntry {
  kle_Path : string;
  kle_Chains : list Chain;
  kle_ChainsAvailable : bool }.

Record KeyUpdateChainsResponse := mkKeyUpdateChainsResponse {
  kur_Path : string;
  kur_Chains : list Chain }.

Record KeyListResponse := mkKeyListResponse {
  klr_Keys : list KeyListEntry;
  klr_Count : Z;
  klr_NextCursor : string }.

(** ** The specification of a chain list *)

(** A raw chain name that parses. *)
Definition validChain (raw : string) : Prop :=
  canonChain raw = ChainEVM ∨ canonChain raw = ChainCosmos.

#[export] Instance validChain_dec raw : Decision (validChain raw).
Proof. unfold validChain. apply _. Defined.

(** The three lists [ParseChains] can return: sorted, without duplicates,
    non-empty. *)
Definition chain_list (cosmos evm : bool) : list Chain :=
  (if cosmos then [ChainCosmos] else []) ++ (if evm then [ChainEVM] else []).

Definition Canonical (l : list string) : Prop :=
  ∃ cosmos evm, l = chain_list cosmos evm ∧ l ≠ [].

(** ** Lemmas *)

Lemma ChainsContain_spec chains c : ChainsContain chains c = true ↔ c ∈ chains.
Proof.
  induction chains as [|x chains IH]; simpl.
  - split; [done|]. by intros ?%not_elem_of_nil.
  - rewrite elem_of_cons. case_decide; naive_solver.
Qed.

Lemma ChainsContain_false chains c : ChainsContain chains c = false ↔ c ∉ chains.
Proof. rewrite <- ChainsContain_spec. destruct (ChainsContain chains c); naive_solver. Qed.

Lemma parseChains_loop_ok ins seen :
  Forall validChain ins →
  ∃ out, parseChains_loop ins seen = Ok out ∧ ∀ c, c ∈ out ↔ c ∈ seen ∨ c ∈ canonChain <$> ins.
Proof.
  intros Hv. revert seen. induction Hv as [|raw ins Hr Hins IH]; intros seen; simpl.
  - exists seen. split; [done|]. set_solver.
  - assert (bool_decide (canonChain raw = ChainEVM)
            || bool_decide (canonChain raw = ChainCosmos) = true) as ->.
    { apply orb_true_iff. rewrite !bool_decide_eq_true. exact Hr. }
    destruct (IH ({[canonChain raw]} ∪ seen)) as (out & -> & Hout).
    exists out. split; [done|]. intros c. rewrite Hout. set_solver.
Qed.

Lemma parseChains_loop_err ins seen :
  ¬ Forall validChain ins → parseChains_loop ins seen = Err (errors_New errChainsSubset).
Proof.
  revert seen. induction ins as [|raw ins IH]; intros seen Hv; simpl; [by destruct Hv|].
  destruct (decide (validChain raw)) as [Hr|Hr].
  - case_match; [apply IH|done]. intros ?. apply Hv. by constructor.
  - assert (bool_decide (canonChain raw = ChainEVM)
            || bool_decide (canonChain raw = ChainCosmos) = false) as ->; [|done].
    apply orb_false_iff. rewrite !bool_decide_eq_false. unfold validChain in Hr. tauto.
Qed.

Lemma elements_chain_list (s : gset Chain) :
  (∀ c, c ∈ s → c = ChainEVM ∨ c = ChainCosmos) →
  sort_Strings (elements s)
  = chain_list (bool_decide (ChainCosmos ∈ s)) (bool_decide (ChainEVM ∈ s)).
Proof.
  intros Hs.
  assert (elements s ≡ₚ chain_list (bool_decide (ChainCosmos ∈ s)) (bool_decide (ChainEVM ∈ s)))
    as ->%sort_Strings_Proper.
  { apply NoDup_Permutation.
    - apply NoDup_elements.
    - repeat case_bool_decide; simpl; repeat constructor; set_solver.
    - intros c. rewrite elem_of_elements. repeat case_bool_decide; simpl; set_solver. }
  apply sort_Strings_id. repeat case_bool_decide; simpl; repeat constructor.
Qed.

Lemma chain_list_nonempty_inv c e : chain_list c e ≠ [] → c = true ∨ e = true.
Proof. destruct c, e; naive_solver. Qed.

(** [ParseChains] on an input whose members all parse. *)
Lemma ParseChains_valid ins :
  ins ≠ [] → Forall validChain ins →
  ParseChains ins = Ok (chain_list (bool_decide (ChainCosmos ∈ canonChain <$> ins))
                                   (bool_decide (ChainEVM ∈ canonChain <$> ins))).
Proof.
  intros Hne Hv. unfold ParseChains.
  destruct (parseChains_loop_ok ins ∅ Hv) as (out & -> & Hout).
  setoid_rewrite (elem_of_empty (C:=gset Chain)) in Hout.
  case_match eqn:Hsz; to_prop.
  - apply size_empty_inv in Hsz. destruct ins as [|raw ins]; [done|].
    assert (canonChain raw ∈ out) by (apply Hout; set_solver). set_solver.
  - rewrite elements_chain_list.
    + f_equal. f_equal; apply bool_decide_ext; rewrite Hout; set_solver.
    + intros c [?|Hc]%Hout; [done|]. apply list_elem_of_fmap in Hc as (raw & -> & Hraw).
      rewrite Forall_forall in Hv. apply (Hv _ Hraw).
Qed.

Lemma ParseChains_invalid ins :
  ins = [] ∨ ¬ Forall validChain ins → ParseChains ins = Err (errors_New errChainsSubset).
Proof.
  intros [->|Hv]; [done|]. unfold ParseChains. by rewrite parseChains_loop_err.
Qed.

Lemma ParseChains_Ok_inv ins out :
  ParseChains ins = Ok out → ins ≠ [] ∧ Forall validChain ins.
Proof.
  intros Hp. destruct (decide (ins = [])) as [->|Hne]; [done|].
  destruct (decide (Forall validChain ins)); [done|].
  rewrite ParseChains_invalid in Hp by tauto. done.
Qed.

Lemma ParseChains_Err_inv ins e :
  ParseChains ins = Err e → e = errors_New errChainsSubset.
Proof.
  destruct (decide (ins = [])) as [->|Hne]; [by intros [= <-]|].
  destruct (decide (Forall validChain ins)) as [Hv|Hv].
  - by rewrite ParseChains_valid.
  - rewrite ParseChains_invalid by tauto. by intros [= <-].
Qed.

Lemma ParseChains_Canonical ins out : ParseChains ins = Ok out → Canonical out.
Proof.
  intros Hp. destruct (ParseChains_Ok_inv _ _ Hp) as [Hne Hv].
  rewrite ParseChains_valid in Hp by done. injection Hp as <-.
  do 2 eexists. split; [done|]. destruct ins as [|raw ins]; [done|].
  inversion Hv as [|?? [Hr|Hr] _]; subst.
  - rewrite (bool_decide_eq_true_2 (ChainEVM ∈ _)) by set_solver. case_bool_decide; done.
  - rewrite (bool_decide_eq_true_2 (ChainCosmos ∈ _)) by set_solver. done.
Qed.

Lemma Canonical_cases l :
  Canonical l → l = [ChainCosmos] ∨ l = [ChainEVM] ∨ l = [ChainCosmos; ChainEVM].
Proof. intros ([] & [] & -> & ?); simpl in *; auto. done. Qed.

(** A canonical list parses to itself. *)
Lemma ParseChains_Canonical_id l : Canonical l → ParseChains l = Ok l.
Proof. by intros [->|[->| ->]]%Canonical_cases. Qed.

Lemma Canonical_members l c : Canonical l → c ∈ l → c = ChainEVM ∨ c = ChainCosmos.
Proof. intros [->|[->| ->]]%Canonical_cases; set_solver. Qed.

Lemma Canonical_sorted l : Canonical l → Sorted String.le l ∧ NoDup l.
Proof.
  intros [->|[->| ->]]%Canonical_cases; split; repeat constructor; set_solver.
Qed.

Lemma Canonical_ext l1 l2 : Canonical l1 → Canonical l2 → (∀ c, c ∈ l1 ↔ c ∈ l2) → l1 = l2.
Proof.
  intros [Hs1 Hn1]%Canonical_sorted [Hs2 Hn2]%Canonical_sorted Hext.
  apply (StronglySorted_unique String.le); [by apply Sorted_StronglySorted; [apply _|]..|].
  by apply NoDup_Permutation.
Qed.

Lemma elem_of_ParseChains ins out c :
  ParseChains ins = Ok out → c ∈ out ↔ c ∈ canonChain <$> ins.
Proof.
  intros Hp. destruct (ParseChains_Ok_inv _ _ Hp) as [Hne Hv].
  rewrite ParseChains_valid in Hp by done. injection Hp as <-.
  assert (c ∈ canonChain <$> ins → c = ChainEVM ∨ c = ChainCosmos) as Hc.
  { intros (raw & -> & Hraw)%list_elem_of_fmap. rewrite Forall_forall in Hv. by apply Hv. }
  repeat case_bool_decide; simpl; set_solver.
Qed.

Lemma ParseChains_iff (ins : list string) (out : list Chain) :
  ParseChains ins = Ok out ↔
  ins ≠ [] ∧ Forall validChain ins ∧
  Sorted String.le out ∧ NoDup out ∧ (∀ c, c ∈ out ↔ c ∈ canonChain <$> ins).
Proof.
  split.
  - intros Hp. pose proof (ParseChains_Canonical _ _ Hp) as [Hs Hn]%Canonical_sorted.
    destruct (ParseChains_Ok_inv _ _ Hp). split_and!; [done..|].
    intros c. by apply elem_of_ParseChains.
  - intros (Hne & Hv & Hs & Hn & Hext). pose proof (ParseChains_valid _ Hne Hv) as Hp.
    rewrite Hp. f_equal.
    pose proof (ParseChains_Canonical _ _ Hp) as [Hs' Hn']%Canonical_sorted.
    apply (StronglySorted_unique String.le); [by apply Sorted_StronglySorted; [apply _|]..|].
    apply NoDup_Permutation; [done..|].
    intros c. by rewrite Hext, (elem_of_ParseChains _ _ _ Hp).
Qed.

(** ** Properties *)

(** [ParseChains] succeeds exactly on a non-empty list whose members,
    trimmed and lowercased, are all "evm" or "cosmos", and then returns the
    sorted list without duplicates of the canonical names that occur. *)
Theorem ParseChains_spec (ins : list string) (out : list Chain) :
  ParseChains ins = Ok out ↔
  ins ≠ [] ∧ Forall validChain ins ∧
  Sorted String.le out ∧ NoDup out ∧ (∀ c, c ∈ out ↔ c ∈ canonChain <$> ins).
Proof. apply ParseChains_iff. Qed.

(** What [ParseChains] returns is canonical: parsing it again, in any
    order and with any repetition, returns the same list. *)
Theorem ParseChains_stable (ins ins' : list string) (out : list Chain) :
  ParseChains ins = Ok out → (∀ c, c ∈ ins' ↔ c ∈ out) → ParseChains ins' = Ok out.
Proof.
  intros Hp Hext. pose proof (ParseChains_Canonical _ _ Hp) as Hcan.
  assert (∀ c, c ∈ ins' → canonChain c = c) as Hid.
  { intros c Hc%Hext%(Canonical_members _ _ Hcan). by destruct Hc as [->| ->]. }
  apply ParseChains_iff. pose proof (Canonical_sorted _ Hcan) as [? ?]. split_and!; try done.
  - intros ->. destruct Hcan as (? & ? & ? & Hne). apply Hne.
    apply elem_of_nil_inv. intros y Hy%Hext. by apply not_elem_of_nil in Hy.
  - apply Forall_forall. intros c Hc. unfold validChain. rewrite (Hid _ Hc).
    by apply (Canonical_members _ _ Hcan), Hext.
  - intros c. rewrite <- Hext, list_elem_of_fmap. split.
    + intros Hc. exists c. by rewrite (Hid _ Hc).
    + intros (c' & -> & Hc'). by rewrite (Hid _ Hc').
Qed.

Lemma ParseChains_stable_witness :
  ParseChains ["evm"; "cosmos"; "evm"] = Ok ["cosmos"; "evm"].
Proof.
  apply (ParseChains_stable [" EVM"; "Cosmos "] ["evm"; "cosmos"; "evm"] ["cosmos"; "evm"]).
  - reflexivity.
  - intros c. rewrite !elem_of_cons, elem_of_nil. tauto.
Defined.
