(* ===== verification/KeyPath.v ===== *)
(** * Key paths: [internal/keypath/keypath.go] and [internal/vault/path.go]

    The canonical [{project}/{environment}/{username}] validator shared by the
    gateway, the CLI and the plugin, and the Vault paths built from it. *)

From S2P Require Import Prelude GoLib.

(** The class of [segmentRE]: lower-case letters, digits, [_] and [-]. *)
Definition segment_char (c : ascii) : bool :=
  let n := N_of_ascii c in
  ((97 <=? n) && (n <=? 122) || (48 <=? n) && (n <=? 57) || (n =? 95) || (n =? 45))%N.

(** [segmentRE.MatchString(part)]: one or more bytes of the class. *)
Definition segmentRE_Match (part : string) : bool :=
  negb (bool_decide (part = "")) && string_forall segment_char part.

Definition errFormat : error :=
  errors_New "key path must have format {project}/{environment}/{username}".
Definition errEmptySegment : error := errors_New "key path segments must not be empty".
Definition errSegmentChars : error := errors_New "key path segments must match [a-z0-9_-]".

Fixpoint validateSegments (parts : list string) : result unit :=
  match parts with
  | [] => Ok tt
  | part :: parts' =>
      if decide (part = "") then Err errEmptySegment
      else if segmentRE_Match part then validateSegments parts'
      else Err errSegmentChars
  end.

Definition Validate (path : string) : result unit :=
  let parts := Split path "/" in
  if negb (length parts =? 3) then Err errFormat else validateSegments parts.

Definition ValidateListPrefix (s : string) : result unit :=
  let trimmed := TrimSuffix s "/" in
  if decide (trimmed = "") then Ok tt
  else
    let parts := Split trimmed "/" in
    if 3 <? length parts then Err errFormat else validateSegments parts.

(** [vault.ValidateKeyPath], [vault.ToVaultPath], [vault.ToSignPath] *)
Definition ValidateKeyPath (path : string) : result unit := Validate path.
Definition ToVaultPath (path : string) : string := "kms/keys/" +:+ path.
Definition ToSignPath (path : string) : string := "kms/sign/" +:+ path.

(** ** Specification *)

(** A well-formed segment. *)
Definition Segment (w : string) : Prop := w ≠ "" ∧ string_forall segment_char w = true.

#[export] Instance Segment_dec w : Decision (Segment w).
Proof. unfold Segment. apply _. Defined.

(** A well-formed key path. *)
Definition KeyPathOk (path : string) : Prop :=
  ∃ project environment username,
    path = Join [project; environment; username] "/" ∧
    Segment project ∧ Segment environment ∧ Segment username.

(** ** Lemmas *)

Lemma segmentRE_spec w : segmentRE_Match w = true ↔ Segment w.
Proof.
  unfold segmentRE_Match, Segment. rewrite andb_true_iff, negb_true_iff, bool_decide_eq_false. done.
Qed.

Lemma validateSegments_spec parts : validateSegments parts = Ok tt ↔ Forall Segment parts.
Proof.
  induction parts as [|w parts IH]; simpl; [by split|].
  rewrite Forall_cons, <- segmentRE_spec. case_decide as Hw.
  - subst. split; [done|]. by intros [? ?].
  - destruct (segmentRE_Match w); [rewrite IH; tauto|]. split; [done|]. by intros [? ?].
Qed.

Lemma validateSegments_error parts e :
  validateSegments parts = Err e ↔
  ∃ pre w post, parts = pre ++ w :: post ∧ Forall Segment pre ∧ ¬ Segment w ∧
    e = if decide (w = "") then errEmptySegment else errSegmentChars.
Proof.
  split.
  - induction parts as [|w parts IH]; simpl; [done|].
    case_decide as Hw; [intros [= <-]; subst|case_match eqn:Hm].
    + exists [], "", parts. rewrite decide_True by done. split_and!; try done. by intros [].
    + intros (pre & w' & post & -> & Hpre & Hw' & ->)%IH. exists (w :: pre), w', post.
      split_and!; try done. constructor; [by apply segmentRE_spec|done].
    + intros [= <-]. exists [], w, parts. rewrite decide_False by done. split_and!; try done.
      rewrite <- segmentRE_spec, Hm. done.
  - intros (pre & w & post & -> & Hpre & Hw & ->). induction Hpre as [|v pre Hv Hpre IH]; simpl.
    + case_decide; [done|]. destruct (segmentRE_Match w) eqn:Hm; [|done].
      by apply segmentRE_spec in Hm.
    + rewrite decide_False by apply Hv. apply segmentRE_spec in Hv as ->. exact IH.
Qed.

Lemma Segment_no_slash w :
  Segment w → string_forall (λ d, negb (bool_decide (d = "/"%char))) w = true.
Proof.
  intros [_ Hw]. revert Hw. apply string_forall_impl. intros c Hc.
  apply negb_true_iff, bool_decide_eq_false. by intros ->.
Qed.

Lemma Segments_no_slash ws :
  Forall Segment ws →
  Forall (λ w, string_forall (λ d, negb (bool_decide (d = "/"%char))) w = true) ws.
Proof. intros Hws. apply (Forall_impl _ _ _ Hws). apply Segment_no_slash. Qed.

Lemma length_3_inv {A} (l : list A) : length l = 3 → ∃ a b c, l = [a; b; c].
Proof. destruct l as [|a [|b [|c [|]]]]; naive_solver. Qed.

Lemma Validate_KeyPathOk path : Validate path = Ok tt ↔ KeyPathOk path.
Proof.
  unfold Validate. split.
  - case_match eqn:Hlen; [done|]. to_prop. intros Hseg%validateSegments_spec.
    destruct (length_3_inv _ Hlen) as (p & e & u & Hs). exists p, e, u.
    rewrite Hs in Hseg. rewrite !Forall_cons in Hseg.
    split; [|tauto]. rewrite <- Hs. symmetry. apply Join_Split.
  - intros (p & e & u & -> & Hp & He & Hu).
    assert (Split (Join [p; e; u] "/") "/" = [p; e; u]) as ->.
    { apply Split_Join; [done|]. apply Segments_no_slash. by forall_list. }
    change (validateSegments [p; e; u] = Ok tt). apply validateSegments_spec. by forall_list.
Qed.

Lemma Validate_is_Ok path : is_Ok (Validate path) = true ↔ KeyPathOk path.
Proof. rewrite <- Validate_KeyPathOk. destruct (Validate path) as [[]|]; naive_solver. Qed.

Lemma KeyPathOk_nonempty path : KeyPathOk path → path ≠ "".
Proof. intros Hp%Validate_KeyPathOk ->. done. Qed.

Lemma KeyPathOk_chars path :
  KeyPathOk path →
  string_forall (λ c, segment_char c || bool_decide (c = "/"%char)) path = true.
Proof.
  intros (p & e & u & -> & [_ Hp] & [_ He] & [_ Hu]). cbn [Join].
  rewrite !string_forall_app. simpl.
  rewrite !(string_forall_impl segment_char (λ c, segment_char c || bool_decide (c = "/"%char)));
    try done; intros c ->; done.
Qed.

(** [ValidateListPrefix] on a string that is a path of [ws] with or without a
    trailing slash. *)
Lemma ValidateListPrefix_trimmed s ws :
  TrimSuffix s "/" = Join ws "/" → ws ≠ [] → Forall Segment ws →
  ValidateListPrefix s = if 3 <? length ws then Err errFormat else Ok tt.
Proof.
  intros Ht Hne Hseg. unfold ValidateListPrefix. rewrite Ht.
  assert (Split (Join ws "/") "/" = ws) as ->.
  { apply Split_Join; [done|]. by apply Segments_no_slash. }
  rewrite decide_False.
  - case_match; [done|]. by apply validateSegments_spec.
  - destruct ws as [|w ws]; [done|]. inversion Hseg as [|?? [Hw _] _]; subst.
    destruct ws; [done|]. rewrite Join_cons by done. by destruct w.
Qed.

Lemma Join_Segments_no_trailing ws :
  ws ≠ [] → Forall Segment ws → HasSuffix (Join ws "/") "/" = false.
Proof.
  intros Hne Hseg. destruct (HasSuffix (Join ws "/") "/") eqn:Hs; [|done].
  apply HasSuffix_true in Hs as [r Hr].
  assert (Split (Join ws "/") "/" = ws) as Hsplit
    by (apply Split_Join; [done|by apply Segments_no_slash]).
  assert ("" ∈ ws) as Hin.
  { rewrite <- Hsplit, Hr, Split_snoc_sep. set_solver. }
  rewrite Forall_forall in Hseg. by destruct (Hseg _ Hin).
Qed.

Lemma TrimSuffix_slash_cases s :
  s = TrimSuffix s "/" ∨ s = TrimSuffix s "/" +:+ "/".
Proof.
  destruct (HasSuffix s "/") eqn:Hs.
  - apply HasSuffix_true in Hs as [r ->]. right. by rewrite TrimSuffix_app.
  - left. by rewrite TrimSuffix_id.
Qed.

(** ** Properties *)

(** [Validate] accepts exactly the strings [project/environment/username]
    whose three segments are non-empty strings over [a-z0-9_-]; in particular
    it rejects path traversal, empty segments and any other byte. *)
Theorem Validate_spec (path : string) :
  Validate path = Ok tt ↔
  ∃ project environment username,
    path = project +:+ "/" +:+ environment +:+ "/" +:+ username ∧
    Segment project ∧ Segment environment ∧ Segment username.
Proof. rewrite Validate_KeyPathOk. done. Qed.

(** The error of a rejected path is determined by its shape: a wrong
    number of segments is reported first, then the first bad segment, empty
    or with a byte outside the class. *)
Theorem Validate_error (path : string) (e : error) :
  Validate path = Err e ↔
  (length (Split path "/") ≠ 3 ∧ e = errFormat) ∨
  (length (Split path "/") = 3 ∧
   ∃ pre w post, Split path "/" = pre ++ w :: post ∧ Forall Segment pre ∧ ¬ Segment w ∧
     e = if decide (w = "") then errEmptySegment else errSegmentChars).
Proof.
  unfold Validate. destruct (decide (length (Split path "/") = 3)) as [Hl|Hl].
  - rewrite Hl. simpl. rewrite <- validateSegments_error. naive_solver.
  - assert (negb (length (Split path "/") =? 3) = true) as ->
      by (by apply negb_true_iff, Nat.eqb_neq). naive_solver.
Qed.

(** [ValidateListPrefix] accepts the empty string, and one, two or three
    well-formed segments, each form with or without one trailing slash. *)
Theorem ValidateListPrefix_spec (s : string) :
  ValidateListPrefix s = Ok tt ↔
  s = "" ∨ s = "/" ∨
  ∃ ws, 1 ≤ length ws ≤ 3 ∧ Forall Segment ws ∧
        (s = Join ws "/" ∨ s = Join ws "/" +:+ "/").
Proof.
  split.
  - unfold ValidateListPrefix. intros H. pose proof (TrimSuffix_slash_cases s) as Hs.
    case_decide as Ht; [rewrite Ht in Hs; naive_solver|].
    case_match eqn:Hl; [done|]. to_prop. apply validateSegments_spec in H.
    right; right. exists (Split (TrimSuffix s "/") "/"). rewrite Join_Split.
    split_and!; [|done..]. pose proof (Split_nonempty (TrimSuffix s "/") "/").
    destruct (Split (TrimSuffix s "/") "/"); simpl; [done|lia].
  - intros [->|[->|(ws & Hl & Hseg & Hs)]]; [done..|].
    assert (ws ≠ []) by (by intros ->; simpl in Hl; lia).
    rewrite (ValidateListPrefix_trimmed s ws); [|destruct Hs as [->| ->]|done..].
    + assert ((3 <? length ws) = false) as -> by (apply Nat.ltb_ge; lia). done.
    + apply TrimSuffix_id, Join_Segments_no_trailing; done.
    + apply TrimSuffix_app.
Qed.

(** Distinct key paths have distinct Vault paths, and a key path is never
    confused with a sign path. *)
Lemma vault_paths_injective (p q : string) :
  (ToVaultPath p = ToVaultPath q ↔ p = q) ∧ (ToSignPath p = ToSignPath q ↔ p = q) ∧
  ToVaultPath p ≠ ToSignPath q.
Proof.
  unfold ToVaultPath, ToSignPath. split_and!; [split..|done]; try by intros ->.
  - by intros ?%(inj _).
  - by intros ?%(inj _).
Qed.
