(* ===== verification/Net.v ===== *)
(** * Addresses: [net.ParseIP], [net.ParseCIDR], [net.SplitHostPort]

    The parts of the standard library's [net] and [net/netip] that the trusted
    proxies and the start-up checks of the program rely on.  An IP address is
    its 16 bytes, or 4 for an IPv4 network, as in Go. *)

From S2P Require Import Prelude GoLib.

(** ** Parsing addresses *)

Definition dot : ascii := ".".
Definition colon : ascii := ":".
Definition percent : ascii := "%".

Definition dec_digit (c : ascii) : option Z :=
  let n := N_of_ascii c in
  if (48 <=? n)%N && (n <=? 57)%N then Some (Z.of_N (n - 48)) else None.

Definition byte_of_Z (z : Z) : byte := byte_of_N (Z.to_N z).

(** [parseIPv4Fields]: four decimal numbers up to 255 without leading zeros.
    [digLen] is 0 exactly at the start and after a dot. *)
Fixpoint parseIPv4Fields (s : string) (val : Z) (digLen : nat) (fields : bytes) : option bytes :=
  match s with
  | EmptyString => if length fields <? 3 then None else Some (fields ++ [byte_of_Z val])
  | String c s' =>
      match dec_digit c with
      | Some d =>
          if (digLen =? 1) && (val =? 0)%Z then None
          else
            let val := (val * 10 + d)%Z in
            if (255 <? val)%Z then None else parseIPv4Fields s' val (S digLen) fields
      | None =>
          if decide (c = dot) then
            if (digLen =? 0) || bool_decide (s' = "") then None
            else if length fields =? 3 then None
            else parseIPv4Fields s' 0 0 (fields ++ [byte_of_Z val])
          else None
      end
  end.

Definition parseIPv4 (s : string) : option bytes := parseIPv4Fields s 0 0 [].

(** One group of an IPv6 address: its value, its number of digits, the rest. *)
Fixpoint hex_group (s : string) (acc : Z) (off : nat) : option (Z * nat * string) :=
  match s with
  | EmptyString => Some (acc, off, "")
  | String c s' =>
      match fromHexChar c with
      | Some d =>
          if 3 <? off then None
          else hex_group s' (Z.shiftl acc 4 + Z.of_N d)%Z (S off)
      | None => Some (acc, off, s)
      end
  end.

(** The loop of [parseIPv6]: [fuel] more groups fit.  The bytes so far, the
    position of the ellipsis, and what was not consumed. *)
Fixpoint parseIPv6_loop (fuel : nat) (s : string) (ellipsis : option nat) (ip : bytes)
    : option (bytes * option nat * string) :=
  match fuel with
  | O => Some (ip, ellipsis, s)
  | S fuel' =>
      match hex_group s 0 0 with
      | None => None
      | Some (_, O, _) => None
      | Some (acc, _, rest) =>
          let ip' := ip ++ [byte_of_Z (Z.shiftr acc 8); byte_of_Z (Z.land acc 255)] in
          match rest with
          | EmptyString => Some (ip', ellipsis, "")
          | String c rest1 =>
              if decide (c = dot) then
                if bool_decide (ellipsis = None) && negb (length ip =? 12) then None
                else if 16 <? length ip + 4 then None
                else match parseIPv4 s with
                     | Some f => Some (ip ++ f, ellipsis, "")
                     | None => None
                     end
              else if decide (c = colon) then
                match rest1 with
                | EmptyString => None
                | String c1 rest2 =>
                    if decide (c1 = colon) then
                      match ellipsis with
                      | Some _ => None
                      | None =>
                          if decide (rest2 = "") then Some (ip', Some (length ip'), "")
                          else parseIPv6_loop fuel' rest2 (Some (length ip')) ip'
                      end
                    else parseIPv6_loop fuel' rest1 ellipsis ip'
                end
              else None
          end
      end
  end.

Definition zero_bytes (n : nat) : bytes := replicate n Byte.x00.

(** The 16 bytes of an address without zone. *)
Definition parseIPv6 (s : string) : option bytes :=
  let start :=
    match s with
    | String c (String c1 s') =>
        if decide (c = colon ∧ c1 = colon) then (Some 0, s') else (None, s)
    | _ => (None, s)
    end in
  let '(ellipsis, s1) := start in
  if bool_decide (ellipsis = Some 0) && bool_decide (s1 = "") then Some (zero_bytes 16)
  else match parseIPv6_loop 8 s1 ellipsis [] with
  | Some (ip, ellipsis, EmptyString) =>
      if length ip <? 16 then
        match ellipsis with
        | Some e => Some (take e ip ++ zero_bytes (16 - length ip) ++ drop e ip)
        | None => None
        end
      else match ellipsis with Some _ => None | None => Some ip end
  | _ => None
  end.

(** [netip.Addr]: the 16 bytes, whether it is IPv4, the zone. *)
Record Addr := mkAddr { a_bytes : bytes; a_is4 : bool; a_zone : string }.

Definition v4InV6Prefix : bytes := zero_bytes 10 ++ [Byte.xff; Byte.xff].

(** The separator that decides how the address is read. *)
Fixpoint first_separator (s : string) : option ascii :=
  match s with
  | EmptyString => None
  | String c s' => if decide (c = dot ∨ c = colon ∨ c = percent) then Some c else first_separator s'
  end.

(** [s[:i]] and [s[i+1:]] at the first [c]. *)
Fixpoint Cut (s : string) (c : ascii) : option (string * string) :=
  match s with
  | EmptyString => None
  | String c' s' =>
      if decide (c' = c) then Some ("", s')
      else match Cut s' c with Some (a, b) => Some (String c' a, b) | None => None end
  end.

Definition ParseAddr (s : string) : option Addr :=
  match first_separator s with
  | None => None
  | Some c =>
      if decide (c = dot) then (λ f, mkAddr (v4InV6Prefix ++ f) true "") <$> parseIPv4 s
      else if decide (c = colon) then
        match Cut s percent with
        | None => (λ ip, mkAddr ip false "") <$> parseIPv6 s
        | Some (_, EmptyString) => None
        | Some (s', zone) => (λ ip, mkAddr ip false zone) <$> parseIPv6 s'
        end
      else None
  end.

Definition ParseIP (s : string) : option bytes :=
  match ParseAddr s with
  | Some a => if decide (a_zone a = "") then Some (a_bytes a) else None
  | None => None
  end.

(** ** Networks *)

Definition To4 (ip : bytes) : option bytes :=
  if length ip =? 4 then Some ip
  else if (length ip =? 16) && bool_decide (take 12 ip = v4InV6Prefix) then Some (drop 12 ip)
  else None.

Definition IPv6loopback : bytes := zero_bytes 15 ++ [Byte.x01].

Definition IsLoopback (ip : bytes) : bool :=
  match To4 ip with
  | Some ip4 => bool_decide (head ip4 = Some Byte.x7f)
  | None => bool_decide (ip = IPv6loopback)
  end.

(** [^byte(0xff >> n)] for [n < 8], [0xff] above. *)
Definition mask_byte (n : Z) : byte :=
  if (8 <=? n)%Z then Byte.xff else byte_of_Z (255 - Z.shiftr 255 n).

(** [CIDRMask(ones, 8 * len)] *)
Fixpoint CIDRMask (ones : Z) (len : nat) : bytes :=
  match len with
  | O => []
  | S len' => mask_byte ones :: CIDRMask (Z.max 0 (ones - 8)) len'
  end.

Definition and_byte (a b : byte) : byte := byte_of_Z (Z.land (byte_Z a) (byte_Z b)).

Record IPNet := mkIPNet { net_IP : bytes; net_Mask : bytes }.

(** [ip.Mask(mask)]; [None] is nil. *)
Definition Mask (ip mask : bytes) : option bytes :=
  let mask := if (length mask =? 16) && (length ip =? 4) && bool_decide (take 12 mask = replicate 12 Byte.xff)
              then drop 12 mask else mask in
  let ip := if (length mask =? 4) && (length ip =? 16) && bool_decide (take 12 ip = v4InV6Prefix)
            then drop 12 ip else ip in
  if length ip =? length mask then Some (zip_with and_byte ip mask) else None.

(** [dtoi] on a whole string: below 0xFFFFFF, at least one digit. *)
Fixpoint dtoi_loop (s : string) (n : Z) : option Z :=
  match s with
  | EmptyString => Some n
  | String c s' =>
      match dec_digit c with
      | Some d => let n := (n * 10 + d)%Z in if (16777215 <=? n)%Z then None else dtoi_loop s' n
      | None => None
      end
  end.

Definition dtoi (s : string) : option Z := if decide (s = "") then None else dtoi_loop s 0.

Definition errCIDR (s : string) : error := errors_New ("invalid CIDR address: " +:+ s).

Definition ParseCIDR (s : string) : result IPNet :=
  match Cut s "/" with
  | None => Err (errCIDR s)
  | Some (addr, mask) =>
      match ParseAddr addr, dtoi mask with
      | Some a, Some n =>
          let bits := if a_is4 a then 32%Z else 128%Z in
          if bool_decide (a_zone a = "") && (n <=? bits)%Z then
            let m := CIDRMask n (if a_is4 a then 4 else 16) in
            Ok (mkIPNet (default [] (Mask (a_bytes a) m)) m)
          else Err (errCIDR s)
      | _, _ => Err (errCIDR s)
      end
  end.

(** [networkNumberAndMask] *)
Definition networkNumberAndMask (n : IPNet) : option (bytes * bytes) :=
  match match To4 (net_IP n) with
        | Some ip => Some ip
        | None => if length (net_IP n) =? 16 then Some (net_IP n) else None
        end with
  | None => None
  | Some ip =>
      if length (net_Mask n) =? 4 then if length ip =? 4 then Some (ip, net_Mask n) else None
      else if length (net_Mask n) =? 16 then
        Some (ip, if length ip =? 4 then drop 12 (net_Mask n) else net_Mask n)
      else None
  end.

(** Equal under the mask. *)
Fixpoint masked_equal (nn m ip : bytes) : bool :=
  match nn, m, ip with
  | a :: nn', k :: m', b :: ip' => bool_decide (and_byte a k = and_byte b k) && masked_equal nn' m' ip'
  | _, _, _ => true
  end.

(** [n.Contains(ip)]; a nil network number has length 0. *)
Definition net_Contains (n : IPNet) (ip : bytes) : bool :=
  let ip := default ip (To4 ip) in
  match networkNumberAndMask n with
  | None => length ip =? 0
  | Some (nn, m) => (length ip =? length nn) && masked_equal nn m ip
  end.

(** ** Host and port *)

Definition addrError (addr why : string) : error :=
  errors_New ((if decide (addr = "") then "" else "address " +:+ addr +:+ ": ") +:+ why).

Definition has_char (c : ascii) (s : string) : bool := negb (string_forall (λ d, negb (bool_decide (d = c))) s).

(** [s[:i]] and [s[i+1:]] at the last [c]. *)
Fixpoint CutLast (s : string) (c : ascii) : option (string * string) :=
  match s with
  | EmptyString => None
  | String c' s' =>
      match CutLast s' c with
      | Some (a, b) => Some (String c' a, b)
      | None => if decide (c' = c) then Some ("", s') else None
      end
  end.

(** [(host, port)] *)
Definition SplitHostPort (hostport : string) : result (string * string) :=
  let fail why := Err (addrError hostport why) in
  match CutLast hostport colon with
  | None => fail "missing port in address"
  | Some (before, port) =>
      match hostport with
      | String "[" inner =>
          match Cut inner "]" with
          | None => fail "missing ']' in address"
          | Some (host, after) =>
              match after with
              | EmptyString => fail "missing port in address"
              | String c rest =>
                  if decide (after = String colon port) then
                    if has_char "[" inner then fail "unexpected '[' in address"
                    else if has_char "]" after then fail "unexpected ']' in address"
                    else Ok (host, port)
                  else if decide (c = colon) then fail "too many colons in address"
                  else fail "missing port in address"
              end
          end
      | _ =>
          if has_char colon before then fail "too many colons in address"
          else if has_char "[" hostport then fail "unexpected '[' in address"
          else if has_char "]" hostport then fail "unexpected ']' in address"
          else Ok (before, port)
      end
  end.

(** ** On examples *)

Example parse_ips :
  (λ s, String.concat "." ∘ map (λ b, Itoa (byte_Z b)) <$> ParseIP s) <$>
    ["127.0.0.1"; "::1"; "10.0.0"; "1.2.3.04"; "2001:db8::1:0:0:ff"; "::ffff:10.1.2.3"; "fe80::1%eth0";
     "1::2::3"; "256.1.1.1"]
  = [Some "0.0.0.0.0.0.0.0.0.0.255.255.127.0.0.1"; Some "0.0.0.0.0.0.0.0.0.0.0.0.0.0.0.1"; None; None;
     Some "32.1.13.184.0.0.0.0.0.1.0.0.0.0.0.255"; Some "0.0.0.0.0.0.0.0.0.0.255.255.10.1.2.3";
     None; None; None].
Proof. vm_compute. reflexivity. Qed.

Example split_host_ports :
  (λ s, match SplitHostPort s with Ok hp => Some hp | Err _ => None end) <$>
    ["127.0.0.1:8080"; ":8080"; "[::1]:80"; "::1:80"; "localhost"; "[::1]"; "[a]b:1"; "a]:1"]
  = [Some ("127.0.0.1", "8080"); Some ("", "8080"); Some ("::1", "80"); None; None; None; None; None].
Proof. vm_compute. reflexivity. Qed.

(** ** Networks are prefixes *)

Lemma mask_byte_spec n a :
  (0 ≤ n)%Z →
  byte_Z (and_byte a (mask_byte n)) = (byte_Z a / 2 ^ (8 - Z.min n 8) * 2 ^ (8 - Z.min n 8))%Z.
Proof.
  intros Hn. destruct (Z.le_gt_cases 8 n) as [H8|H8].
  - unfold mask_byte. destruct (Z.leb_spec 8 n); [|lia]. rewrite Z.min_r by lia. by destruct a.
  - rewrite Z.min_l by lia.
    assert (n = 0 ∨ n = 1 ∨ n = 2 ∨ n = 3 ∨ n = 4 ∨ n = 5 ∨ n = 6 ∨ n = 7)%Z as Hc by lia.
    repeat destruct Hc as [->|Hc]; [by destruct a..|]. subst n. by destruct a.
Qed.

Lemma byte_Z_inj a b : byte_Z a = byte_Z b → a = b.
Proof. intros H. rewrite <- (byte_of_N_Z a), <- (byte_of_N_Z b). by rewrite H. Qed.

Lemma masked_byte_equal n a b :
  (0 ≤ n)%Z →
  and_byte a (mask_byte n) = and_byte b (mask_byte n) ↔
  (byte_Z a / 2 ^ (8 - Z.min n 8) = byte_Z b / 2 ^ (8 - Z.min n 8))%Z.
Proof.
  intros Hn. pose proof (mask_byte_spec n a Hn) as Ha. pose proof (mask_byte_spec n b Hn) as Hb.
  assert (0 < 2 ^ (8 - Z.min n 8))%Z as Hp by (apply Z.pow_pos_nonneg; lia). split.
  - intros Heq. rewrite Heq in Ha. apply (Z.mul_reg_r _ _ (2 ^ (8 - Z.min n 8))); lia.
  - intros Heq. apply byte_Z_inj. congruence.
Qed.

Lemma SetBytes_cons a l : SetBytes (a :: l) = (byte_Z a * 2 ^ (8 * Z.of_nat (length l)) + SetBytes l)%Z.
Proof.
  induction l as [|x l IH] using rev_ind.
  - unfold SetBytes. simpl. change (2 ^ (8 * 0))%Z with 1%Z. lia.
  - rewrite app_comm_cons, !SetBytes_snoc, IH, length_app. simpl length.
    replace (8 * Z.of_nat (length l + 1))%Z with (8 * Z.of_nat (length l) + 8)%Z by lia.
    rewrite Z.pow_add_r by lia. change (2 ^ 8)%Z with 256%Z. ring.
Qed.

Lemma SetBytes_bits l : (0 ≤ SetBytes l < 2 ^ (8 * Z.of_nat (length l)))%Z.
Proof. pose proof (SetBytes_range l) as H. change 256%Z with (2 ^ 8)%Z in H. by rewrite <- Z.pow_mul_r in H by lia. Qed.

(** The leading bits of a number with a digit in front. *)
Lemma leading_low a x L k :
  (0 ≤ x < 2 ^ L)%Z → (0 ≤ k ≤ L)%Z → ((a * 2 ^ L + x) / 2 ^ k = a * 2 ^ (L - k) + x / 2 ^ k)%Z.
Proof.
  intros Hx Hk. replace (2 ^ L)%Z with (2 ^ (L - k) * 2 ^ k)%Z
    by (rewrite <- Z.pow_add_r by lia; f_equal; lia).
  rewrite Z.mul_assoc, Z.div_add_l; [done|]. pose proof (Z.pow_pos_nonneg 2 k). lia.
Qed.

Lemma leading_high a x L j :
  (0 ≤ x < 2 ^ L)%Z → (0 ≤ L)%Z → (0 ≤ j)%Z → ((a * 2 ^ L + x) / 2 ^ (L + j) = a / 2 ^ j)%Z.
Proof.
  intros Hx HL Hj. rewrite Z.pow_add_r by lia. 
  rewrite <- Z.div_div; [|apply Z.pow_nonzero; lia|apply Z.pow_pos_nonneg; lia].
  rewrite Z.div_add_l by (apply Z.pow_nonzero; lia). rewrite (Z.div_small x) by lia. f_equal. lia.
Qed.

Lemma digits_equal a b x y P :
  (0 ≤ x < P → 0 ≤ y < P → a * P + x = b * P + y ↔ a = b ∧ x = y)%Z.
Proof.
  intros Hx Hy. split; [|by intros [-> ->]]. intros Heq.
  assert (a = b)%Z as -> by nia. lia.
Qed.

(** Equality under a CIDR mask is equality of the leading bits. *)
Lemma masked_equal_prefix nn : ∀ ip n,
  length ip = length nn → (0 ≤ n ≤ 8 * Z.of_nat (length nn))%Z →
  masked_equal nn (CIDRMask n (length nn)) ip = true ↔
  (SetBytes nn / 2 ^ (8 * Z.of_nat (length nn) - n) = SetBytes ip / 2 ^ (8 * Z.of_nat (length nn) - n))%Z.
Proof.
  induction nn as [|a nn IH]; intros [|b ip] n Hlen Hn; try done. injection Hlen as Hlen.
  cbn [length CIDRMask masked_equal] in *. rewrite andb_true_iff, bool_decide_eq_true, masked_byte_equal by lia.
  rewrite !SetBytes_cons, Hlen. set (L := (8 * Z.of_nat (length nn))%Z) in *.
  replace (8 * Z.of_nat (S (length nn)))%Z with (L + 8)%Z in * by lia.
  pose proof (SetBytes_bits nn) as Hx. pose proof (SetBytes_bits ip) as Hy. rewrite Hlen in Hy. fold L in Hx, Hy.
  destruct (Z.le_gt_cases 8 n) as [H8|H8].
  - rewrite (Z.max_r 0), Z.min_r by lia. change (2 ^ (8 - 8))%Z with 1%Z. rewrite !Z.div_1_r, IH by (done || lia).
    fold L. replace (L - (n - 8))%Z with (L + 8 - n)%Z by lia. rewrite !leading_low by lia.
    assert (∀ z, 0 ≤ z < 2 ^ L → 0 ≤ z / 2 ^ (L + 8 - n) < 2 ^ (L - (L + 8 - n)))%Z as Hq.
    { intros z Hz. split; [apply Z.div_pos; [lia|apply Z.pow_pos_nonneg; lia]|].
      apply Z.div_lt_upper_bound; [apply Z.pow_pos_nonneg; lia|]. rewrite <- Z.pow_add_r by lia.
      replace (L + 8 - n + (L - (L + 8 - n)))%Z with L by lia. lia. }
    rewrite digits_equal by auto. done.
  - rewrite (Z.max_l 0), Z.min_l by lia.
    replace (L + 8 - n)%Z with (L + (8 - n))%Z by lia. rewrite !leading_high by lia.
    rewrite IH by (done || lia). fold L. rewrite Z.sub_0_r, !(Z.div_small _ (2 ^ L)) by lia. naive_solver.
Qed.

Lemma byte_Z_of_Z z : (0 ≤ z < 256)%Z → byte_Z (byte_of_Z z) = z.
Proof. intros Hz. unfold byte_of_Z. rewrite <- (Z.mod_small z 256) at 1 by lia. by rewrite byte_Z_of_mod, Z.mod_small. Qed.

Lemma and_byte_idem a k : and_byte (and_byte a k) k = and_byte a k.
Proof.
  unfold and_byte at 1 3. f_equal. unfold and_byte.
  pose proof (byte_Z_range a) as Ha. pose proof (byte_Z_range k) as Hk.
  assert (0 ≤ Z.land (byte_Z a) (byte_Z k) < 256)%Z as Hl.
  { split; [apply Z.land_nonneg; lia|]. unfold byte_Z in *. rewrite <- N2Z.inj_land.
    pose proof (N.land_le_l (Byte.to_N a) (Byte.to_N k)). lia. }
  rewrite byte_Z_of_Z by done. by rewrite <- Z.land_assoc, Z.land_diag.
Qed.

Lemma masked_equal_masked nn m ip : masked_equal (zip_with and_byte nn m) m ip = masked_equal nn m ip.
Proof.
  revert m ip. induction nn as [|a nn IH]; intros [|k m] [|b ip]; try done. simpl. by rewrite and_byte_idem, IH.
Qed.

Lemma length_CIDRMask len : ∀ ones, length (CIDRMask ones len) = len.
Proof. induction len as [|len IH]; intros ones; [done|]. simpl. by rewrite IH. Qed.

Lemma parseIPv4Fields_length s : ∀ val digLen fields f,
  length fields ≤ 3 → parseIPv4Fields s val digLen fields = Some f → length f = 4.
Proof.
  induction s as [|c s IH]; intros val digLen fields f Hl; simpl.
  - destruct (Nat.ltb_spec (length fields) 3); [done|]. intros [= <-]. rewrite length_app. simpl. lia.
  - destruct (dec_digit c) as [d|].
    + destruct (_ && _); [done|]. destruct (255 <? _)%Z; [done|]. by apply IH.
    + case_decide; [|done]. destruct (_ || _); [done|]. destruct (Nat.eqb_spec (length fields) 3); [done|].
      apply IH. rewrite length_app. simpl. lia.
Qed.

Lemma ParseAddr_v4 s a : ParseAddr s = Some a → a_is4 a = true → ∃ f, a_bytes a = v4InV6Prefix ++ f ∧ length f = 4.
Proof.
  unfold ParseAddr, parseIPv4. destruct (first_separator s) as [c|]; [|done]. case_decide.
  - destruct (parseIPv4Fields s 0 0 []) as [f|] eqn:Hf; [|done]. intros [= <-] _. exists f.
    split; [done|]. eapply parseIPv4Fields_length, Hf. simpl. lia.
  - case_decide; [|done]. destruct (Cut s percent) as [[s' [|]]|]; try done.
    all: destruct (parseIPv6 _); [by intros [= <-]|done].
Qed.

(** An IPv4 network [addr/n] contains exactly the IPv4 addresses with the same
    [n] leading bits. *)
Lemma net_Contains_v4 s addr mask a f n net ip ip4 :
  Cut s "/" = Some (addr, mask) → ParseAddr addr = Some a → a_is4 a = true →
  a_bytes a = v4InV6Prefix ++ f → dtoi mask = Some n → (0 ≤ n)%Z → ParseCIDR s = Ok net → To4 ip = Some ip4 →
  net_Contains net ip = bool_decide (SetBytes f / 2 ^ (32 - n) = SetBytes ip4 / 2 ^ (32 - n))%Z.
Proof.
  intros Hcut Ha Hv4 Hf Hn Hn0 Hp Hip. unfold ParseCIDR in Hp. rewrite Hcut, Ha, Hn, Hv4 in Hp.
  destruct (ParseAddr_v4 _ _ Ha Hv4) as (f' & Hf' & Hlen). rewrite Hf in Hf'. apply app_inv_head in Hf' as <-.
  destruct (bool_decide (a_zone a = "")); [|done]. destruct (Z.leb_spec n 32) as [Hn32|]; [|done].
  remember (CIDRMask n 4) as m eqn:Hm. pose proof (length_CIDRMask 4 n) as Hlm. rewrite <- Hm in Hlm.
  injection Hp as <-. rewrite Hf. unfold net_Contains, networkNumberAndMask. cbn [net_IP net_Mask].
  assert (length ip4 = 4) as Hl4.
  { unfold To4 in Hip. destruct (Nat.eqb_spec (length ip) 4); [congruence|].
    destruct (Nat.eqb_spec (length ip) 16) as [H16|]; [|done]. simpl in Hip.
    destruct (bool_decide _); [|done]. injection Hip as <-. rewrite length_drop. lia. }
  assert (Mask (v4InV6Prefix ++ f) m = Some (zip_with and_byte f m)) as ->.
  { clear -Hlen Hlm. destruct f as [|? [|? [|? [|? []]]]]; try done.
    destruct m as [|? [|? [|? [|? []]]]]; try done. }
  cbn [default]. unfold id. assert (length (zip_with and_byte f m) = 4) as Hz by (rewrite length_zip_with; lia).
  assert (To4 (zip_with and_byte f m) = Some (zip_with and_byte f m)) as -> by (unfold To4; by rewrite Hz).
  rewrite Hz, Hlm, Hip. cbn [Nat.eqb default]. unfold id. rewrite Hz, Hl4, masked_equal_masked. cbn [Nat.eqb andb].
  pose proof (masked_equal_prefix f ip4 n) as Hpre. rewrite Hlen, <- Hm in Hpre.
  apply eq_true_iff_eq. rewrite bool_decide_eq_true. apply Hpre; [done|lia].
Qed.

Lemma dtoi_nonneg s n : dtoi s = Some n → (0 ≤ n)%Z.
Proof.
  unfold dtoi. case_decide; [done|]. assert (∀ acc, (0 ≤ acc)%Z → dtoi_loop s acc = Some n → (0 ≤ n)%Z) as Hl.
  { clear. induction s as [|c s IH]; intros acc Ha; simpl; [by intros [= <-]|].
    unfold dec_digit. destruct (_ && _); [|done]. destruct (16777215 <=? _)%Z; [done|]. apply IH. lia. }
  by apply Hl.
Qed.
