(* ===== verification/Crypto.v ===== *)
(** * The cryptographic libraries the program calls

    [github.com/ethereum/go-ethereum/crypto] is outside the repository: it is
    an interface here, [EthCrypto], whose documented behaviour is the class
    [EthCryptoLaws].  Theorems about signatures are proved against the laws;
    [ToyCrypto] is a computable model of them, used by the witnesses. *)

From S2P Require Import Prelude GoLib.

(** The functions of go-ethereum's [crypto] package the program uses.  A
    public key is a curve point; [FromECDSAPub] gives its 65-byte uncompressed
    form, [CompressPubkey] its 33-byte compressed form.  [GenerateKey] is not
    here: it draws from the system's randomness and is an input of the
    operations that call it. *)
Class EthCrypto := {
  PrivKey : Type;
  PubKey : Type;
  PublicKey : PrivKey → PubKey;
  FromECDSA : PrivKey → bytes;
  ToECDSA : bytes → result PrivKey;
  CompressPubkey : PubKey → bytes;
  DecompressPubkey : bytes → result PubKey;
  FromECDSAPub : PubKey → bytes;
  UnmarshalPubkey : bytes → result PubKey;
  PubkeyToAddress_Hex : PubKey → string;
  Sign : bytes → PrivKey → result bytes;
  Ecrecover : bytes → bytes → result bytes;
  Keccak256 : bytes → bytes }.

(** What the package documents about them: the encodings are invertible and
    have their fixed lengths; a signature of a 32-byte digest is
    [r || s || v] of 65 bytes with [v] 0 or 1, and recovering from it yields
    the signer's uncompressed public key; a Keccak-256 digest has 32 bytes. *)
Class EthCryptoLaws (C : EthCrypto) := {
  ToECDSA_FromECDSA : ∀ k, ToECDSA (FromECDSA k) = Ok k;
  DecompressPubkey_Compress : ∀ p, DecompressPubkey (CompressPubkey p) = Ok p;
  length_CompressPubkey : ∀ p, length (CompressPubkey p) = 33;
  UnmarshalPubkey_FromECDSAPub : ∀ p, UnmarshalPubkey (FromECDSAPub p) = Ok p;
  length_FromECDSAPub : ∀ p, length (FromECDSAPub p) = 65;
  head_FromECDSAPub : ∀ p, FromECDSAPub p !! 0 = Some Byte.x04;
  Sign_digest : ∀ d k, length d = 32 →
    ∃ r s v, Sign d k = Ok (r ++ s ++ [v]) ∧ length r = 32 ∧ length s = 32 ∧
             (v = Byte.x00 ∨ v = Byte.x01) ∧
             Ecrecover d (r ++ s ++ [v]) = Ok (FromECDSAPub (PublicKey k));
  length_Keccak256 : ∀ m, length (Keccak256 m) = 32 }.

(** Inverses are injective: two public keys with one encoding are equal. *)
Lemma CompressPubkey_inj `{EthCryptoLaws} p q : CompressPubkey p = CompressPubkey q → p = q.
Proof.
  intros Heq. pose proof (DecompressPubkey_Compress p) as Hp.
  rewrite Heq, DecompressPubkey_Compress in Hp. by injection Hp.
Qed.

Lemma FromECDSAPub_inj `{EthCryptoLaws} p q : FromECDSAPub p = FromECDSAPub q → p = q.
Proof.
  intros Heq. pose proof (UnmarshalPubkey_FromECDSAPub p) as Hp.
  rewrite Heq, UnmarshalPubkey_FromECDSAPub in Hp. by injection Hp.
Qed.

(** ** A computable model of the laws *)

(** One-byte keys, padded to the sizes of the real encodings; a signature is
    the digest followed by the key. *)
Module ToyCrypto.
Definition zeros32 : bytes := replicate 31 Byte.x00.

Definition toy_err : error := errors_New "invalid key".

Definition last_byte (n : nat) (b : bytes) : result byte :=
  if length b =? n then match last b with Some x => Ok x | None => Err toy_err end
  else Err toy_err.

Definition toySign (d : bytes) (k : byte) : result bytes :=
  if length d =? 32 then Ok (d ++ (zeros32 ++ [k]) ++ [Byte.x00]) else Err toy_err.

Definition toyRecover (d sig : bytes) : result bytes :=
  if bool_decide (sig !! 64 = Some Byte.x00) && bool_decide (take 32 sig = d) then
    match sig !! 63 with
    | Some k => Ok (Byte.x04 :: replicate 63 Byte.x00 ++ [k])
    | None => Err toy_err
    end
  else Err toy_err.

#[export] Instance toy : EthCrypto := {|
  PrivKey := byte;
  PubKey := byte;
  PublicKey k := k;
  FromECDSA k := zeros32 ++ [k];
  ToECDSA := last_byte 32;
  CompressPubkey p := Byte.x02 :: zeros32 ++ [p];
  DecompressPubkey := last_byte 33;
  FromECDSAPub p := Byte.x04 :: replicate 63 Byte.x00 ++ [p];
  UnmarshalPubkey := last_byte 65;
  PubkeyToAddress_Hex p := "0x" +:+ hex_EncodeToString [p];
  Sign := toySign;
  Ecrecover := toyRecover;
  Keccak256 m := replicate 31 Byte.x00 ++ [byte_of_N (N.of_nat (length m))] |}.

#[export] Instance toy_laws : EthCryptoLaws toy.
Proof.
  split; try done.
  intros d k Hd. exists d, (zeros32 ++ [k]), Byte.x00. split_and!; try done.
  - change (toySign d k = Ok (d ++ (zeros32 ++ [k]) ++ [Byte.x00])).
    unfold toySign. by rewrite Hd.
  - by left.
  - change (toyRecover d (d ++ (zeros32 ++ [k]) ++ [Byte.x00])
            = Ok (Byte.x04 :: replicate 63 Byte.x00 ++ [k])).
    assert (∀ n, (d ++ (zeros32 ++ [k]) ++ [Byte.x00]) !! (32 + n)
                 = ((zeros32 ++ [k]) ++ [Byte.x00]) !! n) as Hlook.
    { intros n. rewrite lookup_app_r by lia. f_equal. lia. }
    assert (take 32 (d ++ (zeros32 ++ [k]) ++ [Byte.x00]) = d) as Htake
      by (rewrite <- Hd; apply take_app_length).
    unfold toyRecover. rewrite Htake, (Hlook 32 : _ !! 64 = _), (Hlook 31 : _ !! 63 = _).
    by rewrite !bool_decide_eq_true_2.
Qed.
End ToyCrypto.
