(* ===== verification/Plugin.v ===== *)
(** * The Vault secrets plugin: [internal/plugin]

    [backend.go], [path_keys.go], [path_keys_update.go] and [path_sign.go]:
    the key entry, the storage it lives in, one definition per handler, and
    the tables that route operations to handlers.

    The Vault SDK is outside the repository.  [logical.Storage] is the class
    [LogicalStorage], with what Vault documents about it in
    [LogicalStorageLaws]; the JSON encoding of a stored entry
    ([logical.StorageEntryJSON], [DecodeJSON]) is the class [EntryCodec]; a
    parsed request body ([framework.FieldData]) is a record with its [GetOk]
    method.  What a request draws from its environment (randomness, the clock)
    is an argument of the handler. *)

From S2P Require Import Prelude GoLib Types KeyPath Crypto.

(** ** Data *)

(** [KeyEntry]: the on-disk representation of a managed key. *)
Record KeyEntry := mkKeyEntry {
  PrivateKey : bytes;
  CompressedPubKey : bytes;
  EVMAddress : string;
  Chains : list string;
  Source : string;
  CreatedAt : Timestamp;
  ImportedAt : option Timestamp }.

Definition set_Chains (e : KeyEntry) (chains : list string) : KeyEntry :=
  mkKeyEntry (PrivateKey e) (CompressedPubKey e) (EVMAddress e) chains (Source e)
             (CreatedAt e) (ImportedAt e).

#[export] Instance KeyEntry_eq_dec : EqDecision KeyEntry.
Proof. solve_decision. Defined.

(** [logical.Response], by its three constructors: [logical.ErrorResponse],
    a literal with [Data], and [logical.ListResponse]. *)
Inductive Response :=
  | ErrorResponse (msg : string)
  | DataResponse (data : gmap string any)
  | ListResponse (keys : list string).

(** The [(resp, err)] pair a handler returns; both can be non-nil. *)
Definition Reply : Type := option Response * option error.

(** The SDK's sentinel errors as Go values. *)
Definition errInvalidRequest : error := mkError "invalid request" [ErrInvalidRequest].
Definition errPermissionDenied : error := mkError "permission denied" [ErrPermissionDenied].

(** [framework.FieldData]: the keys of its [Raw] map and its [GetOk] method. *)
Record FieldData := mkFieldData { Raw : list string; GetOk : string → option any }.

(** ** The Vault SDK as an interface *)

(** [logical.Storage] over a world of states [S]. *)
Class LogicalStorage (S : Type) := {
  st_Get : string → S → S * result (option bytes);
  st_Put : string → bytes → S → S * result unit;
  st_Delete : string → S → S * result unit;
  st_List : string → S → S * result (list string) }.

(** The name under which [List prefix] shows the storage key [k]: the rest of
    the key up to and including its first slash. *)
Definition list_entry (prefix k : string) : option string :=
  match CutPrefix k prefix with
  | None | Some EmptyString => None
  | Some rest => Some (match BeforeFirst rest "/" with Some d => d +:+ "/" | None => rest end)
  end.

(** What Vault documents about storage: reads return what is stored and change
    nothing, a successful write or delete is visible, a failed one may or may
    not have been applied, and a list names the entries under the prefix. *)
Class LogicalStorageLaws (S : Type) `{LogicalStorage S} := {
  contents : S → gmap string bytes;
  Get_contents : ∀ k s, contents (st_Get k s).1 = contents s;
  Get_Ok : ∀ k s o, (st_Get k s).2 = Ok o → o = contents s !! k;
  Put_Ok : ∀ k v s, (st_Put k v s).2 = Ok tt → contents (st_Put k v s).1 = <[k:=v]> (contents s);
  Put_Err : ∀ k v s e, (st_Put k v s).2 = Err e →
    contents (st_Put k v s).1 = contents s ∨ contents (st_Put k v s).1 = <[k:=v]> (contents s);
  Delete_Ok : ∀ k s, (st_Delete k s).2 = Ok tt →
    contents (st_Delete k s).1 = delete k (contents s);
  Delete_Err : ∀ k s e, (st_Delete k s).2 = Err e →
    contents (st_Delete k s).1 = contents s ∨ contents (st_Delete k s).1 = delete k (contents s);
  List_contents : ∀ p s, contents (st_List p s).1 = contents s;
  List_Ok : ∀ p s names, (st_List p s).2 = Ok names →
    NoDup names ∧
    ∀ n, n ∈ names ↔ ∃ k v, contents s !! k = Some v ∧ list_entry p k = Some n }.

(** States from which storage calls succeed: the fault-free case, in which a
    request's reply is a function of what is stored. *)
Class StorageHealth (S : Type) `{LogicalStorage S} := {
  healthy : S → Prop;
  healthy_Get : ∀ k s, healthy s → healthy (st_Get k s).1 ∧ ∃ r, (st_Get k s).2 = Ok r;
  healthy_Put : ∀ k v s, healthy s → healthy (st_Put k v s).1 ∧ (st_Put k v s).2 = Ok tt;
  healthy_Delete : ∀ k s, healthy s → healthy (st_Delete k s).1 ∧ (st_Delete k s).2 = Ok tt;
  healthy_List : ∀ p s, healthy s → healthy (st_List p s).1 ∧ ∃ r, (st_List p s).2 = Ok r }.

(** [logical.StorageEntryJSON] and [StorageEntry.DecodeJSON] for a
    [KeyEntry]. *)
Class EntryCodec := {
  EncodeEntry : KeyEntry → result bytes;
  DecodeEntry : bytes → result KeyEntry }.

(** Decoding inverts encoding. *)
Class EntryCodecLaws (E : EntryCodec) := {
  Decode_Encode : ∀ e b, EncodeEntry e = Ok b → DecodeEntry b = Ok e }.

(** ** Pure helpers *)

(** The storage namespace of the records. *)
Definition keyStoragePrefix : string := "keys/".

(** [fmt]'s [%q] on a string of printable bytes. *)
Fixpoint quote_body (s : string) : string :=
  match s with
  | EmptyString => ""
  | String c s' =>
      if bool_decide (c = "034"%char) || bool_decide (c = "\"%char)
      then String "\" (String c (quote_body s')) else String c (quote_body s')
  end.
Definition Quote (s : string) : string := String "034" (quote_body s +:+ String "034" "").

Definition chainsToStrings (chains : list Chain) : list string := chains.

(** [counts[chain]++] over the list. *)
Fixpoint count_chains (a : list string) (counts : gmap string nat) : gmap string nat :=
  match a with
  | [] => counts
  | c :: a' => count_chains a' (<[c := default 0 (counts !! c) + 1]> counts)
  end.

(** The second loop: every member consumes one occurrence; [None] is its
    [return false]. *)
Fixpoint consume_chains (b : list string) (counts : gmap string nat)
    : option (gmap string nat) :=
  match b with
  | [] => Some counts
  | c :: b' =>
      match counts !! c with
      | None => None
      | Some n =>
          if n =? 1 then consume_chains b' (delete c counts)
          else consume_chains b' (<[c := n - 1]> counts)
      end
  end.

Definition sameChainSet (a b : list string) : bool :=
  if negb (length a =? length b) then false
  else match consume_chains b (count_chains a ∅) with
       | None => false
       | Some counts => size counts =? 0
       end.

Fixpoint containsChain (chains : list string) (chain : string) : bool :=
  match chains with
  | [] => false
  | allowed :: chains' => if decide (allowed = chain) then true else containsChain chains' chain
  end.

(** The public-safe view of an entry. *)
Definition keyInfoData (entry : KeyEntry) : gmap string any :=
  let data :=
    <["compressed_pub_key" := AString (b64_Encode StdEncoding (CompressedPubKey entry))]>
    (<["evm_address" := AString (EVMAddress entry)]>
    (<["chains" := AStrings (Chains entry)]>
    (<["source" := AString (Source entry)]>
    (<["created_at" := AString (Format_RFC3339Nano (CreatedAt entry))]> ∅)))) in
  match ImportedAt entry with
  | Some t => <["imported_at" := AString (Format_RFC3339Nano t)]> data
  | None => data
  end.

Definition keyInfoResponse (entry : KeyEntry) : Response := DataResponse (keyInfoData entry).

Definition updateChainsResponse (name : string) (chains : list string) : Response :=
  DataResponse (<["path" := AString name]> (<["chains" := AStrings chains]> ∅)).

(** The type switch shared in shape by [requestChains] and
    [requestAddChains]. *)
Fixpoint all_strings (l : list any) : option (list string) :=
  match l with
  | [] => Some []
  | AString s :: l' => cons s <$> all_strings l'
  | _ :: _ => None
  end.

Definition chains_of_any (v : any) (err : error) : result (list string) :=
  match v with
  | AString s => Ok (Split s ",")
  | AStrings l => Ok l
  | AList l => match all_strings l with Some ss => Ok ss | None => Err err end
  | _ => Err err
  end.

Definition errChainsRequired : error :=
  errors_New "chains is required and must be a non-empty subset of [evm, cosmos]".

Definition requestChains (data : option FieldData) : result (list string) :=
  match data with
  | None => Err errChainsRequired
  | Some fd =>
      match GetOk fd "chains" with
      | None => Err errChainsRequired
      | Some v => chains_of_any v errChainsRequired
      end
  end.

Definition errAddChainsRequired : error :=
  errors_New "add_chains is required and must be a non-empty subset of [evm, cosmos]".

Definition requestAddChains (data : option FieldData) : result (list string) :=
  match data with
  | None => Err errAddChainsRequired
  | Some fd =>
      match GetOk fd "add_chains" with
      | None => Err errAddChainsRequired
      | Some v => chains_of_any v errAddChainsRequired
      end
  end.

Definition errOnlyAddChains : error := errors_New "only add_chains is supported".

Definition updateChainsOnlyAdditions (data : option FieldData) : result unit :=
  match data with
  | None => Err errOnlyAddChains
  | Some fd =>
      if existsb (λ n, negb (bool_decide (n = "name")) && negb (bool_decide (n = "add_chains")))
           (Raw fd)
      then Err errOnlyAddChains
      else match GetOk fd "add_chains" with
           | None => Err errOnlyAddChains
           | Some _ => Ok tt
           end
  end.

(** The key name of a request: the [name] field, else the request path
    without its [keys/] prefix. *)
Definition keyName (path : string) (data : option FieldData) : string :=
  let from_path :=
    match CutPrefix path keyStoragePrefix with Some r => r | None => "" end in
  match data with
  | None => from_path
  | Some fd =>
      match GetOk fd "name" with
      | Some (AString s) => if decide (s = "") then from_path else s
      | _ => from_path
      end
  end.

(** [name, _ := data.GetOk("name"); nameStr, _ := name.(string)] *)
Definition fieldName (fd : FieldData) : string :=
  match GetOk fd "name" with Some v => as_string_or_zero v | None => "" end.

(** ** The backend and its handlers *)

(** [backend]: the per-key mutexes handed out so far ([sync.Map]), and the
    storage view its requests carry.  Between requests every mutex is free. *)
Record backend (S : Type) := mkBackend { keyLocks : gset string; Storage : S }.
Arguments mkBackend {S} _ _.
Arguments keyLocks {S} _.
Arguments Storage {S} _.

(** What one request draws from its environment: [crypto.GenerateKey()] and
    [time.Now()]. *)
Record Ambient `{EthCrypto} := mkAmbient { GenerateKey : result PrivKey; Now : Z }.

Section plugin.
Context {C : EthCrypto} {S : Type} {St : LogicalStorage S} {E : EntryCodec}.

Abbreviation B := (backend S).

(** A storage call of a request. *)
Definition on_storage {A} (f : S → S * A) : M B A := λ b,
  let '(s', a) := f (Storage b) in (mkBackend (keyLocks b) s', Val a).

(** [b.keyLock(name)]: allocate the mutex of a name on first use.  The
    handlers lock it and unlock it on return. *)
Definition keyLock (name : string) : M B unit := λ b,
  (mkBackend ({[name]} ∪ keyLocks b) (Storage b), Val tt).

Definition loadKey (name : string) : M B (result (option KeyEntry)) := λ b,
  match on_storage (st_Get (keyStoragePrefix +:+ name)) b with
  | (b', Val (Err e)) => (b', Val (Err e))
  | (b', Val (Ok None)) => (b', Val (Ok None))
  | (b', Val (Ok (Some raw))) =>
      (b', Val match DecodeEntry raw with
               | Err e => Err (Errorf_w ("decode key entry " +:+ Quote name +:+ ": ") e "")
               | Ok entry => Ok (Some entry)
               end)
  | (b', Panic m) => (b', Panic m)
  end.

Definition storeKey (name : string) (entry : KeyEntry) : M B (result unit) := λ b,
  match EncodeEntry entry with
  | Err e => (b, Val (Err e))
  | Ok raw => on_storage (st_Put (keyStoragePrefix +:+ name) raw) b
  end.

(** [return logical.ErrorResponse(msg), nil] *)
Definition errorReply (msg : string) : Reply := (Some (ErrorResponse msg), None).

(** [return logical.ErrorResponse("%s", err.Error()), logical.ErrInvalidRequest] *)
Definition invalidReply (e : error) : Reply :=
  (Some (ErrorResponse (Error e)), Some errInvalidRequest).

(** [return nil, err] *)
Definition failReply (e : error) : Reply := (None, Some e).

(** [data.GetOk(k)]: a nil [*FieldData] panics. *)
Definition fieldData {R} (data : option FieldData) : Prog B R FieldData :=
  match data with
  | Some fd => next fd
  | None => abrupt "invalid memory address or nil pointer dereference"
  end.

Definition handleKeyExistence (path : string) (data : option FieldData) : M B (result bool) :=
  body (
    let name := keyName path data in
    guard (bool_decide (name = "")) (Ok false) ;;;
    let! entry := try_ (on_storage (st_Get (keyStoragePrefix +:+ name))) Err in
    next (Ok (match entry with Some _ => true | None => false end))).

Definition newEntry (priv : PrivKey) (chains : list string) (now : Z) : KeyEntry :=
  {| PrivateKey := FromECDSA priv;
     CompressedPubKey := CompressPubkey (PublicKey priv);
     EVMAddress := PubkeyToAddress_Hex (PublicKey priv);
     Chains := chains;
     Source := "generated";
     CreatedAt := mkTimestamp now 0;
     ImportedAt := None |}.

Definition handleCreateKey (env : Ambient) (path : string) (data : option FieldData)
    : M B Reply :=
  body (
    let name := keyName path data in
    guard (bool_decide (name = "")) (errorReply "key name is required") ;;;
    check (Validate name) invalidReply ;;;
    call (keyLock name) ;;;
    let! chains := check (requestChains data) invalidReply in
    let! parsedChains := check (ParseChains chains) invalidReply in
    let! existing := try_ (loadKey name) failReply in
    match existing with
    | Some entry =>
        if length (Chains entry) =? 0 then
          let entry' := set_Chains entry (chainsToStrings parsedChains) in
          try_ (storeKey name entry') failReply ;;;
          next (Some (keyInfoResponse entry'), None)
        else
          guard (negb (sameChainSet (Chains entry) (chainsToStrings parsedChains)))
            (Some (ErrorResponse "chains mismatch on idempotent create"),
             Some errInvalidRequest) ;;;
          next (Some (keyInfoResponse entry), None)
    | None =>
        let! priv := check (GenerateKey env)
                       (λ e, failReply (Errorf_w "generate secp256k1 key: " e "")) in
        let entry := newEntry priv (chainsToStrings parsedChains) (Now env) in
        try_ (storeKey name entry) failReply ;;;
        next (Some (keyInfoResponse entry), None)
    end).

Definition handleReadKey (path : string) (data : option FieldData) : M B Reply :=
  body (
    let name := keyName path data in
    guard (bool_decide (name = "")) (errorReply "key name is required") ;;;
    let! entry := try_ (loadKey name) failReply in
    next match entry with
         | None => (None, None)
         | Some entry => (Some (keyInfoResponse entry), None)
         end).

Definition handleDeleteKey (path : string) (data : option FieldData) : M B Reply :=
  body (
    let name := keyName path data in
    guard (bool_decide (name = "")) (errorReply "key name is required") ;;;
    try_ (on_storage (st_Delete (keyStoragePrefix +:+ name))) failReply ;;;
    next (None, None)).

Definition handleListKeys (data : option FieldData) : M B Reply :=
  body (
    let! prefix :=
      match data with
      | None => next keyStoragePrefix
      | Some fd =>
          match GetOk fd "name" with
          | Some (AString s) =>
              if decide (s = "") then next keyStoragePrefix
              else
                check (ValidateListPrefix s) invalidReply ;;;
                let prefix := keyStoragePrefix +:+ s in
                next (if HasSuffix prefix "/" then prefix else prefix +:+ "/")
          | _ => next keyStoragePrefix
          end
      end in
    let! names := try_ (on_storage (st_List prefix)) failReply in
    next (Some (ListResponse names), None)).

Definition handleUpdateChains (data : option FieldData) : M B Reply :=
  body (
    check (updateChainsOnlyAdditions data)
      (λ _, (Some (ErrorResponse "only add_chains is supported"), Some errInvalidRequest)) ;;;
    let! fd := fieldData data in
    let nameStr := fieldName fd in
    guard (bool_decide (nameStr = "")) (errorReply "key name is required") ;;;
    check (Validate nameStr) invalidReply ;;;
    let! addChains := check (requestAddChains data) invalidReply in
    let! parsedAddChains := check (ParseChains addChains) invalidReply in
    call (keyLock nameStr) ;;;
    let! existing := try_ (loadKey nameStr) failReply in
    match existing with
    | None => next (errorReply ("key not found: " +:+ nameStr))
    | Some entry =>
        let! merged := check (ParseChains (Chains entry ++ chainsToStrings parsedAddChains))
                         invalidReply in
        let mergedStrings := chainsToStrings merged in
        if sameChainSet (Chains entry) mergedStrings then
          next (Some (updateChainsResponse nameStr mergedStrings), None)
        else
          try_ (storeKey nameStr (set_Chains entry mergedStrings)) failReply ;;;
          next (Some (updateChainsResponse nameStr mergedStrings), None)
    end).

Definition handleKeyWrite (env : Ambient) (path : string) (data : option FieldData)
    : M B Reply :=
  body (
    let! fd := fieldData data in
    match GetOk fd "chains" with
    | Some _ => call (handleCreateKey env path data)
    | None => call (handleUpdateChains data)
    end).

Definition handleSign (data : option FieldData) : M B Reply :=
  body (
    let! fd := fieldData data in
    let nameStr := fieldName fd in
    guard (bool_decide (nameStr = "")) (errorReply "key name is required") ;;;
    check (Validate nameStr) invalidReply ;;;
    let! inputRaw :=
      match GetOk fd "input" with
      | Some v => next v
      | None => return_ (errorReply "input is required (hex-encoded 32-byte digest)")
      end in
    let inputStr := as_string_or_zero inputRaw in
    guard (bool_decide (inputStr = "")) (errorReply "input must be a non-empty hex string") ;;;
    let! digest :=
      match hex_DecodeString inputStr with
      | inr d => next d
      | inl e => return_ (errorReply ("input must be hex-encoded: " +:+ hex_error_text e))
      end in
    guard (negb (length digest =? 32))
      (errorReply ("input must be exactly 32 bytes (got " +:+ pretty (length digest) +:+ ")")) ;;;
    let! existing := try_ (loadKey nameStr) failReply in
    match existing with
    | None => next (errorReply ("key not found: " +:+ nameStr))
    | Some entry =>
        let! chainRaw :=
          match GetOk fd "chain" with
          | Some v => next v
          | None => return_ (Some (ErrorResponse "chain is required"), Some errInvalidRequest)
          end in
        let chain := ToLower (TrimSpace (as_string_or_zero chainRaw)) in
        guard (bool_decide (chain = ""))
          (Some (ErrorResponse "chain is required"), Some errInvalidRequest) ;;;
        let allowedChains := sort_Strings (Chains entry) in
        guard (negb (containsChain allowedChains chain))
          (Some (ErrorResponse ("key " +:+ nameStr +:+ " not authorized for " +:+ chain +:+
                   " signing (allowed chains: [" +:+ Join allowedChains " " +:+ "])")),
           Some errPermissionDenied) ;;;
        let! priv := check (ToECDSA (PrivateKey entry))
                       (λ e, failReply (Errorf_w "decode stored private key: " e "")) in
        let! sig := check (Sign digest priv)
                      (λ e, failReply (Errorf_w "secp256k1 sign: " e "")) in
        guard (negb (length sig =? 65))
          (failReply (errors_New ("unexpected signature length " +:+ pretty (length sig)))) ;;;
        next (Some (DataResponse
          (<["r" := AString (hex_EncodeToString (take 32 sig))]>
          (<["s" := AString (hex_EncodeToString (take 32 (drop 32 sig)))]> ∅))), None)
    end).

(** ** Routing *)

(** [logical.Operation], as far as the tables use it. *)
Inductive Operation :=
  | CreateOperation | UpdateOperation | ReadOperation | DeleteOperation | ListOperation.

(** [pathsKeys] and [pathsSign]: the three patterns with their operation
    tables. *)
Inductive Pattern := KeysRoot | KeysName | SignName.

Definition operations (pat : Pattern) (op : Operation)
    : option (Ambient → string → option FieldData → M B Reply) :=
  match pat, op with
  | KeysRoot, ListOperation => Some (λ _ _ data, handleListKeys data)
  | KeysName, CreateOperation => Some (λ env path data, handleCreateKey env path data)
  | KeysName, UpdateOperation => Some (λ env path data, handleKeyWrite env path data)
  | KeysName, ReadOperation => Some (λ _ path data, handleReadKey path data)
  | KeysName, DeleteOperation => Some (λ _ path data, handleDeleteKey path data)
  | KeysName, ListOperation => Some (λ _ _ data, handleListKeys data)
  | SignName, UpdateOperation => Some (λ _ _ data, handleSign data)
  | _, _ => None
  end.
End plugin.
