(* ===== verification/KeyManager.v ===== *)
(** * The abstract key manager

    What the plugin promises: a map from key names to entries with five kinds
    of transition.  A key is created at a well-formed free name with fresh
    material and a canonical allow-list; a key without chains can be given
    some; an allow-list can be widened; a key can be deleted; anything else
    leaves the map alone.  [PluginProps] proves that the handlers of [Plugin]
    implement these transitions; here are the machine and the invariants its
    runs keep. *)

From stdpp Require Import relations.
From S2P Require Import Prelude GoLib Types KeyPath Crypto Plugin.

Section keymanager.
Context {C : EthCrypto}.

Abbreviation keymap := (gmap string KeyEntry).

Inductive kstep : keymap → keymap → Prop :=
  | k_create m name priv chains now :
      KeyPathOk name → m !! name = None → Canonical chains →
      kstep m (<[name := newEntry priv chains now]> m)
  | k_backfill m name e chains :
      KeyPathOk name → m !! name = Some e → Chains e = [] → Canonical chains →
      kstep m (<[name := set_Chains e chains]> m)
  | k_widen m name e added merged :
      KeyPathOk name → m !! name = Some e → Canonical added → Canonical merged →
      (∀ c, c ∈ merged ↔ c ∈ canonChain <$> Chains e ∨ c ∈ added) →
      kstep m (<[name := set_Chains e merged]> m)
  | k_delete m name : kstep m (delete name m)
  | k_skip m : kstep m m.

(** The part of an entry that never changes while the key exists. *)
Definition material (e : KeyEntry) : bytes * bytes * string * string * Timestamp :=
  (PrivateKey e, CompressedPubKey e, EVMAddress e, Source e, CreatedAt e).

(** A well-formed entry: its public parts are those of its private key, and
    its allow-list is canonical. *)
Definition entry_ok (e : KeyEntry) : Prop :=
  ∃ priv, PrivateKey e = FromECDSA priv ∧
          CompressedPubKey e = CompressPubkey (PublicKey priv) ∧
          EVMAddress e = PubkeyToAddress_Hex (PublicKey priv) ∧
          Source e = "generated" ∧
          Canonical (Chains e).

Definition keymap_ok (m : keymap) : Prop :=
  ∀ name e, m !! name = Some e → KeyPathOk name ∧ entry_ok e.

(** ** Lemmas *)

Lemma newEntry_ok priv chains now : Canonical chains → entry_ok (newEntry priv chains now).
Proof. intros Hc. by exists priv. Qed.

Lemma set_Chains_ok e chains : entry_ok e → Canonical chains → entry_ok (set_Chains e chains).
Proof. intros (priv & ? & ? & ? & ? & _) Hc. by exists priv. Qed.

Lemma material_set_Chains e chains : material (set_Chains e chains) = material e.
Proof. done. Qed.

Lemma set_Chains_Chains e chains : Chains (set_Chains e chains) = chains.
Proof. done. Qed.

Lemma keymap_ok_insert m name e :
  keymap_ok m → KeyPathOk name → entry_ok e → keymap_ok (<[name := e]> m).
Proof.
  intros Hm Hn He name' e' [[<- <-]|[_ ?]]%lookup_insert_Some; [done|]. by apply Hm.
Qed.

Lemma keymap_ok_delete m name : keymap_ok m → keymap_ok (delete name m).
Proof. intros Hm name' e' [_ ?]%lookup_delete_Some. by apply Hm. Qed.

Hint Resolve newEntry_ok set_Chains_ok keymap_ok_insert keymap_ok_delete : kms.

(** One step keeps a well-formed map well-formed. *)
Lemma kstep_ok m m' : kstep m m' → keymap_ok m → keymap_ok m'.
Proof.
  intros [m0 name priv chains now Hn Hnone Hc | m0 name e chains Hn He Hnil Hc
         | m0 name e added merged Hn He Ha Hm Hiff | m0 name | m0] Hok;
    [| destruct (Hok _ _ He) as [_ ?] ..| |]; eauto with kms.
Qed.

Lemma empty_ok : keymap_ok ∅.
Proof. intros name e. by rewrite lookup_empty. Qed.

Lemma kreachable_ok m m' : rtc kstep m m' → keymap_ok m → keymap_ok m'.
Proof. induction 1; eauto using kstep_ok. Qed.

(** One step either deletes a key or keeps its material, and then every chain
    it allowed stays allowed under its canonical name. *)
Lemma kstep_key m m' name e :
  kstep m m' → m !! name = Some e →
  m' !! name = None ∨
  ∃ e', m' !! name = Some e' ∧ material e' = material e ∧
        (∀ c, c ∈ Chains e → c ∈ Chains e' ∨ canonChain c ∈ Chains e').
Proof.
  intros Hstep.
  destruct Hstep as [m0 name0 priv chains now Hn Hnone Hc | m0 name0 e0 chains Hn He0 Hnil Hc
         | m0 name0 e0 added merged Hn He0 Ha Hm Hiff | m0 name0 | m0]; intros He.
  - right. exists e. rewrite lookup_insert_ne by (intros ->; congruence). auto.
  - right. rewrite lookup_insert. case_decide; [subst|by eauto]. simplify_eq.
    eexists. split_and!; [done..|]. rewrite Hnil. intros c Hc'%not_elem_of_nil. done.
  - right. rewrite lookup_insert. case_decide; [subst|by eauto 6]. simplify_eq.
    eexists. split_and!; [done..|]. intros c Hc. right. apply Hiff. left. set_solver.
  - rewrite lookup_delete. case_decide; [by left|by eauto 6].
  - eauto 6.
Qed.

(** Runs in which the key [name] is never deleted. *)
Inductive kept (name : string) : keymap → keymap → Prop :=
  | kept_refl m : kept name m m
  | kept_step m1 m2 m3 :
      kstep m1 m2 → is_Some (m2 !! name) → kept name m2 m3 → kept name m1 m3.

Lemma Canonical_canonChain l c : Canonical l → c ∈ l → canonChain c = c.
Proof. intros Hl Hc. by destruct (Canonical_members _ _ Hl Hc) as [->| ->]. Qed.

Lemma kept_material name m m' e :
  kept name m m' → m !! name = Some e → keymap_ok m →
  ∃ e', m' !! name = Some e' ∧ material e' = material e ∧ Chains e ⊆ Chains e'.
Proof.
  intros Hk. revert e. induction Hk as [m|m1 m2 m3 Hs [e2 He2] Hk IH]; intros e He Hok; [by eauto|].
  destruct (kstep_key _ _ _ _ Hs He) as [Hnone|(e2' & He2' & Hmat & Hch)]; [congruence|].
  assert (e2' = e2) as -> by congruence. destruct (IH _ He2) as (e3 & He3 & Hmat3 & Hch3); [by eapply kstep_ok|].
  exists e3. split_and!; [done|congruence|]. intros c Hc. apply Hch3.
  destruct (Hok _ _ He) as [_ (priv & _ & _ & _ & _ & Hcan)].
  destruct (Hch c Hc) as [|Hcc]; [done|]. by rewrite (Canonical_canonChain _ _ Hcan Hc) in Hcc.
Qed.
End keymanager.
