(* ===== verification/PluginModel.v ===== *)
(** * A computable model of the Vault SDK interfaces

    An in-memory storage and an entry codec that satisfy the laws of
    [Plugin].  The witnesses of the development run the handlers on them. *)

From S2P Require Import Prelude GoLib Types KeyPath Crypto Plugin.

Module MemVault.

(** The storage is its contents and a schedule of injected faults: each call
    takes the next flag and fails when it is set. *)
Record mem := mkMem { mem_map : gmap string bytes; mem_faults : list bool }.

Definition mem_fault (s : mem) : bool * mem :=
  match mem_faults s with
  | [] => (false, s)
  | f :: fs => (f, mkMem (mem_map s) fs)
  end.

Definition io_error : error := errors_New "storage unavailable".

(** A call: fails on a fault, otherwise runs [f] on the map. *)
Definition mem_call {A} (f : gmap string bytes → gmap string bytes * A) (s : mem)
    : mem * result A :=
  let '(bad, s') := mem_fault s in
  if bad then (s', Err io_error)
  else let '(m, a) := f (mem_map s') in (mkMem m (mem_faults s'), Ok a).

Definition mem_list (p : string) (m : gmap string bytes) : list string :=
  sort_Strings (elements (list_to_set (omap (list_entry p) (map_to_list m).*1) : gset string)).

#[export] Instance mem_storage : LogicalStorage mem := {|
  st_Get k := mem_call (λ m, (m, m !! k));
  st_Put k v := mem_call (λ m, (<[k:=v]> m, tt));
  st_Delete k := mem_call (λ m, (delete k m, tt));
  st_List p := mem_call (λ m, (m, mem_list p m)) |}.

(** A codec for entries of toy keys created at time 0: the last byte of the
    private and of the public key, and the two chains of the allow-list. *)
Import ToyCrypto.

Definition flag (b : bool) : byte := if b then Byte.x01 else Byte.x00.

Definition serialize (e : KeyEntry) : bytes :=
  [default Byte.x00 (last (PrivateKey e)); default Byte.x00 (last (CompressedPubKey e));
   flag (bool_decide (ChainCosmos ∈ Chains e)); flag (bool_decide (ChainEVM ∈ Chains e))].

Definition deserialize (b : bytes) : result KeyEntry :=
  match b with
  | [k; p; c; v] =>
      Ok {| PrivateKey := FromECDSA (k : PrivKey);
            CompressedPubKey := CompressPubkey (p : PubKey);
            EVMAddress := PubkeyToAddress_Hex (p : PubKey);
            Chains := chain_list (bool_decide (c = Byte.x01)) (bool_decide (v = Byte.x01));
            Source := "generated"; CreatedAt := mkTimestamp 0 0; ImportedAt := None |}
  | _ => Err (errors_New "unexpected end of JSON input")
  end.

#[export] Instance toy_codec : EntryCodec := {|
  EncodeEntry e :=
    if decide (deserialize (serialize e) = Ok e) then Ok (serialize e)
    else Err (errors_New "json: unsupported value");
  DecodeEntry := deserialize |}.

Lemma mem_call_spec {A} (f : gmap string bytes → gmap string bytes * A) s :
  ((mem_call f s).2 = Ok (f (mem_map s)).2 ∧ mem_map (mem_call f s).1 = (f (mem_map s)).1) ∨
  (∃ e, (mem_call f s).2 = Err e ∧ mem_map (mem_call f s).1 = mem_map s).
Proof.
  unfold mem_call, mem_fault. destruct (mem_faults s) as [|[] fs]; simpl;
    destruct (f (mem_map s)); simpl; eauto.
Qed.

Lemma elem_of_mem_list p m n :
  n ∈ mem_list p m ↔ ∃ k v, m !! k = Some v ∧ list_entry p k = Some n.
Proof.
  unfold mem_list. rewrite elem_of_sort_Strings, elem_of_elements, elem_of_list_to_set.
  rewrite list_elem_of_omap. split.
  - intros (k & ([k' v] & -> & Hk)%list_elem_of_fmap & He).
    exists k', v. by rewrite <- elem_of_map_to_list.
  - intros (k & v & Hk & He). exists k. split; [|done]. apply list_elem_of_fmap.
    exists (k, v). by rewrite elem_of_map_to_list.
Qed.

#[export] Instance mem_laws : LogicalStorageLaws mem.
Proof.
  refine {| contents := mem_map |}; simpl.
  - intros k s. by destruct (mem_call_spec (λ m, (m, m !! k)) s) as [[_ ->]|(? & _ & ->)].
  - intros k s o. destruct (mem_call_spec (λ m, (m, m !! k)) s) as [[-> _]|(? & -> & _)];
      [by intros [= <-]|done].
  - intros k v s. destruct (mem_call_spec (λ m, (<[k:=v]> m, tt)) s) as [[-> ->]|(? & -> & _)]; done.
  - intros k v s e. destruct (mem_call_spec (λ m, (<[k:=v]> m, tt)) s) as [[-> _]|(? & -> & ->)];
      [done|by left].
  - intros k s. destruct (mem_call_spec (λ m, (delete k m, tt)) s) as [[-> ->]|(? & -> & _)]; done.
  - intros k s e. destruct (mem_call_spec (λ m, (delete k m, tt)) s) as [[-> _]|(? & -> & ->)];
      [done|by left].
  - intros p s. by destruct (mem_call_spec (λ m, (m, mem_list p m)) s) as [[_ ->]|(? & _ & ->)].
  - intros p s names. destruct (mem_call_spec (λ m, (m, mem_list p m)) s) as [[-> _]|(? & -> & _)];
      [intros [= <-]|done].
    split; [|intros n; apply elem_of_mem_list].
    unfold mem_list. rewrite sort_Strings_perm. apply NoDup_elements.
Defined.

#[export] Instance mem_health : StorageHealth mem.
Proof.
  refine {| healthy s := mem_faults s = [] |}; intros; simpl; unfold mem_call, mem_fault;
    destruct s as [m fs]; simpl in *; subst; simpl; eauto.
Defined.

#[export] Instance toy_codec_laws : EntryCodecLaws toy_codec.
Proof. split. intros e b. simpl. case_decide; [by intros [= <-]|done]. Qed.

(** An empty, fault-free vault, and request bodies. *)
Definition empty_vault : backend mem := mkBackend ∅ (mkMem ∅ []).

Definition fields (l : list (string * any)) : option FieldData :=
  Some (mkFieldData l.*1 (λ k, (list_to_map l : gmap string any) !! k)).

Definition env_key (k : byte) : Ambient := mkAmbient toy (Ok k) 0.

Definition create_fields (name chains : string) : option FieldData :=
  fields [("name", AString name); ("chains", AString chains)].

Definition sign_fields (name chain input : string) : option FieldData :=
  fields [("name", AString name); ("chain", AString chain); ("input", AString input)].
End MemVault.
