(* ===== verification/PluginProps.v ===== *)
(** * Properties of the Vault plugin

    The plugin refines an abstract key manager: a map from key names to
    entries whose only transitions are creation, back-fill of a key without
    chains, widening of an allow-list, and deletion.  Safety properties are
    proved on the abstract machine and transferred. *)

From stdpp Require Import relations.
From S2P Require Import Prelude GoLib Types KeyPath Crypto Plugin KeyManager PluginModel.

(** ** [sameChainSet] compares multisets *)

Lemma count_chains_lookup a counts c :
  count_chains a counts !! c
  = match counts !! c, List.count_occ String.eq_dec a c with
    | None, O => None
    | None, Datatypes.S n => Some (Datatypes.S n)
    | Some m, n => Some (m + n)
    end.
Proof.
  revert counts. induction a as [|x a IH]; intros counts; simpl.
  - destruct (counts !! c); [|done]. f_equal. lia.
  - rewrite IH. destruct (String.eq_dec x c) as [->|Hne].
    + rewrite lookup_insert_eq. destruct (counts !! c); simpl; f_equal; lia.
    + by rewrite lookup_insert_ne.
Qed.

(** Every counter of the map is positive. *)
Definition positive_counts (counts : gmap string nat) : Prop :=
  ∀ c n, counts !! c = Some n → 0 < n.

Lemma consume_chains_spec b counts :
  positive_counts counts →
  match consume_chains b counts with
  | Some rest => positive_counts rest ∧
      ∀ c, default 0 (counts !! c) = List.count_occ String.eq_dec b c + default 0 (rest !! c)
  | None => ∃ c, default 0 (counts !! c) < List.count_occ String.eq_dec b c
  end.
Proof.
  revert counts. induction b as [|x b IH]; intros counts Hpos; simpl; [done|].
  destruct (counts !! x) as [n|] eqn:Hx.
  2:{ exists x. rewrite Hx. simpl. destruct (String.eq_dec x x); [lia|done]. }
  pose proof (Hpos _ _ Hx) as Hn.
  assert (∃ counts', (if n =? 1 then consume_chains b (delete x counts)
                      else consume_chains b (<[x:=n - 1]> counts)) = consume_chains b counts'
            ∧ positive_counts counts'
            ∧ ∀ c, default 0 (counts !! c)
                   = (if String.eq_dec x c then 1 else 0) + default 0 (counts' !! c))
    as (counts' & -> & Hpos' & Hc).
  { destruct (Nat.eqb_spec n 1) as [->|Hn1]; eexists; (split; [done|]); split.
    - intros c m. rewrite lookup_delete. case_decide; [done|apply Hpos].
    - intros c. rewrite lookup_delete. destruct (String.eq_dec x c) as [->|]; case_decide; try done.
      by rewrite Hx.
    - intros c m. rewrite lookup_insert. case_decide; [intros [= <-]; lia|apply Hpos].
    - intros c. rewrite lookup_insert. destruct (String.eq_dec x c) as [->|]; case_decide; try done.
      rewrite Hx. simpl. lia. }
  specialize (IH _ Hpos'). destruct (consume_chains b counts') as [rest|].
  - destruct IH as [Hr IH]. split; [done|]. intros c. rewrite Hc, IH.
    destruct (String.eq_dec x c); simpl; lia.
  - destruct IH as [c IH]. exists c. rewrite Hc. destruct (String.eq_dec x c); simpl; lia.
Qed.

Lemma count_chains_default a c :
  default 0 (count_chains a ∅ !! c) = List.count_occ String.eq_dec a c.
Proof. rewrite count_chains_lookup, lookup_empty. by destruct (List.count_occ _ a c). Qed.

Lemma positive_count_chains a : positive_counts (count_chains a ∅).
Proof.
  intros c n. rewrite count_chains_lookup, lookup_empty.
  destruct (List.count_occ _ a c); [done|]. intros [= <-]. lia.
Qed.

Lemma sameChainSet_count a b :
  sameChainSet a b = true ↔
  ∀ c, List.count_occ String.eq_dec a c = List.count_occ String.eq_dec b c.
Proof.
  unfold sameChainSet.
  pose proof (consume_chains_spec b _ (positive_count_chains a)) as Hspec.
  destruct (consume_chains b (count_chains a ∅)) as [rest|].
  - destruct Hspec as [Hpos Hspec]. setoid_rewrite count_chains_default in Hspec. split.
    + destruct (negb (length a =? length b)); [done|]. intros Hsz c. to_prop.
      apply map_size_empty_inv in Hsz as ->. rewrite Hspec, lookup_empty. simpl. lia.
    + intros Heq. pose proof (proj2 (Permutation_count_occ String.eq_dec a b) Heq) as Hperm.
      rewrite (Permutation_length Hperm), Nat.eqb_refl. simpl.
      apply Nat.eqb_eq, map_size_empty_iff, map_eq. intros c.
      specialize (Hspec c). rewrite Heq in Hspec. rewrite lookup_empty.
      destruct (rest !! c) as [n|] eqn:Hc; [|done]. specialize (Hpos _ _ Hc). simpl in Hspec. lia.
  - destruct Hspec as [c Hc]. rewrite count_chains_default in Hc. split; [by case_match|].
    intros Heq. rewrite Heq in Hc. lia.
Qed.

Lemma sameChainSet_perm a b : sameChainSet a b = true ↔ a ≡ₚ b.
Proof. rewrite sameChainSet_count. symmetry. apply Permutation_count_occ. Qed.

Lemma containsChain_spec chains c : containsChain chains c = true ↔ c ∈ chains.
Proof.
  induction chains as [|x chains IH]; simpl.
  - split; [done|]. by intros ?%not_elem_of_nil.
  - rewrite elem_of_cons. case_decide; naive_solver.
Qed.

(** ** The abstraction relation *)

Section refinement.
Context {C : EthCrypto} {S : Type} {St : LogicalStorage S} {SL : LogicalStorageLaws S}
        {E : EntryCodec} {EL : EntryCodecLaws E}.

Abbreviation B := (backend S).

(** The storage key of a name, and what a backend stores. *)
Definition skey (name : string) : string := keyStoragePrefix +:+ name.
Definition bcontents (b : B) : gmap string bytes := contents (Storage b).

(** The storage holds the encodings of the entries of [m]. *)
Definition Rep (m : gmap string KeyEntry) (b : B) : Prop :=
  ∀ name, match bcontents b !! skey name with
          | None => m !! name = None
          | Some raw => ∃ e, DecodeEntry raw = Ok e ∧ m !! name = Some e
          end.

(** One request, of any kind, from any environment. *)
Definition plugin_step (b b' : B) : Prop :=
  ∃ pat op h env path data o,
    operations pat op = Some h ∧ h env path data b = (b', o).

(** ** Rules for the storage helpers *)

Lemma mwp_keyLock name b Q :
  (∀ b', bcontents b' = bcontents b → Storage b' = Storage b → Q b' (Val tt)) →
  mwp (keyLock name) Q b.
Proof. intros H. by apply H. Qed.

Lemma mwp_Get k b Q :
  (∀ b' r, bcontents b' = bcontents b →
     (∀ o, r = Ok o → o = bcontents b !! k) → Q b' (Val r)) →
  mwp (on_storage (st_Get k)) Q b.
Proof.
  intros H. unfold mwp, on_storage.
  pose proof (Get_contents k (Storage b)) as Hc. pose proof (Get_Ok k (Storage b)) as Hg.
  destruct (st_Get k (Storage b)) as [s' r]. simpl in *. apply H; [done|].
  intros o ->. by apply Hg.
Qed.

Lemma mwp_Delete k b Q :
  (∀ b' r, bcontents b' = delete k (bcontents b) ∨
           (bcontents b' = bcontents b ∧ r ≠ Ok tt) → Q b' (Val r)) →
  mwp (on_storage (st_Delete k)) Q b.
Proof.
  intros H. unfold mwp, on_storage.
  pose proof (Delete_Ok k (Storage b)) as Hok. pose proof (Delete_Err k (Storage b)) as Herr.
  destruct (st_Delete k (Storage b)) as [s' [[]|e]]; simpl in *; apply H.
  - left. by apply Hok.
  - destruct (Herr e eq_refl) as [?|?]; [right|left]; done.
Qed.

Lemma mwp_List p b Q :
  (∀ b' r, bcontents b' = bcontents b →
     (∀ names, r = Ok names → NoDup names ∧ ∀ n, n ∈ names ↔
        ∃ k v, bcontents b !! k = Some v ∧ list_entry p k = Some n) → Q b' (Val r)) →
  mwp (on_storage (st_List p)) Q b.
Proof.
  intros H. unfold mwp, on_storage.
  pose proof (List_contents p (Storage b)) as Hc. pose proof (List_Ok p (Storage b)) as Hl.
  destruct (st_List p (Storage b)) as [s' r]. simpl in *. apply H; [done|].
  intros names ->. by apply Hl.
Qed.

Lemma mwp_loadKey name b Q :
  (∀ b' e, bcontents b' = bcontents b → Q b' (Val (Err e))) →
  (∀ b', bcontents b' = bcontents b → bcontents b !! skey name = None → Q b' (Val (Ok None))) →
  (∀ b' raw e, bcontents b' = bcontents b → bcontents b !! skey name = Some raw →
     DecodeEntry raw = Ok e → Q b' (Val (Ok (Some e)))) →
  mwp (loadKey name) Q b.
Proof.
  intros Herr Hnone Hsome. unfold mwp, loadKey, on_storage.
  pose proof (Get_contents (skey name) (Storage b)) as Hc.
  pose proof (Get_Ok (skey name) (Storage b)) as Hg. fold (skey name).
  destruct (st_Get (skey name) (Storage b)) as [s' [[raw|]|e]]; simpl in *; [|auto..].
  - specialize (Hg _ eq_refl). destruct (DecodeEntry raw) eqn:Hd; simpl; [|auto].
    by eapply Hsome.
  - apply Hnone; [done|]. symmetry. by apply Hg.
Qed.

Lemma mwp_storeKey name entry b Q :
  (∀ b' e, bcontents b' = bcontents b → Q b' (Val (Err e))) →
  (∀ b' r raw, EncodeEntry entry = Ok raw →
     bcontents b' = <[skey name := raw]> (bcontents b) → Q b' (Val r)) →
  mwp (storeKey name entry) Q b.
Proof.
  intros Herr Hok. unfold mwp, storeKey, on_storage.
  destruct (EncodeEntry entry) as [raw|e] eqn:Henc; [|by apply Herr]. fold (skey name).
  pose proof (Put_Ok (skey name) raw (Storage b)) as Hp.
  pose proof (Put_Err (skey name) raw (Storage b)) as He.
  destruct (st_Put (skey name) raw (Storage b)) as [s' [[]|e]]; simpl in *.
  - apply (Hok _ _ raw); [done|]. by apply Hp.
  - destruct (He e eq_refl) as [Hs|Hs]; [by apply Herr|]. by apply (Hok _ _ raw).
Qed.

Ltac plugin_step :=
  first [ wp_step
        | apply mwp_keyLock; intros ? ? ?
        | apply mwp_loadKey; intros
        | apply mwp_storeKey; intros
        | apply mwp_Get; intros
        | apply mwp_Delete; intros
        | apply mwp_List; intros
        | match goal with |- match ?r with Ok _ => _ | Err _ => _ end => destruct r end ];
  simplify_eq/=.
(** Express every intermediate storage through the initial one. *)
Ltac norm_contents :=
  repeat match goal with H : bcontents ?x = bcontents _ |- _ => rewrite H in *; clear H end.
Ltac plugin_wp := repeat plugin_step; norm_contents.

(** ** What each handler does to the storage *)

(** The handler leaves the storage alone. *)
Definition pure_reply (h : M B Reply) : Prop :=
  ∀ b, mwp h (λ b' _, bcontents b' = bcontents b) b.

Lemma handleReadKey_pure path data : pure_reply (handleReadKey path data).
Proof. intros b. unfold handleReadKey. by plugin_wp. Qed.

Lemma handleListKeys_pure data : pure_reply (handleListKeys data).
Proof. intros b. unfold handleListKeys. by plugin_wp. Qed.

Lemma handleSign_pure data : pure_reply (handleSign data).
Proof. intros b. unfold handleSign, fieldData. by plugin_wp. Qed.

(** Creation: either nothing is written, or the record of the request's name
    is, with fresh material when there was none and with the old material
    when the key had no chains. *)
Definition create_effect (env : Ambient) (name : string) (b b' : B) : Prop :=
  bcontents b' = bcontents b ∨
  ∃ chains e raw,
    KeyPathOk name ∧ Canonical chains ∧ EncodeEntry e = Ok raw ∧
    bcontents b' = <[skey name := raw]> (bcontents b) ∧
    ((bcontents b !! skey name = None ∧
      ∃ priv, GenerateKey env = Ok priv ∧ e = newEntry priv chains (Now env)) ∨
     (∃ raw0 e0, bcontents b !! skey name = Some raw0 ∧ DecodeEntry raw0 = Ok e0 ∧
        Chains e0 = [] ∧ e = set_Chains e0 chains)).

Lemma handleCreateKey_effect env path data b :
  mwp (handleCreateKey env path data)
      (λ b' _, create_effect env (keyName path data) b b') b.
Proof.
  unfold handleCreateKey. plugin_wp; try (by left); right; to_prop;
    do 3 eexists; (split_and!; [by apply Validate_KeyPathOk|by eapply ParseChains_Canonical|done..|]).
  all: first
    [ left; by eauto
    | right; do 2 eexists; split_and!; [eassumption|eassumption|by apply nil_length_inv|done] ].
Qed.

(** Widening: either nothing is written, or the record of an existing key is,
    with its material and the union of its chains and the requested ones. *)
Definition update_effect (name : string) (b b' : B) : Prop :=
  bcontents b' = bcontents b ∨
  ∃ raw0 e0 added merged raw,
    KeyPathOk name ∧ bcontents b !! skey name = Some raw0 ∧ DecodeEntry raw0 = Ok e0 ∧
    Canonical added ∧ Canonical merged ∧
    (∀ c, c ∈ merged ↔ c ∈ canonChain <$> Chains e0 ∨ c ∈ added) ∧
    EncodeEntry (set_Chains e0 merged) = Ok raw ∧
    bcontents b' = <[skey name := raw]> (bcontents b).

Lemma merged_members chains added merged :
  Canonical added → ParseChains (chains ++ chainsToStrings added) = Ok merged →
  ∀ c, c ∈ merged ↔ c ∈ canonChain <$> chains ∨ c ∈ added.
Proof.
  intros Ha Hp c. rewrite (elem_of_ParseChains _ _ _ Hp), fmap_app, elem_of_app.
  assert (c ∈ canonChain <$> chainsToStrings added ↔ c ∈ added) as ->; [|done].
  rewrite list_elem_of_fmap. split.
  - intros (c' & -> & Hc'). by rewrite (Canonical_canonChain _ _ Ha Hc').
  - intros Hc. exists c. by rewrite (Canonical_canonChain _ _ Ha Hc).
Qed.

Lemma handleUpdateChains_effect data b :
  mwp (handleUpdateChains data)
      (λ b' _, update_effect (default "" (fieldName <$> data)) b b') b.
Proof.
  unfold handleUpdateChains, fieldData. plugin_wp; try (by left); right; to_prop.
  all: match goal with
    Ha : ParseChains _ = Ok ?added, Hm : ParseChains (Chains ?e ++ chainsToStrings ?added) = Ok ?merged
    |- _ => eexists _, e, added, merged, _
    end; split_and!;
    [by apply Validate_KeyPathOk|eassumption|done|by eapply ParseChains_Canonical
    |by eapply ParseChains_Canonical
    |eapply merged_members; [by eapply ParseChains_Canonical|done]|eassumption|done].
Qed.

Lemma handleDeleteKey_effect path data b :
  mwp (handleDeleteKey path data)
      (λ b' _, bcontents b' = bcontents b ∨
               bcontents b' = delete (skey (keyName path data)) (bcontents b)) b.
Proof. unfold handleDeleteKey. plugin_wp; naive_solver. Qed.

Lemma handleKeyWrite_effect env path data b :
  mwp (handleKeyWrite env path data)
      (λ b' _, create_effect env (keyName path data) b b' ∨
               update_effect (default "" (fieldName <$> data)) b b') b.
Proof.
  unfold handleKeyWrite, fieldData. wp_step. wp_step. wp_step; repeat wp_step.
  - eapply mwp_mono; [apply handleCreateKey_effect|]. intros b' []; simpl; auto.
  - eapply mwp_mono; [apply handleUpdateChains_effect|]. intros b' []; simpl; auto.
  - left. by left.
Qed.

(** ** Simulation of the abstract machine *)

Lemma skey_inj name name' : skey name = skey name' → name = name'.
Proof. unfold skey. apply (inj _). Qed.

Lemma Rep_same m b b' : Rep m b → bcontents b' = bcontents b → Rep m b'.
Proof. intros HR Hc name. rewrite Hc. apply HR. Qed.

Lemma Rep_insert m b b' name e raw :
  Rep m b → EncodeEntry e = Ok raw → bcontents b' = <[skey name := raw]> (bcontents b) →
  Rep (<[name := e]> m) b'.
Proof.
  intros HR Henc Hc name'. rewrite Hc. destruct (decide (name = name')) as [<-|Hne].
  - rewrite !lookup_insert_eq. exists e. split; [|done]. by apply Decode_Encode.
  - rewrite !lookup_insert_ne; [apply HR|done|by intros ?%skey_inj].
Qed.

Lemma Rep_delete m b b' name :
  Rep m b → bcontents b' = delete (skey name) (bcontents b) → Rep (delete name m) b'.
Proof.
  intros HR Hc name'. rewrite Hc. destruct (decide (name = name')) as [<-|Hne].
  - by rewrite !lookup_delete_eq.
  - rewrite !lookup_delete_ne; [apply HR|done|by intros ?%skey_inj].
Qed.

Lemma Rep_None m b name : Rep m b → bcontents b !! skey name = None → m !! name = None.
Proof. intros HR Hn. specialize (HR name). by rewrite Hn in HR. Qed.

Lemma Rep_Some m b name raw e :
  Rep m b → bcontents b !! skey name = Some raw → DecodeEntry raw = Ok e → m !! name = Some e.
Proof. intros HR Hn He. specialize (HR name). rewrite Hn in HR. destruct HR as (e' & He' & ?). congruence. Qed.

Lemma create_simulates env name m b b' :
  Rep m b → create_effect env name b b' → ∃ m', kstep m m' ∧ Rep m' b'.
Proof.
  intros HR [Hc|(chains & e & raw & Hn & Hcan & Henc & Hc & Hcase)].
  - exists m. split; [constructor|by eapply Rep_same].
  - exists (<[name := e]> m). split; [|by eapply Rep_insert].
    destruct Hcase as [[Hnone (priv & _ & ->)]|(raw0 & e0 & Hsome & Hdec & Hnil & ->)].
    + apply k_create; eauto using Rep_None.
    + eapply k_backfill; eauto using Rep_Some.
Qed.

Lemma update_simulates name m b b' :
  Rep m b → update_effect name b b' → ∃ m', kstep m m' ∧ Rep m' b'.
Proof.
  intros HR [Hc|(raw0 & e0 & added & merged & raw & Hn & Hsome & Hdec & Ha & Hm & Hiff & Henc & Hc)].
  - exists m. split; [constructor|by eapply Rep_same].
  - exists (<[name := set_Chains e0 merged]> m). split; [|by eapply Rep_insert].
    apply (k_widen m name e0 added merged); [done|by eapply Rep_Some|done..].
Qed.

Lemma delete_simulates name m b b' :
  Rep m b →
  bcontents b' = bcontents b ∨ bcontents b' = delete (skey name) (bcontents b) →
  ∃ m', kstep m m' ∧ Rep m' b'.
Proof.
  intros HR [Hc|Hc].
  - exists m. split; [constructor|by eapply Rep_same].
  - exists (delete name m). split; [constructor|by eapply Rep_delete].
Qed.

Lemma skip_simulates m b b' :
  Rep m b → bcontents b' = bcontents b → ∃ m', kstep m m' ∧ Rep m' b'.
Proof. intros HR Hc. exists m. split; [constructor|by eapply Rep_same]. Qed.

Lemma plugin_step_simulates m b b' :
  Rep m b → plugin_step b b' → ∃ m', kstep m m' ∧ Rep m' b'.
Proof.
  intros HR (pat & op & h & env & path & data & o & Hop & Hrun).
  destruct pat, op; simpl in Hop; simplify_eq.
  - eapply skip_simulates; [done|]. by apply (mwp_run _ _ _ _ _ (handleListKeys_pure data b) Hrun).
  - eapply create_simulates; [done|].
    by apply (mwp_run _ _ _ _ _ (handleCreateKey_effect env path data b) Hrun).
  - destruct (mwp_run _ _ _ _ _ (handleKeyWrite_effect env path data b) Hrun);
      [by eapply create_simulates|by eapply update_simulates].
  - eapply skip_simulates; [done|]. by apply (mwp_run _ _ _ _ _ (handleReadKey_pure path data b) Hrun).
  - eapply delete_simulates; [done|].
    by apply (mwp_run _ _ _ _ _ (handleDeleteKey_effect path data b) Hrun).
  - eapply skip_simulates; [done|]. by apply (mwp_run _ _ _ _ _ (handleListKeys_pure data b) Hrun).
  - eapply skip_simulates; [done|]. by apply (mwp_run _ _ _ _ _ (handleSign_pure data b) Hrun).
Qed.

Lemma plugin_run_simulates m b b' :
  Rep m b → rtc plugin_step b b' → ∃ m', rtc kstep m m' ∧ Rep m' b'.
Proof.
  intros HR Hrun. revert m HR. induction Hrun as [b|b1 b2 b3 Hs Hrun IH]; intros m HR.
  - exists m. split; [constructor|done].
  - destruct (plugin_step_simulates _ _ _ HR Hs) as (m2 & Hk & HR2).
    destruct (IH _ HR2) as (m3 & Hks & HR3). exists m3. split; [|done]. by econstructor.
Qed.

Lemma Rep_empty b : (∀ name, bcontents b !! skey name = None) → Rep ∅ b.
Proof. intros Hb name. by rewrite Hb. Qed.

(** ** Requests to a fault-free vault *)

Context {SH : StorageHealth S}.

(** The vault stores the key map [m] and storage calls succeed. *)
Definition serves (m : gmap string KeyEntry) (b : B) : Prop :=
  Rep m b ∧ healthy (Storage b).

Lemma mwp_loadKey_serves m name b Q :
  serves m b → (∀ b', serves m b' → Q b' (Val (Ok (m !! name)))) → mwp (loadKey name) Q b.
Proof.
  intros [HR Hh] HQ. unfold mwp, loadKey, on_storage. fold (skey name).
  pose proof (Get_contents (skey name) (Storage b)) as Hc.
  pose proof (Get_Ok (skey name) (Storage b)) as Hg.
  destruct (healthy_Get (skey name) _ Hh) as [Hh' [r Hr]]. specialize (HR name) as HRn.
  unfold bcontents in HRn.
  destruct (st_Get (skey name) (Storage b)) as [s' [r'|e]]; simpl in *; [|done].
  injection Hr as ->. rewrite <- (Hg _ eq_refl) in HRn.
  assert (serves m (mkBackend (keyLocks b) s')) as Hs by (split; [by eapply Rep_same|done]).
  destruct r as [raw|]; simpl in *.
  - destruct HRn as (e & -> & He). rewrite <- He. by apply HQ.
  - rewrite <- HRn. by apply HQ.
Qed.

Lemma mwp_storeKey_serves m name e b Q :
  serves m b → (∃ raw, EncodeEntry e = Ok raw) →
  (∀ b', serves (<[name := e]> m) b' → Q b' (Val (Ok tt))) → mwp (storeKey name e) Q b.
Proof.
  intros [HR Hh] [raw Henc] HQ. unfold mwp, storeKey, on_storage. fold (skey name). rewrite Henc.
  pose proof (Put_Ok (skey name) raw (Storage b)) as Hp.
  destruct (healthy_Put (skey name) raw _ Hh) as [Hh' Hr].
  destruct (st_Put (skey name) raw (Storage b)) as [s' r]; simpl in *; subst.
  apply HQ. split; [|done]. by eapply Rep_insert; [..|apply Hp].
Qed.

Lemma mwp_keyLock_serves m name b Q :
  serves m b → (∀ b', serves m b' → Q b' (Val tt)) → mwp (keyLock name) Q b.
Proof. intros Hs HQ. by apply HQ. Qed.

(** Two equations for the same computation. *)
Ltac unify_results :=
  repeat match goal with
  | H1 : ?x = Ok ?a, H2 : ?x = Ok ?b |- _ =>
      assert (a = b) by congruence; subst; clear H2
  end.
(** Close the branches that the request rules out. *)
Ltac request :=
  repeat wp_step; to_prop; simplify_eq; try congruence; unify_results.

(** ** Signing *)

(** A well-formed sign request for the named key, chain and digest. *)
Definition sign_request (data : option FieldData) (name chain : string) (digest : bytes) : Prop :=
  ∃ fd v w, data = Some fd ∧ fieldName fd = name ∧ KeyPathOk name ∧
    GetOk fd "input" = Some v ∧ hex_DecodeString (as_string_or_zero v) = inr digest ∧
    length digest = 32 ∧
    GetOk fd "chain" = Some w ∧ canonChain (as_string_or_zero w) = chain ∧ chain ≠ "".

(** The reply to a sign request for an entry: denied unless the chain is in
    the allow-list, otherwise the two halves of the signature. *)
Definition sign_reply (name chain : string) (digest : bytes) (o : option KeyEntry) : Reply :=
  match o with
  | None => errorReply ("key not found: " +:+ name)
  | Some e =>
      if decide (chain ∈ Chains e) then
        match ToECDSA (PrivateKey e) with
        | Err err => failReply (Errorf_w "decode stored private key: " err "")
        | Ok priv =>
            match Sign digest priv with
            | Err err => failReply (Errorf_w "secp256k1 sign: " err "")
            | Ok sig =>
                if length sig =? 65 then
                  (Some (DataResponse
                    (<["r" := AString (hex_EncodeToString (take 32 sig))]>
                    (<["s" := AString (hex_EncodeToString (take 32 (drop 32 sig)))]> ∅))), None)
                else failReply (errors_New ("unexpected signature length " +:+ pretty (length sig)))
            end
        end
      else (Some (ErrorResponse ("key " +:+ name +:+ " not authorized for " +:+ chain +:+
                     " signing (allowed chains: [" +:+ Join (sort_Strings (Chains e)) " " +:+ "])")),
            Some errPermissionDenied)
  end.

Lemma containsChain_sorted chains c :
  containsChain (sort_Strings chains) c = bool_decide (c ∈ chains).
Proof.
  apply Bool.eq_iff_eq_true.
  by rewrite containsChain_spec, elem_of_sort_Strings, bool_decide_eq_true.
Qed.

Lemma handleSign_run m data name chain digest b :
  sign_request data name chain digest → serves m b →
  ∃ b', handleSign data b = (b', Val (sign_reply name chain digest (m !! name))) ∧ serves m b'.
Proof.
  intros (fd & v & w & -> & <- & Hn & Hv & Hhex & Hlen & Hw & <- & Hchain) Hs.
  apply Validate_KeyPathOk in Hn as HV. apply mwp_val.
  unfold handleSign, fieldData. request.
  1: by destruct (KeyPathOk_nonempty _ Hn).
  1: by destruct (as_string_or_zero v); simplify_eq/=.
  assert (l = digest) as -> by congruence.
  eapply mwp_loadKey_serves; [done|]. intros b1 Hb1. unfold sign_reply.
  destruct (m !! fieldName fd) as [e|]; [|by repeat wp_step].
  request; rewrite ?containsChain_sorted in *; to_prop;
    fold (canonChain (as_string_or_zero w)) in *.
  all: first [rewrite decide_False by done | rewrite decide_True by done]; try done.
  all: repeat match goal with H : ?x = _ |- context [match ?x with _ => _ end] => rewrite H end.
  all: try done; case_match; to_prop; done.
Qed.

(** [d] is a signature reply justified by the request and the storage. *)
Definition signed (data : option FieldData) (b : B) (d : gmap string any) : Prop :=
  ∃ name chain digest raw e priv sig,
    sign_request data name chain digest ∧
    bcontents b !! skey name = Some raw ∧ DecodeEntry raw = Ok e ∧ chain ∈ Chains e ∧
    ToECDSA (PrivateKey e) = Ok priv ∧ Sign digest priv = Ok sig ∧ length sig = 65 ∧
    d = <["r" := AString (hex_EncodeToString (take 32 sig))]>
        (<["s" := AString (hex_EncodeToString (take 32 (drop 32 sig)))]> ∅).

Lemma handleSign_signed data b d err :
  mwp (handleSign data)
      (λ b' o, o = Val (Some (DataResponse d), err) → signed data b d ∧ err = None) b.
Proof.
  unfold handleSign, fieldData. plugin_wp; intros Heq; to_prop; simplify_eq.
  rewrite containsChain_sorted in *; to_prop. split; [|done].
  do 7 eexists. split_and!; try done.
  do 3 eexists. split_and!; try done. by apply Validate_KeyPathOk.
Qed.

(** ** Creating *)

(** A well-formed create request for the named key and chains. *)
Definition create_request (path : string) (data : option FieldData) (name : string)
    (chains : list string) : Prop :=
  keyName path data = name ∧ KeyPathOk name ∧
  ∃ raw, requestChains data = Ok raw ∧ ParseChains raw = Ok chains.

(** The key map after a create request, and its reply: a fresh key at a free
    name, the chains back-filled on a key that has none, and an existing key
    returned as it is when the chains agree. *)
Definition create_map (env : Ambient) (name : string) (chains : list string)
    (m : gmap string KeyEntry) : gmap string KeyEntry :=
  match m !! name, GenerateKey env with
  | None, Ok priv => <[name := newEntry priv chains (Now env)]> m
  | None, Err _ => m
  | Some e, _ => if decide (Chains e = []) then <[name := set_Chains e chains]> m else m
  end.

Definition create_reply (env : Ambient) (name : string) (chains : list string)
    (m : gmap string KeyEntry) : Reply :=
  match create_map env name chains m !! name, GenerateKey env with
  | Some e, _ =>
      if decide (Chains e ≡ₚ chains) then (Some (keyInfoResponse e), None)
      else (Some (ErrorResponse "chains mismatch on idempotent create"), Some errInvalidRequest)
  | None, Err err => failReply (Errorf_w "generate secp256k1 key: " err "")
  | None, Ok _ => (None, None)
  end.

(** The record a create request would write can be encoded. *)
Definition storable (m : gmap string KeyEntry) (name : string) : Prop :=
  ∀ e, m !! name = Some e → ∃ raw, EncodeEntry e = Ok raw.

Lemma handleCreateKey_run env path data name chains m b :
  create_request path data name chains → serves m b →
  ((∀ e, m !! name = Some e → Chains e = []) → storable (create_map env name chains m) name) →
  ∃ b', handleCreateKey env path data b = (b', Val (create_reply env name chains m)) ∧
        serves (create_map env name chains m) b'.
Proof.
  intros (<- & Hn & raw & Hreq & Hparse) Hs Henc. apply Validate_KeyPathOk in Hn as HV.
  apply mwp_val. unfold handleCreateKey. request.
  1: by destruct (KeyPathOk_nonempty _ Hn).
  apply mwp_keyLock_serves with m; [done|]. intros b1 Hb1. request.
  eapply mwp_loadKey_serves; [done|]. intros b2 Hb2.
  unfold create_reply, create_map in *.
  destruct (m !! keyName path data) as [e|] eqn:He.
  - destruct (decide (Chains e = [])) as [Hnil|Hnil].
    + specialize (Henc ltac:(by intros ? [= <-])) as Hst. unfold storable in Hst. rewrite lookup_insert_eq in *.
      rewrite Hnil. simpl. repeat wp_step.
      eapply mwp_storeKey_serves; [done|by eauto|]. intros b3 Hb3.
      rewrite decide_True by done. by repeat wp_step.
    + destruct (Nat.eqb_spec (length (Chains e)) 0) as [?%nil_length_inv|_]; [done|]. rewrite He.
      wp_step. wp_step; repeat wp_step; to_prop.
      * rewrite decide_False; [done|]. by intros ?%sameChainSet_perm%not_false_iff_true.
      * rewrite decide_True; [done|]. by apply sameChainSet_perm.
  - destruct (GenerateKey env) as [priv|err] eqn:Hg; [|request; by rewrite He].
    specialize (Henc ltac:(done)) as Hst. unfold storable in Hst. request. rewrite lookup_insert_eq in *.
    eapply mwp_storeKey_serves; [done|by eauto|]. intros b3 Hb3.
    rewrite decide_True by done. by repeat wp_step.
Qed.

(** ** Widening *)

(** A well-formed request that adds chains to the named key. *)
Definition update_request (data : option FieldData) (name : string) (added : list string) : Prop :=
  ∃ fd raw, data = Some fd ∧ updateChainsOnlyAdditions data = Ok tt ∧
    fieldName fd = name ∧ KeyPathOk name ∧
    requestAddChains data = Ok raw ∧ ParseChains raw = Ok added.

Definition update_map (name : string) (added : list string) (m : gmap string KeyEntry)
    : gmap string KeyEntry :=
  match m !! name with
  | Some e =>
      match ParseChains (Chains e ++ added) with
      | Ok merged => if decide (Chains e ≡ₚ merged) then m else <[name := set_Chains e merged]> m
      | Err _ => m
      end
  | None => m
  end.

Definition update_reply (name : string) (added : list string) (m : gmap string KeyEntry) : Reply :=
  match m !! name with
  | Some e =>
      match ParseChains (Chains e ++ added) with
      | Ok merged => (Some (updateChainsResponse name merged), None)
      | Err err => invalidReply err
      end
  | None => errorReply ("key not found: " +:+ name)
  end.

Lemma handleUpdateChains_run data name added m b :
  update_request data name added → serves m b → storable (update_map name added m) name →
  ∃ b', handleUpdateChains data b = (b', Val (update_reply name added m)) ∧
        serves (update_map name added m) b'.
Proof.
  intros (fd & raw & -> & Hok & <- & Hn & Hreq & Hparse) Hs Henc.
  apply Validate_KeyPathOk in Hn as HV. apply mwp_val.
  unfold handleUpdateChains, fieldData. request.
  1: by destruct (KeyPathOk_nonempty _ Hn).
  apply mwp_keyLock_serves with m; [done|]. intros b1 Hb1. request.
  eapply mwp_loadKey_serves; [done|]. intros b2 Hb2.
  unfold update_reply, update_map in *. unfold storable in Henc.
  destruct (m !! fieldName fd) as [e|] eqn:He; [|by repeat wp_step].
  unfold chainsToStrings in *. destruct (ParseChains (Chains e ++ _)) as [merged|err] eqn:Hm; request.
  - rewrite decide_True; [done|]. by apply sameChainSet_perm.
  - rewrite decide_False in * by (by intros ?%sameChainSet_perm%not_false_iff_true).
    rewrite lookup_insert_eq in Henc.
    eapply mwp_storeKey_serves; [done|by eauto|]. intros b3 Hb3. by repeat wp_step.
  - done.
Qed.

(** ** Reading, deleting, listing *)

Lemma handleReadKey_run path data m b :
  keyName path data ≠ "" → serves m b →
  ∃ b', handleReadKey path data b
        = (b', Val (keyInfoResponse <$> (m !! keyName path data), None)) ∧ serves m b'.
Proof.
  intros Hn Hs. apply mwp_val. unfold handleReadKey. request.
  eapply mwp_loadKey_serves; [done|]. intros b1 Hb1.
  destruct (m !! keyName path data); by repeat wp_step.
Qed.

Lemma handleDeleteKey_run path data m b :
  keyName path data ≠ "" → serves m b →
  ∃ b', handleDeleteKey path data b = (b', Val (None, None)) ∧
        serves (delete (keyName path data) m) b'.
Proof.
  intros Hn [HR Hh]. apply mwp_val. unfold handleDeleteKey. request.
  unfold mwp, on_storage. fold (skey (keyName path data)).
  pose proof (Delete_Ok (skey (keyName path data)) (Storage b)) as Hd.
  destruct (healthy_Delete (skey (keyName path data)) _ Hh) as [Hh' Hr].
  destruct (st_Delete _ (Storage b)) as [s' r]; simpl in *; subst.
  repeat wp_step. split; [done|]. split; [|done]. eapply Rep_delete; [done|]. by apply Hd.
Qed.
End refinement.
