(* ===== verification/PluginTheorems.v ===== *)
(** * Theorems about the Vault plugin

    The claims about [internal/plugin], each derived from the simulation and
    the request lemmas of [PluginProps] and run on the in-memory vault. *)

From stdpp Require Import relations.
From S2P Require Import Prelude GoLib Types KeyPath Crypto Plugin KeyManager PluginModel.
From S2P Require Import PluginProps.

(** ** The in-memory vault of the witnesses *)

Module PluginWitness.
Import ToyCrypto MemVault.

Definition alice : string := "acme/prod/alice".
Definition digest : bytes := replicate 32 Byte.x2a.
Definition alice_entry : KeyEntry := newEntry (C:=toy) Byte.x07 ["cosmos"; "evm"] 0.
Definition alice_create : option FieldData := create_fields alice "evm,cosmos".

(** The vault after one create request. *)
Definition alice_vault : backend mem :=
  (handleCreateKey (env_key Byte.x07) "keys/acme/prod/alice" alice_create empty_vault).1.

Lemma KeyPathOk_alice : KeyPathOk alice.
Proof. by apply Validate_KeyPathOk. Qed.

Lemma empty_serves : serves ∅ empty_vault.
Proof. split; [|done]. by apply Rep_empty. Qed.

Lemma alice_request : create_request "keys/acme/prod/alice" alice_create alice ["cosmos"; "evm"].
Proof.
  split_and!; [done|apply KeyPathOk_alice|]. exists ["evm"; "cosmos"]. by split; vm_compute.
Qed.

Lemma alice_storable : storable {[alice := alice_entry]} alice.
Proof. intros e. rewrite lookup_singleton_eq. intros [= <-]. eexists. by vm_compute. Qed.

Lemma alice_serves : serves {[alice := alice_entry]} alice_vault.
Proof.
  destruct (handleCreateKey_run (env_key Byte.x07) _ _ _ _ _ _ alice_request empty_serves
              (λ _, alice_storable)) as (b' & Hrun & Hs).
  unfold alice_vault. by rewrite Hrun.
Qed.

Lemma alice_keymap_ok : keymap_ok {[alice := alice_entry]}.
Proof. apply keymap_ok_insert; [apply empty_ok|apply KeyPathOk_alice|]. by apply newEntry_ok; exists true, true. Qed.
End PluginWitness.

(** ** The plugin implements the key manager *)

Section theorems.
Context {C : EthCrypto} {S : Type} {St : LogicalStorage S} {SL : LogicalStorageLaws S}
        {E : EntryCodec} {EL : EntryCodecLaws E}.

Abbreviation B := (backend S).


(** C2. Invariant: every record reachable from an empty mount lies at a valid
    three-segment name, carries the public key and address of its private
    key, and has a canonical, non-empty chain allow-list. *)
Theorem plugin_reachable_ok (b b' : B) (name : string) (raw : bytes) :
  (∀ n, bcontents b !! skey n = None) → rtc plugin_step b b' →
  bcontents b' !! skey name = Some raw →
  ∃ e, DecodeEntry raw = Ok e ∧ KeyPathOk name ∧ entry_ok e.
Proof.
  intros Hb Hrun Hraw. destruct (plugin_run_simulates ∅ b b') as (m' & Hks & HR);
    [by apply Rep_empty|done|].
  pose proof (HR name) as Hn. rewrite Hraw in Hn. destruct Hn as (e & Hdec & He).
  exists e. split; [done|]. by apply (kreachable_ok _ _ Hks empty_ok).
Qed.

(** One request that is not a delete. *)
Definition plugin_keep_step (b b' : B) : Prop :=
  ∃ pat op h env path data o,
    op ≠ DeleteOperation ∧ operations pat op = Some h ∧ h env path data b = (b', o).

Lemma keep_step_effect m b b' name :
  Rep m b → plugin_keep_step b b' → is_Some (m !! name) →
  ∃ m', kstep m m' ∧ Rep m' b' ∧ is_Some (m' !! name).
Proof.
  intros HR (pat & op & h & env & path & data & o & Hnd & Hop & Hrun) [e He].
  destruct (plugin_step_simulates m b b') as (m' & Hk & HR'); [done|by repeat eexists|].
  exists m'. split_and!; [done..|].
  assert (∀ k, is_Some (bcontents b !! k) → is_Some (bcontents b' !! k)) as Hmono.
  { intros k Hk'.
    assert (bcontents b' = bcontents b ∨ ∃ k' raw, bcontents b' = <[k' := raw]> (bcontents b))
      as [->|(k' & raw & ->)]; [|done|rewrite lookup_insert; by case_decide].
    destruct pat, op; simpl in Hop; simplify_eq; try done.
    - left. by apply (mwp_run _ _ _ _ _ (handleListKeys_pure data b) Hrun).
    - destruct (mwp_run _ _ _ _ _ (handleCreateKey_effect env path data b) Hrun)
        as [|(? & ? & ? & ? & ? & ? & ? & ?)]; eauto.
    - destruct (mwp_run _ _ _ _ _ (handleKeyWrite_effect env path data b) Hrun)
        as [[|(? & ? & ? & ? & ? & ? & ? & ?)]|[|(? & ? & ? & ? & ? & ? & ? & ? & ? & ? & ? & ? & ?)]];
        eauto.
    - left. by apply (mwp_run _ _ _ _ _ (handleReadKey_pure path data b) Hrun).
    - left. by apply (mwp_run _ _ _ _ _ (handleListKeys_pure data b) Hrun).
    - left. by apply (mwp_run _ _ _ _ _ (handleSign_pure data b) Hrun). }
  specialize (Hmono (skey name)). pose proof (HR name) as Hn. pose proof (HR' name) as Hn'.
  destruct (bcontents b !! skey name) as [raw|]; [|congruence].
  destruct Hmono as [raw' Hraw']; [done|]. rewrite Hraw' in Hn'. naive_solver.
Qed.

(** C4. Key stability: across any run of requests that are not deletes, a
    stored key keeps its private key, public key, address, source and creation
    time, and no chain is ever removed from its allow-list. *)
Theorem plugin_keeps_material (m : gmap string KeyEntry) (b b' : B) (name : string) (e : KeyEntry) :
  Rep m b → keymap_ok m → m !! name = Some e → rtc plugin_keep_step b b' →
  ∃ m' e', Rep m' b' ∧ m' !! name = Some e' ∧ material e' = material e ∧ Chains e ⊆ Chains e'.
Proof.
  intros HR Hok He Hrun.
  assert (∃ m', kept name m m' ∧ Rep m' b') as (m' & Hk & HR').
  { assert (is_Some (m !! name)) as Hs by eauto. clear e He. revert m HR Hok Hs.
    induction Hrun as [b|b1 b2 b3 Hstep Hrun IH]; intros m HR Hok Hs.
    - exists m. split; [constructor|done].
    - destruct (keep_step_effect m b1 b2 name HR Hstep Hs) as (m2 & Hk & HR2 & Hs2).
      destruct (IH m2 HR2 (kstep_ok _ _ Hk Hok) Hs2) as (m3 & Hk3 & HR3).
      exists m3. split; [by econstructor|done]. }
  destruct (kept_material name m m' e Hk He Hok) as (e' & ? & ? & ?). eauto 6.
Qed.
End theorems.

(** ** Signing, creating, widening: what the replies say *)

Section requests.
Context {C : EthCrypto} {CL : EthCryptoLaws C}
        {S : Type} {St : LogicalStorage S} {SL : LogicalStorageLaws S} {SH : StorageHealth S}
        {E : EntryCodec} {EL : EntryCodecLaws E}.

Abbreviation B := (backend S).

(** C3. Safety of signing, for an arbitrary request against arbitrary (even
    faulty) storage: a reply that carries a signature is only given for a
    stored key whose allow-list has the requested chain, and the signature is
    the one that key makes of the 32-byte digest in the request. *)
Theorem handleSign_authorized (data : option FieldData) (b b' : B) (d : gmap string any)
    (err : option error) :
  handleSign data b = (b', Val (Some (DataResponse d), err)) →
  signed data b d ∧ err = None ∧ bcontents b' = bcontents b.
Proof.
  intros Hrun.
  destruct (mwp_run _ _ _ _ _ (handleSign_signed data b d err) Hrun eq_refl).
  pose proof (mwp_run _ _ _ _ _ (handleSign_pure data b) Hrun). done.
Qed.

(** Functional behaviour of signing on a fault-free vault: a well-formed
    request is answered by [sign_reply] of the stored entry (denied outside
    the allow-list, otherwise the halves of the signature), and the stored
    keys are unchanged. *)
Theorem handleSign_functional (m : gmap string KeyEntry) (data : option FieldData)
    (name chain : string) (digest : bytes) (b : B) :
  sign_request data name chain digest → serves m b →
  ∃ b', handleSign data b = (b', Val (sign_reply name chain digest (m !! name))) ∧ serves m b'.
Proof. apply handleSign_run. Qed.

(** C31. Functional behaviour of creation on a fault-free vault, on every
    branch: a fresh key at a free name, back-fill of a key without chains,
    the stored key unchanged when the chains agree, a mismatch error when
    they do not, and the generator's error. *)
Theorem handleCreateKey_functional (env : Ambient) (path : string) (data : option FieldData)
    (name : string) (chains : list string) (m : gmap string KeyEntry) (b : B) :
  create_request path data name chains → serves m b →
  storable (create_map env name chains m) name →
  ∃ b', handleCreateKey env path data b = (b', Val (create_reply env name chains m)) ∧
        serves (create_map env name chains m) b'.
Proof. intros Hreq Hs Hst. by apply handleCreateKey_run. Qed.

Lemma create_map_idempotent env env' name chains m :
  Canonical chains → is_Some (create_map env name chains m !! name) →
  create_map env' name chains (create_map env name chains m) = create_map env name chains m.
Proof.
  intros Hc [e He]. unfold create_map at 1. rewrite He.
  case_decide as Hnil; [|done]. exfalso. unfold create_map in He.
  assert (chains ≠ []) by (by destruct Hc as (? & ? & _ & ?)).
  destruct (m !! name) as [e0|] eqn:He0.
  - case_decide; [|congruence]. rewrite lookup_insert_eq in He. by simplify_eq.
  - destruct (GenerateKey env); [|congruence]. rewrite lookup_insert_eq in He. by simplify_eq.
Qed.

(** Creation is idempotent: a second create with the same name and
    chains, whatever key its generator would draw, changes nothing and returns
    the same public key information. *)
Theorem handleCreateKey_idempotent (env env' : Ambient) (path : string) (data : option FieldData)
    (name : string) (chains : list string) (m : gmap string KeyEntry) (b b1 : B) (d : gmap string any) :
  create_request path data name chains → serves m b →
  storable (create_map env name chains m) name →
  handleCreateKey env path data b = (b1, Val (Some (DataResponse d), None)) →
  ∃ b2, handleCreateKey env' path data b1 = (b2, Val (Some (DataResponse d), None)) ∧
        serves (create_map env name chains m) b1 ∧ serves (create_map env name chains m) b2.
Proof.
  intros Hreq Hs Hst Hrun.
  destruct (handleCreateKey_run env path data name chains m b Hreq Hs (λ _, Hst)) as (b1' & Hrun' & Hs1).
  rewrite Hrun in Hrun'. injection Hrun' as <- Hrep.
  assert (Canonical chains) as Hc.
  { destruct Hreq as (_ & _ & raw & _ & Hp). by eapply ParseChains_Canonical. }
  unfold create_reply in Hrep.
  destruct (create_map env name chains m !! name) as [e|] eqn:He; [|by destruct (GenerateKey env)].
  pose proof (create_map_idempotent env env' name chains m Hc) as Hid. rewrite He in Hid.
  specialize (Hid (mk_is_Some _ _ eq_refl)).
  destruct (handleCreateKey_run env' path data name chains _ b1 Hreq Hs1) as (b2 & Hrun2 & Hs2).
  { by rewrite Hid. }
  exists b2. rewrite Hid in Hs2. split_and!; [|done..]. rewrite Hrun2. unfold create_reply.
  by rewrite Hid, He, <- Hrep.
Qed.

(** Round trip: a signature requested from a freshly created key for one
    of its chains is a pair [(r, s)] from which, with one of the two recovery
    ids, the digest recovers exactly the public key the create reply shows. *)
Theorem create_then_sign (env : Ambient) (path : string) (data sign_data : option FieldData)
    (name chain : string) (chains : list string) (digest : bytes) (priv : PrivKey)
    (m : gmap string KeyEntry) (b : B) :
  create_request path data name chains → serves m b → m !! name = None →
  GenerateKey env = Ok priv → storable (create_map env name chains m) name →
  sign_request sign_data name chain digest → chain ∈ chains →
  ∃ b1 b2 info r s v,
    handleCreateKey env path data b = (b1, Val (Some (DataResponse info), None)) ∧
    info !! "compressed_pub_key"
      = Some (AString (b64_Encode StdEncoding (CompressPubkey (PublicKey priv)))) ∧
    handleSign sign_data b1
      = (b2, Val (Some (DataResponse (<["r" := AString (hex_EncodeToString r)]>
                                     (<["s" := AString (hex_EncodeToString s)]> ∅))), None)) ∧
    length r = 32 ∧ length s = 32 ∧ (v = Byte.x00 ∨ v = Byte.x01) ∧
    Ecrecover digest (r ++ s ++ [v]) = Ok (FromECDSAPub (PublicKey priv)).
Proof.
  intros Hreq Hs Hnone Hgen Hst Hsign Hin.
  destruct (handleCreateKey_run env path data name chains m b Hreq Hs (λ _, Hst)) as (b1 & Hrun1 & Hs1).
  destruct (handleSign_run _ sign_data name chain digest b1 Hsign Hs1) as (b2 & Hrun2 & _).
  unfold create_reply in Hrun1. unfold create_map in *. rewrite Hnone, Hgen in *.
  rewrite lookup_insert_eq in *. simpl in *. rewrite decide_True in Hrun1 by done.
  rewrite decide_True, ToECDSA_FromECDSA in Hrun2 by done.
  assert (length digest = 32) as Hlen by (by destruct Hsign as (?&?&?&?&?&?&?&?&?&?)).
  destruct (Sign_digest digest priv Hlen) as (r & s & v & HS & Hr & Hss & Hv & Hrec).
  rewrite HS, (take_app_length' r) in Hrun2 by done.
  rewrite (drop_app_length' r), (take_app_length' s), !length_app, Hr, Hss in Hrun2 by done.
  exists b1, b2, (keyInfoData (newEntry priv chains (Now env))), r, s, v. split_and!; done.
Qed.

(** Functional behaviour of the chain update on a fault-free vault: an
    existing key's allow-list becomes the canonical union of its chains and
    the added ones, nothing else changes, and a missing key is reported. *)
Theorem handleUpdateChains_functional (data : option FieldData) (name : string)
    (added : list string) (m : gmap string KeyEntry) (b : B) :
  update_request data name added → serves m b → storable (update_map name added m) name →
  ∃ b', handleUpdateChains data b = (b', Val (update_reply name added m)) ∧
        serves (update_map name added m) b'.
Proof. apply handleUpdateChains_run. Qed.

(** Deletion: after a delete the key reads as absent, signing with it is
    refused as not found, and every other key is as before. *)
Theorem handleDeleteKey_removes (path : string) (data sign_data : option FieldData)
    (name chain : string) (digest : bytes) (m : gmap string KeyEntry) (b : B) :
  keyName path data = name → sign_request sign_data name chain digest → serves m b →
  ∃ b1 b2 b3,
    handleDeleteKey path data b = (b1, Val (None, None)) ∧ serves (delete name m) b1 ∧
    handleReadKey path data b1 = (b2, Val (None, None)) ∧
    handleSign sign_data b1 = (b3, Val (errorReply ("key not found: " +:+ name))).
Proof.
  intros Hname Hsign Hs.
  assert (KeyPathOk name) as Hne%KeyPathOk_nonempty by (by destruct Hsign as (?&?&?&?&?&?&?)).
  rewrite <- Hname in Hne.
  destruct (handleDeleteKey_run path data m b Hne Hs) as (b1 & Hd & Hs1).
  destruct (handleReadKey_run path data _ b1 Hne Hs1) as (b2 & Hr & _).
  destruct (handleSign_run _ sign_data name chain digest b1 Hsign Hs1) as (b3 & Hg & _).
  rewrite Hname in *. rewrite lookup_delete_eq in *. by exists b1, b2, b3.
Qed.

(** An entry without its private key. *)
Definition public (e : KeyEntry) : KeyEntry :=
  mkKeyEntry [] (CompressedPubKey e) (EVMAddress e) (Chains e) (Source e) (CreatedAt e) (ImportedAt e).

Lemma public_keyInfo e1 e2 : public e1 = public e2 → keyInfoResponse e1 = keyInfoResponse e2.
Proof.
  intros Heq. change (keyInfoResponse (public e1) = keyInfoResponse (public e2)). by rewrite Heq.
Qed.

Lemma public_lookup (m1 m2 : gmap string KeyEntry) name :
  public <$> m1 = public <$> m2 → public <$> (m1 !! name) = public <$> (m2 !! name).
Proof. intros Heq. by rewrite <- !lookup_fmap, Heq. Qed.

Lemma public_create_map env name chains (m1 m2 : gmap string KeyEntry) :
  public <$> m1 = public <$> m2 →
  public <$> create_map env name chains m1 = public <$> create_map env name chains m2.
Proof.
  intros Heq. unfold create_map. pose proof (public_lookup _ _ name Heq) as Hn.
  destruct (m1 !! name) as [e1|], (m2 !! name) as [e2|]; simpl in Hn; try done.
  - injection Hn as ? ? Hch ? ? ?. rewrite Hch. case_decide; [|done].
    rewrite !fmap_insert, Heq. unfold public. simpl. by do 2 f_equal.
  - destruct (GenerateKey env); [|done]. by rewrite !fmap_insert, Heq.
Qed.

(** C32. Confidentiality: on two vaults that differ only in the private keys
    they store, reading a key and creating one (idempotently or afresh) give
    the same replies. *)
Theorem replies_hide_private_keys (env : Ambient) (path : string) (data : option FieldData)
    (name : string) (chains : list string) (m1 m2 : gmap string KeyEntry) (b1 b2 : B) :
  create_request path data name chains →
  serves m1 b1 → serves m2 b2 → public <$> m1 = public <$> m2 →
  storable (create_map env name chains m1) name → storable (create_map env name chains m2) name →
  (handleReadKey path data b1).2 = (handleReadKey path data b2).2 ∧
  (handleCreateKey env path data b1).2 = (handleCreateKey env path data b2).2.
Proof.
  intros Hreq Hs1 Hs2 Heq Hst1 Hst2.
  assert (keyName path data ≠ "") as Hne.
  { destruct Hreq as (-> & Hok & _). by apply KeyPathOk_nonempty. }
  split.
  - destruct (handleReadKey_run _ _ _ _ Hne Hs1) as (? & -> & _).
    destruct (handleReadKey_run _ _ _ _ Hne Hs2) as (? & -> & _). simpl.
    pose proof (public_lookup _ _ (keyName path data) Heq) as Hn.
    destruct (m1 !! _) as [e1|], (m2 !! _) as [e2|]; simpl in *; try done.
    rewrite (public_keyInfo e1 e2); [done|congruence].
  - destruct (handleCreateKey_run env _ _ _ _ _ _ Hreq Hs1 (λ _, Hst1)) as (? & -> & _).
    destruct (handleCreateKey_run env _ _ _ _ _ _ Hreq Hs2 (λ _, Hst2)) as (? & -> & _). simpl.
    unfold create_reply. f_equal.
    pose proof (public_lookup _ _ name (public_create_map env name chains _ _ Heq)) as Hn.
    destruct (create_map env name chains m1 !! name) as [e1|],
             (create_map env name chains m2 !! name) as [e2|]; simpl in *; try done.
    assert (public e1 = public e2) as Hp by congruence.
    rewrite (public_keyInfo e1 e2 Hp). by injection Hp as ? ? -> ? ? ?.
Qed.
End requests.

(** ** Listing *)

Section listing.
Context {C : EthCrypto} {S : Type} {St : LogicalStorage S} {SL : LogicalStorageLaws S}
        {SH : StorageHealth S} {E : EntryCodec} {EL : EntryCodecLaws E}.

Abbreviation B := (backend S).

(** The directory a list request names: the mount itself, or a prefix with
    its trailing slash. *)
Definition list_request (data : option FieldData) (dir : string) : Prop :=
  (dir = "" ∧ (data = None ∨
     ∃ fd, data = Some fd ∧ (GetOk fd "name" = None ∨ GetOk fd "name" = Some (AString "")))) ∨
  (∃ fd s, data = Some fd ∧ GetOk fd "name" = Some (AString s) ∧ s ≠ "" ∧
     ValidateListPrefix s = Ok tt ∧ dir = if HasSuffix s "/" then s else s +:+ "/").

Lemma list_entry_skey dir k n :
  list_entry (skey dir) k = Some n ↔ ∃ name, k = skey name ∧ list_entry dir name = Some n.
Proof.
  unfold list_entry. split.
  - destruct (CutPrefix k (skey dir)) as [r|] eqn:Hc; [|done].
    apply CutPrefix_Some in Hc as ->. intros Hr. exists (dir +:+ r).
    rewrite CutPrefix_app. split; [|done]. unfold skey. by rewrite string_app_assoc.
  - intros (name & -> & Hn). destruct (CutPrefix name dir) as [r|] eqn:Hc; [|done].
    apply CutPrefix_Some in Hc as ->. unfold skey. by rewrite <- string_app_assoc, CutPrefix_app.
Qed.

Lemma HasSuffix_skey s : s ≠ "" → HasSuffix (skey s) "/" = HasSuffix s "/".
Proof.
  intros Hs. unfold skey, keyStoragePrefix. destruct s as [|c s]; [done|]. simpl.
  by repeat case_decide.
Qed.

Lemma handleListKeys_dir data dir b Q :
  list_request data dir → healthy (Storage b) →
  (∀ b' names, bcontents b' = bcontents b → healthy (Storage b') → NoDup names →
     (∀ n, n ∈ names ↔ ∃ k v, bcontents b !! k = Some v ∧ list_entry (skey dir) k = Some n) →
     Q b' (Val (Some (ListResponse names), None))) →
  mwp (handleListKeys data) Q b.
Proof.
  intros Hreq Hh HQ. unfold handleListKeys. wp_step. wp_step.
  set (K := λ s' f, _).
  assert (K b (Next (skey dir))) as Hlist.
  { unfold K. repeat wp_step. unfold mwp, on_storage.
    pose proof (List_contents (skey dir) (Storage b)) as Hc.
    pose proof (List_Ok (skey dir) (Storage b)) as Hl.
    destruct (healthy_List (skey dir) _ Hh) as [Hh' [names Hn]].
    destruct (st_List (skey dir) (Storage b)) as [s' r]; simpl in *; subst.
    repeat wp_step. destruct (Hl _ eq_refl). by apply (HQ (mkBackend (keyLocks b) s') names). }
  clearbody K.
  destruct Hreq as [[-> [->|(fd & -> & [Hn|Hn])]]|(fd & s & -> & Hn & Hs & HV & ->)];
    rewrite ?Hn; cbv beta iota; [by repeat wp_step..|].
  rewrite (decide_False (P:=s = "")) by done. wp_step. wp_step; [|congruence].
  repeat wp_step. fold (skey s). rewrite HasSuffix_skey by done.
  destruct (HasSuffix s "/"); [done|]. unfold skey in *. by rewrite string_app_assoc.
Qed.

(** Listing: the reply to a list request names, once each, exactly the
    entries directly below the requested directory: stored keys, and
    subdirectories with a trailing slash. *)
Theorem handleListKeys_children (data : option FieldData) (dir : string)
    (m : gmap string KeyEntry) (b : B) :
  list_request data dir → serves m b →
  ∃ b' names, handleListKeys data b = (b', Val (Some (ListResponse names), None)) ∧
    serves m b' ∧ NoDup names ∧
    ∀ n, n ∈ names ↔ ∃ name, is_Some (m !! name) ∧ list_entry dir name = Some n.
Proof.
  intros Hreq [HR Hh].
  assert (mwp (handleListKeys data) (λ b' o, ∃ names, o = Val (Some (ListResponse names), None) ∧
    serves m b' ∧ NoDup names ∧
    ∀ n, n ∈ names ↔ ∃ name, is_Some (m !! name) ∧ list_entry dir name = Some n) b) as Hwp.
  { eapply handleListKeys_dir; [done..|]. intros b' names Hc Hh' Hnd Hmem.
    exists names. split_and!; [done|by split; [eapply Rep_same|]|done|].
    intros n. rewrite Hmem. setoid_rewrite list_entry_skey. split.
    - intros (k & v & Hk & name & -> & Hn). exists name. split; [|done].
      specialize (HR name). rewrite Hk in HR. destruct HR as (e & _ & ->). eauto.
    - intros (name & [e He] & Hn). specialize (HR name).
      destruct (bcontents b !! skey name) eqn:Hk; [|congruence]. naive_solver. }
  unfold mwp in Hwp. destruct (handleListKeys data b) as [b' o]. naive_solver.
Qed.
End listing.

(** ** [sameChainSet] *)

(** [sameChainSet], with its counting map, decides equality of the two
    lists as multisets. *)
Theorem sameChainSet_multiset (a b : list string) : sameChainSet a b = true ↔ a ≡ₚ b.
Proof. apply sameChainSet_perm. Qed.

(** ** Witnesses *)

Module PluginChecks.
Import ToyCrypto MemVault PluginWitness.

Lemma alice_step : plugin_step empty_vault alice_vault.
Proof.
  exists KeysName, CreateOperation. do 5 eexists. split; [done|].
  unfold alice_vault. apply surjective_pairing.
Qed.

Definition alice_sign (chain : string) : option FieldData :=
  sign_fields alice chain (hex_EncodeToString digest).

Lemma alice_sign_request : sign_request (alice_sign " EVM ") alice "evm" digest.
Proof.
  do 3 eexists. split_and!; [reflexivity|reflexivity|apply KeyPathOk_alice|reflexivity
    |by vm_compute|done|reflexivity|by vm_compute|done].
Qed.

Definition alice_widen : option FieldData :=
  fields [("name", AString alice); ("add_chains", AList [AString "EVM"; AString "cosmos"])].

Lemma alice_widen_request : update_request alice_widen alice ["cosmos"; "evm"].
Proof.
  do 2 eexists. split_and!; [reflexivity|by vm_compute|reflexivity|apply KeyPathOk_alice
    |reflexivity|by vm_compute].
Qed.

Definition list_acme : option FieldData := fields [("name", AString "acme/prod")].

Lemma list_acme_request : list_request list_acme "acme/prod/".
Proof. right. do 2 eexists. by split_and!. Qed.


Lemma plugin_reachable_ok_witness :
  ∃ e, DecodeEntry (serialize alice_entry) = Ok e ∧ KeyPathOk alice ∧ entry_ok (C:=toy) e.
Proof.
  apply (plugin_reachable_ok empty_vault alice_vault).
  - done.
  - apply rtc_once, alice_step.
  - by vm_compute.
Defined.

Lemma plugin_keeps_material_witness :
  ∃ m' e', Rep m' (handleKeyWrite (env_key Byte.x01) "" alice_widen alice_vault).1 ∧
    m' !! alice = Some e' ∧ material e' = material alice_entry ∧ Chains alice_entry ⊆ Chains e'.
Proof.
  apply (plugin_keeps_material {[alice := alice_entry]} alice_vault).
  - apply alice_serves.
  - apply alice_keymap_ok.
  - by rewrite lookup_singleton_eq.
  - apply rtc_once. exists KeysName, UpdateOperation. do 5 eexists. split_and!; [done..|].
    apply surjective_pairing.
Defined.

Definition alice_signature : gmap string any :=
  <["r" := AString (hex_EncodeToString digest)]>
  (<["s" := AString (hex_EncodeToString (replicate 31 Byte.x00 ++ [Byte.x07]))]> ∅).

Lemma handleSign_authorized_witness : signed (alice_sign " EVM ") alice_vault alice_signature.
Proof.
  apply (handleSign_authorized (alice_sign " EVM ") alice_vault alice_vault alice_signature None).
  by vm_compute.
Defined.

Lemma handleSign_functional_witness :
  ∃ b', handleSign (alice_sign " EVM ") alice_vault
        = (b', Val (sign_reply (C:=toy) alice "evm" digest (Some alice_entry))) ∧
        serves {[alice := alice_entry]} b'.
Proof.
  rewrite <- (lookup_singleton_eq (M:=gmap string) alice alice_entry).
  apply handleSign_functional; [apply alice_sign_request|apply alice_serves].
Defined.

Lemma handleCreateKey_functional_witness :
  ∃ b', handleCreateKey (env_key Byte.x07) "keys/acme/prod/alice" alice_create empty_vault
        = (b', Val (create_reply (env_key Byte.x07) alice ["cosmos"; "evm"] ∅)) ∧
        serves (create_map (env_key Byte.x07) alice ["cosmos"; "evm"] ∅) b'.
Proof.
  apply handleCreateKey_functional; [apply alice_request|apply empty_serves|apply alice_storable].
Defined.

Lemma handleCreateKey_idempotent_witness :
  ∃ b2, handleCreateKey (env_key Byte.x09) "keys/acme/prod/alice" alice_create alice_vault
        = (b2, Val (Some (DataResponse (keyInfoData alice_entry)), None)) ∧
        serves {[alice := alice_entry]} alice_vault ∧ serves {[alice := alice_entry]} b2.
Proof.
  change {[alice := alice_entry]}
    with (create_map (env_key Byte.x07) alice ["cosmos"; "evm"] ∅).
  apply (handleCreateKey_idempotent (env_key Byte.x07) (env_key Byte.x09) "keys/acme/prod/alice"
           alice_create alice ["cosmos"; "evm"] ∅ empty_vault alice_vault).
  - apply alice_request.
  - apply empty_serves.
  - apply alice_storable.
  - by vm_compute.
Defined.

Lemma create_then_sign_witness :
  ∃ b1 b2 info r s v,
    handleCreateKey (env_key Byte.x07) "keys/acme/prod/alice" alice_create empty_vault
      = (b1, Val (Some (DataResponse info), None)) ∧
    info !! "compressed_pub_key"
      = Some (AString (b64_Encode StdEncoding (CompressPubkey (PublicKey (Byte.x07 : PrivKey))))) ∧
    handleSign (alice_sign " EVM ") b1
      = (b2, Val (Some (DataResponse (<["r" := AString (hex_EncodeToString r)]>
                                     (<["s" := AString (hex_EncodeToString s)]> ∅))), None)) ∧
    length r = 32 ∧ length s = 32 ∧ (v = Byte.x00 ∨ v = Byte.x01) ∧
    Ecrecover digest (r ++ s ++ [v]) = Ok (FromECDSAPub (PublicKey (Byte.x07 : PrivKey))).
Proof.
  apply (create_then_sign (env_key Byte.x07) "keys/acme/prod/alice" alice_create (alice_sign " EVM ")
           alice "evm" ["cosmos"; "evm"] digest Byte.x07 ∅ empty_vault).
  - apply alice_request.
  - apply empty_serves.
  - done.
  - done.
  - apply alice_storable.
  - apply alice_sign_request.
  - set_solver.
Defined.

Lemma handleUpdateChains_functional_witness :
  ∃ b', handleUpdateChains alice_widen alice_vault
        = (b', Val (update_reply alice ["cosmos"; "evm"] {[alice := alice_entry]})) ∧
        serves (update_map alice ["cosmos"; "evm"] {[alice := alice_entry]}) b'.
Proof.
  apply handleUpdateChains_functional; [apply alice_widen_request|apply alice_serves|].
  intros e He. apply alice_storable. rewrite <- He. by vm_compute.
Defined.

Lemma handleDeleteKey_removes_witness :
  ∃ b1 b2 b3,
    handleDeleteKey "keys/acme/prod/alice" None alice_vault = (b1, Val (None, None)) ∧
    serves (delete alice {[alice := alice_entry]}) b1 ∧
    handleReadKey "keys/acme/prod/alice" None b1 = (b2, Val (None, None)) ∧
    handleSign (alice_sign " EVM ") b1 = (b3, Val (errorReply ("key not found: " +:+ alice))).
Proof.
  apply (handleDeleteKey_removes "keys/acme/prod/alice" None (alice_sign " EVM ") alice "evm" digest).
  - reflexivity.
  - apply alice_sign_request.
  - apply alice_serves.
Defined.

(** A vault whose record shows Alice's public key over another private key. *)
Definition other_entry : KeyEntry :=
  mkKeyEntry (FromECDSA (Byte.x55 : PrivKey)) (CompressedPubKey alice_entry) (EVMAddress alice_entry)
    (Chains alice_entry) (Source alice_entry) (CreatedAt alice_entry) (ImportedAt alice_entry).

Definition other_vault : backend mem :=
  mkBackend ∅ (mkMem (<[skey alice := serialize other_entry]> ∅) []).

Lemma other_serves : serves {[alice := other_entry]} other_vault.
Proof.
  split; [|done]. eapply (Rep_insert ∅ empty_vault); [by apply Rep_empty|by vm_compute|done].
Qed.

Lemma other_storable : storable {[alice := other_entry]} alice.
Proof. intros e. rewrite lookup_singleton_eq. intros [= <-]. eexists. by vm_compute. Qed.

Lemma replies_hide_private_keys_witness :
  (handleReadKey "keys/acme/prod/alice" alice_create alice_vault).2
  = (handleReadKey "keys/acme/prod/alice" alice_create other_vault).2 ∧
  (handleCreateKey (env_key Byte.x01) "keys/acme/prod/alice" alice_create alice_vault).2
  = (handleCreateKey (env_key Byte.x01) "keys/acme/prod/alice" alice_create other_vault).2.
Proof.
  apply (replies_hide_private_keys (env_key Byte.x01) "keys/acme/prod/alice" alice_create alice
           ["cosmos"; "evm"] {[alice := alice_entry]} {[alice := other_entry]});
    [apply alice_request|apply alice_serves|apply other_serves|done|apply alice_storable
    |apply other_storable].
Defined.

Lemma handleListKeys_children_witness :
  ∃ b' names, handleListKeys list_acme alice_vault = (b', Val (Some (ListResponse names), None)) ∧
    serves {[alice := alice_entry]} b' ∧ NoDup names ∧
    ∀ n, n ∈ names ↔ ∃ name, is_Some (({[alice := alice_entry]} : gmap string KeyEntry) !! name) ∧
                             list_entry "acme/prod/" name = Some n.
Proof.
  apply handleListKeys_children; [apply list_acme_request|apply alice_serves].
Defined.
End PluginChecks.
