(* ===== verification/PluginEntry.v ===== *)
(** * The plugin's backend and its process

    [newBackend] and [Factory] of [internal/plugin/backend.go], the path
    patterns of [pathsKeys] and [pathsSign], and [cmd/kms-vault-plugin/main.go].
    The Vault SDK tries the patterns in order, anchored at both ends, and gives
    the handler the named groups; its [Setup], its flag parser and its
    [ServeMultiplex] are arguments. *)

From S2P Require Import Prelude GoLib Types KeyPath Crypto Plugin PluginModel PluginProps.

Definition backendHelp : string :=
  "
The kms-vault-plugin secrets engine generates and stores secp256k1 private keys
inside Vault's encrypted logical storage and signs pre-hashed 32-byte inputs.

It is purpose-built for multi-chain signing: callers (EVM and Cosmos gateways)
hash the payload with the chain-appropriate algorithm (keccak256 / SHA-256) and
submit the digest to this plugin for raw secp256k1 ECDSA signing.

Private key material never leaves the Vault process boundary.
".

(** ** Patterns *)

Definition no_newline (s : string) : bool := string_forall (λ c, negb (bool_decide (c = ascii_of_N 10))) s.

(** The group of [(?P<name>.+?)/?$]: the shortest match, so that one slash at
    the end is left out when something remains. *)
Definition lazy_group (rest : string) : option string :=
  if bool_decide (rest = "") || negb (no_newline rest) then None
  else let t := TrimSuffix rest "/" in Some (if decide (t = "") then rest else t).

(** The group of [(?P<name>.+?)$]. *)
Definition whole_group (rest : string) : option string :=
  if bool_decide (rest = "") || negb (no_newline rest) then None else Some rest.

(** The fields a path of the pattern sets; [None] when it does not match. *)
Definition captures (pat : Pattern) (path : string) : option (list (string * string)) :=
  match pat with
  | KeysRoot => if decide (path = "keys" ∨ path = "keys/") then Some [] else None
  | KeysName => (λ name, [("name", name)]) <$> (CutPrefix path "keys/" ≫= lazy_group)
  | SignName => (λ name, [("name", name)]) <$> (CutPrefix path "sign/" ≫= whole_group)
  end.

(** ** The backend *)

Inductive BackendType := TypeLogical | TypeCredential.

(** [framework.Backend], as the plugin fills it. *)
Record frameworkBackend := mkFrameworkBackend {
  fb_Help : string;
  fb_BackendType : BackendType;
  fb_SealWrapStorage : list string;
  fb_Paths : list Pattern }.

Definition newBackend : frameworkBackend :=
  mkFrameworkBackend backendHelp TypeLogical ["keys/"] ([KeysRoot; KeysName] ++ [SignName]).

(** [setup] is the SDK's [b.Setup(ctx, conf)]. *)
Definition Factory (setup : frameworkBackend → result unit) : result frameworkBackend :=
  let b := newBackend in
  match setup b with Err e => Err e | Ok _ => Ok b end.

(** The pattern that serves a path. *)
Fixpoint route (pats : list Pattern) (path : string) : option (Pattern * list (string * string)) :=
  match pats with
  | [] => None
  | pat :: pats' =>
      match captures pat path with
      | Some fields => Some (pat, fields)
      | None => route pats' path
      end
  end.

(** ** The process *)

(** [main]: the exit status, for the outcome of the flag parser and of
    [ServeMultiplex] with the factory. *)
Definition plugin_main (parse : result unit)
    (serve : ((frameworkBackend → result unit) → result frameworkBackend) → result unit) : Z :=
  match parse with
  | Err _ => 1
  | Ok _ => match serve Factory with Err _ => 1 | Ok _ => 0 end
  end.

(** ** Routing of key names *)

Lemma KeyPathOk_no_newline name : KeyPathOk name → no_newline name = true.
Proof.
  intros Hn%KeyPathOk_chars. unfold no_newline. eapply string_forall_impl; [|exact Hn].
  intros c Hc. apply negb_true_iff, bool_decide_eq_false. by intros ->.
Qed.

Lemma HasSuffix_slash_app p w : w ≠ "" → HasSuffix (p +:+ w) "/" = HasSuffix w "/".
Proof.
  intros Hw. induction p as [|c p IH]; [done|]. change (String c p +:+ w) with (String c (p +:+ w)). cbn [HasSuffix].
  rewrite decide_False; [done|]. intros [= -> Hp]. by destruct p, w.
Qed.

Lemma Segment_no_slash_end w : string_forall segment_char w = true → HasSuffix w "/" = false.
Proof.
  induction w as [|c w IH]; [done|]. cbn [string_forall HasSuffix]. intros [Hc Hw]%andb_true_iff.
  rewrite decide_False; [by apply IH|]. by intros [= -> ->].
Qed.

Lemma KeyPathOk_no_slash_end name : KeyPathOk name → HasSuffix name "/" = false.
Proof.
  intros (p & e & u & -> & _ & _ & [Hne Hu]). cbn [Join].
  rewrite <- !string_app_assoc, HasSuffix_slash_app by done. by apply Segment_no_slash_end.
Qed.

Lemma lazy_group_name name : KeyPathOk name → lazy_group name = Some name ∧ lazy_group (name +:+ "/") = Some name.
Proof.
  intros Hn. pose proof (KeyPathOk_nonempty _ Hn) as Hne. pose proof (KeyPathOk_no_newline _ Hn) as Hl.
  unfold lazy_group. rewrite !bool_decide_false, Hl by (done || by destruct name).
  assert (no_newline (name +:+ "/") = true) as -> by (unfold no_newline in *; by rewrite string_forall_app, Hl).
  rewrite TrimSuffix_app, TrimSuffix_id by (by apply KeyPathOk_no_slash_end). cbn [negb orb].
  by destruct (decide (name = "")) as [Hd|Hd].
Qed.

Section routing.
Context {C : EthCrypto} {S : Type} {St : LogicalStorage S} {SL : LogicalStorageLaws S}
        {E : EntryCodec} {EL : EntryCodecLaws E}.

(** What one request may do to the storage lies under the prefix. *)
Definition under_prefix (b b' : backend S) : Prop :=
  ∀ k, bcontents b' !! k ≠ bcontents b !! k → HasPrefix k keyStoragePrefix = true.

Lemma under_same b b' : bcontents b' = bcontents b → under_prefix b b'.
Proof. intros Hb k. by rewrite Hb. Qed.

Lemma under_insert b b' name raw : bcontents b' = <[skey name := raw]> (bcontents b) → under_prefix b b'.
Proof.
  intros Hb k. rewrite Hb. destruct (decide (k = skey name)) as [->|Hne]; [intros _; apply HasPrefix_app|].
  by rewrite lookup_insert_ne.
Qed.

Lemma under_delete b b' name : bcontents b' = delete (skey name) (bcontents b) → under_prefix b b'.
Proof.
  intros Hb k. rewrite Hb. destruct (decide (k = skey name)) as [->|Hne]; [intros _; apply HasPrefix_app|].
  by rewrite lookup_delete_ne.
Qed.

Lemma under_create env name b b' : create_effect env name b b' → under_prefix b b'.
Proof. intros [Hb|(cs & e & raw & _ & _ & _ & Hb & _)]; [by apply under_same|by eapply under_insert]. Qed.

Lemma under_update name b b' : update_effect name b b' → under_prefix b b'.
Proof.
  intros [Hb|(raw0 & e0 & added & merged & raw & _ & _ & _ & _ & _ & _ & _ & Hb)];
    [by apply under_same|by eapply under_insert].
Qed.

Lemma plugin_step_under b b' : plugin_step b b' → under_prefix b b'.
Proof.
  intros (pat & op & h & env & path & data & o & Hop & Hrun). destruct pat, op; simpl in Hop; simplify_eq.
  - apply under_same. exact (mwp_run _ _ _ _ _ (handleListKeys_pure data b) Hrun).
  - eapply under_create. exact (mwp_run _ _ _ _ _ (handleCreateKey_effect env path data b) Hrun).
  - destruct (mwp_run _ _ _ _ _ (handleKeyWrite_effect env path data b) Hrun);
      [by eapply under_create|by eapply under_update].
  - apply under_same. exact (mwp_run _ _ _ _ _ (handleReadKey_pure path data b) Hrun).
  - destruct (mwp_run _ _ _ _ _ (handleDeleteKey_effect path data b) Hrun); [by apply under_same|by eapply under_delete].
  - apply under_same. exact (mwp_run _ _ _ _ _ (handleListKeys_pure data b) Hrun).
  - apply under_same. exact (mwp_run _ _ _ _ _ (handleSign_pure data b) Hrun).
Qed.

(** The backend Vault's plugin loader gets from [Factory]: a well-formed key name is routed to
    the key operations and to signing under exactly that name, with or without
    a slash at its end, and the bare directory to the listing; and everything
    the handlers ever write or delete, in any sequence of requests, lies under
    a prefix that is declared seal-wrapped, so that no key record is stored
    outside it. *)
Theorem backend_registered (setup : frameworkBackend → result unit) (fb : frameworkBackend) (b b' : backend S) :
  Factory setup = Ok fb →
  (∀ name, KeyPathOk name →
     route (fb_Paths fb) ("keys/" +:+ name) = Some (KeysName, [("name", name)]) ∧
     route (fb_Paths fb) ("keys/" +:+ name +:+ "/") = Some (KeysName, [("name", name)]) ∧
     route (fb_Paths fb) ("sign/" +:+ name) = Some (SignName, [("name", name)])) ∧
  (∀ path, path ∈ ["keys"; "keys/"] → route (fb_Paths fb) path = Some (KeysRoot, [])) ∧
  (rtc plugin_step b b' → ∀ k, bcontents b' !! k ≠ bcontents b !! k →
     ∃ p, p ∈ fb_SealWrapStorage fb ∧ HasPrefix k p = true).
Proof.
  unfold Factory. destruct (setup newBackend); intros [= <-]. split_and!.
  - intros name Hn. destruct (lazy_group_name name Hn) as [Hg Hg'].
    pose proof (KeyPathOk_nonempty _ Hn) as Hne. pose proof (KeyPathOk_no_newline _ Hn) as Hl.
    assert (∀ rest g, rest ≠ "" → lazy_group rest = Some g →
              route (fb_Paths newBackend) ("keys/" +:+ rest) = Some (KeysName, [("name", g)])) as Hkeys.
    { intros rest g Hr Hrest. unfold newBackend. cbn [fb_Paths app route captures].
      rewrite decide_False; [rewrite CutPrefix_app; change (Some rest ≫= lazy_group) with (lazy_group rest); by rewrite Hrest|]. intros [?|Heq]; [done|].
      by destruct rest. }
    split_and!; [by apply Hkeys|apply Hkeys; [by destruct name|done]|].
    unfold newBackend. cbn [fb_Paths app route captures]. rewrite decide_False by (by intros [?|?]).
    rewrite CutPrefix_app. change (Some name ≫= whole_group) with (whole_group name). unfold whole_group.
    by rewrite bool_decide_false, Hl.
  - intros path Hp. apply elem_of_cons in Hp as [->|[->|Hp%not_elem_of_nil]%elem_of_cons]; done.
  - intros Hrun k Hk. exists keyStoragePrefix. split; [left|].
    induction Hrun as [b|b b1 b2 Hs _ IH]; [done|].
    destruct (decide (bcontents b1 !! k = bcontents b !! k)) as [Heq|Hne].
    + apply IH. by rewrite Heq.
    + by apply (plugin_step_under b b1).
Qed.
End routing.

Module EntryChecks.
Import ToyCrypto MemVault.

Definition empty : backend mem := mkBackend ∅ (mkMem ∅ []).

Lemma backend_registered_witness :
  (∀ name, KeyPathOk name →
     route (fb_Paths newBackend) ("keys/" +:+ name) = Some (KeysName, [("name", name)]) ∧
     route (fb_Paths newBackend) ("keys/" +:+ name +:+ "/") = Some (KeysName, [("name", name)]) ∧
     route (fb_Paths newBackend) ("sign/" +:+ name) = Some (SignName, [("name", name)])) ∧
  (∀ path, path ∈ ["keys"; "keys/"] → route (fb_Paths newBackend) path = Some (KeysRoot, [])) ∧
  (rtc (plugin_step (C:=toy)) empty empty → ∀ k, bcontents empty !! k ≠ bcontents empty !! k →
     ∃ p, p ∈ fb_SealWrapStorage newBackend ∧ HasPrefix k p = true).
Proof. apply (backend_registered (C:=toy) (λ _, Ok tt) newBackend empty empty). reflexivity. Defined.

(** A process whose server stops with an error. *)
Example serve_error_exit : plugin_main (Ok tt) (λ _, Err (errors_New "plugin shutting down")) = 1%Z.
Proof. reflexivity. Qed.
End EntryChecks.
