(* ===== verification/PluginConc.v ===== *)
(** * Concurrent requests to the plugin

    Vault serves requests concurrently.  Here the handlers that write are
    sequences of atomic storage operations on the key map, under the per-key
    mutexes of [keyLock], and any number of them run interleaved.  Create and
    update-chains hold the lock from before they load the record until they
    return; delete takes none ([path_keys.go], [path_keys_update.go]). *)

From stdpp Require Import relations.
From S2P Require Import Prelude GoLib Types KeyPath Crypto Plugin KeyManager PluginModel PluginProps.

Section conc.
Context {C : EthCrypto}.

Abbreviation keymap := (gmap string KeyEntry).

(** A write request whose arguments have been parsed. *)
Inductive write_req :=
  | RCreate (env : Ambient) (name : string) (chains : list string)
  | RUpdate (name : string) (added : list string)
  | RDelete (name : string).

Definition req_name (r : write_req) : string :=
  match r with RCreate _ n _ => n | RUpdate n _ => n | RDelete n => n end.

Definition locking (r : write_req) : bool :=
  match r with RDelete _ => false | _ => true end.

(** What a locked request stores after it has loaded [o]; [None] when it
    returns without storing. *)
Definition to_store (r : write_req) (o : option KeyEntry) : option KeyEntry :=
  match r, o with
  | RCreate env _ chains, None =>
      match GenerateKey env with
      | Ok priv => Some (newEntry priv (chainsToStrings chains) (Now env))
      | Err _ => None
      end
  | RCreate _ _ chains, Some e =>
      if length (Chains e) =? 0 then Some (set_Chains e (chainsToStrings chains)) else None
  | RUpdate _ added, Some e =>
      match ParseChains (Chains e ++ chainsToStrings added) with
      | Ok merged =>
          if sameChainSet (Chains e) (chainsToStrings merged) then None
          else Some (set_Chains e (chainsToStrings merged))
      | Err _ => None
      end
  | RUpdate _ _, None => None
  | RDelete _, _ => None
  end.

(** Where a request is. *)
Inductive pc :=
  | Start (r : write_req)
  | Locked (r : write_req)
  | Loaded (r : write_req) (o : option KeyEntry)
  | Release (r : write_req)
  | Finished (r : write_req).

Definition pc_req (t : pc) : write_req :=
  match t with Start r | Locked r | Loaded r _ | Release r | Finished r => r end.

(** The request holds the lock of its key. *)
Definition holding (t : pc) : bool :=
  match t with Locked _ | Loaded _ _ | Release _ => true | _ => false end.

Record cstate := mkCState { c_map : keymap; c_locks : gset string; c_threads : list pc }.

Definition cinit (m : keymap) (rs : list write_req) : cstate := mkCState m ∅ (Start <$> rs).

(** One atomic action of one request.  A storage call can fail; a failed
    write may or may not have been applied. *)
Inductive cstep : cstate → cstate → Prop :=
  | cs_lock m ls ts i r :
      ts !! i = Some (Start r) → locking r = true → req_name r ∉ ls →
      cstep (mkCState m ls ts) (mkCState m ({[req_name r]} ∪ ls) (<[i := Locked r]> ts))
  | cs_load m ls ts i r :
      ts !! i = Some (Locked r) →
      cstep (mkCState m ls ts) (mkCState m ls (<[i := Loaded r (m !! req_name r)]> ts))
  | cs_load_fails m ls ts i r :
      ts !! i = Some (Locked r) →
      cstep (mkCState m ls ts) (mkCState m ls (<[i := Release r]> ts))
  | cs_store m ls ts i r o e :
      ts !! i = Some (Loaded r o) → to_store r o = Some e →
      cstep (mkCState m ls ts) (mkCState (<[req_name r := e]> m) ls (<[i := Release r]> ts))
  | cs_no_store m ls ts i r o :
      ts !! i = Some (Loaded r o) →
      cstep (mkCState m ls ts) (mkCState m ls (<[i := Release r]> ts))
  | cs_unlock m ls ts i r :
      ts !! i = Some (Release r) →
      cstep (mkCState m ls ts) (mkCState m (ls ∖ {[req_name r]}) (<[i := Finished r]> ts))
  | cs_delete m ls ts i n :
      ts !! i = Some (Start (RDelete n)) →
      cstep (mkCState m ls ts) (mkCState (delete n m) ls (<[i := Finished (RDelete n)]> ts))
  | cs_delete_fails m ls ts i n :
      ts !! i = Some (Start (RDelete n)) →
      cstep (mkCState m ls ts) (mkCState m ls (<[i := Finished (RDelete n)]> ts)).

(** The arguments passed the handlers' guards. *)
Definition req_ok (r : write_req) : Prop :=
  match r with
  | RCreate _ n chains => KeyPathOk n ∧ Canonical chains
  | RUpdate n added => KeyPathOk n ∧ Canonical added
  | RDelete _ => True
  end.

(** No key is deleted while it is created or updated. *)
Definition no_delete_race (rs : list write_req) : Prop :=
  ∀ r n, r ∈ rs → RDelete n ∈ rs → locking r = true → req_name r ≠ n.

(** ** The invariant: mutual exclusion, and loads that stay valid *)

Record conc_inv (rs : list write_req) (s : cstate) : Prop := {
  inv_reqs : pc_req <$> c_threads s = rs;
  inv_locking : ∀ i t, c_threads s !! i = Some t → holding t = true → locking (pc_req t) = true;
  inv_locked : ∀ i t, c_threads s !! i = Some t → holding t = true → req_name (pc_req t) ∈ c_locks s;
  inv_excl : ∀ i j t u, c_threads s !! i = Some t → c_threads s !! j = Some u →
    holding t = true → holding u = true → req_name (pc_req t) = req_name (pc_req u) → i = j;
  inv_loaded : ∀ i r o, c_threads s !! i = Some (Loaded r o) → c_map s !! req_name r = o }.

Lemma cinit_inv m rs : conc_inv rs (cinit m rs).
Proof.
  assert (∀ i t, (Start <$> rs) !! i = Some t → ∃ r, t = Start r) as Hst.
  { intros i t (r & -> & _)%list_lookup_fmap_Some. by exists r. }
  split; simpl.
  - rewrite <- list_fmap_compose. apply list_fmap_id.
  - intros i t Ht. by destruct (Hst _ _ Ht) as [r ->].
  - intros i t Ht. by destruct (Hst _ _ Ht) as [r ->].
  - intros i j t u Ht _. by destruct (Hst _ _ Ht) as [r ->].
  - intros i r o Ht. by destruct (Hst _ _ Ht) as [r' ?].
Qed.

(** Moving one thread keeps the requests. *)
Lemma move_reqs (ts : list pc) i t u :
  ts !! i = Some t → pc_req u = pc_req t → pc_req <$> <[i := u]> ts = pc_req <$> ts.
Proof.
  intros Ht Hreq. rewrite list_fmap_insert, Hreq. apply list_insert_id.
  by rewrite list_lookup_fmap, Ht.
Qed.

(** The invariant after thread [i] moves from [t] to [u]: it keeps its
    request, it only starts to hold a lock that is free, no other thread's
    lock is taken away, and no other thread's loaded record changes. *)
Lemma move_inv rs m m' ls ls' ts i t u :
  conc_inv rs (mkCState m ls ts) → ts !! i = Some t → pc_req u = pc_req t →
  (holding u = true → holding t = true ∨ (locking (pc_req t) = true ∧ req_name (pc_req t) ∉ ls)) →
  (holding u = true → req_name (pc_req t) ∈ ls') →
  (∀ n, n ∈ ls → (holding t = true → n ≠ req_name (pc_req t)) → n ∈ ls') →
  (∀ r o, u = Loaded r o → m' !! req_name r = o) →
  (∀ j r o, j ≠ i → ts !! j = Some (Loaded r o) → m' !! req_name r = m !! req_name r) →
  conc_inv rs (mkCState m' ls' (<[i := u]> ts)).
Proof.
  intros [Hreqs Hlocking Hlocked Hexcl Hloaded] Ht Hreq Hhold Hin Hkeep Hnew Hothers. simpl in *.
  pose proof (lookup_lt_Some _ _ _ Ht) as Hi.
  assert (∀ j v, <[i := u]> ts !! j = Some v → (j = i ∧ v = u) ∨ (j ≠ i ∧ ts !! j = Some v)) as Hcase.
  { intros j v. destruct (decide (j = i)) as [->|Hne].
    - rewrite list_lookup_insert_eq by done. naive_solver.
    - rewrite list_lookup_insert_ne by done. auto. }
  assert (∀ j v, j ≠ i → ts !! j = Some v → holding v = true → holding u = true →
            req_name (pc_req v) = req_name (pc_req u) → False) as Hno.
  { intros j v Hj Hv Hhv Hhu Hn. rewrite Hreq in Hn.
    destruct (Hhold Hhu) as [Hht|[_ Hfree]].
    - apply Hj. by eapply Hexcl.
    - apply Hfree. rewrite <- Hn. by eapply Hlocked. }
  split; simpl.
  - by erewrite move_reqs.
  - intros j v [[-> ->]|[Hj Hv]]%Hcase Hhv; [|by eapply Hlocking].
    rewrite Hreq. destruct (Hhold Hhv) as [Hht|[? _]]; [by eapply Hlocking|done].
  - intros j v [[-> ->]|[Hj Hv]]%Hcase Hhv; [rewrite Hreq; auto|].
    apply Hkeep; [by eapply Hlocked|]. intros Hht Hn. apply Hj. by eapply Hexcl.
  - intros j k v w [[-> ->]|[Hj Hv]]%Hcase [[-> ->]|[Hk Hw]]%Hcase Hhv Hhw Hn; [done|..].
    + exfalso. by eapply (Hno k w).
    + exfalso. by eapply (Hno j v).
    + by eapply Hexcl.
  - intros j r o [[-> Hv]|[Hj Hv]]%Hcase; [by apply Hnew|].
    rewrite (Hothers j r o Hj Hv). by eapply Hloaded.
Qed.

(** A write to a key whose lock thread [i] holds leaves what the others have
    loaded alone. *)
Lemma write_others rs m ls ts i t n (m' : keymap) :
  conc_inv rs (mkCState m ls ts) → ts !! i = Some t →
  (∀ k, k ≠ n → m' !! k = m !! k) → n = req_name (pc_req t) →
  (holding t = true ∨ (t = Start (RDelete n) ∧ no_delete_race rs)) →
  ∀ j r o, j ≠ i → ts !! j = Some (Loaded r o) → m' !! req_name r = m !! req_name r.
Proof.
  intros Hinv Ht Hm' Hnn Hwhy j r o Hj Hl. apply Hm'. intros Hn.
  destruct Hwhy as [Hht|[-> Hrace]].
  - apply Hj. rewrite Hnn in Hn. by eapply (inv_excl _ _ Hinv j i).
  - refine (Hrace r (req_name r) _ _ _ eq_refl).
    + rewrite <- (inv_reqs _ _ Hinv). apply list_elem_of_fmap. exists (Loaded r o).
      split; [done|]. by eapply list_elem_of_lookup_2.
    + rewrite <- (inv_reqs _ _ Hinv). apply list_elem_of_fmap. exists (Start (RDelete n)).
      split; [by rewrite Hn|by eapply list_elem_of_lookup_2].
    + by apply (inv_locking _ _ Hinv j (Loaded r o)).
Qed.

Lemma cstep_inv rs s s' : no_delete_race rs → conc_inv rs s → cstep s s' → conc_inv rs s'.
Proof.
  intros Hrace Hinv Hs. destruct Hs as
    [m ls ts i r Ht Hl Hfree|m ls ts i r Ht|m ls ts i r Ht|m ls ts i r o e Ht He
    |m ls ts i r o Ht|m ls ts i r Ht|m ls ts i n Ht|m ls ts i n Ht];
    (eapply move_inv; [exact Hinv|exact Ht|done|..]); simpl; try done; try (by intros; left).
  all: try (intros _; by apply (inv_locked _ _ Hinv i _ Ht)).
  all: try (intros; simplify_eq; done).
  - intros _. right. auto.
  - set_solver.
  - set_solver.
  - eapply (write_others _ _ _ _ _ _ (req_name r)); [exact Hinv|exact Ht| |done|by left].
    intros k Hk. by rewrite lookup_insert_ne.
  - set_solver.
  - eapply (write_others _ _ _ _ _ _ n); [exact Hinv|exact Ht| |done|right; done].
    intros k Hk. by rewrite lookup_delete_ne.
Qed.

(** ** Every interleaving refines the key manager *)

Lemma to_store_kstep r m e :
  req_ok r → locking r = true → to_store r (m !! req_name r) = Some e →
  kstep m (<[req_name r := e]> m).
Proof.
  destruct r as [env n chains|n added|n]; intros Hok Hl; [| |done]; destruct Hok as [Hn Hc]; simpl.
  - destruct (m !! n) as [e0|] eqn:He0.
    + destruct (Nat.eqb_spec (length (Chains e0)) 0) as [Hnil%nil_length_inv|]; [|done].
      intros [= <-]. by eapply k_backfill.
    + destruct (GenerateKey env) as [priv|]; [|done]. intros [= <-]. by apply k_create.
  - destruct (m !! n) as [e0|] eqn:He0; [|done].
    destruct (ParseChains (Chains e0 ++ chainsToStrings added)) as [merged|] eqn:Hp; [|done].
    destruct (sameChainSet _ _); [done|]. intros [= <-].
    eapply k_widen; [done|done|exact Hc|by eapply ParseChains_Canonical|by apply merged_members].
Qed.

Lemma cstep_kstep rs s s' :
  Forall req_ok rs → conc_inv rs s → cstep s s' → kstep (c_map s) (c_map s').
Proof.
  intros Hok Hinv Hs. destruct Hs as
    [m ls ts i r Ht Hl Hfree|m ls ts i r Ht|m ls ts i r Ht|m ls ts i r o e Ht He
    |m ls ts i r o Ht|m ls ts i r Ht|m ls ts i n Ht|m ls ts i n Ht]; simpl; try constructor.
  pose proof (inv_loaded _ _ Hinv _ _ _ Ht) as Ho. simpl in Ho. subst o.
  apply to_store_kstep; [|by apply (inv_locking _ _ Hinv i _ Ht)|done].
  rewrite Forall_forall in Hok. apply Hok. rewrite <- (inv_reqs _ _ Hinv).
  apply list_elem_of_fmap. eexists. split; [|by eapply list_elem_of_lookup_2]. done.
Qed.


(** ** One request alone *)

(** A request that runs alone has the effect of its handler
    ([handleCreateKey_run], [handleUpdateChains_run]). *)
Definition solo_map (r : write_req) (m : keymap) : keymap :=
  match r with
  | RCreate env n chains => create_map env n chains m
  | RUpdate n added => update_map n added m
  | RDelete n => delete n m
  end.

Lemma solo_store r m :
  locking r = true →
  solo_map r m = match to_store r (m !! req_name r) with
                 | Some e => <[req_name r := e]> m
                 | None => m
                 end.
Proof.
  destruct r as [env n chains|n added|n]; intros Hl; [| |done]; simpl.
  - unfold create_map. destruct (m !! n) as [e|]; [|by destruct (GenerateKey env)].
    case_decide as Hnil; [by rewrite Hnil|].
    destruct (Nat.eqb_spec (length (Chains e)) 0) as [?%nil_length_inv|]; done.
  - unfold update_map, chainsToStrings. destruct (m !! n) as [e|]; [|done].
    destruct (ParseChains (Chains e ++ added)) as [merged|]; [|done].
    case_decide as Hp; [by apply sameChainSet_perm in Hp as ->|].
    destruct (sameChainSet (Chains e) merged) eqn:Hs; [|done]. by apply sameChainSet_perm in Hs.
Qed.

Lemma solo_run r m : rtc cstep (cinit m [r]) (mkCState (solo_map r m) ∅ [Finished r]).
Proof.
  destruct (locking r) eqn:Hl.
  - rewrite solo_store by done. unfold cinit. simpl.
    eapply rtc_l; [by apply (cs_lock m ∅ [Start r] 0 r); [| |set_solver]|]. simpl.
    eapply rtc_l; [by apply (cs_load _ _ _ 0 r)|]. simpl.
    assert (∅ = ({[req_name r]} ∪ ∅) ∖ {[req_name r]} :> gset string) as Hls by set_solver.
    destruct (to_store r (m !! req_name r)) as [e|] eqn:He.
    + eapply rtc_l; [by apply (cs_store _ _ _ 0 r (m !! req_name r) e)|]. simpl. rewrite Hls at 2.
      apply rtc_once. exact (cs_unlock _ _ [Release r] 0 r eq_refl).
    + eapply rtc_l; [by apply (cs_no_store _ _ _ 0 r (m !! req_name r))|]. simpl. rewrite Hls at 2.
      apply rtc_once. exact (cs_unlock _ _ [Release r] 0 r eq_refl).
  - destruct r as [| |n]; try done. apply rtc_once. by apply (cs_delete m ∅ [Start (RDelete n)] 0 n).
Qed.

(** ** The race of a delete *)

(** C38. A delete is not serialised with an update-chains request of the same
    key, although both orders of running them one after the other end without
    the key: the update can store the record it loaded before the delete, so
    that both requests finish and the deleted key is back. *)
Theorem delete_update_race (m : keymap) (n : string) (e : KeyEntry) (added merged : list string) :
  m !! n = Some e → ParseChains (Chains e ++ added) = Ok merged → ¬ (Chains e ≡ₚ merged) →
  solo_map (RDelete n) (solo_map (RUpdate n added) m) !! n = None ∧
  solo_map (RUpdate n added) (solo_map (RDelete n) m) !! n = None ∧
  ∃ m', rtc cstep (cinit m [RUpdate n added; RDelete n])
                  (mkCState m' ∅ [Finished (RUpdate n added); Finished (RDelete n)]) ∧
        m' !! n = Some (set_Chains e merged).
Proof.
  intros He Hp Hne. split_and!.
  - simpl. apply lookup_delete_eq.
  - simpl. unfold update_map. rewrite lookup_delete_eq. apply lookup_delete_eq.
  - set (r := RUpdate n added).
    assert (to_store r (Some e) = Some (set_Chains e merged)) as Hst.
    { simpl. unfold chainsToStrings. rewrite Hp. destruct (sameChainSet (Chains e) merged) eqn:Hs; [|done].
      by apply sameChainSet_perm in Hs. }
    exists (<[n := set_Chains e merged]> (delete n m)). split; [|apply lookup_insert_eq].
    assert (∅ = ({[n]} ∪ ∅) ∖ {[n]} :> gset string) as Hls by set_solver. unfold cinit. simpl.
    eapply rtc_l; [by apply (cs_lock m ∅ _ 0 r); [| |set_solver]|]. simpl.
    eapply rtc_l; [by apply (cs_load _ _ _ 0 r)|]. simpl. rewrite He.
    eapply rtc_l; [by apply (cs_delete _ _ _ 1 n)|]. simpl.
    eapply rtc_l; [exact (cs_store _ _ [Loaded r (Some e); Finished (RDelete n)] 0 r (Some e) _ eq_refl Hst)|]. simpl. rewrite Hls at 2.
    apply rtc_once. exact (cs_unlock _ _ [Release r; Finished (RDelete n)] 0 r eq_refl).
Qed.
End conc.

(** ** Witnesses *)

Module ConcChecks.
Import ToyCrypto.

Definition env7 : Ambient := mkAmbient toy (Ok Byte.x07) 0.
Definition env9 : Ambient := mkAmbient toy (Ok Byte.x09) 0.
Definition name1 : string := "acme/prod/alice".

(** Two racing creates of one key; the second runs first. *)
Definition creates : list write_req := [RCreate env7 name1 ["evm"]; RCreate env9 name1 ["evm"]].
Definition entry9 : KeyEntry := newEntry (C:=toy) Byte.x09 ["evm"] 0.


Definition entry7 : KeyEntry := newEntry (C:=toy) Byte.x07 ["cosmos"] 0.

Lemma delete_update_race_witness :
  solo_map (RDelete name1) (solo_map (RUpdate name1 ["evm"]) {[name1 := entry7]}) !! name1 = None ∧
  solo_map (RUpdate name1 ["evm"]) (solo_map (RDelete name1) {[name1 := entry7]}) !! name1 = None ∧
  ∃ m', rtc cstep (cinit {[name1 := entry7]} [RUpdate name1 ["evm"]; RDelete name1])
          (mkCState m' ∅ [Finished (RUpdate name1 ["evm"]); Finished (RDelete name1)]) ∧
        m' !! name1 = Some (set_Chains entry7 ["cosmos"; "evm"]).
Proof.
  apply (delete_update_race (C:=toy) {[name1 := entry7]} name1 entry7 ["evm"] ["cosmos"; "evm"]).
  - by rewrite lookup_singleton_eq.
  - reflexivity.
  - intros Hp%Permutation_length. done.
Defined.
End ConcChecks.
