(* ===== verification/ConcLiveness.v ===== *)
(** * Concurrent write requests finish

    The per-key mutexes of the plugin cannot deadlock: every interleaving of
    write requests, racing deletes and storage faults included, ends after a
    bounded number of steps with every request answered and every lock
    released. *)

From stdpp Require Import relations.
From S2P Require Import Prelude GoLib Types KeyPath Crypto Plugin KeyManager PluginModel PluginProps PluginConc.

Section liveness.
Context {C : EthCrypto}.

(** ** Locks are held by running requests *)

(** Some request other than [skip] holds the lock of [n]. *)
Definition held_but (skip : nat → Prop) (ts : list pc) (n : string) : Prop :=
  ∃ j u, ¬ skip j ∧ ts !! j = Some u ∧ holding u = true ∧ req_name (pc_req u) = n.

Definition held : list pc → string → Prop := held_but (λ _, False).

Record lock_inv (s : cstate) : Prop := {
  li_held : ∀ n, n ∈ c_locks s ↔ held (c_threads s) n;
  li_excl : ∀ i j t u, c_threads s !! i = Some t → c_threads s !! j = Some u →
    holding t = true → holding u = true → req_name (pc_req t) = req_name (pc_req u) → i = j }.

Lemma cinit_lock_inv m rs : lock_inv (cinit m rs).
Proof.
  assert (∀ i t, (Start <$> rs) !! i = Some t → holding t = false) as Hst.
  { by intros i t (r & -> & _)%list_lookup_fmap_Some. }
  split; simpl.
  - intros n. split; [set_solver|]. intros (j & u & _ & Hu & Hh & _). apply Hst in Hu. congruence.
  - intros i j t u Ht _ Hh. apply Hst in Ht. congruence.
Qed.

(** Who holds a lock when thread [i] becomes [u]. *)
Lemma held_move ts i (t u : pc) n :
  ts !! i = Some t →
  held (<[i := u]> ts) n ↔ (holding u = true ∧ req_name (pc_req u) = n) ∨ held_but (λ j, j = i) ts n.
Proof.
  intros Ht. pose proof (lookup_lt_Some _ _ _ Ht) as Hi. split.
  - intros (j & v & _ & Hv & Hh & Hn). destruct (decide (j = i)) as [->|Hne].
    + rewrite list_lookup_insert_eq in Hv by done. left. naive_solver.
    + rewrite list_lookup_insert_ne in Hv by done. right. by exists j, v.
  - intros [[Hh Hn]|(j & v & Hj & Hv & Hh & Hn)].
    + exists i, u. rewrite list_lookup_insert_eq by done. naive_solver.
    + exists j, v. rewrite list_lookup_insert_ne by done. naive_solver.
Qed.

Lemma held_split ts i t n :
  ts !! i = Some t →
  held ts n ↔ (holding t = true ∧ req_name (pc_req t) = n) ∨ held_but (λ j, j = i) ts n.
Proof. intros Ht. rewrite <- (list_insert_id ts i t Ht) at 1. by eapply held_move. Qed.

(** No other thread holds the lock of a thread that holds it, or one that is
    free. *)
Lemma not_held_but s i t n :
  lock_inv s → c_threads s !! i = Some t →
  (holding t = true ∧ req_name (pc_req t) = n) ∨ n ∉ c_locks s →
  ¬ held_but (λ j, j = i) (c_threads s) n.
Proof.
  intros [Hheld Hexcl] Ht Hwhy (j & u & Hj & Hu & Hh & Hn). destruct Hwhy as [[Hht Hnt]|Hfree].
  - apply Hj. eapply Hexcl; eauto. congruence.
  - apply Hfree, Hheld. exists j, u. naive_solver.
Qed.

(** Exclusion is kept when thread [i] becomes [u], when no other thread holds
    the lock it then holds. *)
Lemma excl_move s i t u :
  lock_inv s → c_threads s !! i = Some t →
  (holding u = true → ¬ held_but (λ j, j = i) (c_threads s) (req_name (pc_req u))) →
  ∀ j k v w, <[i := u]> (c_threads s) !! j = Some v → <[i := u]> (c_threads s) !! k = Some w →
    holding v = true → holding w = true → req_name (pc_req v) = req_name (pc_req w) → j = k.
Proof.
  intros Hinv Ht Hfree j k v w Hv Hw Hhv Hhw Hn. pose proof (lookup_lt_Some _ _ _ Ht) as Hi.
  destruct (decide (j = i)) as [->|Hj], (decide (k = i)) as [->|Hk]; [done|..].
  all: repeat match goal with
       | Hl : <[?x := _]> _ !! ?x = Some _ |- _ => rewrite list_lookup_insert_eq in Hl by done; simplify_eq
       | Hl : <[_ := _]> _ !! _ = Some _ |- _ => rewrite list_lookup_insert_ne in Hl by done
       end.
  - destruct Hfree; [done|]. by exists k, w.
  - destruct Hfree; [done|]. by exists j, v.
  - by eapply (li_excl _ Hinv).
Qed.

(** A step that keeps a lock, takes a free one, releases one, or touches
    none. *)
Lemma move_lock_inv m m' ls ls' ts i t u :
  lock_inv (mkCState m ls ts) → ts !! i = Some t → pc_req u = pc_req t →
  (holding u = true ∧
     ((holding t = true ∧ ls' = ls) ∨
      (holding t = false ∧ (req_name (pc_req t) ∉ ls) ∧ ls' = {[req_name (pc_req t)]} ∪ ls))) ∨
  (holding u = false ∧
     ((holding t = true ∧ ls' = ls ∖ {[req_name (pc_req t)]}) ∨ (holding t = false ∧ ls' = ls))) →
  lock_inv (mkCState m' ls' (<[i := u]> ts)).
Proof.
  intros Hinv Ht Hreq Hcase. pose proof (li_held _ Hinv) as Hheld. simpl in Hheld.
  assert (holding u = true ∨ holding t = true → ¬ held_but (λ j, j = i) ts (req_name (pc_req t))) as Hno.
  { intros Hor. apply (not_held_but _ _ _ _ Hinv Ht). simpl. destruct (holding t); [by left|right].
    destruct Hcase as [[_ [[? _]|(_ & ? & _)]]|[Hu _]]; [done..|]. rewrite Hu in Hor. by destruct Hor. }
  split; simpl.
  - intros n. rewrite (held_move _ _ _ _ _ Ht), Hreq. specialize (Hheld n).
    rewrite (held_split _ _ _ _ Ht) in Hheld.
    destruct Hcase as [[Hu [[Hht ->]|(Hht & Hf & ->)]]|[Hu [[Hht ->]|[Hht ->]]]];
      rewrite Hu; rewrite Hht in *; [set_solver..| |set_solver].
    rewrite elem_of_difference, Hheld, elem_of_singleton. split.
    + intros [[[_ <-]|?] Hne]; [done|by right].
    + intros [[? _]|Hb]; [done|]. split; [by right|]. intros ->. apply Hno; auto.
  - apply (excl_move _ _ _ _ Hinv Ht). rewrite Hreq. auto.
Qed.

Lemma cstep_lock_inv s s' : lock_inv s → cstep s s' → lock_inv s'.
Proof. intros Hinv Hs. destruct Hs; (eapply move_lock_inv; [done|done|done|naive_solver]). Qed.

(** ** Progress *)

Lemma holding_steps s i t : c_threads s !! i = Some t → holding t = true → ∃ s', cstep s s'.
Proof.
  destruct s as [m ls ts]. simpl. intros Ht Hh. destruct t as [r|r|r o|r|r]; try done; eexists.
  - by apply cs_load.
  - by eapply cs_no_store.
  - by apply cs_unlock.
Qed.

Lemma start_steps s i r : c_threads s !! i = Some (Start r) → req_name r ∉ c_locks s → ∃ s', cstep s s'.
Proof.
  destruct s as [m ls ts]. simpl. intros Ht Hfree. destruct r; eexists.
  - by eapply cs_lock.
  - by eapply cs_lock.
  - by apply cs_delete.
Qed.

Definition finished (t : pc) : bool := match t with Finished _ => true | _ => false end.

Lemma progress s : lock_inv s → (∃ s', cstep s s') ∨ (c_locks s = ∅ ∧ Forall (λ t, finished t = true) (c_threads s)).
Proof.
  intros Hinv. destruct (decide (Exists (λ t, holding t = true) (c_threads s))) as [Hh|Hno].
  { left. apply Exists_exists in Hh as (t & [i Ht]%list_elem_of_lookup & Hh). by eapply holding_steps. }
  assert (∀ n, n ∉ c_locks s) as Hfree.
  { intros n (j & u & _ & Hu & Hh & _)%(li_held _ Hinv). apply Hno, Exists_exists.
    exists u. split; [by eapply list_elem_of_lookup_2|done]. }
  destruct (decide (Forall (λ t, finished t = true) (c_threads s))) as [Hf|Hf].
  { right. split; [|done]. apply leibniz_equiv. set_solver. }
  left. apply not_Forall_Exists in Hf; [|intros ?; apply _].
  apply Exists_exists in Hf as (t & Hin & Hnf). pose proof Hin as [i Ht]%list_elem_of_lookup.
  destruct t as [r|r|r o|r|r]; [by eapply start_steps|..|by destruct Hnf].
  all: destruct Hno; apply Exists_exists; eexists; by split; [exact Hin|].
Qed.

(** ** Termination *)

(** The steps a request can still take. *)
Definition rank (t : pc) : nat :=
  match t with Start _ => 4 | Locked _ => 3 | Loaded _ _ => 2 | Release _ => 1 | Finished _ => 0 end.

Definition measure (s : cstate) : nat := sum_list_with rank (c_threads s).

Lemma sum_list_with_insert {A} (f : A → nat) (l : list A) i x y :
  l !! i = Some x → sum_list_with f (<[i := y]> l) + f x = sum_list_with f l + f y.
Proof.
  revert i. induction l as [|z l IH]; intros [|i] Hi; simplify_eq/=; [lia|]. specialize (IH _ Hi). lia.
Qed.

Lemma cstep_measure s s' : cstep s s' → measure s' < measure s.
Proof.
  destruct 1; unfold measure; simpl;
    match goal with H : ?ts !! ?i = Some ?t |- context [<[?i := ?u]> _] =>
      pose proof (sum_list_with_insert rank ts i t u H) as Hsum; simpl in Hsum; lia
    end.
Qed.

Lemma nsteps_measure n s s' : nsteps cstep n s s' → n + measure s' ≤ measure s.
Proof. induction 1 as [|n x y z Hs _ IH]; [lia|]. apply cstep_measure in Hs. lia. Qed.

Lemma measure_cinit m rs : measure (cinit m rs) = 4 * length rs.
Proof.
  unfold measure. simpl. induction rs as [|r rs IH]; [done|].
  rewrite fmap_cons. cbn [sum_list_with rank length]. lia.
Qed.

Lemma cstep_reqs s s' : cstep s s' → pc_req <$> c_threads s' = pc_req <$> c_threads s.
Proof. destruct 1; simpl; by erewrite move_reqs. Qed.

Lemma all_finished ts : Forall (λ t, finished t = true) ts → ts = Finished <$> (pc_req <$> ts).
Proof. induction 1 as [|[] ts Ht _ IH]; try done. simpl. by f_equal. Qed.

Lemma reachable_reqs m rs s :
  rtc cstep (cinit m rs) s → lock_inv s ∧ pc_req <$> c_threads s = rs.
Proof.
  intros Hr. apply (rtc_ind_r (λ s, lock_inv s ∧ pc_req <$> c_threads s = rs) (cinit m rs)) in Hr; [done| |].
  - split; [apply cinit_lock_inv|]. simpl. rewrite <- list_fmap_compose. apply list_fmap_id.
  - intros s1 s2 _ Hs [Hinv Hreqs]. split; [by eapply cstep_lock_inv|]. by rewrite (cstep_reqs _ _ Hs).
Qed.

(** C25. Concurrent write requests finish, for any requests (deletes that race
    with writes of the same key included), any interleaving and any storage
    faults: no run has more than four steps per request, and a run that cannot
    be continued has answered every request and released every lock, so that
    no request waits for ever on [keyLock]. *)
Theorem concurrent_writes_finish (m : gmap string KeyEntry) (rs : list write_req) :
  (∀ n s, nsteps cstep n (cinit m rs) s → n ≤ 4 * length rs) ∧
  (∀ s, rtc cstep (cinit m rs) s →
     (∃ s', cstep s s') ∨ (c_locks s = ∅ ∧ c_threads s = Finished <$> rs)).
Proof.
  split.
  - intros n s Hn. apply nsteps_measure in Hn. rewrite measure_cinit in Hn. lia.
  - intros s [Hinv Hreqs]%reachable_reqs. destruct (progress s Hinv) as [?|[Hl Hf]]; [by left|right].
    split; [done|]. rewrite <- Hreqs. by apply all_finished.
Qed.
End liveness.

Module LivenessChecks.
Import ToyCrypto ConcChecks.

(** Two creates of one key: one of them holds the lock, the other waits, and
    the run goes on. *)
Lemma concurrent_writes_finish_witness :
  (∃ s', cstep (mkCState ∅ {[name1]} [Locked (RCreate env7 name1 ["evm"]); Start (RCreate env9 name1 ["evm"])]) s') ∨
  ({[name1]} = (∅ : gset string) ∧
   [Locked (RCreate env7 name1 ["evm"]); Start (RCreate env9 name1 ["evm"])] = Finished <$> creates).
Proof.
  apply (concurrent_writes_finish ∅ creates).
  apply rtc_once. rewrite <- (union_empty_r_L {[name1]}).
  exact (cs_lock ∅ ∅ (Start <$> creates) 0 (RCreate env7 name1 ["evm"]) eq_refl eq_refl (not_elem_of_empty name1)).
Defined.
End LivenessChecks.
