(* ===== verification/Sha256.v ===== *)
(** * SHA-256 and HMAC-SHA-256

    [crypto/sha256] and [crypto/hmac] of the Go standard library, executable:
    the signers hash sign documents with them and the gateway derives
    principal keys and compares tokens with them. *)

From S2P Require Import Prelude GoLib.

Module Sha256.
Local Open Scope Z_scope.

Definition w32 (z : Z) : Z := z mod 2 ^ 32.
Definition rotr (n x : Z) : Z := Z.lor (Z.shiftr x n) (w32 (Z.shiftl x (32 - n))).
Definition xor3 (a b c : Z) : Z := Z.lxor a (Z.lxor b c).

Definition Sigma0 (x : Z) : Z := xor3 (rotr 2 x) (rotr 13 x) (rotr 22 x).
Definition Sigma1 (x : Z) : Z := xor3 (rotr 6 x) (rotr 11 x) (rotr 25 x).
Definition sigma0 (x : Z) : Z := xor3 (rotr 7 x) (rotr 18 x) (Z.shiftr x 3).
Definition sigma1 (x : Z) : Z := xor3 (rotr 17 x) (rotr 19 x) (Z.shiftr x 10).
Definition Ch (e f g : Z) : Z := Z.lxor (Z.land e f) (Z.land (Z.lxor e (2 ^ 32 - 1)) g).
Definition Maj (a b c : Z) : Z := xor3 (Z.land a b) (Z.land a c) (Z.land b c).

(** The constants: the first 32 bits of the fractional parts of the cube roots
    (for the rounds) and square roots (for the initial state) of the first
    primes. *)
Definition primes : list Z :=
  List.filter (λ p, forallb (λ q, negb (p mod Z.of_nat q =? 0)) (seq 2 (Z.to_nat (Z.sqrt p) - 1)))
    (Z.of_nat <$> seq 2 310).

(** The integer cube root, bit by bit from bit [n - 1]. *)
Fixpoint cbrt (n : nat) (acc x : Z) : Z :=
  match n with
  | O => acc
  | S n' => let t := acc + 2 ^ Z.of_nat n' in cbrt n' (if t ^ 3 <=? x then t else acc) x
  end.

Definition K : list Z :=
  Eval vm_compute in (λ p, w32 (cbrt 36 0 (p * 2 ^ 96))) <$> take 64 primes.

Definition roots : list Z := Eval vm_compute in (λ p, w32 (Z.sqrt (p * 2 ^ 64))) <$> take 8 primes.

(** The eight working variables. *)
Record state := mkState { a : Z; b : Z; c : Z; d : Z; e : Z; f : Z; g : Z; h : Z }.

Definition init : state :=
  let r i := nth i roots 0 in mkState (r 0%nat) (r 1%nat) (r 2%nat) (r 3%nat) (r 4%nat) (r 5%nat) (r 6%nat) (r 7%nat).

Definition round (s : state) (kw : Z) : state :=
  let t1 := w32 (h s + Sigma1 (e s) + Ch (e s) (f s) (g s) + kw) in
  let t2 := w32 (Sigma0 (a s) + Maj (a s) (b s) (c s)) in
  mkState (w32 (t1 + t2)) (a s) (b s) (c s) (w32 (d s + t1)) (e s) (f s) (g s).

(** The message schedule: the last sixteen words, newest first, extended [n]
    times. *)
Fixpoint schedule (n : nat) (rev_ws : list Z) : list Z :=
  match n with
  | O => rev_ws
  | S n' =>
      let at_ i := nth i rev_ws 0 in
      schedule n' (w32 (sigma1 (at_ 1%nat) + at_ 6%nat + sigma0 (at_ 14%nat) + at_ 15%nat) :: rev_ws)
  end.

(** Big-endian 32-bit words of a block. *)
Fixpoint words (bs : bytes) : list Z :=
  match bs with
  | w :: x :: y :: z :: bs' => SetBytes [w; x; y; z] :: words bs'
  | _ => []
  end.

Definition add_state (s t : state) : state :=
  mkState (w32 (a s + a t)) (w32 (b s + b t)) (w32 (c s + c t)) (w32 (d s + d t))
          (w32 (e s + e t)) (w32 (f s + f t)) (w32 (g s + g t)) (w32 (h s + h t)).

Definition compress_block (s : state) (block : bytes) : state :=
  let ws := rev (schedule 48 (rev (words block))) in
  add_state s (fold_left round (zip_with Z.add K ws) s).

(** Padding: 0x80, zeros, and the bit length in 64 bits. *)
Definition padding (len : nat) : bytes :=
  Byte.x80 :: replicate (Z.to_nat ((55 - Z.of_nat len) mod 64)) Byte.x00
    ++ be_bytes 8 (8 * Z.of_nat len).

(** The 64-byte blocks of a message, [n] of them. *)
Fixpoint blocks (n : nat) (m : bytes) : list bytes :=
  match n with O => [] | S n' => take 64 m :: blocks n' (drop 64 m) end.

Definition digest (s : state) : bytes :=
  be_bytes 4 (a s) ++ be_bytes 4 (b s) ++ be_bytes 4 (c s) ++ be_bytes 4 (d s) ++
  be_bytes 4 (e s) ++ be_bytes 4 (f s) ++ be_bytes 4 (g s) ++ be_bytes 4 (h s).

Definition Sum256 (m : bytes) : bytes :=
  let padded := m ++ padding (length m) in
  digest (fold_left compress_block (blocks (length padded / 64) padded) init).

(** HMAC over 64-byte blocks. *)
Definition xor_byte (p : N) (x : byte) : byte := byte_of_N (N.lxor (byte_N x) p).

Definition hmac_Sum (key msg : bytes) : bytes :=
  let k := if (64 <? Z.of_nat (length key)) then Sum256 key else key in
  let k := k ++ replicate (64 - length k) Byte.x00 in
  Sum256 ((xor_byte 92 <$> k) ++ Sum256 ((xor_byte 54 <$> k) ++ msg)).

Lemma length_Sum256 m : length (Sum256 m) = 32%nat.
Proof. unfold Sum256, digest. by rewrite !length_app, !length_be_bytes. Qed.

Lemma length_hmac_Sum key msg : length (hmac_Sum key msg) = 32%nat.
Proof. apply length_Sum256. Qed.

(** The test vectors of FIPS 180-4 and RFC 4231. *)
Example Sum256_abc :
  hex_EncodeToString (Sum256 (bytes_of_string "abc"))
  = "ba7816bf8f01cfea414140de5dae2223b00361a396177a9cb410ff61f20015ad"%string.
Proof. vm_compute. reflexivity. Qed.

Example Sum256_two_blocks :
  hex_EncodeToString (Sum256 (bytes_of_string
    "abcdbcdecdefdefgefghfghighijhijkijkljklmklmnlmnomnopnopq"))
  = "248d6a61d20638b8e5c026930c3e6039a33ce45964ff2167f6ecedd419db06c1"%string.
Proof. vm_compute. reflexivity. Qed.

Example hmac_Sum_jefe :
  hex_EncodeToString (hmac_Sum (bytes_of_string "Jefe")
    (bytes_of_string "what do ya want for nothing?"))
  = "5bdcc146bf60754e6a042426089575c75a003f089d2739839dec58b964ec3843"%string.
Proof. vm_compute. reflexivity. Qed.
End Sha256.
