(* ===== verification/Interfaces.v ===== *)
(** * The Go interfaces between the components

    [evm.Vault] and [cosmos.Vault] (what a signer needs), [keyinfo.KeyStore],
    [gateway.KeyStore] and [gateway.HealthChecker] (what the gateway needs).
    [VaultClient] implements them; the signers and the gateway are written,
    and proved, against the classes. *)

From S2P Require Import Prelude.

(** [GetPublicKey(ctx, path)], shared by all of them. *)
Class PubKeys (W : Type) := {
  GetPublicKey : string → M W (result bytes) }.

(** [evm.Vault] = [cosmos.Vault]: with
    [Sign(ctx, path, hash, chain) (r, s, err)]. *)
Class SignVault (W : Type) := {
  sv_keys :: PubKeys W;
  vault_Sign : string → bytes → string → M W (result (Z * Z)) }.

(** [gateway.KeyStore]. *)
Class KeyStore (W : Type) := {
  ks_keys :: PubKeys W;
  CreateKey : string → list string → M W (result unit);
  UpdateKeyChains : string → list string → M W (result (list string));
  GetKeyChains : string → M W (result (list string));
  ListKeys : string → M W (result (list string)) }.

(** [gateway.HealthChecker], with the optional [ReadinessChecker]: [None] when
    the dynamic type does not implement it.  The instant is in nanoseconds;
    [None] inside is the zero [time.Time]. *)
Class HealthChecker (W : Type) := {
  Health : M W (result unit);
  LastLookupSelf : option (W → option Z) }.
