(* ===== verification/VaultClient.v ===== *)
(** * The Vault client: [internal/vault/client.go]

    The client's state (its public-key cache, the instant of its last
    successful token lookup, what it reported to its hooks), one definition
    per method, and the token-renewal loop as a step function.

    [github.com/hashicorp/vault/api] is the class [VaultAPI]. *)

From Stdlib Require Import Floats.SpecFloat.
From S2P Require Import Prelude GoLib Types KeyPath Crypto Interfaces.

(** ** The Vault API *)

(** An error of the API client: a [*vaultapi.ResponseError] (found by
    [errors.As]) or any other error. *)
Inductive api_error :=
  | ResponseError (StatusCode : Z) (Errors : list string) (text : string)
  | OtherError (text : string).

(** The error as a Go [error] value. *)
Definition api_err (e : api_error) : error :=
  match e with ResponseError _ _ text => errors_New text | OtherError text => errors_New text end.

(** [*vaultapi.Secret]; [Data = None] is the nil map. *)
Record Secret := mkSecret { Data : option (gmap string any); LeaseID : string }.

(** The calls, over a world [W] that also holds the wall clock (nanoseconds);
    [None] is the nil secret. *)
Class VaultAPI (W : Type) := {
  api_Write : string → gmap string any → W → W * (api_error + option Secret);
  api_Read : string → W → W * (api_error + option Secret);
  api_List : string → W → W * (api_error + option Secret);
  api_Health : W → W * option api_error;
  api_LookupSelf : W → W * (api_error + option Secret);
  api_RenewSelf : W → W * (api_error + Secret);
  api_Now : W → Z;
  api_Sleep : Z → W → W }.

(** ** The client *)

(** [Client]; the two hooks are represented by what they were called with:
    [vaultCalls] is [None] when no observer is installed. *)
Record Client (W : Type) := mkClient {
  api : W;
  pubkeyCache : gmap string bytes;
  lastLookupNs : Z;
  renewalFailures : nat;
  vaultCalls : option (list (string * string)) }.
Arguments mkClient {W} _ _ _ _ _.
Arguments api {W} _.
Arguments pubkeyCache {W} _.
Arguments lastLookupNs {W} _.
Arguments renewalFailures {W} _.
Arguments vaultCalls {W} _.

Definition errNotImplemented : error := mkError "not implemented" [ErrNotImplemented].

(** [fmt.Errorf("%w: key not found: %s", types.ErrNotFound, path)] *)
Definition notFound (path : string) : error := Errorf_w "" errNotFound (": key not found: " +:+ path).

Definition mapVaultErr (path : string) (err : api_error) : error :=
  match err with
  | ResponseError code errs text =>
      if (code =? 403)%Z then Errorf_w "" errPermission (": " +:+ text)
      else if (code =? 404)%Z then notFound path
      else if (code =? 400)%Z then Errorf_w "" errBadRequest (": " +:+ Join errs "; ")
      else api_err err
  | OtherError _ => api_err err
  end.

(** The status label of [recordCall]. *)
Definition callStatus (err : option error) : string :=
  match err with
  | None => "ok"
  | Some e =>
      if errors_Is e ErrPermission then "permission_denied"
      else if errors_Is e ErrNotFound then "not_found"
      else "error"
  end.

(** The dynamic type of a value, as [%T] prints it. *)
Definition type_name (v : any) : string :=
  match v with
  | ANil => "<nil>"
  | ABool _ => "bool"
  | AString _ => "string"
  | AFloat64 _ => "float64"
  | AInt _ => "int"
  | AInt64 _ => "int64"
  | ANumber _ => "json.Number"
  | AStrings _ => "[]string"
  | AList _ => "[]interface {}"
  | AMap _ => "map[string]interface {}"
  end.

Fixpoint decode_items (items : list any) : result (list string) :=
  match items with
  | [] => Ok []
  | AString s :: items' =>
      match decode_items items' with Ok l => Ok (s :: l) | Err e => Err e end
  | _ :: _ => Err (errors_New "chains contains non-string value")
  end.

Definition decodeStringSlice (v : any) : result (list string) :=
  match v with
  | AStrings xs => Ok xs
  | AList items => decode_items items
  | ANil => Err (errors_New "missing chains field")
  | _ => Err (errors_New ("unexpected chains type " +:+ type_name v))
  end.

(** [m[k]]: a missing key reads as the nil interface. *)
Definition index (m : gmap string any) (k : string) : any := default ANil (m !! k).

(** ** The methods *)

Section client.
Context {C : EthCrypto} {W : Type} {A : VaultAPI W}.

Abbreviation CM := (M (Client W)).

Definition recordCall (op : string) (err : option error) : CM unit := λ c,
  (mkClient (api c) (pubkeyCache c) (lastLookupNs c) (renewalFailures c)
     match vaultCalls c with
     | None => None
     | Some l => Some (l ++ [(op, callStatus err)])
     end, Val tt).

(** A call of the API. *)
Definition api_call {X} (f : W → W * X) : CM X := λ c,
  let '(w', x) := f (api c) in
  (mkClient w' (pubkeyCache c) (lastLookupNs c) (renewalFailures c) (vaultCalls c), Val x).

Definition client_Health : CM (result unit) :=
  body (
    let! err := call (api_call api_Health) in
    call (recordCall "health" (api_err <$> err)) ;;;
    next match err with None => Ok tt | Some e => Err (api_err e) end).

Definition client_CreateKey (path : string) (chains : list string) : CM (result unit) :=
  body (
    check (ValidateKeyPath path) Err ;;;
    let! r := call (api_call (api_Write (ToVaultPath path)
                                {["chains" := AString (Join chains ",")]})) in
    match r with
    | inr _ => call (recordCall "create" None) ;;; next (Ok tt)
    | inl e =>
        let mapped := mapVaultErr path e in
        call (recordCall "create" (Some mapped)) ;;; next (Err mapped)
    end).

(** The reply of a read or write that must carry data: the branches
    [GetPublicKey], [Sign], [GetKeyChains] and [UpdateKeyChains] share. *)
Definition requireData {R} (op path : string) (missing : error)
    (r : api_error + option Secret) : Prog (Client W) (result R) (gmap string any) :=
  match r with
  | inl e =>
      let mapped := mapVaultErr path e in
      call (recordCall op (Some mapped)) ;;; return_ (Err mapped)
  | inr (Some (mkSecret (Some d) _)) => call (recordCall op None) ;;; next d
  | inr _ => call (recordCall op (Some missing)) ;;; return_ (Err missing)
  end.

Definition client_GetPublicKey (path : string) : CM (result bytes) :=
  body (
    check (ValidateKeyPath path) Err ;;;
    let! c := get in
    match pubkeyCache c !! path with
    | Some cached => next (Ok cached)
    | None =>
        let! r := call (api_call (api_Read (ToVaultPath path))) in
        let! data := requireData "read" path (notFound path) r in
        let compressedB64 := as_string_or_zero (index data "compressed_pub_key") in
        guard (bool_decide (compressedB64 = ""))
          (Err (errors_New "plugin response missing compressed_pub_key")) ;;;
        let! compressed := check (b64_DecodeString StdEncoding compressedB64)
                             (λ e, Err (Errorf_w "decode compressed_pub_key: " e "")) in
        guard (negb (length compressed =? 33))
          (Err (errors_New ("expected 33-byte compressed pubkey, got " +:+
                            pretty (length compressed)))) ;;;
        let! pub := check (DecompressPubkey compressed)
                      (λ e, Err (Errorf_w "decompress secp256k1 pubkey: " e "")) in
        let uncompressed := FromECDSAPub pub in
        let! c := get in
        put (mkClient (api c) (<[path := uncompressed]> (pubkeyCache c)) (lastLookupNs c)
                      (renewalFailures c) (vaultCalls c)) ;;;
        next (Ok uncompressed)
    end).

(** [hex.DecodeString] with its error as an [error]. *)
Definition hex_result (s : string) : result bytes :=
  match hex_DecodeString s with inr b => Ok b | inl e => Err (errors_New (hex_error_text e)) end.

Definition client_Sign (path : string) (hash : bytes) (chain : string) : CM (result (Z * Z)) :=
  body (
    check (ValidateKeyPath path) Err ;;;
    guard (negb (length hash =? 32)) (Err (errors_New "payload must be 32 bytes (pre-hashed)")) ;;;
    let chain := ToLower (TrimSpace chain) in
    guard (bool_decide (chain = "")) (Err (errors_New "chain is required")) ;;;
    let! r := call (api_call (api_Write (ToSignPath path)
                (<["input" := AString (hex_EncodeToString hash)]>
                 {["chain" := AString chain]}))) in
    let! data := requireData "sign" path
                   (Errorf_w "" errNotFound (": key not found during sign: " +:+ path)) r in
    let rHex := as_string_or_zero (index data "r") in
    let sHex := as_string_or_zero (index data "s") in
    guard (bool_decide (rHex = "") || bool_decide (sHex = ""))
      (Err (errors_New "plugin response missing r/s fields")) ;;;
    let! rBytes := check (hex_result rHex) (λ e, Err (Errorf_w "decode signature r: " e "")) in
    let! sBytes := check (hex_result sHex) (λ e, Err (Errorf_w "decode signature s: " e "")) in
    next (Ok (SetBytes rBytes, SetBytes sBytes))).

Definition client_GetKeyChains (path : string) : CM (result (list string)) :=
  body (
    check (ValidateKeyPath path) Err ;;;
    let! r := call (api_call (api_Read (ToVaultPath path))) in
    let! data := requireData "read" path (notFound path) r in
    let! chains := check (decodeStringSlice (index data "chains"))
                     (λ e, Err (Errorf_w "decode chains: " e "")) in
    next (Ok chains)).

Definition client_UpdateKeyChains (path : string) (addChains : list string)
    : CM (result (list string)) :=
  body (
    check (ValidateKeyPath path) Err ;;;
    let! r := call (api_call (api_Write (ToVaultPath path)
                                {["add_chains" := AString (Join addChains ",")]})) in
    let! data := requireData "update_chains" path (notFound path) r in
    let! chains := check (decodeStringSlice (index data "chains"))
                     (λ e, Err (Errorf_w "decode chains: " e "")) in
    next (Ok chains)).

(** [for _, k := range rawKeys { if s, ok := k.(string); ok { ... } }] *)
Definition stringKeys (rawKeys : list any) : list string := omap as_string rawKeys.

Definition client_ListKeys (prefix : string) : CM (result (list string)) :=
  body (
    let path := if decide (prefix = "") then "kms/keys" else "kms/keys/" +:+ prefix in
    let! r := call (api_call (api_List path)) in
    match r with
    | inl e =>
        let mapped := mapVaultErr prefix e in
        call (recordCall "list" (Some mapped)) ;;; next (Err mapped)
    | inr secret =>
        call (recordCall "list" None) ;;;
        next (Ok match secret with
                 | Some (mkSecret (Some data) _) =>
                     match index data "keys" with AList rawKeys => stringKeys rawKeys | _ => [] end
                 | _ => []
                 end)
    end).

(** [LastLookupSelf]: the zero time when nothing was recorded. *)
Definition client_LastLookupSelf (c : Client W) : option Z :=
  if (lastLookupNs c =? 0)%Z then None else Some (lastLookupNs c).

(** The client implements the interfaces of the signers and the gateway. *)
#[export] Instance client_PubKeys : PubKeys (Client W) := {| GetPublicKey := client_GetPublicKey |}.

#[export] Instance client_SignVault : SignVault (Client W) := {| vault_Sign := client_Sign |}.

#[export] Instance client_KeyStore : KeyStore (Client W) := {|
  CreateKey := client_CreateKey;
  UpdateKeyChains := client_UpdateKeyChains;
  GetKeyChains := client_GetKeyChains;
  ListKeys := client_ListKeys |}.

#[export] Instance client_HealthChecker : HealthChecker (Client W) := {|
  Health := client_Health;
  LastLookupSelf := Some client_LastLookupSelf |}.

(** ** Construction *)

(** [AuthProvider]: the two providers of the package. *)
Inductive AuthProvider := TokenAuthProvider (TokenValue : string) | AppRoleAuthProvider.

Definition Token (p : AuthProvider) : result string :=
  match p with
  | TokenAuthProvider v => if decide (v = "") then Err (errors_New "vault token is required") else Ok v
  | AppRoleAuthProvider => Err errNotImplemented
  end.

(** The connection attempts [attempt, .., 2] with their sleeps; [n] of them
    are left. *)
Fixpoint connect (n : nat) (attempt : Z) (lastErr : error) (c : Client W) : Client W * result unit :=
  match n with
  | O => (c, Err lastErr)
  | S n' =>
      let c1 := if (0 <? attempt)%Z
                then mkClient (api_Sleep (Z.shiftl 1 (attempt - 1) * second) (api c)) (pubkeyCache c)
                       (lastLookupNs c) (renewalFailures c) (vaultCalls c)
                else c in
      match client_Health c1 with
      | (c2, Val (Ok _)) => (c2, Ok tt)
      | (c2, Val (Err e)) => connect n' (attempt + 1) e c2
      | (c2, Panic _) => (c2, Err lastErr)
      end
  end.

(** [NewClient]; [open] is [vaultapi.NewClient] with the token set. *)
Definition NewClient (open : string → string → result W) (addr : string) (auth : AuthProvider)
    : result (Client W) :=
  if decide (addr = "") then Err (errors_New "vault addr is required")
  else match Token auth with
  | Err e =>
      if errors_Is e ErrNotImplemented
      then Err (errors_New "AppRoleAuthProvider is not yet implemented; use TokenAuthProvider")
      else Err e
  | Ok token =>
      match open addr token with
      | Err e => Err e
      | Ok w =>
          match connect 3 0 (errors_New "") (mkClient w ∅ 0 0 None) with
          | (c, Ok _) => Ok c
          | (_, Err lastErr) =>
              Err (Errorf_w ("vault unreachable at " +:+ addr +:+ " after 3 attempts: ") lastErr "")
          end
      end
  end.

(** ** Token renewal *)

(** [int64(f)]: truncation toward zero; a value out of range (or NaN) gives an
    implementation-defined result, the argument [oor]. *)
Definition f64_to_int64 (oor : Z) (f : spec_float) : Z :=
  match f with
  | S754_zero _ => 0
  | S754_finite s m e =>
      let a := if (0 <=? e)%Z then (Z.pos m * 2 ^ e)%Z else (Z.pos m / 2 ^ (- e))%Z in
      let z := if s then (- a)%Z else a in
      if (minInt64 <=? z)%Z && (z <=? maxInt64)%Z then z else oor
  | _ => oor
  end.

Definition renewal_floor : Z := 30 * second.

Definition renewalInterval (oor : Z) (info : option Secret) : Z :=
  match info with
  | Some (mkSecret (Some data) _) =>
      let ttlSec := match index data "ttl" with
                    | AFloat64 v => v
                    | AInt v => f64_of_Z v
                    | AInt64 v => f64_of_Z v
                    | _ => S754_zero false
                    end in
      let candidate := wrap64 (f64_to_int64 oor (f64_div ttlSec (f64_of_Z 3)) * second) in
      if (candidate <? renewal_floor)%Z then renewal_floor else candidate
  | _ => renewal_floor
  end.

Definition backoffs : list Z := [1 * second; 2 * second; 4 * second; 8 * second; 16 * second; 30 * second]%Z.

(** The delay after failed attempt number [attempt] (from 0). *)
Definition backoff (attempt : nat) : Z := default (30 * second)%Z (backoffs !! attempt).

(** Where the goroutine is: about to look up for the [attempt]-th time, waiting
    [delay] before the next attempt, ticking at [interval], or returned. *)
Inductive renewal :=
  | Looking (attempt : nat)
  | BackingOff (attempt : nat) (delay : Z)
  | Ticking (interval : Z)
  | Returned.

Definition invokeRenewalFailure (c : Client W) : Client W :=
  mkClient (api c) (pubkeyCache c) (lastLookupNs c) (S (renewalFailures c)) (vaultCalls c).

Definition set_api (c : Client W) (w : W) : Client W :=
  mkClient w (pubkeyCache c) (lastLookupNs c) (renewalFailures c) (vaultCalls c).

Definition storeLookup (c : Client W) : Client W :=
  mkClient (api c) (pubkeyCache c) (api_Now (api c)) (renewalFailures c) (vaultCalls c).

(** One iteration of the first loop, with the statements up to the ticker. *)
Definition renewal_lookup (oor : Z) (attempt : nat) (c : Client W) : Client W * renewal :=
  match api_LookupSelf (api c) with
  | (w, inr (Some info)) =>
      let c := storeLookup (set_api c w) in
      let renewable := match Data info with
                       | Some d => match index d "renewable" with ABool b => b | _ => false end
                       | None => false
                       end in
      (c, if renewable then Ticking (renewalInterval oor (Some info)) else Returned)
  | (w, _) => (invokeRenewalFailure (set_api c w), BackingOff (S attempt) (backoff attempt))
  end.

(** One tick of the second loop. *)
Definition renewal_tick (oor : Z) (interval : Z) (c : Client W) : Client W * renewal :=
  match api_RenewSelf (api c) with
  | (w, inl _) => (invokeRenewalFailure (set_api c w), Ticking interval)
  | (w, inr _) =>
      match api_LookupSelf w with
      | (w', inr (Some latest)) =>
          (storeLookup (set_api c w'), Ticking (renewalInterval oor (Some latest)))
      | (w', _) => (invokeRenewalFailure (set_api c w'), Ticking interval)
      end
  end.

(** What wakes the goroutine up: the pending timer fires, the ticker ticks (or
    the loop head is reached), or the context is cancelled. *)
Inductive wake := Fire | Cancel.

Definition renewal_step (oor : Z) (ev : wake) (cs : Client W * renewal) : Client W * renewal :=
  match cs, ev with
  | (c, Returned), _ => (c, Returned)
  | (c, _), Cancel => (c, Returned)
  | (c, Looking attempt), Fire => renewal_lookup oor attempt c
  | (c, BackingOff attempt _), Fire => (c, Looking attempt)
  | (c, Ticking interval), Fire => renewal_tick oor interval c
  end.

(** The whole goroutine over a sequence of wake-ups. *)
Definition renewalLoop (oor : Z) (evs : list wake) (c : Client W) : Client W * renewal :=
  fold_left (λ cs ev, renewal_step oor ev cs) evs (c, Looking 0).
End client.
