(* ===== verification/EvmSigner.v ===== *)
(** * The EVM signer: [internal/signer/evm/evm.go]

    Written against [SignVault]; go-ethereum's [core/types] transactions are
    the class [EthTx]. *)

From S2P Require Import Prelude GoLib Types Crypto Interfaces.

(** [ethtypes.Transaction] and [LatestSignerForChainID(chainID)], as far as the
    signer and the gateway use them. *)
Class EthTx := {
  Transaction : Type;
  UnmarshalBinary : bytes → result Transaction;
  MarshalBinary : Transaction → result bytes;
  Protected : Transaction → bool;
  ChainId : Transaction → option Z;          (** [None] is a nil [*big.Int] *)
  SigHash : Z → Transaction → bytes;         (** [LatestSignerForChainID(id).Hash(tx)] *)
  WithSignature : Z → Transaction → bytes → result Transaction;
  RawSignatureValues : Transaction → Z * Z * Z }.

(** What the package documents: a signing hash has 32 bytes and does not
    depend on the signature, a signed transaction carries the signature it was
    given, and the binary encoding is invertible. *)
Class EthTxLaws (T : EthTx) := {
  length_SigHash : ∀ id tx, length (SigHash id tx) = 32;
  WithSignature_hash : ∀ id tx sig tx', WithSignature id tx sig = Ok tx' →
    SigHash id tx' = SigHash id tx;
  WithSignature_rs : ∀ id tx sig tx', WithSignature id tx sig = Ok tx' → length sig = 65 →
    ∃ v, RawSignatureValues tx' = (v, SetBytes (take 32 sig), SetBytes (take 32 (drop 32 sig)));
  Unmarshal_Marshal : ∀ tx b, MarshalBinary tx = Ok b → UnmarshalBinary b = Ok tx }.

Definition errUncompressed : error :=
  errors_New "public key must be 65-byte uncompressed secp256k1".

(** [len(pubkey) != 65 || pubkey[0] != 4] *)
Definition notUncompressed (pubkey : bytes) : bool :=
  negb (length pubkey =? 65) || negb (bool_decide (pubkey !! 0 = Some Byte.x04)).

Section evm.
Context {C : EthCrypto}.

Definition DeriveEVMAddress (pubkey : bytes) : result string :=
  if notUncompressed pubkey then Err errUncompressed
  else match UnmarshalPubkey pubkey with
       | Err e => Err e
       | Ok pub => Ok (PubkeyToAddress_Hex pub)
       end.

(** The loop over the recovery ids [recID, ..], [n] of them. *)
Fixpoint tryRecover (n : nat) (recID : byte) (hash rs pub : bytes) : option bytes :=
  match n with
  | O => None
  | S n' =>
      let sig := rs ++ [recID] in
      match Ecrecover hash sig with
      | Ok recovered =>
          if decide (recovered = pub) then Some sig
          else tryRecover n' (byte_of_N (byte_N recID + 1)) hash rs pub
      | Err _ => tryRecover n' (byte_of_N (byte_N recID + 1)) hash rs pub
      end
  end.

Context {W : Type} {V : SignVault W}.

(** [x.FillBytes(buf)] as a statement: a panic unwinds. *)
Definition fill {R} (n : nat) (x : Z) : Prog W R bytes := call (λ w, (w, FillBytes n x)).

Definition signWithRecovery (keyPath : string) (hash : bytes) : M W (result bytes) :=
  body (
    let! (r, ss) := try_ (vault_Sign keyPath hash "evm") Err in
    let! pub := try_ (GetPublicKey keyPath) Err in
    let! rb := fill 32 r in
    let! sb := fill 32 ss in
    next match tryRecover 2 Byte.x00 hash (rb ++ sb) pub with
         | Some sig => Ok sig
         | None => Err (errors_New "could not recover signature for public key")
         end).

(** The prefix of EIP-191. *)
Definition personalPrefix (len : nat) : bytes :=
  Byte.x19 :: bytes_of_string "Ethereum Signed Message:" ++ [Byte.x0a]
    ++ bytes_of_string (Itoa (Z.of_nat len)).

Definition SignPersonalMessage (keyPath : string) (msg : bytes) : M W (result bytes) :=
  signWithRecovery keyPath (Keccak256 (personalPrefix (length msg) ++ msg)).

Definition SignEIP712Digest (keyPath : string) (digest : bytes) : M W (result bytes) :=
  body (
    guard (negb (length digest =? 32)) (Err (errors_New "EIP-712 digest must be 32 bytes")) ;;;
    call (signWithRecovery keyPath digest)).

Context {T : EthTx}.

(** The chain-ID guard of [SignRawTx]. *)
Definition chainIDMismatch (tx : Transaction) (chainID : Z) : bool :=
  Protected tx &&
  match ChainId tx with
  | Some id => (0 <? id)%Z && negb (id =? chainID)%Z
  | None => false
  end.

(** [chainID = None] is a nil [*big.Int]. *)
Definition SignRawTx (keyPath : string) (chainID : option Z) (rawTx : bytes) : M W (result bytes) :=
  body (
    let! tx := check (UnmarshalBinary rawTx) (λ _, Err (errors_New "invalid RLP encoding")) in
    let! id := match chainID with
               | Some id => if (id <=? 0)%Z then return_ (Err (errors_New "chain ID is required"))
                            else next id
               | None => return_ (Err (errors_New "chain ID is required"))
               end in
    guard (chainIDMismatch tx id) (Err (errors_New "chain ID mismatch")) ;;;
    let hash := SigHash id tx in
    let! sig := try_ (signWithRecovery keyPath hash) Err in
    let! signed := check (WithSignature id tx sig) Err in
    next (MarshalBinary signed)).
End evm.

(** Recovery id 0/1 to Ethereum's 27/28; bytes wrap at 256, and the guard
    keeps the sum below. *)
Definition NormalizeEthereumV (sig : bytes) : bytes :=
  if length sig =? 65 then
    match sig !! 64 with
    | Some v => if (byte_N v <? 27)%N then <[64 := byte_of_N (byte_N v + 27)]> sig else sig
    | None => sig
    end
  else sig.

(** ** The contract of a signing vault

    What a signer relies on: a world that [holds] a private key with an
    allow-list at a path signs 32-byte hashes for those chains with that key
    and shows its public key. *)
Class SignVaultSpec {C : EthCrypto} (W : Type) {V : SignVault W} := {
  holds : W → string → PrivKey → list string → Prop;
  Sign_holds : ∀ w path k chains hash chain,
    holds w path k chains → length hash = 32 → chain ∈ chains →
    ∃ w' r s v, vault_Sign path hash chain w = (w', Val (Ok (SetBytes r, SetBytes s))) ∧
      holds w' path k chains ∧ length r = 32 ∧ length s = 32 ∧ (v = Byte.x00 ∨ v = Byte.x01) ∧
      Sign hash k = Ok (r ++ s ++ [v]) ∧
      Ecrecover hash (r ++ s ++ [v]) = Ok (FromECDSAPub (PublicKey k));
  GetPublicKey_holds : ∀ w path k chains,
    holds w path k chains →
    ∃ w', GetPublicKey path w = (w', Val (Ok (FromECDSAPub (PublicKey k)))) ∧
          holds w' path k chains }.
