(* ===== verification/CosmosSigner.v ===== *)
(** * The Cosmos signer: [internal/signer/cosmos/cosmos.go] and key info

    Address derivation, SIGN_MODE_DIRECT and the shared signing tail, with
    [internal/keyinfo].  RIPEMD-160 ([golang.org/x/crypto]), bech32
    ([cosmos-sdk]) and protobuf framing ([protowire]) are parameters. *)

From S2P Require Import Prelude GoLib Types Crypto Interfaces Sha256 EvmSigner.
Import Sha256.

(** The third-party functions of the Cosmos signer.  [ConsumeField] returns
    the length of the first field of a buffer, or [None] for a negative
    count. *)
Class CosmosLib := {
  ripemd160 : bytes → bytes;
  ConvertAndEncode : string → bytes → result string;
  ConsumeField : bytes → option nat }.

(** A field occupies at least one byte of the buffer and no more than it
    holds. *)
Class CosmosLibLaws (L : CosmosLib) := {
  ConsumeField_bounds : ∀ b n, ConsumeField b = Some n → 1 ≤ n ≤ length b }.

Section cosmos.
Context {C : EthCrypto} {L : CosmosLib}.

Definition errHRP : error := errors_New "invalid bech32 HRP".

Definition compress (pubkey : bytes) : result bytes :=
  if notUncompressed pubkey then Err errUncompressed
  else match UnmarshalPubkey pubkey with
       | Err e => Err e
       | Ok pub => Ok (CompressPubkey pub)
       end.

Definition deriveFromCompressed (compressed : bytes) (hrp : string) : result string :=
  match ConvertAndEncode hrp (ripemd160 (Sum256 compressed)) with
  | Err _ => Err errHRP
  | Ok addr => Ok addr
  end.

Definition DeriveCosmosAddress (pubkey : bytes) (hrp : string) : result string :=
  if decide (hrp = "") then Err errHRP
  else match compress pubkey with
       | Err e => Err e
       | Ok compressed => deriveFromCompressed compressed hrp
       end.

Definition DeriveCosmosAddressFromCompressed (compressed : bytes) (hrp : string) : result string :=
  if negb (length compressed =? 33)
  then Err (errors_New "public key must be 33-byte compressed secp256k1")
  else if decide (hrp = "") then Err errHRP
  else deriveFromCompressed compressed hrp.

(** The loop of [validProto] with [fuel]: [None] when the fuel runs out. *)
Fixpoint validProto_loop (fuel : nat) (b : bytes) : option bool :=
  match b with
  | [] => Some true
  | _ =>
      match fuel with
      | O => None
      | S fuel' =>
          match ConsumeField b with
          | None => Some false
          | Some n => validProto_loop fuel' (drop n b)
          end
      end
  end.

(** Each field consumes at least one byte: as many iterations as bytes are
    enough ([validProto_loop_total]). *)
Definition validProto (b : bytes) : bool :=
  match b with
  | [] => false
  | _ => default false (validProto_loop (length b) b)
  end.

Context {W : Type} {V : SignVault W}.

Definition ExportCompressedPubKey (keyPath : string) : M W (result bytes) :=
  body (
    let! pub := try_ (GetPublicKey keyPath) Err in
    next (compress pub)).

Definition signHash (keyPath : string) (hash : bytes) : M W (result (bytes * bytes)) :=
  body (
    let! (r, ss) := try_ (vault_Sign keyPath hash "cosmos") Err in
    let! pub := try_ (ExportCompressedPubKey keyPath) Err in
    let! rb := fill 32 r in
    let! sb := fill 32 ss in
    next (Ok (rb ++ sb, pub))).

Definition SignDirect (keyPath : string) (signDocBytes : bytes) : M W (result (bytes * bytes)) :=
  body (
    guard (negb (validProto signDocBytes))
      (Err (errors_New "invalid SignDoc proto encoding")) ;;;
    call (signHash keyPath (Sum256 signDocBytes))).
End cosmos.

(** ** [internal/keyinfo] *)

Definition DefaultHRP : string := "cosmos".

Section keyinfo.
Context {C : EthCrypto} {L : CosmosLib} {W : Type} {P : PubKeys W}.

Definition For (path hrp : string) (chains : list Chain) : M W (result KeyInfo) :=
  body (
    let hrp := if decide (hrp = "") then DefaultHRP else hrp in
    let! pub := try_ (GetPublicKey path) Err in
    let! evmAddr := if ChainsContain chains ChainEVM
                    then check (DeriveEVMAddress pub) Err else next "" in
    let! cosmosAddr := if ChainsContain chains ChainCosmos
                       then check (DeriveCosmosAddress pub hrp) Err else next "" in
    next (Ok (mkKeyInfo path (hex_EncodeToString pub) evmAddr cosmosAddr chains))).
End keyinfo.
