(* ===== verification/Float64.v ===== *)
(** * Decimal conversion of Go's [float64]

    [encoding/json] reads every number into a [float64] and prints it back in
    the shortest form that reads back as the same value.  This file models
    both directions on exact integers: [strconv.ParseFloat] as correct
    rounding to nearest, ties to even, and [strconv.AppendFloat] with precision
    -1 under the format choice of the JSON encoder. *)

From S2P Require Import Prelude GoLib.

#[local] Open Scope Z_scope.

(** A finite [float64]: [(-1)^neg * mant * 2^exp]. *)
Record float64 := mkFloat { f_neg : bool; f_mant : Z; f_exp : Z }.

#[export] Instance float64_eq_dec : EqDecision float64.
Proof. solve_decision. Defined.

(** Normal and subnormal values; zero is [0 * 2^-1074]. *)
Definition representable (m e : Z) : Prop :=
  0 ≤ m < 2 ^ 53 ∧ -1074 ≤ e ≤ 971 ∧ (2 ^ 52 ≤ m ∨ e = -1074).

Definition finite64 (f : float64) : Prop := representable (f_mant f) (f_exp f).

(** ** Rounding *)

(** [a / b] to the nearest integer, ties to even. *)
Definition round_half_even (a b : Z) : Z :=
  let q := a / b in
  let r := a mod b in
  if 2 * r <? b then q
  else if b <? 2 * r then q + 1
  else if Z.even q then q else q + 1.

(** [num / den >= 2^k] *)
Definition geb_pow2 (num den k : Z) : bool :=
  den * 2 ^ Z.max 0 k <=? num * 2 ^ Z.max 0 (- k).

(** The largest [k] with [num / den >= 2^k]. *)
Definition floor_log2 (num den : Z) : Z :=
  let k := Z.log2 num - Z.log2 den in
  if geb_pow2 num den k then k else k - 1.

(** The [float64] nearest to [num / den > 0], or [None] on overflow. *)
Definition round64 (num den : Z) : option (Z * Z) :=
  let e := Z.max (-1074) (floor_log2 num den - 52) in
  let m := round_half_even (num * 2 ^ Z.max 0 (- e)) (den * 2 ^ Z.max 0 e) in
  let '(m, e) := if m =? 2 ^ 53 then (2 ^ 52, e + 1) else (m, e) in
  if 971 <? e then None else Some (m, e).

(** [D * 10^k], for [D >= 0]. *)
Definition round_dec (D k : Z) : option (Z * Z) :=
  if D =? 0 then Some (0, -1074)
  else round64 (D * 10 ^ Z.max 0 k) (10 ^ Z.max 0 (- k)).

(** ** Shortest digits *)

Definition geb_pow10 (num den p : Z) : bool :=
  den * 10 ^ Z.max 0 p <=? num * 10 ^ Z.max 0 (- p).

(** The [p] with [10^(p-1) <= num / den < 10^p]. *)
Definition dec_point (num den : Z) : Z :=
  let p := floor_log2 num den * 30103 / 100000 in
  if geb_pow10 num den (p + 1) then p + 2 else if geb_pow10 num den p then p + 1 else p.

Fixpoint strip (fuel : nat) (D k : Z) : Z * Z :=
  match fuel with
  | O => (D, k)
  | S fuel' => if D mod 10 =? 0 then strip fuel' (D / 10) (k + 1) else (D, k)
  end.

(** [D * 10^k] without trailing zeros, when it reads back as [m * 2^e]. *)
Definition accept (m e D k : Z) : option (Z * Z) :=
  let '(D, k) := strip 20 D k in
  if (0 <? D) && bool_decide (round_dec D k = Some (m, e)) then Some (D, k) else None.

(** The closer of the two [n]-digit neighbours that reads back. *)
Definition candidate (m e num den p n : Z) : option (Z * Z) :=
  let k := p - n in
  let a := num * 10 ^ Z.max 0 (- k) in
  let b := den * 10 ^ Z.max 0 k in
  let lo := accept m e (a / b) k in
  let hi := accept m e (a / b + 1) k in
  if 2 * (a mod b) <=? b
  then match lo with Some c => Some c | None => hi end
  else match hi with Some c => Some c | None => lo end.

Fixpoint search (fuel : nat) (m e num den p n : Z) : option (Z * Z) :=
  match fuel with
  | O => None
  | S fuel' =>
      match candidate m e num den p n with
      | Some c => Some c
      | None => search fuel' m e num den p (n + 1)
      end
  end.

(** The shortest decimal [(D, k)] of [m * 2^e > 0].  Seventeen digits always
    suffice for a [float64]; the last case is the exact expansion. *)
Definition shortest (m e : Z) : Z * Z :=
  let num := m * 2 ^ Z.max 0 e in
  let den := 2 ^ Z.max 0 (- e) in
  match search 17 m e num den (dec_point num den) 1 with
  | Some c => c
  | None => (m * 2 ^ Z.max 0 e * 5 ^ Z.max 0 (- e), Z.min 0 e)
  end.

(** ** Text *)

Definition digit_char (d : Z) : ascii := ascii_of_N (48 + Z.to_N d).

Fixpoint digits_loop (fuel : nat) (D : Z) (acc : string) : string :=
  match fuel with
  | O => acc
  | S fuel' =>
      let acc := String (digit_char (D mod 10)) acc in
      if D / 10 =? 0 then acc else digits_loop fuel' (D / 10) acc
  end.

(** The decimal digits of [D >= 0]; a digit takes more than three bits. *)
Definition digits (D : Z) : string := digits_loop (S (Z.to_nat (Z.log2 D))) D "".

(** [s[:n]] and [s[n:]]. *)
Fixpoint str_take (n : nat) (s : string) : string :=
  match n, s with S n', String c s' => String c (str_take n' s') | _, _ => "" end.

Fixpoint str_drop (n : nat) (s : string) : string :=
  match n, s with S n', String _ s' => str_drop n' s' | _, _ => s end.

(** [%e] with the exponent as the JSON encoder leaves it, and [%f]. *)
Definition format_e (D k : Z) : string :=
  let ds := digits D in
  let x := k + Z.of_nat (String.length ds) - 1 in
  match ds with
  | String c rest => String c (if decide (rest = "") then "" else "." +:+ rest)
  | EmptyString => ""
  end +:+ "e" +:+ (if x <? 0 then "-" else "+") +:+ digits (Z.abs x).

Definition format_f (D k : Z) : string :=
  let ds := digits D in
  let n := Z.of_nat (String.length ds) in
  let p := n + k in
  if p <=? 0 then "0." +:+ zeros (Z.to_nat (- p)) +:+ ds
  else if n <=? p then ds +:+ zeros (Z.to_nat k)
  else str_take (Z.to_nat p) ds +:+ "." +:+ str_drop (Z.to_nat p) ds.

(** [m * 2^e < m' * 2^e'], for exponents of at least -1074. *)
Definition ltb64 (x y : Z * Z) : bool :=
  x.1 * 2 ^ (x.2 + 1074) <? y.1 * 2 ^ (y.2 + 1074).

(** [abs < 1e-6 || abs >= 1e21] on the [float64] constants. *)
Definition use_e (m e : Z) : bool :=
  match round_dec 1 (-6), round_dec 1 21 with
  | Some lo, Some hi => ltb64 (m, e) lo || negb (ltb64 (m, e) hi)
  | _, _ => false
  end.

(** [floatEncoder] of [encoding/json]. *)
Definition format_float (f : float64) : string :=
  (if f_neg f then "-" else "") +:+
  if f_mant f =? 0 then "0"
  else
    let '(D, k) := shortest (f_mant f) (f_exp f) in
    if use_e (f_mant f) (f_exp f) then format_e D k else format_f D k.

(** A number literal: sign, integer digits, fraction digits, exponent. *)
Record numlit := mkNumlit {
  n_neg : bool;
  n_int : string;
  n_frac : string;
  n_exp : option (bool * string) }.

Definition digit_value (c : ascii) : Z := Z.of_N (N_of_ascii c) - 48.

Fixpoint digits_value (s : string) (acc : Z) : Z :=
  match s with
  | EmptyString => acc
  | String c s' => digits_value s' (acc * 10 + digit_value c)
  end.

(** The exponent, read as [strconv] does: digits after the first that reaches
    10000 are ignored. *)
Fixpoint exp_value (s : string) (acc : Z) : Z :=
  match s with
  | EmptyString => acc
  | String c s' => exp_value s' (if acc <? 10000 then acc * 10 + digit_value c else acc)
  end.

(** [strconv.ParseFloat(s, 64)] on a JSON number; [None] is a range error. *)
Definition ParseFloat (l : numlit) : option float64 :=
  let x := match n_exp l with
           | None => 0
           | Some (neg, ds) => if neg : bool then - exp_value ds 0 else exp_value ds 0
           end in
  match round_dec (digits_value (n_int l +:+ n_frac l) 0) (x - Z.of_nat (String.length (n_frac l))) with
  | Some (m, e) => Some (mkFloat (n_neg l) m e)
  | None => None
  end.

(** ** Exact values round to themselves *)

Lemma geb_pow2_scaled num den k j :
  0 ≤ j → 0 ≤ k + j → (geb_pow2 num den k = true ↔ den * 2 ^ (k + j) ≤ num * 2 ^ j).
Proof.
  intros Hj Hkj. unfold geb_pow2. rewrite Z.leb_le.
  destruct (Z.le_gt_cases 0 k) as [Hk|Hk].
  - rewrite (Z.max_r 0 k), (Z.max_l 0 (- k)) by lia. rewrite Z.pow_add_r, Z.pow_0_r by lia.
    pose proof (Z.pow_pos_nonneg 2 j). nia.
  - rewrite (Z.max_l 0 k), (Z.max_r 0 (- k)) by lia.
    replace (2 ^ j) with (2 ^ (- k) * 2 ^ (k + j)) by (rewrite <- Z.pow_add_r by lia; f_equal; lia).
    pose proof (Z.pow_pos_nonneg 2 (k + j)). rewrite Z.pow_0_r. nia.
Qed.

Lemma geb_pow2_mono num den k k' :
  0 < den → k ≤ k' → geb_pow2 num den k' = true → geb_pow2 num den k = true.
Proof.
  intros Hden Hk. set (j := Z.max 0 (- k)).
  rewrite (geb_pow2_scaled _ _ k j), (geb_pow2_scaled _ _ k' j) by lia.
  pose proof (Z.pow_le_mono_r 2 (k + j) (k' + j)). nia.
Qed.

Lemma floor_log2_spec num den :
  0 < num → 0 < den →
  geb_pow2 num den (floor_log2 num den) = true ∧ geb_pow2 num den (floor_log2 num den + 1) = false.
Proof.
  intros Hn Hd. unfold floor_log2. set (a := Z.log2 num). set (b := Z.log2 den).
  pose proof (Z.log2_spec num Hn) as [Hn1 Hn2]. pose proof (Z.log2_spec den Hd) as [Hd1 Hd2].
  fold a in Hn1, Hn2. fold b in Hd1, Hd2. rewrite Z.pow_succ_r in Hn2, Hd2 by apply Z.log2_nonneg.
  assert (0 ≤ a ∧ 0 ≤ b) as [Ha Hb] by (split; apply Z.log2_nonneg).
  assert (2 ^ (a - b - 1 + (b + 1)) = 2 ^ a) as E1 by (f_equal; lia).
  assert (2 ^ (a - b + 1 + b) = 2 * 2 ^ a) as E2 by (rewrite <- Z.pow_succ_r by lia; f_equal; lia).
  pose proof (Z.pow_pos_nonneg 2 a). pose proof (Z.pow_pos_nonneg 2 b).
  destruct (geb_pow2 num den (a - b)) eqn:Hg.
  - split; [done|]. apply not_true_is_false. rewrite (geb_pow2_scaled _ _ _ b), E2 by lia. nia.
  - split; [|by replace (a - b - 1 + 1) with (a - b) by lia].
    rewrite (geb_pow2_scaled _ _ _ (b + 1)), E1, Z.pow_add_r, Z.pow_1_r by lia. nia.
Qed.

Lemma floor_log2_unique num den k :
  0 < num → 0 < den → geb_pow2 num den k = true → geb_pow2 num den (k + 1) = false →
  floor_log2 num den = k.
Proof.
  intros Hn Hd Hk Hk1. destruct (floor_log2_spec num den Hn Hd) as [H1 H2].
  destruct (Z.lt_trichotomy (floor_log2 num den) k) as [Hlt|[?|Hlt]]; [|done|].
  - apply (geb_pow2_mono _ _ (floor_log2 num den + 1)) in Hk; [congruence|done|lia].
  - apply (geb_pow2_mono _ _ (k + 1)) in H1; [congruence|done|lia].
Qed.

Lemma round_half_even_exact q b : 0 < b → round_half_even (q * b) b = q.
Proof.
  intros Hb. unfold round_half_even. rewrite Z.div_mul, Z.mod_mul by lia.
  destruct (Z.ltb_spec (2 * 0) b); lia.
Qed.

(** [num / den = m * 2^e] *)
Definition equals64 (num den m e : Z) : Prop :=
  num * 2 ^ Z.max 0 (- e) = m * (den * 2 ^ Z.max 0 e).

Lemma equals64_scaled num den m e j :
  equals64 num den m e → 0 ≤ j → 0 ≤ e + j → num * 2 ^ j = m * den * 2 ^ (e + j).
Proof.
  unfold equals64. intros Heq Hj Hej. destruct (Z.le_gt_cases 0 e) as [He|He].
  - rewrite (Z.max_r 0 e), (Z.max_l 0 (- e)), Z.pow_0_r in Heq by lia.
    rewrite Z.pow_add_r by lia. nia.
  - rewrite (Z.max_l 0 e), (Z.max_r 0 (- e)), Z.pow_0_r in Heq by lia.
    replace (2 ^ j) with (2 ^ (- e) * 2 ^ (e + j)) by (rewrite <- Z.pow_add_r by lia; f_equal; lia).
    nia.
Qed.

Lemma floor_log2_exact num den m e :
  0 < num → 0 < den → 0 < m → equals64 num den m e → floor_log2 num den = Z.log2 m + e.
Proof.
  intros Hn Hd Hm Heq. pose proof (Z.log2_nonneg m) as Hl. set (j := Z.abs e).
  assert (num * 2 ^ j = m * den * 2 ^ (e + j)) as Hx by (apply equals64_scaled; [done|lia|lia]).
  pose proof (Z.log2_spec m Hm) as [Hm1 Hm2]. pose proof (Z.pow_pos_nonneg 2 (e + j)).
  apply floor_log2_unique; [done|done| |apply not_true_is_false];
    rewrite (geb_pow2_scaled _ _ _ j), Hx by lia.
  - replace (Z.log2 m + e + j) with (Z.log2 m + (e + j)) by lia. rewrite Z.pow_add_r by lia. nia.
  - replace (Z.log2 m + e + 1 + j) with (Z.succ (Z.log2 m) + (e + j)) by lia. rewrite Z.pow_add_r by lia.
    intros Hle. assert (den * 2 ^ (e + j) * 2 ^ Z.succ (Z.log2 m) ≤ den * 2 ^ (e + j) * m) by nia.
    assert (0 < den * 2 ^ (e + j)) by nia. nia.
Qed.

Lemma round64_exact num den m e :
  0 < num → 0 < den → 0 < m → representable m e → equals64 num den m e →
  round64 num den = Some (m, e).
Proof.
  intros Hn Hd Hm ([_ Hm53] & He & Hnorm) Heq. unfold round64.
  rewrite (floor_log2_exact num den m e) by done.
  assert (Z.log2 m < 53) as Hlog by (by apply Z.log2_lt_pow2).
  assert (Z.max (-1074) (Z.log2 m + e - 52) = e) as ->.
  { destruct Hnorm as [Hnorm|Hnorm]; [|lia]. apply Z.log2_le_pow2 in Hnorm; lia. }
  unfold equals64 in Heq. rewrite Heq, round_half_even_exact.
  - destruct (Z.eqb_spec m (2 ^ 53)); [lia|]. destruct (Z.ltb_spec 971 e); [lia|done].
  - pose proof (Z.pow_pos_nonneg 2 (Z.max 0 e)). nia.
Qed.

(** ** The shortest decimal reads back *)

(** What the rest needs of a decimal [D * 10^k] of [m * 2^e]; the bounds keep
    its exponent far below 10000. *)
Definition decimal_of (m e : Z) (c : Z * Z) : Prop :=
  0 < c.1 < 2 ^ 4000 ∧ Z.abs c.2 ≤ 1200 ∧ round_dec c.1 c.2 = Some (m, e).

Lemma strip_bounds fuel D k :
  0 ≤ D → let '(D', k') := strip fuel D k in D' ≤ D ∧ k ≤ k' ≤ k + Z.of_nat fuel.
Proof.
  revert D k. induction fuel as [|fuel IH]; intros D k HD; simpl; [lia|].
  destruct (D mod 10 =? 0); [|lia].
  assert (0 ≤ D / 10 ≤ D) as Hdiv by (split; [apply Z.div_pos; lia|apply Z.div_le_upper_bound; lia]).
  specialize (IH (D / 10) (k + 1)). destruct (strip fuel (D / 10) (k + 1)). lia.
Qed.

Lemma accept_decimal m e D k c :
  0 ≤ D < 2 ^ 4000 → -1200 ≤ k ≤ 1180 → accept m e D k = Some c → decimal_of m e c.
Proof.
  intros HD Hk. unfold accept. pose proof (strip_bounds 20 D k) as Hs.
  destruct (strip 20 D k) as [D' k'].
  destruct (Z.ltb_spec 0 D'); [|done]. case_bool_decide; [|done]. intros [= <-].
  unfold decimal_of. cbn [fst snd]. split_and!; [done|lia|lia|done].
Qed.

Lemma pow10_bound k : 0 ≤ k ≤ 400 → 1 ≤ 10 ^ k ≤ 2 ^ 1600.
Proof.
  intros Hk. split; [pose proof (Z.pow_pos_nonneg 10 k); lia|].
  etransitivity; [apply (Z.pow_le_mono_l 10 16); lia|].
  change 16 with (2 ^ 4). rewrite <- Z.pow_mul_r by lia. apply Z.pow_le_mono_r; lia.
Qed.

Lemma candidate_decimal m e num den p n c :
  0 ≤ num < 2 ^ 2000 → 0 < den → -380 ≤ p ≤ 380 → 1 ≤ n ≤ 17 →
  candidate m e num den p n = Some c → decimal_of m e c.
Proof.
  intros Hnum Hden Hp Hn. unfold candidate. set (k := p - n).
  set (a := num * 10 ^ Z.max 0 (- k)). set (b := den * 10 ^ Z.max 0 k).
  assert (0 ≤ a < 2 ^ 3600) as Ha.
  { destruct (pow10_bound (Z.max 0 (- k))) as [H1 H2]; [lia|]. unfold a. split; [nia|].
    change (2 ^ 3600) with (2 ^ 2000 * 2 ^ 1600). nia. }
  assert (0 < b) as Hb.
  { destruct (pow10_bound (Z.max 0 k)) as [H1 H2]; [lia|]. unfold b. nia. }
  assert (0 ≤ a / b ≤ a) as Hq by (split; [apply Z.div_pos; lia|apply Z.div_le_upper_bound; nia]).
  assert (∀ D, 0 ≤ D ≤ a + 1 → accept m e D k = Some c → decimal_of m e c) as Hacc.
  { intros D HD. apply accept_decimal; [|lia]. split; [lia|].
    change (2 ^ 4000) with (2 ^ 3600 * 2 ^ 400). nia. }
  destruct (2 * (a mod b) <=? b).
  - destruct (accept m e (a / b) k) eqn:E; [intros [= <-]; by apply Hacc with (a / b); [lia|]|].
    apply Hacc. lia.
  - destruct (accept m e (a / b + 1) k) eqn:E; [intros [= <-]; by apply Hacc with (a / b + 1); [lia|]|].
    apply Hacc. lia.
Qed.

Lemma search_decimal fuel m e num den p n c :
  0 ≤ num < 2 ^ 2000 → 0 < den → -380 ≤ p ≤ 380 → 1 ≤ n → n + Z.of_nat fuel ≤ 18 →
  search fuel m e num den p n = Some c → decimal_of m e c.
Proof.
  intros Hnum Hden Hp. revert n. induction fuel as [|fuel IH]; intros n Hn Hf; [done|].
  cbn [search]. destruct (candidate m e num den p n) eqn:Hc; [|apply IH; lia].
  intros [= <-]. eapply candidate_decimal; [exact Hnum|exact Hden|exact Hp| |exact Hc]. lia.
Qed.

Lemma dec_point_bounds num den :
  -1100 ≤ floor_log2 num den ≤ 1100 → -380 ≤ dec_point num den ≤ 380.
Proof.
  intros Hl. unfold dec_point. set (p := _ / 100000).
  assert (-332 ≤ p ≤ 332).
  { split; [apply Z.div_le_lower_bound|apply Z.lt_succ_r, Z.div_lt_upper_bound]; lia. }
  destruct (geb_pow10 _ _ (p + 1)); [lia|]. destruct (geb_pow10 _ _ p); lia.
Qed.

Lemma exact_decimal m e :
  0 < m → representable m e →
  decimal_of m e (m * 2 ^ Z.max 0 e * 5 ^ Z.max 0 (- e), Z.min 0 e).
Proof.
  intros Hm Hr. pose proof Hr as ([_ Hm53] & He & _). unfold decimal_of. cbn [fst snd].
  set (E := Z.max 0 e). set (F := Z.max 0 (- e)).
  assert (0 < 2 ^ E ≤ 2 ^ 971) as HE.
  { split; [apply Z.pow_pos_nonneg; lia|apply Z.pow_le_mono_r; lia]. }
  assert (0 < 5 ^ F) as HF by (apply Z.pow_pos_nonneg; lia).
  assert (2 ^ E * 5 ^ F < 2 ^ 3300) as HEF.
  { destruct (Z.le_gt_cases 0 e).
    - replace F with 0 by lia. rewrite Z.pow_0_r, Z.mul_1_r.
      eapply Z.le_lt_trans; [apply HE|]. apply Z.pow_lt_mono_r; lia.
    - replace E with 0 by lia. rewrite Z.pow_0_r, Z.mul_1_l.
      eapply Z.le_lt_trans; [apply (Z.pow_le_mono_l 5 8); lia|].
      change 8 with (2 ^ 3). rewrite <- Z.pow_mul_r by lia. apply Z.pow_lt_mono_r; lia. }
  split_and!; [nia| |lia|].
  - change (2 ^ 4000) with (2 ^ 53 * 2 ^ 3300 * 2 ^ 647). pose proof (Z.pow_pos_nonneg 2 647). nia.
  - unfold round_dec. destruct (Z.eqb_spec (m * 2 ^ E * 5 ^ F) 0); [nia|].
    replace (Z.max 0 (Z.min 0 e)) with 0 by lia. replace (Z.max 0 (- Z.min 0 e)) with F by lia.
    rewrite Z.pow_0_r, Z.mul_1_r. apply round64_exact; [nia|apply Z.pow_pos_nonneg; lia|done|done|].
    unfold equals64. fold E F. change 10 with (5 * 2). rewrite Z.pow_mul_l. ring.
Qed.

Lemma shortest_decimal m e : 0 < m → representable m e → decimal_of m e (shortest m e).
Proof.
  intros Hm Hr. pose proof Hr as ([_ Hm53] & He & _). unfold shortest.
  set (num := m * 2 ^ Z.max 0 e). set (den := 2 ^ Z.max 0 (- e)).
  assert (0 < 2 ^ Z.max 0 e ≤ 2 ^ 971) as HE.
  { split; [apply Z.pow_pos_nonneg; lia|apply Z.pow_le_mono_r; lia]. }
  assert (0 < den) as Hden by (apply Z.pow_pos_nonneg; lia).
  assert (0 < num < 2 ^ 2000) as Hnum.
  { unfold num. split; [nia|]. change (2 ^ 2000) with (2 ^ 53 * 2 ^ 971 * 2 ^ 976).
    pose proof (Z.pow_pos_nonneg 2 976). nia. }
  destruct (search _ _ _ _ _ _ _) as [c|] eqn:Hs; [|by apply exact_decimal].
  eapply search_decimal; [| | | | |exact Hs]; [lia|done| |lia|lia].
  apply dec_point_bounds. rewrite (floor_log2_exact num den m e); [| |done|done|].
  - pose proof (Z.log2_nonneg m). assert (Z.log2 m < 53) by (by apply Z.log2_lt_pow2). lia.
  - lia.
  - unfold equals64, num, den. ring.
Qed.

(** ** Digit strings *)

Definition is_digit (c : ascii) : bool := (48 <=? N_of_ascii c)%N && (N_of_ascii c <=? 57)%N.

Lemma digits_value_app a b acc :
  digits_value (a +:+ b) acc = digits_value b (digits_value a acc).
Proof. revert acc. by induction a as [|c a IH]; intros acc; [|apply IH]. Qed.

Lemma digits_value_acc s acc :
  digits_value s acc = acc * 10 ^ Z.of_nat (String.length s) + digits_value s 0.
Proof.
  revert acc. induction s as [|c s IH]; intros acc; cbn [digits_value String.length]; [lia|].
  rewrite IH, (IH (0 * 10 + _)), Nat2Z.inj_succ, Z.pow_succ_r by lia. ring.
Qed.

Lemma digits_value_zeros n acc : digits_value (zeros n) acc = acc * 10 ^ Z.of_nat n.
Proof.
  revert acc. induction n as [|n IH]; intros acc; cbn [digits_value zeros]; [lia|].
  rewrite IH, Nat2Z.inj_succ, Z.pow_succ_r by lia. change (digit_value "0") with 0. ring.
Qed.

Lemma digit_char_spec d : 0 ≤ d < 10 → digit_value (digit_char d) = d ∧ is_digit (digit_char d) = true.
Proof.
  intros Hd. unfold digit_value, digit_char, is_digit. rewrite N_ascii_embedding by lia.
  rewrite andb_true_iff, !N.leb_le. lia.
Qed.

(** What [digits] prints: digits of the right value, without a leading zero. *)
Definition prints (s : string) (D : Z) : Prop :=
  digits_value s 0 = D ∧ string_forall is_digit s = true ∧
  ∃ c s', s = String c s' ∧ (0 < D → c ≠ "0"%char).

Lemma digit_char_nonzero d : 0 < d < 10 → digit_char d ≠ "0"%char.
Proof.
  intros Hd Heq. destruct (digit_char_spec d) as [Hv _]; [lia|]. rewrite Heq in Hv.
  change (digit_value "0") with 0 in Hv. lia.
Qed.

Lemma prints_digit D : 0 ≤ D < 10 → prints (String (digit_char D) "") D.
Proof.
  intros HD. destruct (digit_char_spec D HD) as [Hv Hd]. split_and!.
  - cbn [digits_value]. rewrite Hv. lia.
  - simpl. by rewrite Hd.
  - eexists _, _. split; [done|]. intros Hpos. apply digit_char_nonzero. lia.
Qed.

Lemma prints_snoc s D d : prints s D → 0 < D → 0 ≤ d < 10 → prints (s +:+ String (digit_char d) "") (D * 10 + d).
Proof.
  intros (Hv & Hall & c & s' & -> & Hc) HD Hd. destruct (digit_char_spec d Hd) as [Hvd Hdd]. split_and!.
  - rewrite digits_value_app, Hv. cbn [digits_value]. by rewrite Hvd.
  - rewrite string_forall_app, Hall. simpl. by rewrite Hdd.
  - eexists _, _. split; [done|]. intros _. by apply Hc.
Qed.

Lemma digits_loop_spec fuel D acc :
  0 ≤ D < 10 ^ Z.of_nat fuel → (1 ≤ fuel)%nat → ∃ ds, digits_loop fuel D acc = ds +:+ acc ∧ prints ds D.
Proof.
  revert D acc. induction fuel as [|fuel IH]; intros D acc HD Hf; [lia|]. cbn [digits_loop].
  pose proof (Z.div_mod D 10 ltac:(lia)) as Hdm. pose proof (Z.mod_pos_bound D 10 ltac:(lia)) as Hmod.
  destruct (Z.eqb_spec (D / 10) 0) as [Hz|Hz].
  - exists (String (digit_char (D mod 10)) ""). split; [done|].
    replace (D mod 10) with D by lia. apply prints_digit. lia.
  - assert (0 ≤ D / 10) by (apply Z.div_pos; lia).
    rewrite Nat2Z.inj_succ, Z.pow_succ_r in HD by lia.
    assert (D / 10 < 10 ^ Z.of_nat fuel) by (apply Z.div_lt_upper_bound; lia).
    destruct (IH (D / 10) (String (digit_char (D mod 10)) acc)) as (ds & -> & Hds).
    + lia.
    + destruct fuel; [change (10 ^ Z.of_nat 0) with 1 in *; lia|lia].
    + exists (ds +:+ String (digit_char (D mod 10)) ""). split; [by rewrite string_app_assoc|].
      rewrite Hdm at 2. rewrite (Z.mul_comm 10). apply prints_snoc; [done|lia|done].
Qed.

Lemma digits_prints D : 0 ≤ D → prints (digits D) D.
Proof.
  intros HD. unfold digits. set (n := S (Z.to_nat (Z.log2 D))).
  destruct (digits_loop_spec n D "") as (ds & -> & Hds); [|lia|].
  - split; [done|]. destruct (Z.eq_dec D 0) as [->|Hnz]; [apply Z.pow_pos_nonneg; lia|].
    destruct (Z.log2_spec D) as [_ Hlt]; [lia|]. pose proof (Z.log2_nonneg D).
    replace (Z.of_nat n) with (Z.succ (Z.log2 D)) by lia.
    eapply Z.lt_le_trans; [exact Hlt|]. apply Z.pow_le_mono_l. lia.
  - by rewrite string_app_nil_r.
Qed.

Lemma digits_loop_length fuel D acc :
  (String.length (digits_loop fuel D acc) ≤ fuel + String.length acc)%nat.
Proof.
  revert D acc. induction fuel as [|fuel IH]; intros D acc; [done|]. cbn [digits_loop].
  destruct (D / 10 =? 0); [simpl; lia|]. etransitivity; [apply IH|]. simpl. lia.
Qed.

Lemma digits_length D : Z.of_nat (String.length (digits D)) ≤ Z.log2 D + 1.
Proof.
  unfold digits. pose proof (digits_loop_length (S (Z.to_nat (Z.log2 D))) D "").
  pose proof (Z.log2_nonneg D). simpl String.length in *. lia.
Qed.

Lemma str_take_drop n s : str_take n s +:+ str_drop n s = s.
Proof. revert s. induction n as [|n IH]; intros [|c s]; [done..|].
  change (String c (str_take n s +:+ str_drop n s) = String c s). by rewrite IH.
Qed.

Lemma str_drop_length n s : String.length (str_drop n s) = (String.length s - n)%nat.
Proof. revert s. induction n as [|n IH]; intros [|c s]; [done..|]. apply IH. Qed.

Lemma zeros_length n : String.length (zeros n) = n.
Proof. induction n as [|n IH]; [done|]. simpl. by f_equal. Qed.

Lemma zeros_digits n : string_forall is_digit (zeros n) = true.
Proof. by induction n. Qed.

(** ** Number literals *)

Definition lit_text (l : numlit) : string :=
  (if n_neg l then "-" else "") +:+ n_int l +:+
  (if decide (n_frac l = "") then "" else "." +:+ n_frac l) +:+
  match n_exp l with
  | None => ""
  | Some (neg, ds) => "e" +:+ (if neg : bool then "-" else "+") +:+ ds
  end.

(** The literals of the JSON grammar. *)
Definition lit_ok (l : numlit) : Prop :=
  string_forall is_digit (n_int l) = true ∧ string_forall is_digit (n_frac l) = true ∧
  (n_int l = "0" ∨ ∃ c s, n_int l = String c s ∧ c ≠ "0"%char) ∧
  match n_exp l with
  | None => True
  | Some (_, ds) => ds ≠ "" ∧ string_forall is_digit ds = true
  end.

Lemma digit_value_nonneg c : is_digit c = true → 0 ≤ digit_value c.
Proof. unfold is_digit, digit_value. rewrite andb_true_iff, !N.leb_le. lia. Qed.

Lemma digits_value_nonneg s acc :
  string_forall is_digit s = true → 0 ≤ acc → 0 ≤ digits_value s acc.
Proof.
  revert acc. induction s as [|c s IH]; intros acc Hd Ha; [done|]. cbn [digits_value string_forall] in *.
  apply andb_true_iff in Hd as [Hc Hd]. apply IH; [done|]. pose proof (digit_value_nonneg c Hc). lia.
Qed.

Lemma exp_value_small s acc :
  string_forall is_digit s = true → 0 ≤ acc → digits_value s acc < 10000 →
  exp_value s acc = digits_value s acc.
Proof.
  revert acc. induction s as [|c s IH]; intros acc Hd Hacc Hlt; [done|].
  cbn [exp_value digits_value string_forall] in *. apply andb_true_iff in Hd as [Hc Hd].
  pose proof (digit_value_nonneg c Hc). rewrite digits_value_acc in Hlt.
  pose proof (digits_value_nonneg s 0 Hd ltac:(lia)) as Hs.
  assert (1 ≤ 10 ^ Z.of_nat (String.length s)) by (pose proof (Z.pow_pos_nonneg 10 (Z.of_nat (String.length s))); lia).
  destruct (Z.ltb_spec acc 10000); [|nia]. apply IH; [done|lia|].
  rewrite digits_value_acc. done.
Qed.

(** The literal reads as [m * 2^e] with the sign [neg]. *)
Definition literal_of (neg : bool) (m e : Z) (text : string) : Prop :=
  ∃ l, lit_ok l ∧ lit_text l = (if neg then "-" else "") +:+ text ∧ ParseFloat l = Some (mkFloat neg m e).

Lemma literal_intro neg m e int frac exp D k text :
  lit_ok (mkNumlit neg int frac exp) → round_dec D k = Some (m, e) →
  digits_value (int +:+ frac) 0 = D →
  match exp with
  | None => 0
  | Some (xneg, ds) => if xneg : bool then - exp_value ds 0 else exp_value ds 0
  end - Z.of_nat (String.length frac) = k →
  text = int +:+ (if decide (frac = "") then "" else "." +:+ frac) +:+
         match exp with None => "" | Some (xneg, ds) => "e" +:+ (if xneg : bool then "-" else "+") +:+ ds end →
  literal_of neg m e text.
Proof.
  intros Hok Hr HD Hk ->. eexists. split; [exact Hok|]. split; [done|].
  unfold ParseFloat. cbn [n_neg n_int n_frac n_exp]. by rewrite Hk, HD, Hr.
Qed.

Lemma prints_digits_ok s D : prints s D → 0 < D → s = "0" ∨ ∃ c s', s = String c s' ∧ c ≠ "0"%char.
Proof. intros (_ & _ & c & s' & -> & Hc) HD. right. eauto. Qed.

Lemma format_e_literal neg m e D k : decimal_of m e (D, k) → literal_of neg m e (format_e D k).
Proof.
  intros (HD & Hk & Hr). cbn [fst snd] in *. unfold format_e.
  destruct (digits_prints D ltac:(lia)) as (Hv & Hall & c & s & Hds & Hc).
  pose proof (digits_length D) as Hlen. assert (Z.log2 D < 4000) as Hlog by (apply Z.log2_lt_pow2; lia).
  rewrite Hds in *. cbn [String.length] in *. set (x := k + _ - 1). assert (Z.abs x < 10000) as Hx by lia.
  destruct (digits_prints (Z.abs x) ltac:(lia)) as (Hvx & Hallx & cx & sx & Hdx & _).
  assert (exp_value (digits (Z.abs x)) 0 = Z.abs x) as Hexp by (rewrite exp_value_small; [done|done|lia|lia]).
  cbn [string_forall] in Hall. apply andb_true_iff in Hall as [Hcd Hall].
  apply (literal_intro neg m e (String c "") s (Some (x <? 0, digits (Z.abs x))) D k).
  - split_and!; cbn [n_int n_frac n_exp string_forall]; [by rewrite Hcd|done| |].
    + right. eexists _, _. split; [done|]. apply Hc. lia.
    + split; [by rewrite Hdx|done].
  - done.
  - exact Hv.
  - rewrite Hexp. destruct (Z.ltb_spec x 0); lia.
  - by destruct (decide (s = "")).
Qed.

Lemma format_f_literal neg m e D k : decimal_of m e (D, k) → literal_of neg m e (format_f D k).
Proof.
  intros (HD & Hk & Hr). cbn [fst snd] in *. unfold format_f.
  pose proof (digits_prints D ltac:(lia)) as Hp. pose proof Hp as (Hv & Hall & _).
  set (ds := digits D) in *. set (n := Z.of_nat (String.length ds)).
  destruct (Z.leb_spec (n + k) 0) as [Hp0|Hp0]; [|destruct (Z.leb_spec n (n + k)) as [Hn|Hn]].
  - apply (literal_intro neg m e "0" (zeros (Z.to_nat (- (n + k))) +:+ ds) None D k).
    + split_and!; [done| |by left|done]. cbn [n_frac]. by rewrite string_forall_app, zeros_digits.
    + done.
    + change (digits_value (zeros (Z.to_nat (- (n + k))) +:+ ds) 0 = D).
      by rewrite digits_value_app, digits_value_zeros.
    + rewrite string_length_app, zeros_length. lia.
    + rewrite decide_False; [by rewrite string_app_nil_r|].
      destruct Hp as (_ & _ & c & s & -> & _). by destruct (zeros _).
  - apply (literal_intro neg m e (ds +:+ zeros (Z.to_nat k)) "" None (D * 10 ^ k) 0).
    + split_and!; cbn [n_int n_frac n_exp]; [by rewrite string_forall_app, Hall, zeros_digits|done| |done].
      right. destruct Hp as (_ & _ & c & s & -> & Hc). eexists _, _. split; [done|apply Hc; lia].
    + rewrite <- Hr. unfold round_dec. rewrite (Z.max_r 0 k), (Z.max_l 0 (- k)) by lia.
      pose proof (Z.pow_pos_nonneg 10 k). destruct (Z.eqb_spec (D * 10 ^ k) 0), (Z.eqb_spec D 0); try nia.
      by rewrite Z.mul_1_r.
    + rewrite string_app_nil_r, digits_value_app, digits_value_zeros, Hv. f_equal. f_equal. lia.
    + done.
    + by rewrite !string_app_nil_r.
  - set (p := Z.to_nat (n + k)).
    pose proof (str_take_drop p ds) as Hcut. pose proof (str_drop_length p ds) as Hlen.
    assert (str_drop p ds ≠ "") as Hne by (intros He; rewrite He in Hlen; simpl in Hlen; lia).
    assert (string_forall is_digit (str_take p ds) = true ∧ string_forall is_digit (str_drop p ds) = true)
      as [H1 H2] by (rewrite <- Hcut, string_forall_app in Hall; by apply andb_true_iff).
    apply (literal_intro neg m e (str_take p ds) (str_drop p ds) None D k).
    + split_and!; [done|done| |done]. right. cbn [n_int].
      destruct Hp as (_ & _ & c & s & Hds & Hc). rewrite Hds. destruct p as [|p'] eqn:Ep; [lia|].
      eexists _, _. split; [done|apply Hc; lia].
    + done.
    + by rewrite Hcut.
    + rewrite Hlen. lia.
    + rewrite decide_False by done. by rewrite string_app_nil_r.
Qed.

(** Every finite [float64] is printed as a number of the JSON grammar that
    reads back as the same value. *)
Lemma format_float_literal f :
  finite64 f → ∃ l, lit_ok l ∧ lit_text l = format_float f ∧ ParseFloat l = Some f.
Proof.
  destruct f as [neg m e]. unfold finite64, format_float. cbn [f_neg f_mant f_exp]. intros Hr.
  destruct (Z.eqb_spec m 0) as [->|Hnz].
  - destruct Hr as (_ & He & [Hm| ->]); [lia|]. exists (mkNumlit neg "0" "" None).
    split; [by split_and!; [..|left|]|]. split; [by destruct neg|done].
  - assert (0 < m) as Hm by (destruct Hr; lia).
    pose proof (shortest_decimal m e Hm Hr) as Hs. destruct (shortest m e) as [D k].
    destruct (use_e m e); [by apply format_e_literal|by apply format_f_literal].
Qed.

(** ** Rounded values are finite *)

Lemma round_half_even_bounds a b lo hi :
  0 < b → lo * b ≤ a → a < hi * b → lo ≤ round_half_even a b ≤ hi.
Proof.
  intros Hb Hlo Hhi. unfold round_half_even.
  assert (lo ≤ a / b < hi) by (split; [apply Z.div_le_lower_bound|apply Z.div_lt_upper_bound]; lia).
  destruct (2 * (a mod b) <? b); [lia|]. destruct (b <? 2 * (a mod b)); [lia|].
  destruct (Z.even (a / b)); lia.
Qed.

Lemma round64_representable num den m e :
  0 < num → 0 < den → round64 num den = Some (m, e) → representable m e.
Proof.
  intros Hn Hd. unfold round64. destruct (floor_log2_spec num den Hn Hd) as [Hlo Hhi].
  set (L := floor_log2 num den) in *. set (E := Z.max (-1074) (L - 52)).
  set (a := num * 2 ^ Z.max 0 (- E)). set (b := den * 2 ^ Z.max 0 E).
  assert (0 < b) as Hb by (unfold b; pose proof (Z.pow_pos_nonneg 2 (Z.max 0 E)); nia).
  assert (∀ k, 0 ≤ k → (geb_pow2 num den (E + k) = true ↔ 2 ^ k * b ≤ a)) as Hg.
  { intros k Hk. rewrite (geb_pow2_scaled _ _ _ (Z.max 0 (- E))) by lia. unfold a, b.
    replace (E + k + Z.max 0 (- E)) with (k + Z.max 0 E) by lia. rewrite Z.pow_add_r by lia.
    by rewrite Z.mul_shuffle3. }
  assert (a < 2 ^ 53 * b) as Ha.
  { apply Z.nle_gt. rewrite <- Hg by lia. intros Hc.
    apply (geb_pow2_mono _ _ (L + 1)) in Hc; [congruence|done|lia]. }
  assert (0 ≤ a) by (unfold a; pose proof (Z.pow_pos_nonneg 2 (Z.max 0 (- E))); nia).
  assert (0 ≤ round_half_even a b ≤ 2 ^ 53) as Hm by (apply round_half_even_bounds; lia).
  assert (E = -1074 ∨ 2 ^ 52 ≤ round_half_even a b) as Hnorm.
  { destruct (decide (E = -1074)) as [|Hne]; [by left|right].
    assert (2 ^ 52 * b ≤ a) by (apply Hg; [lia|]; by replace (E + 52) with L by lia).
    by apply (round_half_even_bounds a b (2 ^ 52) (2 ^ 53)). }
  destruct (Z.eqb_spec (round_half_even a b) (2 ^ 53)) as [Heq|Hne].
  - destruct (Z.ltb_spec 971 (E + 1)); [done|]. intros [= <- <-]. split_and!; lia.
  - destruct (Z.ltb_spec 971 E); [done|]. intros [= <- <-]. split_and!; lia.
Qed.

Lemma ParseFloat_finite l f :
  string_forall is_digit (n_int l +:+ n_frac l) = true → ParseFloat l = Some f → finite64 f.
Proof.
  intros Hd. unfold ParseFloat. set (D := digits_value _ 0). set (k := _ - _).
  assert (0 ≤ D) as HD by (by apply digits_value_nonneg).
  destruct (round_dec D k) as [[m e]|] eqn:Hr; [|done]. intros [= <-]. unfold finite64. cbn [f_mant f_exp].
  unfold round_dec in Hr. destruct (Z.eqb_spec D 0) as [|Hne].
  - injection Hr as <- <-. split_and!; lia.
  - eapply round64_representable; [| |exact Hr].
    + pose proof (Z.pow_pos_nonneg 10 (Z.max 0 k)). nia.
    + apply Z.pow_pos_nonneg; lia.
Qed.
