(* ===== verification/Json.v ===== *)
(** * JSON as [encoding/json] reads and prints it

    The scanner and decoder behind [json.Unmarshal] into [any], the token
    interface of [json.Decoder], and [json.Marshal] of the values they produce.
    Error texts of the package are not modelled: a syntax or range error is
    [errJSON], which wraps no sentinel. *)

From S2P Require Import Prelude GoLib Float64.

(** ** Values and texts *)

(** A value decoded into [any].  An object is a Go map: a list of members
    sorted by key, without repetition. *)
Inductive json :=
  | JNull
  | JBool (b : bool)
  | JNumber (f : float64)
  | JString (s : string)
  | JArray (l : list json)
  | JObject (members : list (string * json)).

(** The syntax of a text: members in their order, repetitions included. *)
Inductive jtext :=
  | TNull
  | TBool (b : bool)
  | TNumber (l : numlit)
  | TString (s : string)
  | TArray (l : list jtext)
  | TObject (members : list (string * jtext)).

Definition errJSON : error := errors_New "json: invalid input".

(** ** Characters *)

Definition quote : ascii := ascii_of_N 34.
Definition backslash : ascii := ascii_of_N 92.

Definition isSpace (c : ascii) : bool :=
  let n := N_of_ascii c in ((n =? 32) || (n =? 9) || (n =? 10) || (n =? 13))%N.

Fixpoint skip_ws (s : string) : string :=
  match s with
  | String c s' => if isSpace c then skip_ws s' else s
  | EmptyString => ""
  end.

(** The text behind the next character, when that is [c]. *)
Definition skip_char (c : ascii) (s : string) : option string :=
  match skip_ws s with
  | String c' rest => if decide (c' = c) then Some rest else None
  | EmptyString => None
  end.

(** ** Strings *)

(** The length of the UTF-8 encoding at the head of [s], 0 when it is not
    valid ([utf8.DecodeRune]). *)
Definition cont (c : ascii) : bool := let n := N_of_ascii c in ((128 <=? n) && (n <=? 191))%N.

Definition between (lo hi : N) (c : ascii) : bool := let n := N_of_ascii c in ((lo <=? n) && (n <=? hi))%N.

Definition rune_size (s : string) : nat :=
  match s with
  | EmptyString => 0
  | String c s1 =>
      let n := N_of_ascii c in
      if (n <? 128)%N then 1
      else match s1 with
      | EmptyString => 0
      | String c1 s2 =>
          if between 194 223 c then (if cont c1 then 2 else 0)
          else match s2 with
          | EmptyString => 0
          | String c2 s3 =>
              if between 224 239 c then
                let lo := (if n =? 224 then 160 else 128)%N in
                let hi := (if n =? 237 then 159 else 191)%N in
                if between lo hi c1 && cont c2 then 3 else 0
              else match s3 with
              | EmptyString => 0
              | String c3 _ =>
                  if between 240 244 c then
                    let lo := (if n =? 240 then 144 else 128)%N in
                    let hi := (if n =? 244 then 143 else 191)%N in
                    if between lo hi c1 && cont c2 && cont c3 then 4 else 0
                  else 0
              end
          end
      end
  end.

(** [utf8.EncodeRune]; surrogates and out-of-range runes become U+FFFD. *)
Definition encode_rune (r : N) : string :=
  let ch n := ascii_of_N n in
  let r := if (((55296 <=? r) && (r <=? 57343)) || (1114111 <? r))%N then 65533%N else r in
  if (r <? 128)%N then String (ch r) ""
  else if (r <? 2048)%N then String (ch (192 + r / 64)%N) (String (ch (128 + r mod 64)%N) "")
  else if (r <? 65536)%N then
    String (ch (224 + r / 4096)%N)
      (String (ch (128 + r / 64 mod 64)%N) (String (ch (128 + r mod 64)%N) ""))
  else
    String (ch (240 + r / 262144)%N)
      (String (ch (128 + r / 4096 mod 64)%N)
        (String (ch (128 + r / 64 mod 64)%N) (String (ch (128 + r mod 64)%N) ""))).

Definition runeError : string := encode_rune 65533.

(** Four hexadecimal digits. *)
Definition hex4 (a b c d : ascii) : option N :=
  match fromHexChar a, fromHexChar b, fromHexChar c, fromHexChar d with
  | Some a, Some b, Some c, Some d => Some (a * 4096 + b * 256 + c * 16 + d)%N
  | _, _, _, _ => None
  end.

(** The character after a backslash, other than [u]. *)
Definition simple_escape (c : ascii) : option ascii :=
  match c with
  | "b"%char => Some (ascii_of_N 8)
  | "f"%char => Some (ascii_of_N 12)
  | "n"%char => Some (ascii_of_N 10)
  | "r"%char => Some (ascii_of_N 13)
  | "t"%char => Some (ascii_of_N 9)
  | "/"%char => Some "/"%char
  | _ => if decide (c = quote) then Some quote
         else if decide (c = backslash) then Some backslash else None
  end.

(** The literal behind its opening quote: the text up to the closing quote,
    and the rest. *)
Fixpoint scan_string (s : string) : option (string * string) :=
  match s with
  | EmptyString => None
  | String c s' =>
      if decide (c = quote) then Some ("", s')
      else if decide (c = backslash) then
        match s' with
        | String e s1 =>
            if decide (e = "u"%char) then
              match s1 with
              | String h1 (String h2 (String h3 (String h4 s2))) =>
                  match hex4 h1 h2 h3 h4, scan_string s2 with
                  | Some _, Some (raw, rest) =>
                      Some (String c (String e (String h1 (String h2 (String h3 (String h4 raw))))), rest)
                  | _, _ => None
                  end
              | _ => None
              end
            else
              match simple_escape e, scan_string s1 with
              | Some _, Some (raw, rest) => Some (String c (String e raw), rest)
              | _, _ => None
              end
        | EmptyString => None
        end
      else if (N_of_ascii c <? 32)%N then None
      else
        match scan_string s' with
        | Some (raw, rest) => Some (String c raw, rest)
        | None => None
        end
  end.

(** The second half of a surrogate pair after [\u] digits of [r]: the rune they
    make together. *)
Definition surrogates (r r1 : N) : option N :=
  if ((55296 <=? r) && (r <=? 56319) && (56320 <=? r1) && (r1 <=? 57343))%N
  then Some ((r - 55296) * 1024 + (r1 - 56320) + 65536)%N
  else None.

(** [unquote] of a scanned literal. *)
Fixpoint unquote (fuel : nat) (s : string) : string :=
  match fuel with
  | O => ""
  | S fuel' =>
      match s with
      | EmptyString => ""
      | String c s' =>
          if decide (c = backslash) then
            match s' with
            | String e (String h1 (String h2 (String h3 (String h4 s2))) as s1) =>
                if decide (e = "u"%char) then
                  let r := default 0%N (hex4 h1 h2 h3 h4) in
                  match s2 with
                  | String b1 (String u1 (String k1 (String k2 (String k3 (String k4 s3))))) =>
                      if decide (b1 = backslash ∧ u1 = "u"%char) then
                        match hex4 k1 k2 k3 k4 with
                        | Some r1 =>
                            match surrogates r r1 with
                            | Some r2 => encode_rune r2 +:+ unquote fuel' s3
                            | None => encode_rune r +:+ unquote fuel' s2
                            end
                        | None => encode_rune r +:+ unquote fuel' s2
                        end
                      else encode_rune r +:+ unquote fuel' s2
                  | _ => encode_rune r +:+ unquote fuel' s2
                  end
                else match simple_escape e with Some c' => String c' (unquote fuel' s1) | None => "" end
            | String e s1 => match simple_escape e with Some c' => String c' (unquote fuel' s1) | None => "" end
            | EmptyString => ""
            end
          else
            match rune_size s with
            | O => runeError +:+ unquote fuel' s'
            | n => str_take n s +:+ unquote fuel' (str_drop n s)
            end
      end
  end.

Definition unquoted (raw : string) : string := unquote (String.length raw) raw.

(** ** Numbers and literals *)

Fixpoint take_digits (s : string) : string * string :=
  match s with
  | String c s' =>
      if is_digit c then let '(ds, rest) := take_digits s' in (String c ds, rest) else ("", s)
  | EmptyString => ("", "")
  end.

(** A fraction, when a dot follows. *)
Definition scan_frac (s : string) : option (string * string) :=
  match s with
  | String "." s' =>
      match take_digits s' with
      | (EmptyString, _) => None
      | (ds, rest) => Some (ds, rest)
      end
  | _ => Some ("", s)
  end.

(** An exponent, when an [e] follows. *)
Definition scan_exp (s : string) : option (option (bool * string) * string) :=
  match s with
  | String c s' =>
      if decide (c = "e"%char ∨ c = "E"%char) then
        let '(neg, s1) :=
          match s' with
          | String "-" s1 => (true, s1)
          | String "+" s1 => (false, s1)
          | _ => (false, s')
          end in
        match take_digits s1 with
        | (EmptyString, _) => None
        | (ds, rest) => Some (Some (neg, ds), rest)
        end
      else Some (None, s)
  | EmptyString => Some (None, s)
  end.

Definition scan_int (s : string) : option (string * string) :=
  match s with
  | String "0" rest => Some ("0", rest)
  | _ =>
      match take_digits s with
      | (EmptyString, _) => None
      | (ds, rest) => Some (ds, rest)
      end
  end.

Definition scan_number (s : string) : option (numlit * string) :=
  let '(neg, s) := match s with String "-" s' => (true, s') | _ => (false, s) end in
  match scan_int s with
  | None => None
  | Some (int, s1) =>
      match scan_frac s1 with
      | None => None
      | Some (frac, s2) =>
          match scan_exp s2 with
          | None => None
          | Some (exp, rest) => Some (mkNumlit neg int frac exp, rest)
          end
      end
  end.

(** A value that is not an array or an object, at its first character. *)
Definition read_scalar (s : string) : option (jtext * string) :=
  match s with
  | EmptyString => None
  | String c s' =>
      if decide (c = quote) then
        match scan_string s' with
        | Some (raw, rest) => Some (TString (unquoted raw), rest)
        | None => None
        end
      else if decide (c = "t"%char) then (λ r, (TBool true, r)) <$> CutPrefix s "true"
      else if decide (c = "f"%char) then (λ r, (TBool false, r)) <$> CutPrefix s "false"
      else if decide (c = "n"%char) then (λ r, (TNull, r)) <$> CutPrefix s "null"
      else
        match scan_number s with
        | Some (l, rest) => Some (TNumber l, rest)
        | None => None
        end
  end.

(** ** Texts *)

(** The deepest nesting the scanner accepts. *)
Definition maxNestingDepth : N := 10000.

(** One value at the nesting [depth], the members of an object behind its
    brace, the elements of an array behind its bracket.  A value is read on a
    shorter text at most two calls later, which bounds the recursion. *)
Fixpoint read_value (fuel : nat) (depth : N) (s : string) : option (jtext * string) :=
  match fuel with
  | O => None
  | S fuel' =>
      match skip_ws s with
      | EmptyString => None
      | String c s' =>
          if decide (c = "{"%char) then
            if (depth <? maxNestingDepth)%N then
              match skip_char "}" s' with
              | Some rest => Some (TObject [], rest)
              | None =>
                  match read_members fuel' (depth + 1) s' with
                  | Some (ms, rest) => Some (TObject ms, rest)
                  | None => None
                  end
              end
            else None
          else if decide (c = "["%char) then
            if (depth <? maxNestingDepth)%N then
              match skip_char "]" s' with
              | Some rest => Some (TArray [], rest)
              | None =>
                  match read_elements fuel' (depth + 1) s' with
                  | Some (vs, rest) => Some (TArray vs, rest)
                  | None => None
                  end
              end
            else None
          else read_scalar (String c s')
      end
  end
with read_members (fuel : nat) (depth : N) (s : string) : option (list (string * jtext) * string) :=
  match fuel with
  | O => None
  | S fuel' =>
      match skip_char quote s with
      | None => None
      | Some s1 =>
          match scan_string s1 with
          | None => None
          | Some (raw, s2) =>
              match skip_char ":" s2 with
              | None => None
              | Some s3 =>
                  match read_value fuel' depth s3 with
                  | None => None
                  | Some (v, s4) =>
                      match skip_char "," s4 with
                      | Some s5 =>
                          match read_members fuel' depth s5 with
                          | Some (ms, rest) => Some ((unquoted raw, v) :: ms, rest)
                          | None => None
                          end
                      | None =>
                          match skip_char "}" s4 with
                          | Some rest => Some ([(unquoted raw, v)], rest)
                          | None => None
                          end
                      end
                  end
              end
          end
      end
  end
with read_elements (fuel : nat) (depth : N) (s : string) : option (list jtext * string) :=
  match fuel with
  | O => None
  | S fuel' =>
      match read_value fuel' depth s with
      | None => None
      | Some (v, s1) =>
          match skip_char "," s1 with
          | Some s2 =>
              match read_elements fuel' depth s2 with
              | Some (vs, rest) => Some (v :: vs, rest)
              | None => None
              end
          | None =>
              match skip_char "]" s1 with
              | Some rest => Some ([v], rest)
              | None => None
              end
          end
      end
  end.

(** A whole text: one value and white space. *)
Definition parse (s : string) : option jtext :=
  match read_value (2 * String.length s + 1) 0 s with
  | Some (t, rest) => if decide (skip_ws rest = "") then Some t else None
  | None => None
  end.

(** [m[k] = v] *)
Fixpoint obj_set {A} (k : string) (v : A) (m : list (string * A)) : list (string * A) :=
  match m with
  | [] => [(k, v)]
  | (k0, v0) :: m' =>
      match String.compare k k0 with
      | Lt => (k, v) :: m
      | Eq => (k, v) :: m'
      | Gt => (k0, v0) :: obj_set k v m'
      end
  end.

(** The decoded value: numbers become [float64], a repeated key keeps its last
    value. *)
Fixpoint decode (t : jtext) : option json :=
  match t with
  | TNull => Some JNull
  | TBool b => Some (JBool b)
  | TNumber l => JNumber <$> ParseFloat l
  | TString s => Some (JString s)
  | TArray l =>
      JArray <$> (fix go l := match l with
                              | [] => Some []
                              | t :: l' =>
                                  match decode t, go l' with
                                  | Some v, Some vs => Some (v :: vs)
                                  | _, _ => None
                                  end
                              end) l
  | TObject ms =>
      JObject <$> (fix go ms acc := match ms with
                                    | [] => Some acc
                                    | (k, t) :: ms' =>
                                        match decode t with
                                        | Some v => go ms' (obj_set k v acc)
                                        | None => None
                                        end
                                    end) ms []
  end.

(** [json.Unmarshal(data, &v)] *)
Definition Unmarshal (s : string) : result json :=
  match parse s with
  | None => Err errJSON
  | Some t => match decode t with Some v => Ok v | None => Err errJSON end
  end.

(** ** Printing *)

Definition hexdigits (n : N) : string :=
  String (hexdigit (n / 16)) (String (hexdigit (n mod 16)) "").

(** One ASCII character as the encoder prints it: quotes, control characters
    and the HTML characters [<], [>] and [&] are escaped. *)
Definition print_char (c : ascii) : string :=
  let n := N_of_ascii c in
  if decide (c = quote ∨ c = backslash) then String backslash (String c "")
  else if (n =? 8)%N then String backslash "b"
  else if (n =? 12)%N then String backslash "f"
  else if (n =? 10)%N then String backslash "n"
  else if (n =? 13)%N then String backslash "r"
  else if (n =? 9)%N then String backslash "t"
  else if ((n <? 32) || (n =? 60) || (n =? 62) || (n =? 38))%N then String backslash ("u00" +:+ hexdigits n)
  else String c "".

(** U+2028 and U+2029. *)
Definition line_separator (rune : string) : option string :=
  if decide (rune = encode_rune 8232) then Some (String backslash "u2028")
  else if decide (rune = encode_rune 8233) then Some (String backslash "u2029")
  else None.

Fixpoint print_runes (fuel : nat) (s : string) : string :=
  match fuel with
  | O => ""
  | S fuel' =>
      match s with
      | EmptyString => ""
      | String c s' =>
          if (N_of_ascii c <? 128)%N then print_char c +:+ print_runes fuel' s'
          else
            match rune_size s with
            | O => String backslash "ufffd" +:+ print_runes fuel' s'
            | n => default (str_take n s) (line_separator (str_take n s)) +:+ print_runes fuel' (str_drop n s)
            end
      end
  end.

Definition print_string (s : string) : string :=
  String quote (print_runes (String.length s) s +:+ String quote "").

(** [json.Marshal(v)] *)
Fixpoint Marshal (v : json) : string :=
  match v with
  | JNull => "null"
  | JBool true => "true"
  | JBool false => "false"
  | JNumber f => format_float f
  | JString s => print_string s
  | JArray l => "[" +:+ Join (map Marshal l) "," +:+ "]"
  | JObject ms => "{" +:+ Join (map (λ kv, print_string kv.1 +:+ ":" +:+ Marshal kv.2) ms) "," +:+ "}"
  end.

(** A text as the encoder lays it out: members in their order. *)
Fixpoint print_text (t : jtext) : string :=
  match t with
  | TNull => "null"
  | TBool true => "true"
  | TBool false => "false"
  | TNumber l => lit_text l
  | TString s => print_string s
  | TArray l => "[" +:+ Join (map print_text l) "," +:+ "]"
  | TObject ms => "{" +:+ Join (map (λ kv, print_string kv.1 +:+ ":" +:+ print_text kv.2) ms) "," +:+ "}"
  end.

(** ** The token interface of [json.Decoder] *)

Inductive tokenState :=
  | tokenTopValue | tokenArrayStart | tokenArrayValue | tokenArrayComma
  | tokenObjectStart | tokenObjectKey | tokenObjectColon | tokenObjectValue | tokenObjectComma.

#[export] Instance tokenState_eq_dec : EqDecision tokenState.
Proof. solve_decision. Defined.

Record Decoder := mkDecoder {
  d_rest : string;
  d_state : tokenState;
  d_stack : list tokenState }.

Definition NewDecoder (s : string) : Decoder := mkDecoder s tokenTopValue [].

(** A token: a delimiter, a string, or another scalar. *)
Inductive token := Delim (c : ascii) | StringToken (s : string) | ScalarToken (t : jtext).

(** What [Token] returns: a token, [io.EOF] (separators before the end have
    been consumed), or another error. *)
Inductive token_result := Tok (t : token) (d : Decoder) | TokEOF (d : Decoder) | TokErr (err : error).

Definition tokenValueAllowed (st : tokenState) : bool :=
  match st with
  | tokenTopValue | tokenArrayStart | tokenArrayValue | tokenObjectValue => true
  | _ => false
  end.

Definition tokenValueEnd (st : tokenState) : tokenState :=
  match st with
  | tokenArrayStart | tokenArrayValue => tokenArrayComma
  | tokenObjectValue => tokenObjectComma
  | _ => st
  end.

Definition open_delim (c : ascii) (st : tokenState) (d : Decoder) (rest : string) : token_result :=
  if tokenValueAllowed (d_state d) then Tok (Delim c) (mkDecoder rest st (d_state d :: d_stack d))
  else TokErr errJSON.

Definition close_delim (c : ascii) (start comma : tokenState) (d : Decoder) (rest : string) : token_result :=
  if decide (d_state d = start ∨ d_state d = comma) then
    match d_stack d with
    | st :: stack => Tok (Delim c) (mkDecoder rest (tokenValueEnd st) stack)
    | [] => TokErr errJSON
    end
  else TokErr errJSON.

(** A scalar, read as a value with [UseNumber]: numbers are not converted. *)
Definition scalar_token (d : Decoder) (s : string) : token_result :=
  if tokenValueAllowed (d_state d) then
    match read_scalar s with
    | Some (t, rest) =>
        Tok (match t with TString x => StringToken x | _ => ScalarToken t end)
            (mkDecoder rest (tokenValueEnd (d_state d)) (d_stack d))
    | None => TokErr errJSON
    end
  else TokErr errJSON.

Definition key_token (d : Decoder) (s : string) : token_result :=
  match scan_string s with
  | Some (raw, rest) => Tok (StringToken (unquoted raw)) (mkDecoder rest tokenObjectColon (d_stack d))
  | None => TokErr errJSON
  end.

(** [dec.Token()]; at most a comma and a colon precede the token. *)
Fixpoint Token_loop (fuel : nat) (d : Decoder) : token_result :=
  match skip_ws (d_rest d) with
  | EmptyString => TokEOF d
  | String c rest =>
      if decide (c = "["%char) then open_delim c tokenArrayStart d rest
      else if decide (c = "]"%char) then close_delim c tokenArrayStart tokenArrayComma d rest
      else if decide (c = "{"%char) then open_delim c tokenObjectStart d rest
      else if decide (c = "}"%char) then close_delim c tokenObjectStart tokenObjectComma d rest
      else if decide (c = ":"%char) then
        if decide (d_state d = tokenObjectColon) then
          match fuel with
          | S fuel' => Token_loop fuel' (mkDecoder rest tokenObjectValue (d_stack d))
          | O => TokErr errJSON
          end
        else TokErr errJSON
      else if decide (c = ","%char) then
        match (match d_state d with
               | tokenArrayComma => Some tokenArrayValue
               | tokenObjectComma => Some tokenObjectKey
               | _ => None
               end), fuel with
        | Some st, S fuel' => Token_loop fuel' (mkDecoder rest st (d_stack d))
        | _, _ => TokErr errJSON
        end
      else if decide (c = quote) then
        if decide (d_state d = tokenObjectStart ∨ d_state d = tokenObjectKey) then key_token d rest
        else scalar_token d (String c rest)
      else scalar_token d (String c rest)
  end.

(** After a separator the state is neither of a comma nor of a colon. *)
Definition Token (d : Decoder) : token_result := Token_loop 1 d.

Definition More (d : Decoder) : bool :=
  match skip_ws (d_rest d) with
  | EmptyString => false
  | String c _ => negb (bool_decide (c = "]"%char)) && negb (bool_decide (c = "}"%char))
  end.
