(* ===== verification/Amino.v ===== *)
(** * Amino JSON signing: [internal/signer/cosmos/cosmos.go]

    The duplicate-key scan over the token stream, canonicalisation, and
    [SignAmino]. *)

From S2P Require Import Prelude GoLib Types Crypto Interfaces Sha256 EvmSigner CosmosSigner Float64 Json.
Import Sha256.

(** [canonicaliseJSON] *)
Definition canonicaliseJSON (input : bytes) : result bytes :=
  match Unmarshal (string_of_bytes input) with
  | Err e => Err e
  | Ok v => Ok (bytes_of_string (Marshal v))
  end.

(** [scanJSONValue], [scanJSONObject] and [scanJSONArray]: the decoder behind
    the value, or the error.  The outer option is the fuel. *)
Definition errDuplicate (key : string) : error :=
  Errorf_w ("duplicate key in amino sign doc: " +:+ key +:+ ": ") errBadRequest "".

Definition errEOF : error := errors_New "EOF".

(** The closing delimiter. *)
Definition closing (d : Decoder) : result Decoder :=
  match Token d with
  | Tok _ d' => Ok d'
  | TokEOF _ => Err errEOF
  | TokErr e => Err e
  end.

Fixpoint scanJSONValue (fuel : nat) (d : Decoder) : option (result Decoder) :=
  match fuel with
  | O => None
  | S fuel' =>
      match Token d with
      | TokEOF d' => Some (Ok d')
      | TokErr e => Some (Err e)
      | Tok (Delim c) d' =>
          if decide (c = "{"%char) then scanJSONObject fuel' ∅ d'
          else if decide (c = "["%char) then scanJSONArray fuel' d'
          else Some (Err (errors_New ("unexpected JSON delimiter '" +:+ String c "'")))
      | Tok _ d' => Some (Ok d')
      end
  end
with scanJSONObject (fuel : nat) (seen : gset string) (d : Decoder) : option (result Decoder) :=
  match fuel with
  | O => None
  | S fuel' =>
      if More d then
        match Token d with
        | TokEOF _ => Some (Err errEOF)
        | TokErr e => Some (Err e)
        | Tok (StringToken key) d' =>
            if decide (key ∈ seen) then Some (Err (errDuplicate key))
            else
              match scanJSONValue fuel' d' with
              | Some (Ok d'') => scanJSONObject fuel' ({[key]} ∪ seen) d''
              | r => r
              end
        | Tok _ _ => Some (Err (errors_New "JSON object key not a string"))
        end
      else Some (closing d)
  end
with scanJSONArray (fuel : nat) (d : Decoder) : option (result Decoder) :=
  match fuel with
  | O => None
  | S fuel' =>
      if More d then
        match scanJSONValue fuel' d with
        | Some (Ok d') => scanJSONArray fuel' d'
        | r => r
        end
      else Some (closing d)
  end.

(** Every token takes a character and every call but the opening one of an
    object or array takes a token, which bounds the recursion. *)
Definition detectDuplicateJSONKeys (raw : bytes) : result unit :=
  let s := string_of_bytes raw in
  match scanJSONValue (2 * String.length s + 2) (NewDecoder s) with
  | Some (Ok _) => Ok tt
  | Some (Err e) => Err e
  | None => Err (errors_New "out of fuel")
  end.

Section amino.
Context {C : EthCrypto} {L : CosmosLib} {W : Type} {V : SignVault W}.

Definition SignAmino (keyPath : string) (stdSignDocJSON : bytes) : M W (result (bytes * bytes)) :=
  body (
    check (detectDuplicateJSONKeys stdSignDocJSON) Err ;;;
    let! canonical := check (canonicaliseJSON stdSignDocJSON)
                        (λ err, Err (Errorf_w "canonicalise amino sign doc: " err "")) in
    call (signHash keyPath (Sum256 canonical))).
End amino.
