(* ===== verification/JsonProps.v ===== *)
(** * Printing and reading JSON back

    Strings: what the decoder produces is valid UTF-8, and the printed form of
    a valid string reads back.  Values: the printed form of a decoded value
    reads back. *)

From S2P Require Import Prelude GoLib Float64 Json.

(** ** UTF-8 *)

Inductive utf8 : string → Prop :=
  | utf8_nil : utf8 ""
  | utf8_rune s n : rune_size s = S n → utf8 (str_drop (S n) s) → utf8 s.

Lemma str_take_app n s t : n ≤ String.length s → str_take n (s +:+ t) = str_take n s.
Proof.
  revert s. induction n as [|n IH]; intros [|c s] Hn; simpl in Hn; try done; [lia|].
  change (String c (str_take n (s +:+ t)) = String c (str_take n s)). by rewrite IH by lia.
Qed.

Lemma str_drop_app n s t : n ≤ String.length s → str_drop n (s +:+ t) = str_drop n s +:+ t.
Proof.
  revert s. induction n as [|n IH]; intros [|c s] Hn; simpl in Hn; try done; [lia|]. apply IH. lia.
Qed.

Lemma str_take_length n s : n ≤ String.length s → String.length (str_take n s) = n.
Proof.
  revert s. induction n as [|n IH]; intros [|c s] Hn; simpl in Hn; try done; [lia|].
  simpl. by rewrite IH by lia.
Qed.

Lemma str_take_all s : str_take (String.length s) s = s.
Proof. induction s as [|c s IH]; [done|]. simpl. by rewrite IH. Qed.

Lemma str_drop_all s : str_drop (String.length s) s = "".
Proof. by induction s. Qed.

Ltac rune_cases :=
  repeat match goal with
  | |- context [match ?x with EmptyString => _ | String _ _ => _ end] => destruct x
  | |- context [if ?b then _ else _] => destruct b
  end.

Lemma rune_size_length s : rune_size s ≤ String.length s.
Proof. unfold rune_size. rune_cases; simpl; lia. Qed.

Lemma rune_size_app s t n : rune_size s = S n → rune_size (s +:+ t) = S n.
Proof.
  intros Hs. destruct s as [|c [|c1 [|c2 [|c3 s]]]]; [done|..]; revert Hs;
    repeat change (String ?x ?y +:+ t) with (String x (y +:+ t)); unfold rune_size;
    rune_cases; done.
Qed.

Lemma utf8_app s t : utf8 s → utf8 t → utf8 (s +:+ t).
Proof.
  induction 1 as [|s n Hn Hs IH]; [done|]. intros Ht. apply (utf8_rune _ n).
  - by apply rune_size_app.
  - rewrite str_drop_app; [by apply IH|]. rewrite <- Hn. apply rune_size_length.
Qed.

Lemma utf8_one s : rune_size s = String.length s → utf8 s.
Proof.
  destruct s as [|c s]; [constructor|]. intros Hn. apply (utf8_rune _ (String.length s)); [exact Hn|].
  change (utf8 (str_drop (String.length (String c s)) (String c s))). rewrite str_drop_all. constructor.
Qed.

Lemma rune_size_take s n : rune_size s = S n → rune_size (str_take (S n) s) = S n.
Proof.
  intros Hn. destruct s as [|c [|c1 [|c2 [|c3 s]]]]; [done|..]; revert Hn; unfold rune_size;
    repeat match goal with |- context [if ?b then _ else _] => destruct b eqn:? end;
    intros [= <-]; cbn [str_take]; unfold rune_size;
    repeat match goal with E : ?b = _ |- context [if ?b then _ else _] => rewrite E; clear E end; done.
Qed.

(** Arithmetic with division by constants. *)
Ltac div_lia := zify; Z.to_euclidean_division_equations; lia.

Lemma encode_rune_size r : rune_size (encode_rune r) = String.length (encode_rune r).
Proof.
  unfold encode_rune. match goal with |- context [if ?b then 65533%N else r] => set (r' := if b then 65533%N else r) end.
  assert ((r' < 55296 ∨ 57343 < r') ∧ r' ≤ 1114111)%N as [Hs Hr].
  { unfold r'. destruct (_ || _) eqn:E; [lia|].
    rewrite orb_false_iff, andb_false_iff, !N.leb_gt, N.ltb_ge in E. lia. }
  clearbody r'. clear r.
  destruct (N.ltb_spec r' 128); [|destruct (N.ltb_spec r' 2048); [|destruct (N.ltb_spec r' 65536)]].
  all: unfold rune_size, between, cont; cbn [String.length];
    repeat rewrite N_ascii_embedding by div_lia.
  all: repeat match goal with
    | |- context [if ?b then _ else _] =>
        lazymatch b with context [if _ then _ else _] => fail | _ => idtac end;
        let E := fresh in destruct b eqn:E;
        rewrite ?andb_true_iff, ?andb_false_iff, ?N.leb_le, ?N.leb_gt, ?N.ltb_lt, ?N.ltb_ge, ?N.eqb_eq, ?N.eqb_neq in E
    end; try done; exfalso; div_lia.
Qed.

Lemma simple_escape_ascii e c : simple_escape e = Some c → (N_of_ascii c < 128)%N.
Proof. unfold simple_escape. repeat case_match; intros; simplify_eq; done. Qed.

Lemma utf8_cons c s : (N_of_ascii c < 128)%N → utf8 s → utf8 (String c s).
Proof.
  intros Hc Hs. apply (utf8_rune _ 0); [|done]. cbn [rune_size]. by apply N.ltb_lt in Hc as ->.
Qed.

Lemma utf8_encode r s : utf8 s → utf8 (encode_rune r +:+ s).
Proof. intros Hs. apply utf8_app; [|done]. apply utf8_one, encode_rune_size. Qed.

Lemma unquote_utf8 fuel s : utf8 (unquote fuel s).
Proof.
  revert s. induction fuel as [|fuel IH]; intros s; [constructor|]. cbn [unquote].
  destruct s as [|c s]; [constructor|]. destruct (decide (c = backslash)) as [->|Hc].
  - repeat case_match; eauto using utf8_nil, utf8_encode, utf8_cons, simple_escape_ascii.
  - destruct (rune_size (String c s)) as [|n] eqn:Hn.
    + by apply (utf8_encode 65533).
    + apply utf8_app; [|done]. apply utf8_one. rewrite (rune_size_take _ n) by done.
      symmetry. apply str_take_length. rewrite <- Hn. apply rune_size_length.
Qed.

(** ** Printed strings read back *)

Definition prepend (p : string) (x : string * string) : string * string := (p +:+ x.1, x.2).

(** [p] is the printed form of the rune [r]: the scanner passes over it, and
    unquoting turns it into [r]. *)
Definition piece (p r : string) : Prop :=
  1 ≤ String.length p ∧
  (∀ x, scan_string (p +:+ x) = prepend p <$> scan_string x) ∧
  (∀ f x, unquote (S f) (p +:+ x) = r +:+ unquote f x).

Lemma piece_char c :
  c ≠ quote → c ≠ backslash → (32 ≤ N_of_ascii c < 128)%N → piece (String c "") (String c "").
Proof.
  intros Hq Hb Hc. split_and!; [done| |].
  - intros x. change (String c "" +:+ x) with (String c x). cbn [scan_string].
    rewrite !decide_False by done. destruct (N.ltb_spec (N_of_ascii c) 32); [lia|].
    by destruct (scan_string x) as [[]|].
  - intros f x. change (String c "" +:+ x) with (String c x). cbn [unquote].
    rewrite decide_False by done. cbn [rune_size].
    by destruct (N.ltb_spec (N_of_ascii c) 128); [|lia].
Qed.

Lemma piece_escape e c :
  simple_escape e = Some c → e ≠ "u"%char → piece (String backslash (String e "")) (String c "").
Proof.
  intros He Hu. split_and!; [simpl; lia| |].
  - intros x. change (String backslash (String e "") +:+ x) with (String backslash (String e x)).
    cbn [scan_string]. rewrite decide_False, decide_True, decide_False, He by done.
    by destruct (scan_string x) as [[]|].
  - intros f x. change (String backslash (String e "") +:+ x) with (String backslash (String e x)).
    cbn [unquote]. rewrite decide_True by done.
    destruct x as [|h1 [|h2 [|h3 [|h4 x]]]]; rewrite ?decide_False, He by done; done.
Qed.

Lemma piece_u h1 h2 h3 h4 r :
  hex4 h1 h2 h3 h4 = Some r → (r < 55296 ∨ 56319 < r)%N →
  piece (String backslash (String "u" (String h1 (String h2 (String h3 (String h4 ""))))))
    (encode_rune r).
Proof.
  intros Hr Hs. set (p := String backslash _). split_and!; [simpl; lia| |].
  - intros x. change (p +:+ x) with (String backslash (String "u" (String h1 (String h2 (String h3 (String h4 x)))))).
    cbn [scan_string]. rewrite decide_False, !decide_True, Hr by done. by destruct (scan_string x) as [[]|].
  - intros f x. change (p +:+ x) with (String backslash (String "u" (String h1 (String h2 (String h3 (String h4 x)))))).
    cbn [unquote]. rewrite !decide_True, Hr by done. cbn [default].
    assert (∀ r1, surrogates r r1 = None) as Hno.
    { intros r1. unfold surrogates.
      destruct (_ && _) eqn:E; [|done]. rewrite !andb_true_iff, !N.leb_le in E. lia. }
    change (default 0%N (Some r)) with r.
    destruct x as [|b1 [|u1 [|k1 [|k2 [|k3 [|k4 x]]]]]]; [done..|].
    case_decide; [|done]. destruct (hex4 k1 k2 k3 k4); [|done]. by rewrite Hno.
Qed.

Fixpoint high (s : string) : bool :=
  match s with EmptyString => true | String c s' => (128 <=? N_of_ascii c)%N && high s' end.

Lemma scan_string_high p x : high p = true → scan_string (p +:+ x) = prepend p <$> scan_string x.
Proof.
  induction p as [|c p IH]; intros Hp.
  { change ("" +:+ x) with x. by destruct (scan_string x) as [[]|]. }
  cbn [high] in Hp. apply andb_true_iff in Hp as [Hc%N.leb_le Hp].
  change (String c p +:+ x) with (String c (p +:+ x)). cbn [scan_string].
  assert (c ≠ quote ∧ c ≠ backslash) as [Hq Hb].
  { split; intros ->; vm_compute in Hc; by destruct Hc. }
  rewrite (decide_False (P := c = quote)), (decide_False (P := c = backslash)) by done.
  destruct (N.ltb_spec (N_of_ascii c) 32); [lia|]. rewrite IH by done. by destruct (scan_string x) as [[]|].
Qed.

Lemma rune_high s n :
  rune_size s = S n → (match s with String c _ => 128 ≤ N_of_ascii c | _ => True end)%N →
  high (str_take (S n) s) = true.
Proof.
  intros Hn Hc. destruct s as [|c [|c1 [|c2 [|c3 s]]]]; [done|..]; revert Hn; unfold rune_size;
    destruct (N.ltb_spec (N_of_ascii c) 128); try lia; unfold between, cont.
  all: repeat match goal with
    | |- context [if ?b then _ else _] =>
        lazymatch b with context [if _ then _ else _] => fail | _ => idtac end;
        let E := fresh in destruct b eqn:E; rewrite ?andb_true_iff, ?N.leb_le in E
    end; intros [= <-]; cbn [str_take high]; rewrite ?andb_true_iff, ?N.leb_le; lia.
Qed.

Lemma piece_rune s n :
  rune_size s = S n → (match s with String c _ => 128 ≤ N_of_ascii c | _ => True end)%N →
  piece (str_take (S n) s) (str_take (S n) s).
Proof.
  intros Hn Hc. pose proof (rune_size_length s) as Hlen. rewrite Hn in Hlen. set (p := str_take (S n) s).
  assert (String.length p = S n) as Hp by (by apply str_take_length).
  assert (rune_size p = S n) as Hpn by (by apply rune_size_take).
  split_and!; [lia|intros x; by apply scan_string_high, rune_high|]. intros f x.
  pose proof (rune_size_app p x n Hpn) as Hpx.
  pose proof (str_take_app (S n) p x ltac:(lia)) as Ht. pose proof (str_drop_app (S n) p x ltac:(lia)) as Hd.
  rewrite <- Hp, str_take_all in Ht. rewrite <- Hp, str_drop_all in Hd. rewrite Hp in Ht, Hd.
  destruct s as [|c s]; [done|]. change (p +:+ x) with (String c (str_take n s +:+ x)) in *.
  cbn [unquote]. rewrite decide_False, Hpx, Ht, Hd; [done|]. intros ->. by vm_compute in Hc.
Qed.

Lemma hexdigits_hex4 c :
  (N_of_ascii c < 128)%N →
  hex4 "0" "0" (hexdigit (N_of_ascii c / 16)) (hexdigit (N_of_ascii c mod 16)) = Some (N_of_ascii c).
Proof. destruct c as [[][][][][][][][]]; intros Hc; try done; by vm_compute in Hc. Qed.

Lemma encode_rune_ascii c : (N_of_ascii c < 128)%N → encode_rune (N_of_ascii c) = String c "".
Proof.
  intros Hc. unfold encode_rune.
  destruct (_ || _) eqn:E.
  { rewrite orb_true_iff, andb_true_iff, !N.leb_le, N.ltb_lt in E. lia. }
  apply N.ltb_lt in Hc as ->. by rewrite ascii_N_embedding.
Qed.

Lemma piece_print_char c : (N_of_ascii c < 128)%N → piece (print_char c) (String c "").
Proof.
  intros Hc. unfold print_char.
  assert (∀ n e, N_of_ascii c = n → simple_escape e = Some (ascii_of_N n) → e ≠ "u"%char →
            piece (String backslash (String e "")) (String c "")) as Hesc.
  { intros n e <- He Hu. rewrite ascii_N_embedding in He. by apply piece_escape. }
  case_decide as Hq.
  { apply (Hesc _ _ eq_refl); rewrite ?ascii_N_embedding; by destruct Hq as [-> | ->]. }
  repeat match goal with
  | |- context [if (N_of_ascii c =? ?n)%N then _ else _] =>
      destruct (N.eqb_spec (N_of_ascii c) n); [by eapply Hesc|]
  end.
  destruct (_ || _) eqn:E.
  - rewrite <- (encode_rune_ascii c) by done. apply piece_u; [by apply hexdigits_hex4|lia].
  - rewrite !orb_false_iff, N.ltb_ge in E. apply piece_char; [naive_solver|naive_solver|lia].
Qed.

Lemma piece_print_rune s n :
  rune_size s = S n → (match s with String c _ => 128 ≤ N_of_ascii c | _ => True end)%N →
  piece (default (str_take (S n) s) (line_separator (str_take (S n) s))) (str_take (S n) s).
Proof.
  intros Hn Hc. unfold line_separator.
  case_decide as E1; [rewrite E1; by apply (piece_u "2" "0" "2" "8" 8232); [|lia]|].
  case_decide as E2; [rewrite E2; by apply (piece_u "2" "0" "2" "9" 8233); [|lia]|].
  by apply piece_rune.
Qed.

(** The printed runes of [s], as pieces. *)
Inductive printed : string → string → Prop :=
  | printed_nil : printed "" ""
  | printed_cons p r ps rs : piece p r → printed ps rs → printed (p +:+ ps) (r +:+ rs).

(** [strings.ToValidUTF8] with U+FFFD for every bad byte: what is left of a
    string after printing and reading it. *)
Fixpoint valid_runes (fuel : nat) (s : string) : string :=
  match fuel with
  | O => ""
  | S fuel' =>
      match s with
      | EmptyString => ""
      | String c s' =>
          match rune_size s with
          | O => runeError +:+ valid_runes fuel' s'
          | n => str_take n s +:+ valid_runes fuel' (str_drop n s)
          end
      end
  end.

Definition valid_utf8 (s : string) : string := valid_runes (String.length s) s.

Lemma valid_runes_utf8 fuel s : utf8 s → String.length s ≤ fuel → valid_runes fuel s = s.
Proof.
  intros Hs. revert fuel. induction Hs as [|s n Hn Hs IH]; intros fuel Hf; [by destruct fuel|].
  destruct s as [|c s]; [done|]. destruct fuel as [|fuel]; [simpl in Hf; lia|]. cbn [valid_runes].
  pose proof (rune_size_length (String c s)) as Hlen. rewrite Hn in *.
  pose proof (str_drop_length (S n) (String c s)) as Hdrop. rewrite IH by lia. apply str_take_drop.
Qed.

Lemma valid_utf8_id s : utf8 s → valid_utf8 s = s.
Proof. intros Hs. by apply valid_runes_utf8. Qed.

Lemma print_runes_printed fuel s :
  String.length s ≤ fuel → printed (print_runes fuel s) (valid_runes fuel s).
Proof.
  revert s. induction fuel as [|fuel IH]; intros [|c s] Hf;
    [apply printed_nil|simpl in Hf; lia|apply printed_nil|].
  cbn [print_runes valid_runes]. destruct (N.ltb_spec (N_of_ascii c) 128) as [Hc|Hc].
  - assert (rune_size (String c s) = 1) as -> by (cbn [rune_size]; by apply N.ltb_lt in Hc as ->).
    apply (printed_cons _ (String c "")); [by apply piece_print_char|]. apply IH. simpl in *. lia.
  - destruct (rune_size (String c s)) as [|n] eqn:Hn.
    + apply printed_cons; [apply (piece_u _ _ _ _ 65533); [reflexivity|lia]|]. apply IH. simpl in Hf. lia.
    + apply printed_cons; [by apply piece_print_rune|]. apply IH.
      pose proof (str_drop_length (S n) (String c s)). lia.
Qed.

Lemma scan_printed ps rs x : printed ps rs → scan_string (ps +:+ String quote x) = Some (ps, x).
Proof.
  induction 1 as [|p r ps rs (_ & Hp & _) _ IH].
  - change (scan_string (String quote x) = Some ("", x)). cbn [scan_string]. by rewrite decide_True.
  - by rewrite string_app_assoc, Hp, IH.
Qed.

Lemma unquote_printed ps rs f : printed ps rs → String.length ps ≤ f → unquote f ps = rs.
Proof.
  intros Hp. revert f. induction Hp as [|p r ps rs (Hlen & _ & Hu) _ IH]; intros f Hf; [by destruct f|].
  rewrite string_length_app in Hf. destruct f as [|f]; [lia|]. rewrite Hu, IH by lia. done.
Qed.

(** A string is printed as a literal that reads back, up to bad bytes. *)
Lemma print_string_reads s x :
  ∃ raw, print_string s +:+ x = String quote (raw +:+ String quote x) ∧
         scan_string (raw +:+ String quote x) = Some (raw, x) ∧ unquoted raw = valid_utf8 s.
Proof.
  pose proof (print_runes_printed (String.length s) s ltac:(done)) as Hp.
  exists (print_runes (String.length s) s). unfold print_string. split_and!.
  - change (String quote ((print_runes (String.length s) s +:+ String quote "") +:+ x)
            = String quote (print_runes (String.length s) s +:+ String quote x)).
    by rewrite string_app_assoc.
  - by eapply scan_printed.
  - by eapply unquote_printed.
Qed.

(** ** Numbers read back *)

(** The text cannot continue a number. *)
Definition ends_number (s : string) : Prop :=
  match s with
  | EmptyString => True
  | String c _ => is_digit c = false ∧ c ≠ "."%char ∧ c ≠ "e"%char ∧ c ≠ "E"%char
  end.

Definition no_digit (s : string) : Prop :=
  match s with EmptyString => True | String c _ => is_digit c = false end.

Lemma take_digits_app ds s : string_forall is_digit ds = true → no_digit s → take_digits (ds +:+ s) = (ds, s).
Proof.
  induction ds as [|c ds IH]; intros Hd Hs.
  - change ("" +:+ s) with s. destruct s as [|c s]; [done|]. cbn [take_digits]. by rewrite Hs.
  - cbn [string_forall] in Hd. apply andb_true_iff in Hd as [Hc Hd].
    change (String c ds +:+ s) with (String c (ds +:+ s)). cbn [take_digits]. by rewrite Hc, IH.
Qed.

Lemma not_digit_ne c : is_digit c = true → c ≠ "-"%char ∧ c ≠ "+"%char.
Proof. intros Hc. by split; intros ->. Qed.

Lemma scan_exp_text e s :
  match e with None => True | Some (_, ds) => ds ≠ "" ∧ string_forall is_digit ds = true end →
  ends_number s →
  scan_exp (match e with None => "" | Some (neg, ds) => "e" +:+ (if neg : bool then "-" else "+") +:+ ds end +:+ s)
  = Some (e, s).
Proof.
  intros He Hs. destruct e as [[neg ds]|].
  - destruct He as [Hne Hd]. rewrite string_app_assoc, string_app_assoc.
    assert (take_digits (ds +:+ s) = (ds, s)) as Ht.
    { apply take_digits_app; [done|]. destruct s; [done|]. apply Hs. }
    destruct neg; [change (_ +:+ _ +:+ ds +:+ s) with (String "e" (String "-" (ds +:+ s)))
                  |change (_ +:+ _ +:+ ds +:+ s) with (String "e" (String "+" (ds +:+ s)))];
      cbn [scan_exp]; rewrite decide_True by auto; rewrite Ht; by destruct ds.
  - change ("" +:+ s) with s. destruct s as [|c s]; [done|]. destruct Hs as (_ & _ & He1 & He2).
    cbn [scan_exp]. rewrite decide_False; [done|naive_solver].
Qed.

(** The exponent part does not start with a digit or a dot. *)
Lemma exp_text_no_digit e s :
  ends_number s →
  let x := match e with None => "" | Some (neg, ds) => "e" +:+ (if neg : bool then "-" else "+") +:+ ds end +:+ s in
  no_digit x ∧ match x with String "." _ => False | _ => True end.
Proof.
  intros Hs. destruct e as [[neg ds]|]; [done|]. simpl. change ("" +:+ s) with s.
  destruct s as [|c s]; [done|]. destruct Hs as (Hd & Hdot & _). split; [done|].
  by destruct c as [[][][][][][][][]].
Qed.

Lemma scan_frac_text frac x :
  string_forall is_digit frac = true → no_digit x → match x with String "." _ => False | _ => True end →
  scan_frac ((if decide (frac = "") then "" else "." +:+ frac) +:+ x) = Some (frac, x).
Proof.
  intros Hf Hd Hdot. case_decide as He.
  - subst frac. change ("" +:+ x) with x. destruct x as [|c x]; [done|].
    unfold scan_frac. destruct c as [[][][][][][][][]]; done.
  - rewrite string_app_assoc. change ("." +:+ frac +:+ x) with (String "." (frac +:+ x)). cbn [scan_frac].
    rewrite take_digits_app by done. by destruct frac.
Qed.

Lemma scan_int_text int x :
  string_forall is_digit int = true → (int = "0" ∨ ∃ c s, int = String c s ∧ c ≠ "0"%char) → no_digit x →
  scan_int (int +:+ x) = Some (int, x).
Proof.
  intros Hd [->|(c & s & -> & Hc)] Hx; [done|].
  pose proof (take_digits_app _ x Hd Hx) as Ht. change (String c s +:+ x) with (String c (s +:+ x)) in *.
  unfold scan_int. rewrite Ht. destruct c as [[][][][][][][][]]; done.
Qed.

Lemma frac_text_no_digit frac x :
  no_digit x → no_digit ((if decide (frac = "") then "" else "." +:+ frac) +:+ x).
Proof. intros Hx. by case_decide. Qed.

Lemma scan_number_text l s :
  lit_ok l → ends_number s → scan_number (lit_text l +:+ s) = Some (l, s).
Proof.
  intros (Hi & Hf & Hint & He) Hs. destruct l as [neg int frac exp]. cbn [n_neg n_int n_frac n_exp] in *.
  unfold lit_text. cbn [n_neg n_int n_frac n_exp]. rewrite !string_app_assoc.
  destruct (exp_text_no_digit exp s Hs) as [Hx Hdot]. pose proof (scan_exp_text exp s He Hs) as Hexp.
  set (x := _ +:+ s) in *. clearbody x.
  pose proof (scan_frac_text frac x Hf Hx Hdot) as Hfrac. pose proof (frac_text_no_digit frac x Hx) as Hy.
  set (y := _ +:+ x) in *. clearbody y. pose proof (scan_int_text int y Hi Hint Hy) as Hz.
  unfold scan_number. destruct neg.
  - change ("-" +:+ int +:+ y) with (String "-" (int +:+ y)). cbv beta iota zeta.
    by rewrite Hz, Hfrac, Hexp.
  - change ("" +:+ int +:+ y) with (int +:+ y).
    assert (∃ c s0, int +:+ y = String c s0 ∧ c ≠ "-"%char) as (c & s0 & Heq & Hc).
    { destruct int as [|c int]; [by destruct Hint as [?|(? & ? & ? & ?)]|]. exists c, (int +:+ y).
      split; [done|]. cbn [string_forall] in Hi. apply andb_true_iff in Hi as [Hi _]. by apply not_digit_ne. }
    rewrite Heq in *. assert (match String c s0 with String "-" s' => (true, s') | _ => (false, String c s0) end
                              = (false, String c s0)) as ->.
    { by destruct c as [[][][][][][][][]]. }
    by rewrite Hz, Hfrac, Hexp.
Qed.

(** The first character of a number is a digit or a minus. *)
Lemma lit_text_head l s :
  lit_ok l → ∃ c x, lit_text l +:+ s = String c x ∧ (is_digit c = true ∨ c = "-"%char).
Proof.
  intros (Hi & _ & Hint & _). unfold lit_text. rewrite !string_app_assoc. destruct (n_neg l).
  - eexists _, _. split; [reflexivity|by right].
  - destruct (n_int l) as [|c int]; [by destruct Hint as [?|(? & ? & ? & ?)]|].
    eexists _, _. split; [reflexivity|]. cbn [string_forall] in Hi. apply andb_true_iff in Hi as [Hi _]. by left.
Qed.
