(* ===== verification/JsonRoundtrip.v ===== *)
(** * Values print and read back

    [Unmarshal (Marshal v) = v] for every value a decoder can produce. *)

From S2P Require Import Prelude GoLib Float64 Json JsonProps.

(** ** Induction *)

Section json_induction.
Context (P : json → Prop).
Context (HNull : P JNull) (HBool : ∀ b, P (JBool b)) (HNumber : ∀ f, P (JNumber f))
        (HString : ∀ s, P (JString s)) (HArray : ∀ l, Forall P l → P (JArray l))
        (HObject : ∀ ms, Forall (λ kv, P kv.2) ms → P (JObject ms)).

Fixpoint json_nested_ind (v : json) : P v :=
  match v with
  | JNull => HNull
  | JBool b => HBool b
  | JNumber f => HNumber f
  | JString s => HString s
  | JArray l =>
      HArray l ((fix go l : Forall P l :=
                   match l with
                   | [] => List.Forall_nil _
                   | v :: l' => List.Forall_cons _ _ _ (json_nested_ind v) (go l')
                   end) l)
  | JObject ms =>
      HObject ms ((fix go ms : Forall (λ kv, P kv.2) ms :=
                     match ms with
                     | [] => List.Forall_nil _
                     | kv :: ms' => List.Forall_cons _ kv _ (json_nested_ind kv.2) (go ms')
                     end) ms)
  end.
End json_induction.

(** ** Decoding, list by list *)

Fixpoint decode_list (l : list jtext) : option (list json) :=
  match l with
  | [] => Some []
  | t :: l' => match decode t, decode_list l' with Some v, Some vs => Some (v :: vs) | _, _ => None end
  end.

Fixpoint decode_members (ms : list (string * jtext)) (acc : list (string * json)) : option (list (string * json)) :=
  match ms with
  | [] => Some acc
  | (k, t) :: ms' =>
      match decode t with Some v => decode_members ms' (obj_set k v acc) | None => None end
  end.

Lemma decode_TArray l : decode (TArray l) = JArray <$> decode_list l.
Proof. done. Qed.

Lemma decode_TObject ms : decode (TObject ms) = JObject <$> decode_members ms [].
Proof. done. Qed.

(** ** Well-formed values *)

Definition key_lt (a b : string * json) : Prop := String.compare a.1 b.1 = Lt.

Inductive wf : json → Prop :=
  | wf_null : wf JNull
  | wf_bool b : wf (JBool b)
  | wf_number f : finite64 f → wf (JNumber f)
  | wf_string s : utf8 s → wf (JString s)
  | wf_array l : Forall wf l → wf (JArray l)
  | wf_object ms :
      StronglySorted key_lt ms → Forall (λ kv, utf8 kv.1 ∧ wf kv.2) ms → wf (JObject ms).

(** Nesting of arrays and objects. *)
Fixpoint height (v : json) : N :=
  match v with
  | JArray l => 1 + foldr (λ v n, N.max (height v) n) 0 l
  | JObject ms => 1 + foldr (λ kv n, N.max (height kv.2) n) 0 ms
  | _ => 0
  end%N.

Lemma compare_Gt a b : String.compare a b = Lt → String.compare b a = Gt.
Proof. intros Hab. by rewrite String.compare_antisym, Hab. Qed.

Lemma obj_set_last k v m :
  Forall (λ kv : string * json, String.compare kv.1 k = Lt) m → obj_set k v m = m ++ [(k, v)].
Proof.
  induction 1 as [|[k0 v0] m Hk _ IH]; [done|]. simpl in Hk. cbn [obj_set]. by rewrite (compare_Gt _ _ Hk), IH.
Qed.

(** ** Reading a printed text *)

Section jtext_induction.
Context (P : jtext → Prop).
Context (HNull : P TNull) (HBool : ∀ b, P (TBool b)) (HNumber : ∀ l, P (TNumber l))
        (HString : ∀ s, P (TString s)) (HArray : ∀ l, Forall P l → P (TArray l))
        (HObject : ∀ ms, Forall (λ kv, P kv.2) ms → P (TObject ms)).

Fixpoint jtext_nested_ind (t : jtext) : P t :=
  match t with
  | TNull => HNull
  | TBool b => HBool b
  | TNumber l => HNumber l
  | TString s => HString s
  | TArray l =>
      HArray l ((fix go l : Forall P l :=
                   match l with
                   | [] => List.Forall_nil _
                   | t :: l' => List.Forall_cons _ _ _ (jtext_nested_ind t) (go l')
                   end) l)
  | TObject ms =>
      HObject ms ((fix go ms : Forall (λ kv, P kv.2) ms :=
                     match ms with
                     | [] => List.Forall_nil _
                     | kv :: ms' => List.Forall_cons _ kv _ (jtext_nested_ind kv.2) (go ms')
                     end) ms)
  end.
End jtext_induction.

(** A text that can be printed at nesting [d] and read back: its numbers are
    literals of the grammar, and it is not too deep. *)
Inductive printable : N → jtext → Prop :=
  | printable_null d : printable d TNull
  | printable_bool d b : printable d (TBool b)
  | printable_number d l : lit_ok l → printable d (TNumber l)
  | printable_string d s : printable d (TString s)
  | printable_array d l : (d < maxNestingDepth)%N → Forall (printable (d + 1)) l → printable d (TArray l)
  | printable_object d ms :
      (d < maxNestingDepth)%N → Forall (λ kv, printable (d + 1) kv.2) ms → printable d (TObject ms).

(** The text with its strings made valid UTF-8. *)
Fixpoint valid_text (t : jtext) : jtext :=
  match t with
  | TString s => TString (valid_utf8 s)
  | TArray l => TArray (map valid_text l)
  | TObject ms => TObject (map (λ kv, (valid_utf8 kv.1, valid_text kv.2)) ms)
  | _ => t
  end.

(** Reading a printed text consumes exactly the text. *)
Definition reads_back (depth : N) (t : jtext) : Prop := ∀ fuel rest,
  ends_number rest → 2 * String.length (print_text t +:+ rest) + 1 ≤ fuel →
  read_value fuel depth (print_text t +:+ rest) = Some (valid_text t, rest).

(** The first character of a printed text. *)
Definition value_start (s : string) : Prop :=
  ∃ c x, s = String c x ∧ isSpace c = false ∧ c ≠ "]"%char ∧ c ≠ "}"%char.

Lemma digit_start c : is_digit c = true ∨ c = "-"%char → isSpace c = false ∧ c ≠ "]"%char ∧ c ≠ "}"%char ∧
  c ≠ quote ∧ c ≠ "t"%char ∧ c ≠ "f"%char ∧ c ≠ "n"%char ∧ c ≠ "{"%char ∧ c ≠ "["%char.
Proof. destruct c as [[][][][][][][][]]; intros [Hc|Hc]; try done; by vm_compute in Hc. Qed.

Lemma print_start d t rest : printable d t → value_start (print_text t +:+ rest).
Proof.
  destruct 1 as [|? []|? l Hl| | |]; cbn [print_text]; try (eexists _, _; split; [reflexivity|done]).
  destruct (lit_text_head l rest Hl) as (c & x & -> & Hc).
  eexists _, _. split; [done|]. destruct (digit_start c Hc) as (? & ? & ? & _). done.
Qed.

Lemma skip_ws_start c x : isSpace c = false → skip_ws (String c x) = String c x.
Proof. intros Hc. cbn [skip_ws]. by rewrite Hc. Qed.

Lemma read_value_scalar fuel depth c x :
  isSpace c = false → c ≠ "{"%char → c ≠ "["%char →
  read_value (S fuel) depth (String c x) = read_scalar (String c x).
Proof. intros Hc H1 H2. cbn [read_value]. rewrite skip_ws_start by done. by rewrite !decide_False. Qed.

Lemma number_reads_back d l : lit_ok l → reads_back d (TNumber l).
Proof.
  intros Hl fuel rest Hrest Hfuel. cbn [print_text] in *.
  destruct (lit_text_head l rest Hl) as (c & x & Heq & Hc).
  destruct (digit_start c Hc) as (Hs & _ & _ & Hq & Ht & Hff & Hn & Hb & Hsq).
  destruct fuel as [|fuel]; [lia|].
  rewrite Heq, read_value_scalar by done. cbn [read_scalar]. rewrite !decide_False by done.
  by rewrite <- Heq, scan_number_text by done.
Qed.

Lemma string_reads_back d s : reads_back d (TString s).
Proof.
  intros fuel rest _ Hfuel. cbn [print_text] in *.
  destruct (print_string_reads s rest) as (raw & Heq & Hscan & Hraw).
  destruct fuel as [|fuel]; [lia|].
  rewrite Heq, read_value_scalar by done. cbn [read_scalar]. by rewrite decide_True, Hscan, Hraw by done.
Qed.

Lemma skip_char_hit c x : isSpace c = false → skip_char c (String c x) = Some x.
Proof. intros Hc. unfold skip_char. rewrite skip_ws_start by done. by rewrite decide_True. Qed.

Lemma skip_char_miss c c' x : isSpace c' = false → c' ≠ c → skip_char c (String c' x) = None.
Proof. intros Hc Hne. unfold skip_char. rewrite skip_ws_start by done. by rewrite decide_False. Qed.

Lemma read_elements_value fuel depth s v s1 :
  read_value fuel depth s = Some (v, s1) →
  read_elements (S fuel) depth s =
    match skip_char "," s1 with
    | Some s2 =>
        match read_elements fuel depth s2 with Some (vs, rest) => Some (v :: vs, rest) | None => None end
    | None => match skip_char "]" s1 with Some rest => Some ([v], rest) | None => None end
    end.
Proof. intros Hv. cbn [read_elements]. by rewrite Hv. Qed.

(** A joined list, item by item. *)
Lemma Join_map_app {A} (f : A → string) x y l tail :
  Join (map f (x :: y :: l)) "," +:+ tail = f x +:+ String "," (Join (map f (y :: l)) "," +:+ tail).
Proof.
  change (Join (map f (x :: y :: l)) ",") with (f x +:+ "," +:+ Join (map f (y :: l)) ",").
  by rewrite !string_app_assoc.
Qed.

Lemma elements_read depth l rest fuel :
  Forall (reads_back depth) l → l ≠ [] →
  2 * String.length (Join (map print_text l) "," +:+ String "]" rest) + 2 ≤ fuel →
  read_elements fuel depth (Join (map print_text l) "," +:+ String "]" rest) = Some (map valid_text l, rest).
Proof.
  revert fuel. induction l as [|v l IH]; intros fuel Hr Hne Hfuel; [done|].
  apply Forall_cons in Hr as [Hv Hr]. destruct fuel as [|fuel]; [lia|]. destruct l as [|v' l].
  - simpl map in *. cbn [Join] in *.
    rewrite (read_elements_value _ _ _ _ _ (Hv fuel (String "]" rest) ltac:(done) ltac:(lia))).
    by rewrite skip_char_miss, skip_char_hit by done.
  - rewrite Join_map_app in *. set (tl := Join _ _ +:+ _) in *.
    rewrite string_length_app in Hfuel. simpl String.length in Hfuel.
    erewrite read_elements_value, skip_char_hit; [|done|apply Hv; [done|rewrite string_length_app; simpl; lia]].
    unfold tl in *. by rewrite IH by (done || lia).
Qed.

Definition member (kv : string * jtext) : string := print_string kv.1 +:+ ":" +:+ print_text kv.2.

Lemma read_members_one fuel depth raw s2 s3 t s4 :
  scan_string (raw +:+ String quote s2) = Some (raw, s2) → s2 = String ":" s3 →
  read_value fuel depth s3 = Some (t, s4) →
  read_members (S fuel) depth (String quote (raw +:+ String quote s2)) =
    match skip_char "," s4 with
    | Some s5 =>
        match read_members fuel depth s5 with
        | Some (ms, rest) => Some ((unquoted raw, t) :: ms, rest)
        | None => None
        end
    | None => match skip_char "}" s4 with Some rest => Some ([(unquoted raw, t)], rest) | None => None end
    end.
Proof.
  intros Hscan -> Ht. cbn [read_members]. rewrite skip_char_hit, Hscan, skip_char_hit by done. by rewrite Ht.
Qed.

Lemma member_text kv s :
  ∃ raw, member kv +:+ s = String quote (raw +:+ String quote (String ":" (print_text kv.2 +:+ s))) ∧
    scan_string (raw +:+ String quote (String ":" (print_text kv.2 +:+ s)))
      = Some (raw, String ":" (print_text kv.2 +:+ s)) ∧
    unquoted raw = valid_utf8 kv.1.
Proof.
  destruct (print_string_reads kv.1 (String ":" (print_text kv.2 +:+ s))) as (raw & Heq & Hs & Hr).
  exists raw. split_and!; [|done|done]. unfold member. by rewrite !string_app_assoc.
Qed.

Lemma members_read depth ms rest fuel :
  Forall (λ kv, reads_back depth kv.2) ms →
  ms ≠ [] → 2 * String.length (Join (map member ms) "," +:+ String "}" rest) + 2 ≤ fuel →
  read_members fuel depth (Join (map member ms) "," +:+ String "}" rest)
  = Some (map (λ kv, (valid_utf8 kv.1, valid_text kv.2)) ms, rest).
Proof.
  revert fuel. induction ms as [|[k v] ms IH]; intros fuel Hr Hne Hfuel; [done|].
  apply Forall_cons in Hr as [Hv Hr]. destruct fuel as [|fuel]; [lia|]. destruct ms as [|kv' ms].
  - simpl map in *. cbn [Join] in *.
    destruct (member_text (k, v) (String "}" rest)) as (raw & Heq & Hscan & Hraw). rewrite Heq in *.
    simpl String.length in Hfuel. rewrite string_length_app in Hfuel. simpl String.length in Hfuel.
    rewrite (read_members_one _ _ _ _ _ _ _ Hscan eq_refl (Hv fuel (String "}" rest) ltac:(done) ltac:(simpl; lia))).
    by rewrite Hraw, skip_char_miss, skip_char_hit by done.
  - rewrite Join_map_app in *. set (tl := Join _ _ +:+ _) in *.
    destruct (member_text (k, v) (String "," tl)) as (raw & Heq & Hscan & Hraw). rewrite Heq in *.
    simpl String.length in Hfuel. rewrite !string_length_app in Hfuel. simpl String.length in Hfuel.
    rewrite string_length_app in Hfuel. simpl String.length in Hfuel.
    rewrite (read_members_one _ _ _ _ _ _ _ Hscan eq_refl
               (Hv fuel (String "," tl) ltac:(done) ltac:(cbn [snd]; rewrite string_length_app; simpl; lia))).
    rewrite Hraw, skip_char_hit by done. unfold tl in *. by rewrite IH by (done || lia).
Qed.

(** Below the bracket or brace of a non-empty array or object. *)
Lemma read_array fuel depth s :
  (depth < maxNestingDepth)%N → value_start s →
  read_value (S fuel) depth (String "[" s) =
    match read_elements fuel (depth + 1) s with Some (vs, rest) => Some (TArray vs, rest) | None => None end.
Proof.
  intros Hd (c & x & -> & Hc & Hn & _). cbn [read_value]. rewrite (skip_ws_start "[") by done.
  rewrite decide_False, decide_True by done. apply N.ltb_lt in Hd as ->. by rewrite skip_char_miss.
Qed.

Lemma read_object fuel depth s :
  (depth < maxNestingDepth)%N → value_start s →
  read_value (S fuel) depth (String "{" s) =
    match read_members fuel (depth + 1) s with Some (ms, rest) => Some (TObject ms, rest) | None => None end.
Proof.
  intros Hd (c & x & -> & Hc & _ & Hn). cbn [read_value]. rewrite (skip_ws_start "{") by done.
  rewrite decide_True by done. apply N.ltb_lt in Hd as ->. by rewrite skip_char_miss.
Qed.

Lemma array_reads_back d l :
  (d < maxNestingDepth)%N → Forall (printable (d + 1)) l → Forall (reads_back (d + 1)) l → reads_back d (TArray l).
Proof.
  intros Hlt Hp Hl fuel rest Hrest Hfuel. destruct fuel as [|fuel]; [lia|].
  assert (print_text (TArray l) +:+ rest = String "[" (Join (map print_text l) "," +:+ String "]" rest)) as Heq.
  { cbn [print_text]. by rewrite !string_app_assoc. }
  rewrite Heq in *. simpl String.length in Hfuel. destruct l as [|v l].
  - cbn. by apply N.ltb_lt in Hlt as ->.
  - rewrite read_array, elements_read; [done|done|done|lia|done|].
    apply Forall_cons in Hp as [Hv _]. destruct l; [|rewrite Join_map_app]; by eapply print_start.
Qed.

(** An object ends where its brace is, whatever follows. *)
Lemma object_reads_back d ms fuel rest :
  (d < maxNestingDepth)%N → Forall (λ kv, reads_back (d + 1) kv.2) ms →
  2 * String.length (print_text (TObject ms) +:+ rest) + 1 ≤ fuel →
  read_value fuel d (print_text (TObject ms) +:+ rest) = Some (valid_text (TObject ms), rest).
Proof.
  intros Hlt Hl Hfuel. destruct fuel as [|fuel]; [lia|].
  assert (print_text (TObject ms) +:+ rest = String "{" (Join (map member ms) "," +:+ String "}" rest)) as Heq.
  { cbn [print_text]. rewrite !string_app_assoc. done. }
  rewrite Heq in *. simpl String.length in Hfuel. destruct ms as [|kv ms].
  - cbn. by apply N.ltb_lt in Hlt as ->.
  - rewrite read_object, members_read; [done|done|done|lia|done|].
    destruct ms as [|kv' ms]; [|rewrite Join_map_app].
    all: simpl map; cbn [Join]; edestruct (member_text kv) as (raw & -> & _).
    all: by eexists _, _.
Qed.

(** The literals [null], [true] and [false]. *)
Lemma literal_reads_back d t :
  (t = TNull ∨ ∃ b, t = TBool b) → reads_back d t.
Proof.
  intros Ht [|fuel] rest _ Hf; [lia|].
  destruct Ht as [->|[[] ->]].
  - change (print_text TNull +:+ rest) with (String "n" ("ull" +:+ rest)). rewrite read_value_scalar by done.
    cbn [read_scalar]. rewrite !decide_False, decide_True by done.
    change (String "n" ("ull" +:+ rest)) with ("null" +:+ rest). by rewrite CutPrefix_app.
  - change (print_text (TBool true) +:+ rest) with (String "t" ("rue" +:+ rest)).
    rewrite read_value_scalar by done. cbn [read_scalar]. rewrite decide_False, decide_True by done.
    change (String "t" ("rue" +:+ rest)) with ("true" +:+ rest). by rewrite CutPrefix_app.
  - change (print_text (TBool false) +:+ rest) with (String "f" ("alse" +:+ rest)).
    rewrite read_value_scalar by done. cbn [read_scalar]. rewrite !decide_False, decide_True by done.
    change (String "f" ("alse" +:+ rest)) with ("false" +:+ rest). by rewrite CutPrefix_app.
Qed.

Lemma printable_reads_back t : ∀ d, printable d t → reads_back d t.
Proof.
  revert t. apply (jtext_nested_ind (λ t, ∀ d, printable d t → reads_back d t)).
  - intros d _. apply literal_reads_back. by left.
  - intros b d _. apply literal_reads_back. right. by exists b.
  - intros l d Hp. inversion Hp. by apply number_reads_back.
  - intros s d _. apply string_reads_back.
  - intros l IH d Hp. inversion Hp as [| | | |? ? Hd Hl|]; subst. apply array_reads_back; [done..|].
    rewrite Forall_forall in *. auto.
  - intros ms IH d Hp. inversion Hp as [| | | | |? ? Hd Hl]; subst. intros fuel rest _. apply object_reads_back; [done|].
    rewrite Forall_forall in *. auto.
Qed.

(** A printed text is parsed as itself, whatever white space follows. *)
Lemma parse_print t ws : printable 0 t → skip_ws ws = "" → ends_number ws → parse (print_text t +:+ ws) = Some (valid_text t).
Proof.
  intros Hp Hws He. unfold parse. rewrite (printable_reads_back t 0 Hp) by (done || lia). by rewrite decide_True.
Qed.

(** ** Reading a printed value *)

(** Sorted members are decoded in place. *)
Lemma decode_members_sorted ts ms acc :
  Forall2 (λ kt kv, kt.1 = kv.1 ∧ decode kt.2 = Some kv.2) ts ms →
  StronglySorted key_lt (acc ++ ms) → decode_members ts acc = Some (acc ++ ms).
Proof.
  intros Hts. revert acc. induction Hts as [|[k t] [k' v] ts ms [[= ->] Hd] Hts IH]; intros acc Hs.
  - by rewrite app_nil_r.
  - cbn [fst snd decode_members] in *. rewrite Hd, obj_set_last.
    + rewrite (IH (acc ++ [(k', v)])); rewrite <- ?app_assoc; done.
    + clear -Hs. induction acc as [|kv acc IH]; [constructor|]. simpl in Hs.
      apply StronglySorted_inv in Hs as [Hs Hall]. constructor; [|by apply IH].
      rewrite Forall_app, Forall_cons in Hall. apply Hall.
Qed.

(** A value at nesting [d], as [Marshal] prints it, is a text that decodes to
    the value. *)
Definition text_of (d : N) (v : json) (t : jtext) : Prop :=
  print_text t = Marshal v ∧ printable d t ∧ valid_text t = t ∧ decode t = Some v.

Lemma height_elem d n l v : (d + (1 + foldr (λ v n, N.max (height v) n) 0 l) ≤ n)%N → v ∈ l → (d + 1 + height v ≤ n)%N.
Proof.
  intros Hd Hv. assert (height v ≤ foldr (λ v n, N.max (height v) n) 0 l)%N; [|lia].
  clear Hd. induction Hv as [v l|v w l Hv IH]; simpl; lia.
Qed.

Lemma height_member d n (ms : list (string * json)) kv :
  (d + (1 + foldr (λ kv n, N.max (height kv.2) n) 0 ms) ≤ n)%N → kv ∈ ms → (d + 1 + height kv.2 ≤ n)%N.
Proof.
  intros Hd Hkv. assert (height kv.2 ≤ foldr (λ kv n, N.max (height kv.2) n) 0 ms)%N; [|lia].
  clear Hd. induction Hkv as [kv ms|kv w ms Hkv IH]; simpl; lia.
Qed.

Lemma texts_of d l :
  Forall (λ v, ∃ t, text_of d v t) l →
  ∃ ts, map print_text ts = map Marshal l ∧ Forall (printable d) ts ∧ map valid_text ts = ts ∧
        decode_list ts = Some l.
Proof.
  induction 1 as [|v l (t & Hp & Hok & Hv & Hd) _ (ts & IHp & IHok & IHv & IHd)]; [by exists []|].
  exists (t :: ts). cbn [decode_list]. rewrite Hd, IHd. simpl map. rewrite Hp, IHp, Hv, IHv.
  by split_and!; [|constructor| |].
Qed.

Lemma members_text_of d ms :
  Forall (λ kv, utf8 kv.1 ∧ ∃ t, text_of d kv.2 t) ms →
  ∃ ts, map member ts = map (λ kv, print_string kv.1 +:+ ":" +:+ Marshal kv.2) ms ∧
        Forall (λ kv, printable d kv.2) ts ∧
        map (λ kv, (valid_utf8 kv.1, valid_text kv.2)) ts = ts ∧
        Forall2 (λ kt kv, kt.1 = kv.1 ∧ decode kt.2 = Some kv.2) ts ms.
Proof.
  induction 1 as [|[k v] ms (Hk & t & Hp & Hok & Hv & Hd) _ (ts & IHp & IHok & IHv & IHd)];
    [exists []; by split_and!|].
  exists ((k, t) :: ts). cbn [fst snd] in *. simpl map. unfold member at 1. cbn [fst snd].
  rewrite Hp, IHp, valid_utf8_id, Hv, IHv by done. by split_and!; [|constructor| |constructor].
Qed.

Lemma wf_text v : ∀ d, wf v → (d + height v ≤ maxNestingDepth)%N → ∃ t, text_of d v t.
Proof.
  revert v. apply (json_nested_ind (λ v, ∀ d, wf v → (d + height v ≤ maxNestingDepth)%N → ∃ t, text_of d v t)).
  - intros d _ _. exists TNull. by split_and!; [|constructor| |].
  - intros b d _ _. exists (TBool b). split_and!; [by destruct b|constructor|done|done].
  - intros f d Hw _. inversion Hw as [| |? Hf| | |]; subst.
    destruct (format_float_literal f Hf) as (l & Hl & Ht & Hp). exists (TNumber l).
    split_and!; [done|by constructor|done|]. cbn [decode]. by rewrite Hp.
  - intros s d Hw _. inversion Hw. exists (TString s). unfold text_of.
    cbn [valid_text]. rewrite valid_utf8_id by done. by split_and!; [|constructor| |].
  - intros l IH d Hw Hd. inversion Hw as [| | | |? Hl|]; subst. cbn [height] in Hd.
    destruct (texts_of (d + 1) l) as (ts & Hp & Hok & Hv & Hts).
    { rewrite Forall_forall in *. intros v Hv. apply IH; [done|by apply Hl|]. by eapply height_elem. }
    exists (TArray ts). unfold text_of. cbn [print_text Marshal valid_text]. rewrite Hp, Hv, decode_TArray, Hts.
    split_and!; [done|constructor; [lia|done]|done|done].
  - intros ms IH d Hw Hd. inversion Hw as [| | | | |? Hs Hl]; subst. cbn [height] in Hd.
    destruct (members_text_of (d + 1) ms) as (ts & Hp & Hok & Hv & Hts).
    { rewrite Forall_forall in *. intros kv Hkv. destruct (Hl kv Hkv). split; [done|].
      apply IH; [done..|]. by eapply height_member. }
    exists (TObject ts). unfold text_of. cbn [print_text Marshal valid_text].
    change (map (λ kv, print_string kv.1 +:+ _) ts) with (map member ts).
    rewrite Hp, Hv, decode_TObject, (decode_members_sorted ts ms []) by done.
    split_and!; [done|constructor; [lia|done]|done|done].
Qed.

(** Printing and reading back. *)
Lemma Unmarshal_Marshal v : wf v → (height v ≤ maxNestingDepth)%N → Unmarshal (Marshal v) = Ok v.
Proof.
  intros Hw Hh. destruct (wf_text v 0 Hw Hh) as (t & <- & Hp & Hv & Hd). unfold Unmarshal.
  pose proof (parse_print t "" Hp) as Hr. rewrite string_app_nil_r in Hr. by rewrite Hr, Hv, Hd.
Qed.

(** ** Decoded values are well formed *)

(** A text that was read at nesting [d]: its strings are valid UTF-8 and it is
    not too deep. *)
Inductive sound : N → jtext → Prop :=
  | sound_null d : sound d TNull
  | sound_bool d b : sound d (TBool b)
  | sound_number d l : string_forall is_digit (n_int l +:+ n_frac l) = true → sound d (TNumber l)
  | sound_string d s : utf8 s → sound d (TString s)
  | sound_array d l : (d < maxNestingDepth)%N → Forall (sound (d + 1)) l → sound d (TArray l)
  | sound_object d ms :
      (d < maxNestingDepth)%N → Forall (λ kv, utf8 kv.1 ∧ sound (d + 1) kv.2) ms → sound d (TObject ms).

Lemma string_compare_trans a b c :
  String.compare a b = Lt → String.compare b c = Lt → String.compare a c = Lt.
Proof.
  revert b c. induction a as [|x a IH]; intros [|y b] [|z c]; try done. cbn [String.compare].
  unfold Ascii.compare.
  destruct (N.compare_spec (N_of_ascii x) (N_of_ascii y)) as [Hxy|Hxy|Hxy]; [| |done];
    destruct (N.compare_spec (N_of_ascii y) (N_of_ascii z)) as [Hyz|Hyz|Hyz]; try done; intros H1 H2.
  all: destruct (N.compare_spec (N_of_ascii x) (N_of_ascii z)); try done; try lia. by eapply IH.
Qed.

Lemma obj_set_elem {A} k (v : A) m kv : kv ∈ obj_set k v m → kv = (k, v) ∨ kv ∈ m.
Proof.
  induction m as [|[k0 v0] m IH]; cbn [obj_set]; [rewrite list_elem_of_singleton; auto|].
  destruct (String.compare k k0); rewrite !elem_of_cons; naive_solver.
Qed.

Lemma obj_set_sorted k v m : StronglySorted key_lt m → StronglySorted key_lt (obj_set k v m).
Proof.
  induction 1 as [|[k0 v0] m Hs IH Hall]; cbn [obj_set]; [by repeat constructor|].
  rewrite Forall_forall in Hall. destruct (String.compare k k0) eqn:Hc.
  - apply String.compare_eq_iff in Hc as ->. constructor; [done|]. by apply Forall_forall.
  - constructor; [constructor; [done|by apply Forall_forall]|].
    apply Forall_cons. split; [done|]. apply Forall_forall. intros kv Hkv.
    eapply string_compare_trans; [exact Hc|]. by apply Hall.
  - constructor; [done|]. apply Forall_forall. intros kv [->|Hkv]%obj_set_elem; [|by apply Hall].
    unfold key_lt. simpl. by rewrite String.compare_antisym, Hc.
Qed.
