(* ===== verification/JsonSound.v ===== *)
(** * What the JSON reader accepts

    Reading consumes characters, and what is read has valid strings, proper
    numbers and bounded nesting, so that decoded values are well formed. *)

From S2P Require Import Prelude GoLib Float64 Json JsonProps JsonRoundtrip.

Lemma skip_ws_length s : String.length (skip_ws s) ≤ String.length s.
Proof. induction s as [|c s IH]; [done|]. cbn [skip_ws]. destruct (isSpace c); simpl; lia. Qed.

Lemma skip_ws_idemp s : skip_ws (skip_ws s) = skip_ws s.
Proof. induction s as [|c s IH]; [done|]. cbn [skip_ws]. destruct (isSpace c) eqn:Hc; [done|]. cbn [skip_ws]. by rewrite Hc. Qed.

Lemma scan_string_split s raw rest : scan_string s = Some (raw, rest) → s = raw +:+ String quote rest.
Proof.
  remember (String.length s) as n eqn:Hn. assert (String.length s ≤ n) as Hle by lia. clear Hn.
  revert s raw rest Hle. induction n as [|n IH]; intros [|c s] raw rest Hle; try done; [simpl in Hle; lia|].
  simpl in Hle. cbn [scan_string]. case_decide as Hq; [by intros [= <- <-]; subst c|].
  case_decide as Hb.
  - destruct s as [|e s]; [done|]. simpl in Hle. case_decide as Hu.
    + destruct s as [|h1 [|h2 [|h3 [|h4 s]]]]; try done. destruct (hex4 h1 h2 h3 h4); [|done].
      destruct (scan_string s) as [[raw' rest']|] eqn:Hs; [|done]. intros [= <- <-].
      apply IH in Hs; [|simpl in Hle; lia]. by rewrite Hs.
    + destruct (simple_escape e); [|done]. destruct (scan_string s) as [[raw' rest']|] eqn:Hs; [|done].
      intros [= <- <-]. apply IH in Hs; [|lia]. by rewrite Hs.
  - destruct (N_of_ascii c <? 32)%N; [done|]. destruct (scan_string s) as [[raw' rest']|] eqn:Hs; [|done].
    intros [= <- <-]. apply IH in Hs; [|lia]. by rewrite Hs.
Qed.

Lemma scan_string_length s raw rest : scan_string s = Some (raw, rest) → String.length rest < String.length s.
Proof. intros ->%scan_string_split. rewrite string_length_app. simpl. lia. Qed.

Lemma take_digits_spec s ds rest :
  take_digits s = (ds, rest) → s = ds +:+ rest ∧ string_forall is_digit ds = true.
Proof.
  revert ds rest. induction s as [|c s IH]; intros ds rest; cbn [take_digits]; [by intros [= <- <-]|].
  destruct (is_digit c) eqn:Hc; [|by intros [= <- <-]].
  destruct (take_digits s) as [ds' rest'] eqn:Hs. intros [= <- <-].
  destruct (IH _ _ eq_refl) as [-> Hd]. split; [done|]. cbn [string_forall]. by rewrite Hc.
Qed.

(** A part of a number: the rest is not longer, and what was read is digits. *)
Lemma scan_int_spec s int rest :
  scan_int s = Some (int, rest) →
  String.length rest < String.length s ∧ string_forall is_digit int = true.
Proof.
  assert (match take_digits s with (EmptyString, _) => None | (ds, r) => Some (ds, r) end = Some (int, rest) →
          String.length rest < String.length s ∧ string_forall is_digit int = true) as Hgen.
  { destruct (take_digits s) as [[|c ds] r] eqn:Ht; [done|]. intros [= <- <-].
    destruct (take_digits_spec _ _ _ Ht) as [-> Hd]. split; [|done]. rewrite string_length_app. simpl. lia. }
  unfold scan_int. destruct s as [|c s]; [done|].
  destruct (decide (c = "0"%char)) as [->|Hc]; [intros [= <- <-]; split; [simpl; lia|done]|].
  intros Hs. apply Hgen. by destruct c as [[][][][][][][][]].
Qed.

Lemma scan_frac_spec s frac rest :
  scan_frac s = Some (frac, rest) →
  String.length rest ≤ String.length s ∧ string_forall is_digit frac = true.
Proof.
  unfold scan_frac. destruct s as [|c s]; [by intros [= <- <-]|].
  destruct (decide (c = "."%char)) as [->|Hc].
  - destruct (take_digits s) as [[|d ds] r] eqn:Ht; [done|]. intros [= <- <-].
    destruct (take_digits_spec _ _ _ Ht) as [-> Hd]. split; [|done].
    change (String.length r ≤ S (String.length (String d ds +:+ r))). rewrite string_length_app. lia.
  - intros Hs. assert (Some ("", String c s) = Some (frac, rest)) as [= <- <-]; [|done].
    by destruct c as [[][][][][][][][]].
Qed.

Lemma scan_exp_length s e rest : scan_exp s = Some (e, rest) → String.length rest ≤ String.length s.
Proof.
  unfold scan_exp. destruct s as [|c s]; [by intros [= <- <-]|]. case_decide; [|by intros [= <- <-]].
  destruct (match s with String "-" s1 => (true, s1) | String "+" s1 => (false, s1) | _ => (false, s) end)
    as [neg s1] eqn:Hs1.
  assert (String.length s1 ≤ String.length s) as Hle.
  { destruct s as [|c' s']; [by injection Hs1 as <- <-|].
    destruct c' as [[][][][][][][][]]; injection Hs1 as <- <-; simpl; lia. }
  destruct (take_digits s1) as [[|d ds] r] eqn:Ht; [done|]. intros [= <- <-].
  destruct (take_digits_spec _ _ _ Ht) as [-> _]. rewrite string_length_app in Hle. simpl in *. lia.
Qed.

Lemma scan_number_spec s l rest :
  scan_number s = Some (l, rest) →
  String.length rest < String.length s ∧ string_forall is_digit (n_int l +:+ n_frac l) = true.
Proof.
  unfold scan_number.
  destruct (match s with String "-" s' => (true, s') | _ => (false, s) end) as [neg s0] eqn:Hs0.
  assert (String.length s0 ≤ String.length s) as Hle.
  { destruct s as [|c s']; [by injection Hs0 as <- <-|].
    destruct c as [[][][][][][][][]]; injection Hs0 as <- <-; simpl; lia. }
  destruct (scan_int s0) as [[int s1]|] eqn:Hi; [|done]. apply scan_int_spec in Hi as [Hl1 Hd1].
  destruct (scan_frac s1) as [[frac s2]|] eqn:Hf; [|done]. apply scan_frac_spec in Hf as [Hl2 Hd2].
  destruct (scan_exp s2) as [[e r]|] eqn:He; [|done]. apply scan_exp_length in He as Hl3.
  intros [= <- <-]. split; [lia|]. cbn [n_int n_frac]. by rewrite string_forall_app, Hd1.
Qed.

Lemma read_scalar_spec s t rest :
  read_scalar s = Some (t, rest) → String.length rest < String.length s ∧ ∀ d, sound d t.
Proof.
  unfold read_scalar. destruct s as [|c s]; [done|].
  assert (∀ pre v, pre ≠ "" → (λ r, (v, r)) <$> CutPrefix (String c s) pre = Some (t, rest) →
            v = t ∧ String.length rest < String.length (String c s)) as Hcut.
  { intros pre v Hpre (r & Heq%CutPrefix_Some & [= <- <-])%fmap_Some. split; [done|]. rewrite Heq, string_length_app.
    destruct pre; [done|simpl; lia]. }
  repeat case_decide.
  - destruct (scan_string s) as [[raw r]|] eqn:Hs; [|done]. intros [= <- <-].
    apply scan_string_length in Hs. split; [simpl; lia|]. constructor. apply unquote_utf8.
  - intros [<- ?]%Hcut; [|done]. split; [done|constructor].
  - intros [<- ?]%Hcut; [|done]. split; [done|constructor].
  - intros [<- ?]%Hcut; [|done]. split; [done|constructor].
  - destruct (scan_number (String c s)) as [[l r]|] eqn:Hs; [|done]. intros [= <- <-].
    apply scan_number_spec in Hs as [? ?]. split; [done|]. by constructor.
Qed.

(** The three readers, by induction on the fuel. *)
Definition value_reads (fuel : nat) : Prop := ∀ d s t rest,
  read_value fuel d s = Some (t, rest) → String.length rest < String.length s ∧ sound d t.

Definition members_reads (fuel : nat) : Prop := ∀ d s ms rest,
  read_members fuel d s = Some (ms, rest) →
  String.length rest < String.length s ∧ Forall (λ kv, utf8 kv.1 ∧ sound d kv.2) ms.

Definition elements_reads (fuel : nat) : Prop := ∀ d s ts rest,
  read_elements fuel d s = Some (ts, rest) → String.length rest < String.length s ∧ Forall (sound d) ts.

Lemma head_shorter s c x : skip_ws s = String c x → String.length x < String.length s.
Proof. intros Hs. pose proof (skip_ws_length s) as Hl. rewrite Hs in Hl. simpl in Hl. lia. Qed.

Lemma skip_char_shorter c s x : skip_char c s = Some x → String.length x < String.length s.
Proof.
  unfold skip_char. destruct (skip_ws s) as [|c' r] eqn:Hs; [done|]. case_decide; [|done].
  intros [= <-]. by eapply head_shorter.
Qed.

Lemma value_reads_step fuel : members_reads fuel → elements_reads fuel → value_reads (S fuel).
Proof.
  intros IHm IHe d s t rest. cbn [read_value]. destruct (skip_ws s) as [|c s'] eqn:Hs; [done|].
  apply head_shorter in Hs as Hlen. case_decide; [|case_decide].
  - destruct (N.ltb_spec d maxNestingDepth) as [Hd|]; [|done].
    destruct (skip_char "}" s') as [r|] eqn:Hr.
    + intros [= <- <-]. apply skip_char_shorter in Hr. split; [lia|]. by constructor.
    + destruct (read_members fuel (d + 1) s') as [[ms r]|] eqn:Hm; [|done]. intros [= <- <-].
      apply IHm in Hm as [? ?]. split; [lia|]. by constructor.
  - destruct (N.ltb_spec d maxNestingDepth) as [Hd|]; [|done].
    destruct (skip_char "]" s') as [r|] eqn:Hr.
    + intros [= <- <-]. apply skip_char_shorter in Hr. split; [lia|]. by constructor.
    + destruct (read_elements fuel (d + 1) s') as [[ms r]|] eqn:Hm; [|done]. intros [= <- <-].
      apply IHe in Hm as [? ?]. split; [lia|]. by constructor.
  - intros [? ?]%read_scalar_spec. split; [simpl in *; lia|done].
Qed.

Lemma members_reads_step fuel : value_reads fuel → members_reads fuel → members_reads (S fuel).
Proof.
  intros IHv IHm d s ms rest. cbn [read_members].
  destruct (skip_char quote s) as [s1|] eqn:H1; [|done]. apply skip_char_shorter in H1.
  destruct (scan_string s1) as [[raw s2]|] eqn:H2; [|done]. apply scan_string_length in H2.
  destruct (skip_char ":" s2) as [s3|] eqn:H3; [|done]. apply skip_char_shorter in H3.
  destruct (read_value fuel d s3) as [[v s4]|] eqn:H4; [|done]. apply IHv in H4 as [H4 Hv].
  assert (utf8 (unquoted raw)) as Hk by apply unquote_utf8.
  destruct (skip_char "," s4) as [s5|] eqn:H5.
  - apply skip_char_shorter in H5. destruct (read_members fuel d s5) as [[ms' r]|] eqn:H6; [|done].
    intros [= <- <-]. apply IHm in H6 as [H6 Hms]. split; [lia|by constructor].
  - destruct (skip_char "}" s4) as [r|] eqn:H6; [|done]. apply skip_char_shorter in H6.
    intros [= <- <-]. split; [lia|by repeat constructor].
Qed.

Lemma elements_reads_step fuel : value_reads fuel → elements_reads fuel → elements_reads (S fuel).
Proof.
  intros IHv IHe d s ts rest. cbn [read_elements].
  destruct (read_value fuel d s) as [[v s1]|] eqn:H1; [|done]. apply IHv in H1 as [H1 Hv].
  destruct (skip_char "," s1) as [s2|] eqn:H2.
  - apply skip_char_shorter in H2. destruct (read_elements fuel d s2) as [[vs r]|] eqn:H3; [|done].
    intros [= <- <-]. apply IHe in H3 as [H3 Hvs]. split; [lia|by constructor].
  - destruct (skip_char "]" s1) as [r|] eqn:H3; [|done]. apply skip_char_shorter in H3.
    intros [= <- <-]. split; [lia|by repeat constructor].
Qed.

Lemma readers_sound fuel : value_reads fuel ∧ members_reads fuel ∧ elements_reads fuel.
Proof.
  induction fuel as [|fuel (IHv & IHm & IHe)]; [split_and!; by intros ????|].
  split_and!; auto using value_reads_step, members_reads_step, elements_reads_step.
Qed.

(** ** Decoded values *)

Definition good (d : N) (v : json) : Prop := wf v ∧ (d + height v ≤ maxNestingDepth)%N.

Definition good_members (d : N) (ms : list (string * json)) : Prop :=
  StronglySorted key_lt ms ∧ Forall (λ kv, utf8 kv.1 ∧ good d kv.2) ms.

Lemma good_array d l : (d < maxNestingDepth)%N → Forall (good (d + 1)) l → good d (JArray l).
Proof.
  intros Hd Hl. split.
  - constructor. eapply Forall_impl; [exact Hl|by intros ? []].
  - cbn [height]. assert (foldr (λ v n, N.max (height v) n) 0 l ≤ maxNestingDepth - (d + 1))%N; [|lia].
    induction Hl as [|v l [_ Hv] _ IH]; simpl; lia.
Qed.

Lemma good_object d ms : (d < maxNestingDepth)%N → good_members (d + 1) ms → good d (JObject ms).
Proof.
  intros Hd [Hs Hms]. split.
  - constructor; [done|]. eapply Forall_impl; [exact Hms|by intros ? (? & ? & _)].
  - cbn [height]. assert (foldr (λ kv n, N.max (height kv.2) n) 0 ms ≤ maxNestingDepth - (d + 1))%N; [|lia].
    clear Hs. induction Hms as [|kv ms (_ & _ & Hv) _ IH]; simpl; lia.
Qed.

Lemma good_set d k v ms : utf8 k → good d v → good_members d ms → good_members d (obj_set k v ms).
Proof.
  intros Hk Hv [Hs Hms]. split; [by apply obj_set_sorted|]. rewrite Forall_forall in *.
  intros kv [->|Hkv]%obj_set_elem; [done|by apply Hms].
Qed.

Lemma decode_good t : ∀ d v, (d ≤ maxNestingDepth)%N → sound d t → decode t = Some v → good d v.
Proof.
  revert t. apply (jtext_nested_ind (λ t, ∀ d v, (d ≤ maxNestingDepth)%N → sound d t → decode t = Some v → good d v)).
  - intros d v Hd _ [= <-]. split; [constructor|simpl; lia].
  - intros b d v Hd _ [= <-]. split; [constructor|simpl; lia].
  - intros l d v Hd Hs. cbn [decode]. destruct (ParseFloat l) as [f|] eqn:Hf; [|done]. intros [= <-].
    inversion Hs; subst. split; [|simpl; lia]. constructor. by eapply ParseFloat_finite.
  - intros s d v Hd Hs [= <-]. inversion Hs; subst. split; [by constructor|simpl; lia].
  - intros l IH d v Hd Hs. rewrite decode_TArray. inversion Hs as [| | | |? ? Hlt Hl|]; subst.
    intros (vs & Hvs & ->)%fmap_Some. apply good_array; [done|]. clear Hs. revert vs Hvs.
    induction Hl as [|t l Ht Hl IHl]; cbn [decode_list]; [by intros vs [= <-]|].
    apply Forall_cons in IH as [IHt IH]. intros vs.
    destruct (decode t) as [v|] eqn:Hdt; [|done]. destruct (decode_list l) as [vs'|]; [|done]. intros [= <-].
    constructor; [apply IHt; [lia|done|done]|by apply IHl].
  - intros ms IH d v Hd Hs. rewrite decode_TObject. inversion Hs as [| | | | |? ? Hlt Hl]; subst.
    intros (vs & Hvs & ->)%fmap_Some. apply good_object; [done|]. clear Hs.
    assert (good_members (d + 1) []) as Hacc by (by split; constructor).
    revert vs Hvs Hacc. generalize (@nil (string * json)).
    induction Hl as [|[k t] ms [Hk Ht] Hl IHl]; intros acc vs; cbn [decode_members]; [by intros [= <-]|].
    apply Forall_cons in IH as [IHt IH]. destruct (decode t) as [v|] eqn:Hdt; [|done]. intros Hvs Hacc.
    eapply IHl; [done|exact Hvs|]. apply good_set; [done| |done]. apply IHt; [lia|done|done].
Qed.

Lemma Unmarshal_good s v : Unmarshal s = Ok v → good 0 v.
Proof.
  unfold Unmarshal, parse. destruct (read_value _ _ s) as [[t rest]|] eqn:Hr; [|done]. case_decide; [|done].
  destruct (decode t) as [v'|] eqn:Hd; [|done]. intros [= ->].
  destruct (readers_sound (2 * String.length s + 1)) as (Hv & _ & _). apply Hv in Hr as [_ Hs].
  eapply decode_good; [|exact Hs|exact Hd]. done.
Qed.

(** ** Members of an object *)

(** Setting a key keeps the other members. *)
Lemma obj_set_lookup {A} k (v : A) m k' v' : k' ≠ k → (k', v') ∈ obj_set k v m ↔ (k', v') ∈ m ∧ k' ≠ k.
Proof.
  intros Hk. induction m as [|[k0 v0] m IH]; cbn [obj_set].
  - rewrite list_elem_of_singleton. split; [naive_solver|]. by intros [?%not_elem_of_nil _].
  - destruct (String.compare k k0) eqn:Hc.
    + apply String.compare_eq_iff in Hc as <-. rewrite !elem_of_cons. naive_solver.
    + rewrite !elem_of_cons. naive_solver.
    + rewrite !elem_of_cons, IH. naive_solver.
Qed.

Lemma obj_set_has {A} k (v : A) m : (k, v) ∈ obj_set k v m.
Proof.
  induction m as [|[k0 v0] m IH]; cbn [obj_set]; [left|]. destruct (String.compare k k0); [left|left|right; done].
Qed.

Lemma string_compare_refl s : String.compare s s = Eq.
Proof. pose proof (String.compare_antisym s s) as H. by destruct (String.compare s s). Qed.

Lemma sorted_unique ms k v v' : StronglySorted key_lt ms → (k, v) ∈ ms → (k, v') ∈ ms → v = v'.
Proof.
  intros Hs. induction Hs as [|[k0 v0] ms Hs IH Hall]; [by intros ?%not_elem_of_nil|].
  rewrite Forall_forall in Hall. unfold key_lt in Hall. rewrite !elem_of_cons.
  intros [[= -> ->]|Hv] [[= <- ]|Hv']; try done; [| |by apply IH].
  - specialize (Hall _ Hv'). cbn [fst] in Hall. by rewrite string_compare_refl in Hall.
  - specialize (Hall _ Hv). cbn [fst] in Hall. by rewrite string_compare_refl in Hall.
Qed.

Lemma good_JObject_members d ms : good d (JObject ms) → good_members (d + 1) ms.
Proof.
  intros [Hw Hh]. inversion Hw as [| | | | |? Hs Hms]; subst. cbn [height] in Hh. split; [done|].
  rewrite Forall_forall in *. intros kv Hkv. destruct (Hms kv Hkv) as [Hk Hv]. split; [exact Hk|]. split; [exact Hv|].
  by eapply height_member.
Qed.
