(* ===== verification/HttpJson.v ===== *)
(** * The JSON bodies of the REST API

    How [encoding/json] fills the request structs of [pkg/types] from a body
    ([json.NewDecoder(http.MaxBytesReader(w, r.Body, 1<<20)).Decode(&req)]),
    the payload of a list cursor, and the text of the response structs. *)

From S2P Require Import Prelude GoLib Types Float64 Json.

(** ** Decoding into a struct *)

(** [foldName], on what can fold to an ASCII name: lower-case letters, the
    Kelvin sign (U+212A) and the long s (U+017F). *)
Definition upper_ascii (c : ascii) : ascii :=
  if between 97 122 c then ascii_of_N (N_of_ascii c - 32) else c.

Fixpoint foldName (s : string) : string :=
  match s with
  | EmptyString => ""
  | String c s1 =>
      match s1 with
      | String c1 s2 =>
          if (N_of_ascii c =? 197)%N && (N_of_ascii c1 =? 191)%N then String "S" (foldName s2)
          else match s2 with
          | String c2 s3 =>
              if (N_of_ascii c =? 226)%N && (N_of_ascii c1 =? 132)%N && (N_of_ascii c2 =? 170)%N
              then String "K" (foldName s3)
              else String (upper_ascii c) (foldName s1)
          | EmptyString => String (upper_ascii c) (foldName s1)
          end
      | EmptyString => String (upper_ascii c) ""
      end
  end.

(** A field: its name and what its value does to the struct; [None] is a type
    error. *)
Definition field (A : Type) : Type := string * (jtext → A → option A).

(** The field of a key: the exact name first, then one that differs in case
    only. *)
Definition find_field {A} (fields : list (field A)) (key : string) : option (jtext → A → option A) :=
  match List.find (λ f, bool_decide (f.1 = key)) fields with
  | Some f => Some f.2
  | None => snd <$> List.find (λ f, bool_decide (foldName f.1 = foldName key)) fields
  end.

(** The members in their order: an unknown key is skipped, a repeated one is
    decoded again. *)
Fixpoint decode_fields {A} (fields : list (field A)) (ms : list (string * jtext)) (acc : A) : option A :=
  match ms with
  | [] => Some acc
  | (k, t) :: ms' =>
      match find_field fields k with
      | None => decode_fields fields ms' acc
      | Some set =>
          match set t acc with
          | Some acc' => decode_fields fields ms' acc'
          | None => None
          end
      end
  end.

Definition decode_struct {A} (fields : list (field A)) (zero : A) (t : jtext) : option A :=
  match t with
  | TNull => Some zero
  | TObject ms => decode_fields fields ms zero
  | _ => None
  end.

(** A string field; [null] leaves it alone. *)
Definition string_field {A} (set : string → A → A) (t : jtext) (a : A) : option A :=
  match t with
  | TNull => Some a
  | TString s => Some (set s a)
  | _ => None
  end.

(** [strconv.ParseInt(lit, 10, 64)]: no fraction, no exponent, in range. *)
Definition ParseInt64 (l : numlit) : option Z :=
  if decide (n_frac l = "" ∧ n_exp l = None) then
    let v := (if n_neg l then - digits_value (n_int l) 0 else digits_value (n_int l) 0)%Z in
    if (minInt64 <=? v)%Z && (v <=? maxInt64)%Z then Some v else None
  else None.

Definition int64_field {A} (set : Z → A → A) (t : jtext) (a : A) : option A :=
  match t with
  | TNull => Some a
  | TNumber l => (λ v, set v a) <$> ParseInt64 l
  | _ => None
  end.

(** A slice of strings: the elements of its array and its length.  Decoding
    an array writes into the elements that are there, so that a [null] element
    keeps what an earlier array left at its index. *)
Record gslice := mkGslice { sl_array : list string; sl_len : nat }.

Definition nil_slice : gslice := mkGslice [] 0.

Fixpoint store_items (items : list jtext) (old : list string) : option (list string) :=
  match items with
  | [] => Some old
  | t :: items' =>
      match t with
      | TString s => cons s <$> store_items items' (tail old)
      | TNull => cons (default "" (head old)) <$> store_items items' (tail old)
      | _ => None
      end
  end.

Definition decode_slice (t : jtext) (sl : gslice) : option gslice :=
  match t with
  | TNull => Some nil_slice
  | TArray [] => Some nil_slice
  | TArray items => (λ a, mkGslice a (length items)) <$> store_items items (sl_array sl)
  | _ => None
  end.

Definition slice_elems (sl : gslice) : list string := take (sl_len sl) (sl_array sl).

(** ** Reading a body *)

Definition maxBody : N := 1048576.

(** The first [n] bytes. *)
Fixpoint str_takeN (n : N) (s : string) : string :=
  match s with
  | EmptyString => ""
  | String c s' => if (n =? 0)%N then "" else String c (str_takeN (n - 1) s')
  end.

(** The end of an array or an object is its last character; any other value
    ends only where the reader sees what follows. *)
Definition self_delimiting (t : jtext) : bool :=
  match t with TArray _ | TObject _ => true | _ => false end.

(** [Decode] of the first value: what follows it is not looked at, and bytes
    beyond the limit are an error when they are asked for. *)
Definition read_body (b : bytes) : option jtext :=
  let s := string_of_bytes b in
  let seen := str_takeN maxBody s in
  match read_value (2 * String.length seen + 1) 0 seen with
  | Some (t, rest) =>
      if (maxBody <? N.of_nat (String.length s))%N && bool_decide (rest = "") && negb (self_delimiting t)
      then None else Some t
  | None => None
  end.

(** ** The request structs *)

Definition EVMSignRequest_fields : list (field EVMSignRequest) :=
  [("type", string_field (λ v r, mkEVMSignRequest v (evm_KeyPath r) (evm_ChainID r) (evm_RawTx r)
                                   (evm_PersonalMessage r) (evm_EIP712Digest r)));
   ("key_path", string_field (λ v r, mkEVMSignRequest (evm_Type r) v (evm_ChainID r) (evm_RawTx r)
                                       (evm_PersonalMessage r) (evm_EIP712Digest r)));
   ("chain_id", int64_field (λ v r, mkEVMSignRequest (evm_Type r) (evm_KeyPath r) v (evm_RawTx r)
                                      (evm_PersonalMessage r) (evm_EIP712Digest r)));
   ("raw_tx", string_field (λ v r, mkEVMSignRequest (evm_Type r) (evm_KeyPath r) (evm_ChainID r) v
                                     (evm_PersonalMessage r) (evm_EIP712Digest r)));
   ("personal_message", string_field (λ v r, mkEVMSignRequest (evm_Type r) (evm_KeyPath r) (evm_ChainID r)
                                               (evm_RawTx r) v (evm_EIP712Digest r)));
   ("eip712_digest", string_field (λ v r, mkEVMSignRequest (evm_Type r) (evm_KeyPath r) (evm_ChainID r)
                                            (evm_RawTx r) (evm_PersonalMessage r) v))].

Definition decode_EVM (b : bytes) : option EVMSignRequest :=
  t ← read_body b; decode_struct EVMSignRequest_fields (mkEVMSignRequest "" "" 0 "" "" "") t.

Definition CosmosSignRequest_fields : list (field CosmosSignRequest) :=
  [("key_path", string_field (λ v r, mkCosmosSignRequest v (cos_HRP r) (cos_SignMode r) (cos_SignDoc r)));
   ("hrp", string_field (λ v r, mkCosmosSignRequest (cos_KeyPath r) v (cos_SignMode r) (cos_SignDoc r)));
   ("sign_mode", string_field (λ v r, mkCosmosSignRequest (cos_KeyPath r) (cos_HRP r) v (cos_SignDoc r)));
   ("sign_doc", string_field (λ v r, mkCosmosSignRequest (cos_KeyPath r) (cos_HRP r) (cos_SignMode r) v))].

Definition decode_Cosmos (b : bytes) : option CosmosSignRequest :=
  t ← read_body b; decode_struct CosmosSignRequest_fields (mkCosmosSignRequest "" "" "" "") t.

(** [KeyCreateRequest] with the slice as the decoder sees it. *)
Definition KeyCreateRequest_fields : list (field (string * gslice)) :=
  [("path", string_field (λ v r, (v, r.2)));
   ("chains", λ t r, (λ sl, (r.1, sl)) <$> decode_slice t r.2)].

Definition decode_KeyCreate (b : bytes) : option KeyCreateRequest :=
  t ← read_body b;
  r ← decode_struct KeyCreateRequest_fields ("", nil_slice) t;
  Some (mkKeyCreateRequest r.1 (slice_elems r.2)).

(** A [json.RawMessage], by the value it holds. *)
Fixpoint any_of_text (t : jtext) : any :=
  match t with
  | TNull => ANil
  | TBool b => ABool b
  | TNumber l => ANumber (lit_text l)
  | TString s => AString s
  | TArray l => AList (map any_of_text l)
  | TObject ms => AMap (map (λ kv, (kv.1, any_of_text kv.2)) ms)
  end.

(** [map[string]json.RawMessage]: a repeated key keeps its last value. *)
Definition decode_Raw (b : bytes) : option (gmap string any) :=
  t ← read_body b;
  match t with
  | TNull => Some ∅
  | TObject ms => Some (fold_left (λ m kv, <[kv.1 := any_of_text kv.2]> m) ms ∅)
  | _ => None
  end.

(** ** The requests as a client encodes them *)

(** A member that [omitempty] drops. *)
Definition omitempty (k v : string) : list (string * jtext) :=
  if decide (v = "") then [] else [(k, TString v)].

Definition int_lit (z : Z) : numlit := mkNumlit (z <? 0)%Z (digits (Z.abs z)) "" None.

Definition strings_text (l : list string) : jtext := TArray (map TString l).

Definition EVMSignRequest_text (r : EVMSignRequest) : jtext :=
  TObject ([("type", TString (evm_Type r)); ("key_path", TString (evm_KeyPath r))] ++
           (if decide (evm_ChainID r = 0%Z) then [] else [("chain_id", TNumber (int_lit (evm_ChainID r)))]) ++
           omitempty "raw_tx" (evm_RawTx r) ++ omitempty "personal_message" (evm_PersonalMessage r) ++
           omitempty "eip712_digest" (evm_EIP712Digest r)).

Definition CosmosSignRequest_text (r : CosmosSignRequest) : jtext :=
  TObject ([("key_path", TString (cos_KeyPath r))] ++ omitempty "hrp" (cos_HRP r) ++
           [("sign_mode", TString (cos_SignMode r)); ("sign_doc", TString (cos_SignDoc r))]).

Definition KeyCreateRequest_text (r : KeyCreateRequest) : jtext :=
  TObject [("path", TString (kc_Path r)); ("chains", strings_text (kc_Chains r))].

(** [KeyUpdateChainsRequest] *)
Definition KeyUpdateChainsRequest_text (addChains : list string) : jtext :=
  TObject [("add_chains", strings_text addChains)].

(** ** The cursor *)

(** [json.Marshal(listCursorPayload{Prefix: prefix, Offset: offset})] *)
Definition cursor_text (prefix : string) (offset : Z) : jtext :=
  TObject [("p", TString prefix); ("o", TNumber (int_lit offset))].

Definition marshalCursor (prefix : string) (offset : Z) : bytes :=
  bytes_of_string (print_text (cursor_text prefix offset)).

Definition listCursorPayload_fields : list (field (string * Z)) :=
  [("p", string_field (λ v r, (v, r.2))); ("o", int64_field (λ v r, (r.1, v)))].

(** [json.Unmarshal(decoded, &p)] *)
Definition unmarshalCursor (b : bytes) : option (string * Z) :=
  t ← parse (string_of_bytes b); decode_struct listCursorPayload_fields ("", 0%Z) t.

(** ** The response structs *)

Definition SignatureParts_text (p : SignatureParts) : jtext :=
  TObject [("r", TString (sp_R p)); ("s", TString (sp_S p)); ("v", TNumber (int_lit (sp_V p)))].

Definition SignResponse_text (r : SignResponse) : jtext :=
  TObject (omitempty "signed_tx" (sr_SignedTx r) ++ omitempty "signature" (sr_Signature r) ++
           omitempty "pub_key" (sr_PubKey r) ++
           match sr_Parts r with Some p => [("signature_parts", SignatureParts_text p)] | None => [] end ++
           omitempty "cosmos_address" (sr_CosmosAddress r)).

Definition KeyInfo_members (i : KeyInfo) : list (string * jtext) :=
  [("path", TString (ki_Path i)); ("public_key_hex", TString (ki_PublicKeyHex i))] ++
  omitempty "evm_address" (ki_EVMAddress i) ++ omitempty "cosmos_address" (ki_CosmosAddress i) ++
  [("chains", strings_text (ki_Chains i))].

Definition KeyInfo_text (i : KeyInfo) : jtext := TObject (KeyInfo_members i).

(** The embedded struct's members come first. *)
Definition KeyCreateResponse_text (r : KeyCreateResponse) : jtext :=
  TObject (KeyInfo_members (kcr_KeyInfo r) ++ [("already_existed", TBool (kcr_AlreadyExisted r))]).

Definition KeyListEntry_text (e : KeyListEntry) : jtext :=
  TObject [("path", TString (kle_Path e)); ("chains", strings_text (kle_Chains e));
           ("chains_available", TBool (kle_ChainsAvailable e))].

Definition KeyListResponse_text (r : KeyListResponse) : jtext :=
  TObject [("keys", TArray (map KeyListEntry_text (klr_Keys r)));
           ("count", TNumber (int_lit (klr_Count r)));
           ("next_cursor", TString (klr_NextCursor r))].

Definition KeyUpdateChainsResponse_text (r : KeyUpdateChainsResponse) : jtext :=
  TObject [("path", TString (kur_Path r)); ("chains", strings_text (kur_Chains r))].

(** [ErrorResponse] *)
Definition ErrorResponse_text (msg : string) : jtext := TObject [("error", TString msg)].

(** [map[string]string], its keys sorted. *)
Definition string_map_text (m : gmap string string) : jtext :=
  TObject (map (λ k, (k, TString (default "" (m !! k)))) (sort_Strings (map_to_list m).*1)).

Definition newline : string := String (ascii_of_N 10) "".

(** [json.NewEncoder(w).Encode(v)] *)
Definition Encode (t : jtext) : string := print_text t +:+ newline.
