(* ===== verification/HttpJsonProps.v ===== *)
(** * The JSON bodies round trip

    Cursors and requests are read back as they were written, whatever follows
    them in the body, and every encoded response is a JSON text. *)

From S2P Require Import Prelude GoLib Types Float64 Json JsonProps JsonRoundtrip HttpJson.

(** ** Integers *)

Lemma lit_ok_int z : lit_ok (int_lit z).
Proof.
  destruct (digits_prints (Z.abs z) ltac:(lia)) as (_ & Hd & c & s & Heq & Hc).
  split_and!; [done|done| |done]. cbn [n_int int_lit]. rewrite Heq. destruct (Z.eq_dec z 0) as [->|Hz].
  - left. by rewrite <- Heq.
  - right. exists c, s. split; [done|]. apply Hc. lia.
Qed.

Lemma ParseInt64_int_lit z : (minInt64 ≤ z ≤ maxInt64)%Z → ParseInt64 (int_lit z) = Some z.
Proof.
  intros Hz. unfold ParseInt64. cbn [int_lit n_frac n_exp n_neg n_int]. rewrite decide_True by done.
  destruct (digits_prints (Z.abs z) ltac:(lia)) as (-> & _).
  assert ((if (z <? 0)%Z then (- Z.abs z)%Z else Z.abs z) = z) as -> by (destruct (Z.ltb_spec z 0); lia).
  destruct (Z.leb_spec minInt64 z); [|lia]. destruct (Z.leb_spec z maxInt64); [done|lia].
Qed.

(** ** Bodies *)

Lemma string_of_bytes_of s : string_of_bytes (bytes_of_string s) = s.
Proof. apply String.string_of_list_byte_of_string. Qed.

Lemma string_of_bytes_app a b : string_of_bytes (a ++ b) = string_of_bytes a +:+ string_of_bytes b.
Proof.
  induction a as [|x a IH]; [done|].
  change (String (ascii_of_byte x) (string_of_bytes (a ++ b)) = String (ascii_of_byte x) (string_of_bytes a +:+ string_of_bytes b)).
  by rewrite IH.
Qed.

Lemma str_takeN_app n s t :
  (N.of_nat (String.length s) ≤ n)%N →
  str_takeN n (s +:+ t) = s +:+ str_takeN (n - N.of_nat (String.length s)) t.
Proof.
  revert n. induction s as [|c s IH]; intros n Hn.
  - change (str_takeN n t = str_takeN (n - 0) t). by rewrite N.sub_0_r.
  - change (String c s +:+ t) with (String c (s +:+ t)). cbn [str_takeN]. simpl String.length in *.
    destruct (N.eqb_spec n 0); [lia|]. rewrite IH by lia.
    change (String c s +:+ str_takeN (n - N.of_nat (S (String.length s))) t)
      with (String c (s +:+ str_takeN (n - N.of_nat (S (String.length s))) t)).
    do 3 f_equal. lia.
Qed.

(** An object that fits below the limit is read, whatever follows it. *)
Lemma read_body_object ms junk :
  printable 0 (TObject ms) → (N.of_nat (String.length (print_text (TObject ms))) ≤ maxBody)%N →
  read_body (bytes_of_string (print_text (TObject ms)) ++ junk) = Some (valid_text (TObject ms)).
Proof.
  intros Hp Hlen. unfold read_body.
  rewrite string_of_bytes_app, string_of_bytes_of, str_takeN_app by done.
  inversion Hp as [| | | | |? ? Hd Hms]; subst.
  rewrite object_reads_back; [|done| |lia].
  - by rewrite andb_false_r.
  - eapply Forall_impl; [exact Hms|]. intros kv. apply printable_reads_back.
Qed.

(** ** Texts without nesting are printable *)

(** Members that are scalars or arrays of strings. *)
Inductive flat : jtext → Prop :=
  | flat_bool b : flat (TBool b)
  | flat_string s : flat (TString s)
  | flat_int z : flat (TNumber (int_lit z))
  | flat_strings l : flat (strings_text l).

Lemma flat_printable d t : flat t → (d < maxNestingDepth)%N → printable d t.
Proof.
  destruct 1; intros Hd; constructor; auto using lit_ok_int.
  apply Forall_forall. intros t (s & -> & _)%list_elem_of_fmap. constructor.
Qed.

Lemma flat_object d ms :
  Forall (λ kv, flat kv.2) ms → (d + 1 < maxNestingDepth)%N → printable d (TObject ms).
Proof.
  intros Hms Hd. constructor; [lia|]. eapply Forall_impl; [exact Hms|]. intros kv Hkv. by apply flat_printable.
Qed.

Lemma flat_omitempty k v : Forall (λ kv, flat kv.2) (omitempty k v).
Proof. unfold omitempty. case_decide; repeat constructor. Qed.

Create HintDb json.
#[export] Hint Constructors flat : json.
#[export] Hint Resolve flat_omitempty flat_printable : json.

(** Struct members, one after the other. *)
Ltac flat_members :=
  repeat match goal with
  | |- Forall _ (_ ++ _) => apply Forall_app; split
  | |- Forall _ (omitempty _ _) => apply flat_omitempty
  | |- Forall _ (_ :: _) => apply Forall_cons; split; [cbn [snd]|]
  | |- Forall _ [] => apply Forall_nil; exact I
  end; eauto with json.

(** ** Cursors *)

Lemma cursor_roundtrip prefix o :
  utf8 prefix → (0 ≤ o ≤ maxInt64)%Z →
  marshalCursor prefix o ≠ [] ∧ unmarshalCursor (marshalCursor prefix o) = Some (prefix, o).
Proof.
  intros Hp Ho. split; [done|]. unfold unmarshalCursor, marshalCursor. rewrite string_of_bytes_of.
  pose proof (parse_print (cursor_text prefix o) "") as Hr. rewrite string_app_nil_r in Hr.
  rewrite Hr; [|by apply flat_object; [flat_members|]|done|done].
  unfold cursor_text. cbn [valid_text map fst snd option_bind mbind].
  rewrite (valid_utf8_id prefix) by done. cbn [decode_struct].
  change (valid_utf8 "p") with "p". change (valid_utf8 "o") with "o".
  unfold listCursorPayload_fields. cbn [decode_fields].
  change (find_field _ "p") with (Some (string_field (λ v (r : string * Z), (v, r.2)))).
  cbn [string_field]. change (find_field _ "o") with (Some (int64_field (λ v (r : string * Z), (r.1, v)))).
  cbn [int64_field]. rewrite ParseInt64_int_lit; [done|]. unfold minInt64. lia.
Qed.

(** ** Requests *)

(** The members of a printed struct, as the reader delivers them. *)
Abbreviation received := (map (λ kv, (valid_utf8 kv.1, valid_text kv.2))).

Lemma decode_known {A} (fields : list (field A)) k t ms acc set acc' :
  find_field fields k = Some set → set t acc = Some acc' →
  decode_fields fields ((k, t) :: ms) acc = decode_fields fields ms acc'.
Proof. intros Hf Hs. cbn [decode_fields]. by rewrite Hf, Hs. Qed.

Lemma decode_omitempty {A} (fields : list (field A)) k v ms acc set :
  valid_utf8 k = k → find_field fields k = Some (string_field set) → utf8 v →
  decode_fields fields (received (omitempty k v) ++ ms) acc
  = decode_fields fields ms (if decide (v = "") then acc else set v acc).
Proof.
  intros Hk Hf Hv. unfold omitempty. case_decide; [done|]. cbn [map fst snd valid_text app].
  rewrite Hk, valid_utf8_id by done. by eapply decode_known.
Qed.

Lemma decode_string {A} (fields : list (field A)) k v ms acc set :
  valid_utf8 k = k → find_field fields k = Some (string_field set) → utf8 v →
  decode_fields fields (received ((k, TString v) :: ms)) acc = decode_fields fields (received ms) (set v acc).
Proof. intros Hk Hf Hv. cbn [map fst snd valid_text]. rewrite Hk, valid_utf8_id by done. by eapply decode_known. Qed.

(** The next members of a struct that are strings. *)
Ltac decode_next :=
  first [ erewrite decode_string; [|reflexivity|reflexivity|assumption]
        | erewrite decode_omitempty; [|reflexivity|reflexivity|assumption] ].

(** The size of an encoded request. *)
Definition body_fits (t : jtext) : Prop := (N.of_nat (String.length (print_text t)) ≤ maxBody)%N.

Lemma decode_EVM_roundtrip r junk :
  utf8 (evm_Type r) → utf8 (evm_KeyPath r) → utf8 (evm_RawTx r) → utf8 (evm_PersonalMessage r) →
  utf8 (evm_EIP712Digest r) → (minInt64 ≤ evm_ChainID r ≤ maxInt64)%Z → body_fits (EVMSignRequest_text r) →
  decode_EVM (bytes_of_string (print_text (EVMSignRequest_text r)) ++ junk) = Some r.
Proof.
  intros Ht Hk Hr Hp He Hid Hfit. unfold decode_EVM, EVMSignRequest_text in *. rewrite read_body_object;
    [|apply flat_object; [flat_members; case_decide; flat_members|done]|done].
  cbn [mbind option_bind valid_text decode_struct]. cbn [app]. repeat decode_next. rewrite !List.map_app.
  assert (∀ ms acc, decode_fields EVMSignRequest_fields
    (received (if decide (evm_ChainID r = 0%Z) then [] else [("chain_id", TNumber (int_lit (evm_ChainID r)))]) ++ ms)
    acc = decode_fields EVMSignRequest_fields ms (if decide (evm_ChainID r = 0%Z) then acc else
      mkEVMSignRequest (evm_Type acc) (evm_KeyPath acc) (evm_ChainID r) (evm_RawTx acc)
        (evm_PersonalMessage acc) (evm_EIP712Digest acc))) as Hchain.
  { intros ms acc. case_decide; [done|]. cbn [map fst snd app valid_text]. eapply decode_known; [reflexivity|].
    cbn [snd int64_field]. by rewrite ParseInt64_int_lit. }
  rewrite Hchain, <- (app_nil_r (received (omitempty "eip712_digest" _))). repeat decode_next.
  cbn [decode_fields]. f_equal. destruct r as [ty kp id raw pm dg]. clear. simpl.
  repeat case_decide; by subst.
Qed.

Lemma decode_Cosmos_roundtrip r junk :
  utf8 (cos_KeyPath r) → utf8 (cos_HRP r) → utf8 (cos_SignMode r) → utf8 (cos_SignDoc r) →
  body_fits (CosmosSignRequest_text r) →
  decode_Cosmos (bytes_of_string (print_text (CosmosSignRequest_text r)) ++ junk) = Some r.
Proof.
  intros Hk Hh Hm Hd Hfit. unfold decode_Cosmos, CosmosSignRequest_text in *. rewrite read_body_object;
    [|apply flat_object; [flat_members|done]|done].
  cbn [mbind option_bind valid_text decode_struct]. cbn [app]. decode_next. rewrite List.map_app.
  repeat decode_next. cbn [map decode_fields]. f_equal. destruct r as [kp hrp mode doc]. clear. simpl.
  case_decide; by subst.
Qed.

Lemma store_items_strings l : ∀ old, ∃ rest, store_items (map TString l) old = Some (l ++ rest).
Proof.
  induction l as [|x l IH]; intros old; [by exists old|]. cbn [map store_items].
  destruct (IH (tail old)) as [rest ->]. by exists rest.
Qed.

Lemma valid_strings l : Forall utf8 l → valid_text (strings_text l) = strings_text l.
Proof.
  intros Hl. unfold strings_text. cbn [valid_text]. f_equal. induction Hl as [|x l Hx Hl IH]; [done|].
  cbn [map valid_text]. by rewrite valid_utf8_id, IH.
Qed.

Lemma decode_slice_strings l sl :
  ∃ sl', decode_slice (strings_text l) sl = Some sl' ∧ slice_elems sl' = l.
Proof.
  destruct l as [|x l]; [by exists nil_slice|].
  destruct (store_items_strings (x :: l) (sl_array sl)) as [rest Hs].
  exists (mkGslice ((x :: l) ++ rest) (length (x :: l))).
  change (decode_slice (strings_text (x :: l)) sl)
    with ((λ a, mkGslice a (length (map TString (x :: l)))) <$> store_items (map TString (x :: l)) (sl_array sl)).
  rewrite Hs. unfold slice_elems. cbn [fmap option_fmap option_map sl_len sl_array].
  rewrite length_map, take_app_length. done.
Qed.

Lemma decode_KeyCreate_roundtrip r junk :
  utf8 (kc_Path r) → Forall utf8 (kc_Chains r) → body_fits (KeyCreateRequest_text r) →
  decode_KeyCreate (bytes_of_string (print_text (KeyCreateRequest_text r)) ++ junk) = Some r.
Proof.
  intros Hp Hc Hfit. unfold decode_KeyCreate, KeyCreateRequest_text in *. rewrite read_body_object;
    [|apply flat_object; [flat_members|done]|done].
  cbn [mbind option_bind valid_text decode_struct]. decode_next. cbn [map fst snd]. rewrite valid_strings by done.
  destruct (decode_slice_strings (kc_Chains r) nil_slice) as (sl & Hsl & Hel).
  erewrite decode_known; [|reflexivity|cbn [snd]; by rewrite Hsl]. cbn [decode_fields mbind option_bind fst snd].
  rewrite Hel. by destruct r.
Qed.

Lemma decode_Raw_roundtrip l junk :
  Forall utf8 l → body_fits (KeyUpdateChainsRequest_text l) →
  decode_Raw (bytes_of_string (print_text (KeyUpdateChainsRequest_text l)) ++ junk)
  = Some {["add_chains" := AList (AString <$> l)]}.
Proof.
  intros Hl Hfit. unfold decode_Raw, KeyUpdateChainsRequest_text in *. rewrite read_body_object;
    [|apply flat_object; [flat_members|done]|done].
  cbn [mbind option_bind valid_text map fst snd fold_left]. rewrite valid_strings by done. cbn [any_of_text strings_text].
  rewrite List.map_map. done.
Qed.

(** Every string of the request is valid UTF-8, and its integer an int64. *)
Definition request_ok (r : EVMSignRequest) : Prop :=
  Forall utf8 [evm_Type r; evm_KeyPath r; evm_RawTx r; evm_PersonalMessage r; evm_EIP712Digest r] ∧
  (minInt64 ≤ evm_ChainID r ≤ maxInt64)%Z.

(** C29. A request body that encodes a request struct, with valid UTF-8 strings
    and in at most 1 MiB, is decoded to exactly that struct, whatever bytes
    follow it in the body and however much of them exceeds the limit; for the chain update the map
    of raw members has the one member [add_chains]. *)
Theorem requests_roundtrip (e : EVMSignRequest) (c : CosmosSignRequest) (k : KeyCreateRequest)
    (add : list string) (junk : bytes) :
  request_ok e → Forall utf8 [cos_KeyPath c; cos_HRP c; cos_SignMode c; cos_SignDoc c] →
  utf8 (kc_Path k) → Forall utf8 (kc_Chains k) → Forall utf8 add →
  body_fits (EVMSignRequest_text e) → body_fits (CosmosSignRequest_text c) →
  body_fits (KeyCreateRequest_text k) → body_fits (KeyUpdateChainsRequest_text add) →
  decode_EVM (bytes_of_string (print_text (EVMSignRequest_text e)) ++ junk) = Some e ∧
  decode_Cosmos (bytes_of_string (print_text (CosmosSignRequest_text c)) ++ junk) = Some c ∧
  decode_KeyCreate (bytes_of_string (print_text (KeyCreateRequest_text k)) ++ junk) = Some k ∧
  decode_Raw (bytes_of_string (print_text (KeyUpdateChainsRequest_text add)) ++ junk)
    = Some {["add_chains" := AList (AString <$> add)]}.
Proof.
  intros [He Hid] Hc Hk Hch Hadd. intros.
  repeat match goal with Hf : Forall utf8 (_ :: _) |- _ => apply Forall_cons in Hf as [? Hf] end.
  split_and!; [apply decode_EVM_roundtrip|apply decode_Cosmos_roundtrip
              |apply decode_KeyCreate_roundtrip|apply decode_Raw_roundtrip]; done.
Qed.

Module HttpChecks.
(** What the decoder does beyond the round trip: keys match in any case (also
    with the long s for an s), the last of repeated keys wins, [null] keeps a
    string, a [null] element keeps what an earlier array left there. *)
Definition text (ms : list (string * jtext)) : bytes := bytes_of_string (print_text (TObject ms)).

Example folded_keys :
  decode_Cosmos (text [("KEY_PATH", TString "a"); (encode_rune 383 +:+ "ign_mode", TString "DIRECT");
                       ("sign_doc", TString "x"); ("sign_doc", TString "y"); ("hrp", TNull)])
  = Some (mkCosmosSignRequest "a" "" "DIRECT" "y").
Proof. vm_compute. reflexivity. Qed.

Example stale_elements :
  decode_KeyCreate (text [("path", TString "p"); ("chains", strings_text ["evm"; "cosmos"]);
                          ("chains", TArray [TString "evm"]); ("chains", TArray [TNull; TNull])])
  = Some (mkKeyCreateRequest "p" ["evm"; "cosmos"]).
Proof. vm_compute. reflexivity. Qed.

Example refused :
  (decode_EVM (text [("chain_id", TString "1")]), decode_EVM (bytes_of_string "[]"),
   decode_EVM (bytes_of_string "{"), decode_EVM [],
   decode_EVM (text [("chain_id", TNumber (int_lit (maxInt64 + 1)))]))
  = (None, None, None, None, None).
Proof. vm_compute. reflexivity. Qed.

Ltac ascii_utf8 := repeat (apply utf8_cons; [reflexivity|]); apply utf8_nil.

Lemma requests_roundtrip_witness :
  decode_EVM (bytes_of_string (print_text (EVMSignRequest_text
    (mkEVMSignRequest "raw_tx" "a/b/c" 5 "0x00" "" ""))) ++ [Byte.x00])
  = Some (mkEVMSignRequest "raw_tx" "a/b/c" 5 "0x00" "" "").
Proof.
  eapply (requests_roundtrip _ (mkCosmosSignRequest "a/b/c" "osmo" "DIRECT" "AA==")
            (mkKeyCreateRequest "a/b/c" ["evm"]) ["cosmos"] [Byte.x00]).
  - split; [forall_list; ascii_utf8|vm_compute; split; discriminate].
  - forall_list; ascii_utf8.
  - ascii_utf8.
  - forall_list; ascii_utf8.
  - forall_list; ascii_utf8.
  - vm_compute. discriminate.
  - vm_compute. discriminate.
  - vm_compute. discriminate.
  - vm_compute. discriminate.
Defined.
End HttpChecks.
