(* ===== verification/AminoScan.v ===== *)
(** * The duplicate-key scan

    On a valid JSON text the token-stream scan of [cosmos.go] finds a repeated
    key exactly when some object of the text has one; on every text it
    terminates. *)

From S2P Require Import Prelude GoLib Types Crypto Interfaces EvmSigner CosmosSigner Float64 Json Amino.
From S2P Require Import JsonProps JsonRoundtrip JsonSound.

(** No object of the text has a repeated key. *)
Fixpoint unique_keys (t : jtext) : bool :=
  match t with
  | TArray l => forallb unique_keys l
  | TObject ms => bool_decide (NoDup (map fst ms)) && forallb (λ kv, unique_keys kv.2) ms
  | _ => true
  end.

(** The same for the members that remain, given the keys seen. *)
Fixpoint fresh_members (seen : gset string) (ms : list (string * jtext)) : bool :=
  match ms with
  | [] => true
  | (k, t) :: ms' => negb (bool_decide (k ∈ seen)) && unique_keys t && fresh_members ({[k]} ∪ seen) ms'
  end.

Lemma fresh_members_spec seen ms :
  fresh_members seen ms = true ↔
  NoDup (map fst ms) ∧ (∀ k, k ∈ map fst ms → k ∉ seen) ∧ forallb (λ kv, unique_keys kv.2) ms = true.
Proof.
  revert seen. induction ms as [|[k t] ms IH]; intros seen; cbn [fresh_members map fst forallb snd].
  - split; [|done]. intros _. split_and!; [constructor|by intros k ?%not_elem_of_nil|done].
  - rewrite !andb_true_iff, negb_true_iff, bool_decide_eq_false, IH, NoDup_cons. setoid_rewrite elem_of_cons.
    split; [|set_solver]. intros ((Hk & Ht) & Hnd & Hfr & Hall). split_and!; try done; set_solver.
Qed.

Lemma unique_keys_TObject ms : unique_keys (TObject ms) = fresh_members ∅ ms.
Proof.
  apply eq_true_iff_eq. rewrite fresh_members_spec. cbn [unique_keys].
  rewrite andb_true_iff, bool_decide_eq_true. set_solver.
Qed.

(** ** Tokens *)

(** The branch of a chain of character tests. *)
Ltac decides := repeat (rewrite decide_False by done); rewrite decide_True by done.

Lemma Token_loop_fuel d :
  d_state d ≠ tokenArrayComma → d_state d ≠ tokenObjectComma → d_state d ≠ tokenObjectColon →
  Token_loop 0 d = Token d.
Proof.
  intros H1 H2 H3. unfold Token. cbn [Token_loop]. destruct (skip_ws (d_rest d)) as [|c s]; [done|].
  repeat (case_decide; try done). by destruct (d_state d).
Qed.

Lemma skip_char_Some c s x : skip_char c s = Some x → skip_ws s = String c x.
Proof.
  unfold skip_char. destruct (skip_ws s) as [|c' s'] eqn:Hs; [done|]. case_decide; [|done].
  intros [= <-]. by subst.
Qed.

Lemma Token_array_comma s x stack :
  skip_char "," s = Some x →
  Token (mkDecoder s tokenArrayComma stack) = Token (mkDecoder x tokenArrayValue stack).
Proof.
  intros Hs%skip_char_Some. rewrite <- (Token_loop_fuel (mkDecoder x _ _)) by done.
  unfold Token at 1. cbn [Token_loop d_rest]. rewrite Hs.
  by decides.
Qed.

Lemma Token_object_comma s x stack :
  skip_char "," s = Some x →
  Token (mkDecoder s tokenObjectComma stack) = Token (mkDecoder x tokenObjectKey stack).
Proof.
  intros Hs%skip_char_Some. rewrite <- (Token_loop_fuel (mkDecoder x _ _)) by done.
  unfold Token at 1. cbn [Token_loop d_rest]. rewrite Hs.
  by decides.
Qed.

Lemma Token_colon s x stack :
  skip_char ":" s = Some x →
  Token (mkDecoder s tokenObjectColon stack) = Token (mkDecoder x tokenObjectValue stack).
Proof.
  intros Hs%skip_char_Some. rewrite <- (Token_loop_fuel (mkDecoder x _ _)) by done.
  unfold Token at 1. cbn [Token_loop d_rest d_state]. rewrite Hs.
  decides. by decides.
Qed.

Lemma Token_open c s x st stack start :
  skip_ws s = String c x → tokenValueAllowed st = true →
  (c = "["%char ∧ start = tokenArrayStart ∨ c = "{"%char ∧ start = tokenObjectStart) →
  Token (mkDecoder s st stack) = Tok (Delim c) (mkDecoder x start (st :: stack)).
Proof.
  intros Hs Hst [[-> ->]|[-> ->]]; unfold Token; cbn [Token_loop d_rest]; rewrite Hs.
  - rewrite decide_True by done. unfold open_delim. cbn [d_state d_stack]. by rewrite Hst.
  - decides. unfold open_delim. cbn [d_state d_stack]. by rewrite Hst.
Qed.

Lemma closing_delim c s x st st0 stack :
  skip_char c s = Some x →
  (c = "]"%char ∧ (st = tokenArrayStart ∨ st = tokenArrayComma) ∨
   c = "}"%char ∧ (st = tokenObjectStart ∨ st = tokenObjectComma)) →
  More (mkDecoder s st (st0 :: stack)) = false ∧
  closing (mkDecoder s st (st0 :: stack)) = Ok (mkDecoder x (tokenValueEnd st0) stack).
Proof.
  intros Hs%skip_char_Some Hc. split.
  - unfold More. cbn [d_rest]. rewrite Hs. by destruct Hc as [[-> _]|[-> _]].
  - unfold closing, Token. cbn [Token_loop d_rest]. rewrite Hs. destruct Hc as [[-> Hst]|[-> Hst]].
    + decides. unfold close_delim. cbn [d_state d_stack].
      by rewrite decide_True.
    + decides. unfold close_delim. cbn [d_state d_stack].
      by rewrite decide_True.
Qed.

Lemma Token_key s x raw rest st stack :
  skip_char quote s = Some x → scan_string x = Some (raw, rest) →
  st = tokenObjectStart ∨ st = tokenObjectKey →
  Token (mkDecoder s st stack) = Tok (StringToken (unquoted raw)) (mkDecoder rest tokenObjectColon stack).
Proof.
  intros Hs%skip_char_Some Hx Hst. unfold Token. cbn [Token_loop d_rest]. rewrite Hs.
  decides. cbn [d_state]. rewrite decide_True by done. unfold key_token. by rewrite Hx.
Qed.

(** ** The scan of a valid text *)

(** The result of scanning a text whose keys are unique ([b]) or not. *)
Definition scanned (b : bool) (r : option (result Decoder)) (d' : Decoder) : Prop :=
  if b then r = Some (Ok d') else ∃ k, r = Some (Err (errDuplicate k)).

Lemma read_scalar_head c x y :
  read_scalar (String c x) = Some y → c ≠ "]"%char ∧ c ≠ "}"%char ∧ c ≠ ":"%char ∧ c ≠ ","%char.
Proof. intros Hs. split_and!; intros ->; vm_compute in Hs; done. Qed.

Lemma scalar_unique c x t rest : read_scalar (String c x) = Some (t, rest) → unique_keys t = true.
Proof.
  unfold read_scalar. repeat case_decide; try (by intros (? & _ & [= -> _])%fmap_Some).
  - destruct (scan_string x) as [[]|]; [|done]. by intros [= <- _].
  - destruct (scan_number (String c x)) as [[]|]; [|done]. by intros [= <- _].
Qed.

(** A scalar in a value position. *)
Lemma Token_scalar s c x t rest st stack :
  skip_ws s = String c x → c ≠ "{"%char → c ≠ "["%char → read_scalar (String c x) = Some (t, rest) →
  tokenValueAllowed st = true →
  ∃ tok, Token (mkDecoder s st stack) = Tok tok (mkDecoder rest (tokenValueEnd st) stack) ∧
         match tok with Delim _ => False | _ => True end.
Proof.
  intros Hs H1 H2 Hr Hst. destruct (read_scalar_head _ _ _ Hr) as (H3 & H4 & H5 & H6).
  unfold Token. cbn [Token_loop d_rest]. rewrite Hs.
  assert (∃ tok, scalar_token (mkDecoder s st stack) (String c x) = Tok tok (mkDecoder rest (tokenValueEnd st) stack) ∧
                 match tok with Delim _ => False | _ => True end) as Htok.
  { unfold scalar_token. cbn [d_state d_stack]. rewrite Hst, Hr. eexists. split; [reflexivity|]. by destruct t. }
  repeat (rewrite decide_False by done). destruct (decide (c = quote)); [|done].
  cbn [d_state]. rewrite decide_False; [done|]. intros [-> | ->]; done.
Qed.

Definition scan_value_ok (n : nat) : Prop := ∀ dep s t rest,
  read_value n dep s = Some (t, rest) →
  ∀ d st stack F, tokenValueAllowed st = true → Token d = Token (mkDecoder s st stack) →
    2 * String.length s + 2 ≤ F →
    scanned (unique_keys t) (scanJSONValue F d) (mkDecoder rest (tokenValueEnd st) stack).

Definition scan_members_ok (n : nat) : Prop := ∀ dep s ms rest,
  read_members n dep s = Some (ms, rest) →
  ∀ d st st0 stack seen F, st = tokenObjectStart ∨ st = tokenObjectKey →
    Token d = Token (mkDecoder s st (st0 :: stack)) → More d = true → 2 * String.length s + 2 ≤ F →
    scanned (fresh_members seen ms) (scanJSONObject F seen d) (mkDecoder rest (tokenValueEnd st0) stack).

Definition scan_elements_ok (n : nat) : Prop := ∀ dep s ts rest,
  read_elements n dep s = Some (ts, rest) →
  ∀ d st st0 stack F, st = tokenArrayStart ∨ st = tokenArrayValue →
    Token d = Token (mkDecoder s st (st0 :: stack)) → More d = true → 2 * String.length s + 3 ≤ F →
    scanned (forallb unique_keys ts) (scanJSONArray F d) (mkDecoder rest (tokenValueEnd st0) stack).

(** The first character of what the readers accept is not a closing one. *)
Lemma read_value_More n dep s r st stack :
  read_value n dep s = Some r → More (mkDecoder s st stack) = true.
Proof.
  destruct n as [|n]; [done|]. cbn [read_value]. unfold More. cbn [d_rest].
  destruct (skip_ws s) as [|c x]; [done|]. case_decide as H1; [by subst c|]. case_decide as H2; [by subst c|].
  intros (Hb & Hc & _)%read_scalar_head. by rewrite !bool_decide_false.
Qed.

Lemma read_elements_More n dep s r st stack :
  read_elements n dep s = Some r → More (mkDecoder s st stack) = true.
Proof.
  destruct n as [|n]; [done|]. cbn [read_elements]. destruct (read_value n dep s) eqn:Hv; [|done].
  intros _. by eapply read_value_More.
Qed.

Lemma skip_char_More c s x st stack :
  skip_char c s = Some x → c ≠ "]"%char → c ≠ "}"%char → More (mkDecoder s st stack) = true.
Proof.
  intros Hs%skip_char_Some H1 H2. unfold More. cbn [d_rest]. rewrite Hs. by rewrite !bool_decide_false.
Qed.

Lemma read_members_More n dep s r st stack :
  read_members n dep s = Some r → More (mkDecoder s st stack) = true.
Proof.
  destruct n as [|n]; [done|]. cbn [read_members]. destruct (skip_char quote s) eqn:Hs; [|done].
  intros _. by eapply skip_char_More.
Qed.

Lemma scan_value_step n : scan_members_ok n → scan_elements_ok n → scan_value_ok (S n).
Proof.
  intros IHm IHe dep s t rest. cbn [read_value]. destruct (skip_ws s) as [|c x] eqn:Hs; [done|].
  apply head_shorter in Hs as Hlen. intros Hread d st stack F Hst Htok HF.
  destruct F as [|F]; [lia|]. cbn [scanJSONValue]. rewrite Htok. revert Hread.
  destruct (decide (c = "{"%char)) as [->|H1]; [|destruct (decide (c = "["%char)) as [->|H2]].
  - destruct (dep <? maxNestingDepth)%N; [|done].
    rewrite (Token_open _ s x st stack tokenObjectStart Hs Hst) by (by right). rewrite decide_True by done.
    destruct (skip_char "}" x) as [r|] eqn:Hr.
    + intros [= <- <-]. destruct F as [|F]; [lia|]. cbn [scanJSONObject].
      destruct (closing_delim "}" x r tokenObjectStart st stack Hr) as [-> ->]; [naive_solver|]. done.
    + destruct (read_members n (dep + 1) x) as [[ms r]|] eqn:Hm; [|done]. intros [= <- <-].
      rewrite unique_keys_TObject. eapply IHm; [exact Hm|by left|done|by eapply read_members_More|lia].
  - destruct (dep <? maxNestingDepth)%N; [|done].
    rewrite (Token_open _ s x st stack tokenArrayStart Hs Hst) by (by left). decides.
    destruct (skip_char "]" x) as [r|] eqn:Hr.
    + intros [= <- <-]. destruct F as [|F]; [lia|]. cbn [scanJSONArray].
      destruct (closing_delim "]" x r tokenArrayStart st stack Hr) as [-> ->]; [naive_solver|]. done.
    + destruct (read_elements n (dep + 1) x) as [[ts r]|] eqn:Hm; [|done]. intros [= <- <-].
      cbn [unique_keys]. eapply IHe; [exact Hm|by left|done|by eapply read_elements_More|lia].
  - intros Hr. rewrite (scalar_unique _ _ _ _ Hr).
    destruct (Token_scalar s c x t rest st stack) as (tok & -> & Hnd); [done..|]. by destruct tok.
Qed.

Lemma scan_members_step n : scan_value_ok n → scan_members_ok n → scan_members_ok (S n).
Proof.
  intros IHv IHm dep s ms rest. cbn [read_members].
  destruct (skip_char quote s) as [s1|] eqn:H1; [|done]. pose proof (skip_char_shorter _ _ _ H1) as L1.
  destruct (scan_string s1) as [[raw s2]|] eqn:H2; [|done]. pose proof (scan_string_length _ _ _ H2) as L2.
  destruct (skip_char ":" s2) as [s3|] eqn:H3; [|done]. pose proof (skip_char_shorter _ _ _ H3) as L3.
  destruct (read_value n dep s3) as [[v s4]|] eqn:H4; [|done].
  destruct (readers_sound n) as (Hsound & _ & _). destruct (Hsound _ _ _ _ H4) as [L4 _].
  intros Hread d st st0 stack seen F Hst Htok Hmore HF. destruct F as [|F]; [lia|]. cbn [scanJSONObject].
  rewrite Hmore, Htok, (Token_key _ _ _ _ _ _ H1 H2 Hst).
  pose proof (IHv _ _ _ _ H4 (mkDecoder s2 tokenObjectColon (st0 :: stack)) tokenObjectValue (st0 :: stack) F
    eq_refl (Token_colon _ _ _ H3) ltac:(lia)) as Hv.
  destruct (decide (unquoted raw ∈ seen)) as [Hin|Hin].
  { destruct (skip_char "," s4) as [s5|];
      [destruct (read_members n dep s5) as [[ms' r]|]; [|done]|destruct (skip_char "}" s4); [|done]];
      injection Hread as <- <-; cbn [fresh_members]; rewrite bool_decide_true by done; by eexists. }
  assert (∀ ms', fresh_members seen ((unquoted raw, v) :: ms')
            = unique_keys v && fresh_members ({[unquoted raw]} ∪ seen) ms') as Hfresh.
  { intros ms'. cbn [fresh_members]. by rewrite bool_decide_false. }
  destruct (unique_keys v) eqn:Huv; simpl in Hv.
  - rewrite Hv. destruct (skip_char "," s4) as [s5|] eqn:H5.
    + pose proof (skip_char_shorter _ _ _ H5) as L5.
      destruct (read_members n dep s5) as [[ms' r]|] eqn:H6; [|done]. injection Hread as <- <-.
      rewrite Hfresh. eapply IHm; [exact H6|by right|by apply Token_object_comma|by eapply skip_char_More|lia].
    + destruct (skip_char "}" s4) as [r|] eqn:H6; [|done]. injection Hread as <- <-.
      rewrite Hfresh. destruct F as [|F]; [lia|]. cbn [scanJSONObject].
      destruct (closing_delim "}" s4 r tokenObjectComma st0 stack H6) as [-> ->]; [naive_solver|]. done.
  - destruct Hv as [k ->].
    destruct (skip_char "," s4) as [s5|];
      [destruct (read_members n dep s5) as [[ms' r]|]; [|done]|destruct (skip_char "}" s4); [|done]];
      injection Hread as <- <-; rewrite Hfresh; by exists k.
Qed.

Lemma scan_elements_step n : scan_value_ok n → scan_elements_ok n → scan_elements_ok (S n).
Proof.
  intros IHv IHe dep s ts rest. cbn [read_elements].
  destruct (read_value n dep s) as [[v s1]|] eqn:H1; [|done].
  destruct (readers_sound n) as (Hsound & _ & _). destruct (Hsound _ _ _ _ H1) as [L1 _].
  intros Hread d st st0 stack F Hst Htok Hmore HF. destruct F as [|F]; [lia|]. cbn [scanJSONArray].
  rewrite Hmore.
  assert (tokenValueAllowed st = true ∧ tokenValueEnd st = tokenArrayComma) as [Hal Hend] by (by destruct Hst as [-> | ->]).
  pose proof (IHv _ _ _ _ H1 d st (st0 :: stack) F Hal Htok ltac:(lia)) as Hv. rewrite Hend in Hv.
  destruct (unique_keys v) eqn:Huv; simpl in Hv.
  - rewrite Hv. destruct (skip_char "," s1) as [s2|] eqn:H2.
    + pose proof (skip_char_shorter _ _ _ H2) as L2.
      destruct (read_elements n dep s2) as [[vs r]|] eqn:H3; [|done]. injection Hread as <- <-.
      cbn [forallb]. rewrite Huv.
      eapply IHe; [exact H3|by right|by apply Token_array_comma|by eapply skip_char_More|lia].
    + destruct (skip_char "]" s1) as [r|] eqn:H3; [|done]. injection Hread as <- <-.
      cbn [forallb]. rewrite Huv. destruct F as [|F]; [lia|]. cbn [scanJSONArray].
      destruct (closing_delim "]" s1 r tokenArrayComma st0 stack H3) as [-> ->]; [naive_solver|]. done.
  - destruct Hv as [k ->].
    destruct (skip_char "," s1) as [s2|];
      [destruct (read_elements n dep s2) as [[vs r]|]; [|done]|destruct (skip_char "]" s1); [|done]];
      injection Hread as <- <-; cbn [forallb]; rewrite Huv; by exists k.
Qed.

Lemma scans_ok n : scan_value_ok n ∧ scan_members_ok n ∧ scan_elements_ok n.
Proof.
  induction n as [|n (IHv & IHm & IHe)]; [split_and!; by intros ????|].
  split_and!; auto using scan_value_step, scan_members_step, scan_elements_step.
Qed.
