(* ===== verification/SignerTheorems.v ===== *)
(** * Theorems about the signers

    Soundness of the recovery loop for an arbitrary vault, and total
    correctness of each signing operation for a vault that keeps the contract
    [SignVaultSpec]. *)

From S2P Require Import Prelude GoLib Types Crypto Interfaces Sha256 EvmSigner CosmosSigner.
Import Sha256.

(** ** The recovery loop *)

Section evm.
Context {C : EthCrypto}.

Lemma tryRecover_sound n recID hash rs pub sig :
  tryRecover n recID hash rs pub = Some sig →
  ∃ v, sig = rs ++ [v] ∧ Ecrecover hash sig = Ok pub.
Proof.
  revert recID. induction n as [|n IH]; intros recID; simpl; [done|].
  destruct (Ecrecover hash (rs ++ [recID])) as [recovered|e] eqn:Hr; [|apply IH].
  case_decide; [|apply IH]. intros [= <-]. subst. eauto.
Qed.

Lemma tryRecover_2_ids hash rs pub sig :
  tryRecover 2 Byte.x00 hash rs pub = Some sig → sig = rs ++ [Byte.x00] ∨ sig = rs ++ [Byte.x01].
Proof.
  cbn [tryRecover]. change (byte_of_N (byte_N Byte.x00 + 1)) with Byte.x01.
  repeat case_match; naive_solver.
Qed.

Lemma tryRecover_complete hash rs pub v :
  (v = Byte.x00 ∨ v = Byte.x01) → Ecrecover hash (rs ++ [v]) = Ok pub →
  ∃ sig, tryRecover 2 Byte.x00 hash rs pub = Some sig.
Proof.
  intros Hv Hrec. cbn [tryRecover]. change (byte_of_N (byte_N Byte.x00 + 1)) with Byte.x01.
  destruct Hv as [->| ->]; rewrite Hrec, decide_True by done; [eauto|].
  destruct (Ecrecover hash (rs ++ [Byte.x00])); [case_decide|]; eauto.
Qed.

Lemma FillBytes_length n x b : FillBytes n x = Val b → length b = n.
Proof. unfold FillBytes. case_match; [|done]. intros [= <-]. apply length_be_bytes. Qed.

Lemma FillBytes_value n x b : FillBytes n x = Val b → SetBytes b = Z.abs x.
Proof.
  unfold FillBytes. case_match; [|done]. intros [= <-]. to_prop.
  rewrite SetBytes_be_bytes by lia. apply Z.mod_small. lia.
Qed.

Context {W : Type} {V : SignVault W}.

Lemma mwp_pure {A R} (o : outcome A) (Q : W → flow R A → Prop) w :
  match o with Val a => Q w (Next a) | Panic m => Q w (Abrupt m) end →
  wp (call (λ w, (w, o))) Q w.
Proof. intros H. apply wp_call. unfold mwp. simpl. by destruct o. Qed.

(** C8. Soundness of EVM signing for an arbitrary vault: a signature that is
    returned has 65 bytes, is the big-endian [(r, s)] the vault answered with
    a recovery id 0 or 1, and recovers from the hash to exactly the public key
    the vault reports for the key path; otherwise an error is returned. *)
Theorem signWithRecovery_sound (keyPath : string) (hash sig : bytes) (w w' : W) :
  signWithRecovery keyPath hash w = (w', Val (Ok sig)) →
  ∃ w1 r s pub, vault_Sign keyPath hash "evm" w = (w1, Val (Ok (r, s))) ∧
    GetPublicKey keyPath w1 = (w', Val (Ok pub)) ∧
    length sig = 65 ∧ SetBytes (take 32 sig) = Z.abs r ∧
    SetBytes (take 32 (drop 32 sig)) = Z.abs s ∧
    (sig !! 64 = Some Byte.x00 ∨ sig !! 64 = Some Byte.x01) ∧
    Ecrecover hash sig = Ok pub.
Proof.
  unfold signWithRecovery, body, bind, try_, fill, call.
  destruct (vault_Sign keyPath hash "evm" w) as [w1 [[[r s]|e]|m]] eqn:Hs; try done.
  destruct (GetPublicKey keyPath w1) as [w2 [[pub|e]|m]] eqn:Hp; try done.
  destruct (FillBytes 32 r) as [rb|] eqn:Hr; [|done].
  destruct (FillBytes 32 s) as [sb|] eqn:Hsb; [|done]. unfold next.
  destruct (tryRecover 2 Byte.x00 hash (rb ++ sb) pub) as [sig'|] eqn:Ht; [|done].
  intros [= <- <-]. exists w1, r, s, pub.
  pose proof (FillBytes_length _ _ _ Hr) as Lr. pose proof (FillBytes_length _ _ _ Hsb) as Ls.
  destruct (tryRecover_sound _ _ _ _ _ _ Ht) as (v & -> & Hrec).
  assert (length (rb ++ sb) = 64) as L by (rewrite length_app; lia).
  assert (∀ x, ((rb ++ sb) ++ [x]) !! 64 = Some x) as Hlast
    by (intros x; by rewrite lookup_app_r, L by lia).
  split_and!; [done..| | | | |done].
  - rewrite length_app, L. done.
  - rewrite <- app_assoc, (take_app_length' rb) by lia. by eapply FillBytes_value.
  - rewrite <- app_assoc, (drop_app_length' rb), (take_app_length' sb) by lia.
    by eapply FillBytes_value.
  - destruct (tryRecover_2_ids _ _ _ _ Ht) as [->| ->]; rewrite !Hlast; auto.
Qed.

Context {VS : SignVaultSpec W}.

(** [sig] is a 65-byte signature of [hash] that recovers to the key [k], with
    recovery id 0 or 1. *)
Definition recovers (hash : bytes) (k : PrivKey) (sig : bytes) : Prop :=
  length sig = 65 ∧ (sig !! 64 = Some Byte.x00 ∨ sig !! 64 = Some Byte.x01) ∧
  Ecrecover hash sig = Ok (FromECDSAPub (PublicKey k)).

Lemma FillBytes_32 b : length b = 32 → FillBytes 32 (SetBytes b) = Val b.
Proof. intros <-. apply FillBytes_SetBytes. Qed.

Lemma signWithRecovery_holds w path k chains hash :
  holds w path k chains → length hash = 32 → "evm" ∈ chains →
  ∃ w' sig, signWithRecovery path hash w = (w', Val (Ok sig)) ∧ holds w' path k chains ∧
            recovers hash k sig.
Proof.
  intros Hh Hlen Hch.
  destruct (Sign_holds _ _ _ _ _ _ Hh Hlen Hch)
    as (w1 & r & s & v & Hs & Hh1 & Lr & Ls & Hv & _ & Hrec).
  destruct (GetPublicKey_holds _ _ _ _ Hh1) as (w2 & Hp & Hh2).
  unfold signWithRecovery, body, bind, try_, fill, call, next.
  rewrite Hs, Hp, !FillBytes_32 by done. rewrite app_assoc in Hrec.
  destruct (tryRecover_complete _ _ _ _ Hv Hrec) as [sig Hsig]. rewrite Hsig.
  exists w2, sig. split_and!; [done..|].
  destruct (tryRecover_sound _ _ _ _ _ _ Hsig) as (v' & -> & Hrec').
  assert (length (r ++ s) = 64) as L by (rewrite length_app; lia).
  split_and!; [by rewrite length_app, L| |done].
  destruct (tryRecover_2_ids _ _ _ _ Hsig) as [H|H]; rewrite H, lookup_app_r, L by lia; auto.
Qed.

(** Message signing on a vault that holds the key with the EVM chain:
    both personal messages (any bytes) and EIP-712 digests are signed, without
    error or panic, by a signature that recovers to the key's public key over
    the EIP-191 hash, respectively the digest itself. *)
Theorem evm_messages_signed (CL : EthCryptoLaws C) (w : W) (path : string) (k : PrivKey)
    (chains : list string) (msg digest : bytes) :
  holds w path k chains → "evm" ∈ chains → length digest = 32 →
  (∃ w' sig, SignPersonalMessage path msg w = (w', Val (Ok sig)) ∧ holds w' path k chains ∧
     recovers (Keccak256 (personalPrefix (length msg) ++ msg)) k sig) ∧
  (∃ w' sig, SignEIP712Digest path digest w = (w', Val (Ok sig)) ∧ holds w' path k chains ∧
     recovers digest k sig).
Proof.
  intros Hh Hch Hlen. split.
  - by apply (signWithRecovery_holds _ _ _ chains); [|apply length_Keccak256|].
  - destruct (signWithRecovery_holds _ _ _ _ digest Hh Hlen Hch) as (w' & sig & Hs & Hh' & Hr).
    exists w', sig. split_and!; [|done..].
    unfold SignEIP712Digest, body, bind, guard, call. by rewrite Hlen, Hs.
Qed.

Context {T : EthTx}.

(** C33. Raw-transaction signing on a vault that holds the key: a decodable
    transaction whose chain ID does not contradict a positive requested one is
    signed; the result decodes to the transaction with the same signing hash,
    carrying the [r] and [s] of a signature that recovers to the key. *)
Theorem SignRawTx_signs (TL : EthTxLaws T) (w : W) (path : string) (k : PrivKey)
    (chains : list string) (id : Z) (raw : bytes) (tx : Transaction) :
  holds w path k chains → "evm" ∈ chains →
  UnmarshalBinary raw = Ok tx → (0 < id)%Z → chainIDMismatch tx id = false →
  ∃ w' sig, recovers (SigHash id tx) k sig ∧ holds w' path k chains ∧
    SignRawTx path (Some id) raw w
    = (w', Val (match WithSignature id tx sig with
                | Err e => Err e
                | Ok signed => MarshalBinary signed
                end)) ∧
    (∀ out, SignRawTx path (Some id) raw w = (w', Val (Ok out)) →
       ∃ signed v, UnmarshalBinary out = Ok signed ∧ SigHash id signed = SigHash id tx ∧
         RawSignatureValues signed
         = (v, SetBytes (take 32 sig), SetBytes (take 32 (drop 32 sig)))).
Proof.
  intros Hh Hch Hraw Hid Hmis.
  destruct (signWithRecovery_holds _ _ _ _ (SigHash id tx) Hh (length_SigHash _ _) Hch)
    as (w' & sig & Hs & Hh' & Hrec).
  assert (SignRawTx path (Some id) raw w
    = (w', Val (match WithSignature id tx sig with
                | Err e => Err e | Ok signed => MarshalBinary signed end))) as Hrun.
  { unfold SignRawTx, body, bind, check, guard, try_, next. rewrite Hraw.
    assert ((id <=? 0)%Z = false) as -> by lia. rewrite Hmis, Hs.
    by destruct (WithSignature id tx sig). }
  exists w', sig. split_and!; [done..|]. intros out. rewrite Hrun.
  destruct (WithSignature id tx sig) as [signed|e] eqn:Hw; [|done]. intros [= Hout].
  destruct Hrec as (Hlen & _ & _). destruct (WithSignature_rs _ _ _ _ Hw Hlen) as [v Hv].
  exists signed, v. split_and!; [by apply Unmarshal_Marshal|by eapply WithSignature_hash|done].
Qed.
End evm.

(** ** [NormalizeEthereumV] *)

(** [NormalizeEthereumV] maps recovery ids below 27 to [id + 27] without
    wrapping, leaves every other byte and every other length alone, and is
    idempotent. *)
Theorem NormalizeEthereumV_spec (sig : bytes) :
  length (NormalizeEthereumV sig) = length sig ∧
  (∀ i, i ≠ 64 → NormalizeEthereumV sig !! i = sig !! i) ∧
  (∀ v, length sig = 65 → sig !! 64 = Some v →
     ∃ v', NormalizeEthereumV sig !! 64 = Some v' ∧
       byte_N v' = if (byte_N v <? 27)%N then (byte_N v + 27)%N else byte_N v) ∧
  NormalizeEthereumV (NormalizeEthereumV sig) = NormalizeEthereumV sig.
Proof.
  assert (∀ v, (byte_N v < 27)%N → byte_N (byte_of_N (byte_N v + 27)) = (byte_N v + 27)%N) as Hadd.
  { intros v. destruct v; vm_compute; done. }
  unfold NormalizeEthereumV. destruct (Nat.eqb_spec (length sig) 65) as [Hl|Hl].
  2:{ split_and!; [done..|]. destruct (Nat.eqb_spec (length sig) 65); [done|done]. }
  destruct (sig !! 64) as [v|] eqn:Hv; [|apply lookup_ge_None in Hv; lia].
  destruct (N.ltb_spec (byte_N v) 27) as [Hlt|Hge].
  - rewrite length_insert, Hl, list_lookup_insert_eq by lia. simpl.
    assert ((byte_N (byte_of_N (byte_N v + 27)) <? 27)%N = false) as ->.
    { rewrite Hadd by done. apply N.ltb_ge. lia. }
    split_and!; [done| |intros v0 _ [= <-]|done].
    + intros i Hi. by apply list_lookup_insert_ne.
    + eexists. split; [done|]. rewrite Hadd by done.
      destruct (N.ltb_spec (byte_N v) 27); [done|lia].
  - split_and!; [done..| |].
    + intros v0 _ [= <-]. exists v. split; [done|]. destruct (N.ltb_spec (byte_N v) 27); [lia|done].
    + rewrite Hl. simpl. rewrite Hv. destruct (N.ltb_spec (byte_N v) 27); [lia|done].
Qed.

(** ** The Cosmos signer *)

Section cosmos.
Context {C : EthCrypto} {CL : EthCryptoLaws C} {L : CosmosLib}.

Lemma notUncompressed_FromECDSAPub p : notUncompressed (FromECDSAPub p) = false.
Proof.
  unfold notUncompressed. rewrite length_FromECDSAPub, head_FromECDSAPub.
  by rewrite bool_decide_eq_true_2.
Qed.

Lemma compress_FromECDSAPub p : compress (FromECDSAPub p) = Ok (CompressPubkey p).
Proof.
  unfold compress. by rewrite notUncompressed_FromECDSAPub, UnmarshalPubkey_FromECDSAPub.
Qed.

Lemma DeriveEVMAddress_FromECDSAPub p :
  DeriveEVMAddress (FromECDSAPub p) = Ok (PubkeyToAddress_Hex p).
Proof.
  unfold DeriveEVMAddress. by rewrite notUncompressed_FromECDSAPub, UnmarshalPubkey_FromECDSAPub.
Qed.

(** The two address derivations agree: deriving from the uncompressed
    public key (as key info does) and from its compressed form (as the sign
    response does) give the same result for every HRP, errors included. *)
Theorem DeriveCosmosAddress_agree (p : PubKey) (hrp : string) :
  DeriveCosmosAddress (FromECDSAPub p) hrp
  = DeriveCosmosAddressFromCompressed (CompressPubkey p) hrp.
Proof.
  unfold DeriveCosmosAddress, DeriveCosmosAddressFromCompressed.
  by rewrite compress_FromECDSAPub, length_CompressPubkey.
Qed.

(** The buffer is a concatenation of fields. *)
Inductive fields_of : bytes → Prop :=
  | fields_nil : fields_of []
  | fields_cons b n : ConsumeField b = Some n → fields_of (drop n b) → fields_of b.

Lemma validProto_loop_spec (LL : CosmosLibLaws L) fuel b :
  length b ≤ fuel → ∃ ok, validProto_loop fuel b = Some ok ∧ (ok = true ↔ fields_of b).
Proof.
  revert b. induction fuel as [|fuel IH]; intros [|x b] Hlen; simpl in *; try lia.
  - exists true. split; [done|]. split; [constructor|done].
  - exists true. split; [done|]. split; [constructor|done].
  - destruct (ConsumeField (x :: b)) as [n|] eqn:Hc.
    + pose proof (ConsumeField_bounds _ _ Hc) as Hn. simpl in Hn.
      destruct (IH (drop n (x :: b))) as (ok & -> & Hok).
      { rewrite length_drop. simpl. lia. }
      exists ok. split; [done|]. rewrite Hok. split; [by apply fields_cons|].
      inversion 1; simplify_eq. done.
    + exists false. split; [done|]. split; [done|]. inversion 1; congruence.
Qed.

(** [validProto] terminates within as many iterations as there are bytes
    and accepts exactly the non-empty buffers that split into protobuf
    fields. *)
Theorem validProto_spec (LL : CosmosLibLaws L) (b : bytes) :
  is_Some (validProto_loop (length b) b) ∧
  (validProto b = true ↔ b ≠ [] ∧ fields_of b).
Proof.
  destruct (validProto_loop_spec LL (length b) b) as (ok & Hrun & Hok); [done|].
  split; [by rewrite Hrun|]. unfold validProto. destruct b as [|x b]; [naive_solver|].
  rewrite Hrun. simpl. rewrite Hok. naive_solver.
Qed.

Context {W : Type} {V : SignVault W} {VS : SignVaultSpec W}.

(** The shared signing tail on a vault that holds the key with the Cosmos
    chain. *)
Lemma signHash_holds (w : W) (path : string) (k : PrivKey) (chains : list string) (hash : bytes) :
  holds w path k chains → "cosmos" ∈ chains → length hash = 32 →
  ∃ w' sig v, signHash path hash w = (w', Val (Ok (sig, CompressPubkey (PublicKey k)))) ∧
    holds w' path k chains ∧ length sig = 64 ∧ (v = Byte.x00 ∨ v = Byte.x01) ∧
    Ecrecover hash (sig ++ [v]) = Ok (FromECDSAPub (PublicKey k)).
Proof.
  intros Hh Hch Hlen.
  destruct (Sign_holds _ _ _ _ _ _ Hh Hlen Hch) as (w1 & r & s & v & Hs & Hh1 & Lr & Ls & Hv & _ & Hrec).
  destruct (GetPublicKey_holds _ _ _ _ Hh1) as (w2 & Hp & Hh2).
  unfold signHash, ExportCompressedPubKey, body, bind, try_, fill, call, next.
  rewrite Hs, Hp, compress_FromECDSAPub, !FillBytes_32 by done.
  exists w2, (r ++ s), v. rewrite <- app_assoc, length_app, Lr, Ls. done.
Qed.

(** SIGN_MODE_DIRECT on a vault that holds the key with the Cosmos chain:
    a well-framed document is signed, without error or panic, by a 64-byte
    [r || s] over its SHA-256 that recovers to the key, together with the
    key's 33-byte compressed public key; a malformed one is refused before
    the vault is asked. *)
Theorem SignDirect_signs (w : W) (path : string) (k : PrivKey) (chains : list string) (doc : bytes) :
  holds w path k chains → "cosmos" ∈ chains →
  (validProto doc = false →
     SignDirect path doc w = (w, Val (Err (errors_New "invalid SignDoc proto encoding")))) ∧
  (validProto doc = true →
     ∃ w' sig v, SignDirect path doc w = (w', Val (Ok (sig, CompressPubkey (PublicKey k)))) ∧
       holds w' path k chains ∧ length sig = 64 ∧ (v = Byte.x00 ∨ v = Byte.x01) ∧
       Ecrecover (Sum256 doc) (sig ++ [v]) = Ok (FromECDSAPub (PublicKey k))).
Proof.
  intros Hh Hch. unfold SignDirect, body, bind, guard, call.
  split; intros ->; [done|]. simpl.
  destruct (signHash_holds w path k chains (Sum256 doc)) as (w' & sig & v & -> & ?); [done|done|apply length_Sum256|].
  by exists w', sig, v.
Qed.

Lemma For_holds (w : W) (path hrp : string) (k : PrivKey) (allowed chains : list string) :
  holds w path k allowed →
  ∃ w', holds w' path k allowed ∧
    For path hrp chains w =
    (w', Val (match (if decide ("cosmos" ∈ chains)
                     then DeriveCosmosAddressFromCompressed (CompressPubkey (PublicKey k))
                            (if decide (hrp = "") then "cosmos" else hrp)
                     else Ok "") with
              | Err e => Err e
              | Ok addr => Ok (mkKeyInfo path (hex_EncodeToString (FromECDSAPub (PublicKey k)))
                   (if decide ("evm" ∈ chains) then PubkeyToAddress_Hex (PublicKey k) else "")
                   addr chains)
              end)).
Proof.
  intros Hh. destruct (GetPublicKey_holds _ _ _ _ Hh) as (w' & Hp & Hh').
  exists w'. split; [done|].
  assert (∀ c, ChainsContain chains c = bool_decide (c ∈ chains)) as Hcc.
  { intros c. apply Bool.eq_iff_eq_true. by rewrite ChainsContain_spec, bool_decide_eq_true. }
  unfold For, body, bind, try_, DefaultHRP. rewrite Hp, !Hcc.
  unfold DeriveCosmosAddress, DeriveCosmosAddressFromCompressed.
  rewrite compress_FromECDSAPub, DeriveEVMAddress_FromECDSAPub, length_CompressPubkey.
  change ChainEVM with "evm". change ChainCosmos with "cosmos". unfold check, next. simpl.
  repeat case_decide; repeat case_bool_decide; try done;
    try (by destruct (deriveFromCompressed _ _)).
Qed.

(** Key info for a held key: the public key in hex, and each chain's
    address exactly when the chain is in the list given (the Cosmos one under
    the requested or default HRP; its error, if the HRP is refused, is
    returned). *)
Theorem keyinfo_For_spec (w : W) (path hrp : string) (k : PrivKey) (allowed chains : list string) :
  holds w path k allowed →
  ∃ w', holds w' path k allowed ∧
    For path hrp chains w =
    (w', Val (match (if decide ("cosmos" ∈ chains)
                     then DeriveCosmosAddressFromCompressed (CompressPubkey (PublicKey k))
                            (if decide (hrp = "") then "cosmos" else hrp)
                     else Ok "") with
              | Err e => Err e
              | Ok addr => Ok (mkKeyInfo path (hex_EncodeToString (FromECDSAPub (PublicKey k)))
                   (if decide ("evm" ∈ chains) then PubkeyToAddress_Hex (PublicKey k) else "")
                   addr chains)
              end)).
Proof. apply For_holds. Qed.
End cosmos.

(** ** Witnesses *)

Module SignerChecks.
Import ToyCrypto.

(** A vault that holds one toy key, under every path, for both chains. *)
Definition toy_Sign (path : string) (hash : bytes) (chain : string) : M unit (result (Z * Z)) :=
  λ w, (w, Val (match Sign hash (Byte.x07 : PrivKey) with
                | Ok sig => Ok (SetBytes (take 32 sig), SetBytes (take 32 (drop 32 sig)))
                | Err e => Err e
                end)).

#[local] Instance toy_pubkeys : PubKeys unit :=
  {| GetPublicKey path := λ w, (w, Val (Ok (FromECDSAPub (Byte.x07 : PubKey)))) |}.

#[local] Instance toy_vault : SignVault unit := {| vault_Sign := toy_Sign |}.

#[local] Instance toy_vault_spec : SignVaultSpec unit.
Proof.
  refine {| holds w path k chains := k = (Byte.x07 : PrivKey) ∧ chains = ["cosmos"; "evm"] |}.
  - intros w path k chains hash chain [-> ->] Hlen _.
    destruct (Sign_digest (C:=toy) hash Byte.x07 Hlen) as (r & s & v & HS & Hr & Hs & Hv & Hrec).
    exists w, r, s, v. split_and!; try done. change (vault_Sign path hash chain w)
      with (toy_Sign path hash chain w). unfold toy_Sign. rewrite HS.
    by rewrite (take_app_length' r), (drop_app_length' r), (take_app_length' s) by done.
  - intros w path k chains [-> ->]. by exists w.
Defined.

(** Toy transactions: a payload and an optional 65-byte signature. *)
#[local] Instance toy_tx : EthTx := {|
  Transaction := bytes * bytes;
  UnmarshalBinary b := if 65 <=? length b then Ok (drop 65 b, take 65 b) else Ok (b, []);
  MarshalBinary tx :=
    if (length tx.2 =? 65) || ((length tx.2 =? 0) && (length tx.1 <? 65))
    then Ok (tx.2 ++ tx.1) else Err (errors_New "unsigned");
  Protected tx := length tx.2 =? 65;
  ChainId tx := Some 1%Z;
  SigHash id tx := Sum256 tx.1;
  WithSignature id tx sig := if length sig =? 65 then Ok (tx.1, sig) else Err (errors_New "sig");
  RawSignatureValues tx := (0%Z, SetBytes (take 32 tx.2), SetBytes (take 32 (drop 32 tx.2))) |}.

#[local] Instance toy_tx_laws : EthTxLaws toy_tx.
Proof.
  split; cbn -[Nat.leb Nat.eqb Nat.ltb].
  - intros id [p s]. apply (length_Sum256 p).
  - intros id [p s] sig [p' s']. case_match; [|done]. by intros [= -> ->].
  - intros id [p s] sig [p' s']. case_match; [|done]. intros [= -> ->] _. by eexists.
  - intros [p s] b. cbn -[Nat.leb Nat.eqb Nat.ltb].
    destruct (Nat.eqb_spec (length s) 65) as [Hs|Hs]; cbn -[Nat.leb Nat.eqb Nat.ltb].
    + intros [= <-]. rewrite length_app, Hs. simpl.
      by rewrite (drop_app_length' s), (take_app_length' s) by done.
    + case_match; [|done]. intros [= <-]. to_prop.
      assert (s = []) as -> by (by apply nil_length_inv). rewrite app_nil_l.
      destruct (Nat.leb_spec 65 (length p)); [lia|done].
Qed.

(** One-byte fields; a bech32 that tags the hash. *)
#[local] Instance toy_cosmos : CosmosLib := {|
  ripemd160 b := take 20 b;
  ConvertAndEncode hrp b := Ok (hrp +:+ "1" +:+ hex_EncodeToString b);
  ConsumeField b := match b with x :: _ => if decide (x = Byte.xff) then None else Some 1 | [] => None end |}.

#[local] Instance toy_cosmos_laws : CosmosLibLaws toy_cosmos.
Proof. split. intros [|x b] n; simpl; [done|]. case_decide; [done|]. intros [= <-]. lia. Qed.

Definition key : PrivKey := Byte.x07.
Definition both : list string := ["cosmos"; "evm"].
Definition digest32 : bytes := replicate 32 Byte.x11.

Lemma toy_holds : holds tt "a/b/c" key both.
Proof. done. Qed.

Lemma evm_in_both : "evm" ∈ both. Proof. set_solver. Qed.
Lemma cosmos_in_both : "cosmos" ∈ both. Proof. set_solver. Qed.

Definition toy_signature : bytes := digest32 ++ (replicate 31 Byte.x00 ++ [Byte.x07]) ++ [Byte.x00].

Lemma signWithRecovery_sound_witness :
  ∃ w1 r s pub, vault_Sign "a/b/c" digest32 "evm" tt = (w1, Val (Ok (r, s))) ∧
    GetPublicKey "a/b/c" w1 = (tt, Val (Ok pub)) ∧
    length toy_signature = 65 ∧ SetBytes (take 32 toy_signature) = Z.abs r ∧
    SetBytes (take 32 (drop 32 toy_signature)) = Z.abs s ∧
    (toy_signature !! 64 = Some Byte.x00 ∨ toy_signature !! 64 = Some Byte.x01) ∧
    Ecrecover digest32 toy_signature = Ok pub.
Proof. apply (signWithRecovery_sound (C:=toy) (V:=toy_vault) "a/b/c" digest32 toy_signature tt tt). by vm_compute. Defined.

Lemma evm_messages_signed_witness :
  (∃ w' sig, SignPersonalMessage "a/b/c" [Byte.x01] tt = (w', Val (Ok sig)) ∧
     holds w' "a/b/c" key both ∧ recovers (Keccak256 (personalPrefix 1 ++ [Byte.x01])) key sig) ∧
  (∃ w' sig, SignEIP712Digest "a/b/c" digest32 tt = (w', Val (Ok sig)) ∧
     holds w' "a/b/c" key both ∧ recovers digest32 key sig).
Proof.
  apply (evm_messages_signed toy_laws tt "a/b/c" key both [Byte.x01] digest32);
    [apply toy_holds|apply evm_in_both|done].
Defined.

Lemma SignRawTx_signs_witness :
  ∃ w' sig, recovers (SigHash 1 ([Byte.x05], [])) key sig ∧ holds w' "a/b/c" key both ∧
    SignRawTx "a/b/c" (Some 1%Z) [Byte.x05] tt
    = (w', Val (match WithSignature 1 ([Byte.x05], []) sig with
                | Err e => Err e
                | Ok signed => MarshalBinary signed
                end)) ∧
    (∀ out, SignRawTx "a/b/c" (Some 1%Z) [Byte.x05] tt = (w', Val (Ok out)) →
       ∃ signed v, UnmarshalBinary out = Ok signed ∧
         SigHash 1 signed = SigHash 1 ([Byte.x05], []) ∧
         RawSignatureValues signed
         = (v, SetBytes (take 32 sig), SetBytes (take 32 (drop 32 sig)))).
Proof.
  apply (SignRawTx_signs toy_tx_laws tt "a/b/c" key both 1 [Byte.x05] ([Byte.x05], []));
    [apply toy_holds|apply evm_in_both|done|lia|done].
Defined.

Lemma DeriveCosmosAddress_agree_witness :
  DeriveCosmosAddress (FromECDSAPub (Byte.x07 : PubKey)) "osmo"
  = DeriveCosmosAddressFromCompressed (CompressPubkey (Byte.x07 : PubKey)) "osmo".
Proof. apply (DeriveCosmosAddress_agree (C:=toy) Byte.x07 "osmo"). Defined.

Lemma validProto_spec_witness :
  is_Some (validProto_loop 2 [Byte.x01; Byte.x02]) ∧
  (validProto [Byte.x01; Byte.x02] = true ↔
   [Byte.x01; Byte.x02] ≠ [] ∧ fields_of [Byte.x01; Byte.x02]).
Proof. apply (validProto_spec toy_cosmos_laws [Byte.x01; Byte.x02]). Defined.

Lemma SignDirect_signs_witness :
  (validProto [Byte.x0a] = false →
     SignDirect "a/b/c" [Byte.x0a] tt
     = (tt, Val (Err (errors_New "invalid SignDoc proto encoding")))) ∧
  (validProto [Byte.x0a] = true →
     ∃ w' sig v, SignDirect "a/b/c" [Byte.x0a] tt
                 = (w', Val (Ok (sig, CompressPubkey (PublicKey key)))) ∧
       holds w' "a/b/c" key both ∧ length sig = 64 ∧ (v = Byte.x00 ∨ v = Byte.x01) ∧
       Ecrecover (Sum256 [Byte.x0a]) (sig ++ [v]) = Ok (FromECDSAPub (PublicKey key))).
Proof.
  apply (SignDirect_signs tt "a/b/c" key both [Byte.x0a]); [apply toy_holds|apply cosmos_in_both].
Defined.

Lemma keyinfo_For_spec_witness :
  ∃ w', holds w' "a/b/c" key both ∧
    For "a/b/c" "" ["evm"] tt =
    (w', Val (match (if decide ("cosmos" ∈ ["evm"])
                     then DeriveCosmosAddressFromCompressed (CompressPubkey (PublicKey key))
                            (if decide ("" = "") then "cosmos" else "")
                     else Ok "") with
              | Err e => Err e
              | Ok addr => Ok (mkKeyInfo "a/b/c" (hex_EncodeToString (FromECDSAPub (PublicKey key)))
                   (if decide ("evm" ∈ ["evm"]) then PubkeyToAddress_Hex (PublicKey key) else "")
                   addr ["evm"])
              end)).
Proof. apply (keyinfo_For_spec (V:=toy_vault) tt "a/b/c" "" key both ["evm"]). apply toy_holds. Defined.
End SignerChecks.
