(* ===== verification/AminoTheorems.v ===== *)
(** * Amino JSON signing: theorems *)

From S2P Require Import Prelude GoLib Types Crypto Interfaces Sha256 EvmSigner CosmosSigner.
From S2P Require Import Float64 Json Amino JsonProps JsonRoundtrip JsonSound AminoScan SignerTheorems.
Import Sha256.

(** ** The scan terminates *)

Definition rest_length (d : Decoder) : nat := String.length (d_rest d).

(** A token takes at least a character; at the end there is no more. *)
Definition shrinks (d : Decoder) (r : token_result) : Prop :=
  match r with
  | Tok _ d' => rest_length d' < rest_length d
  | TokEOF d' => rest_length d' ≤ rest_length d ∧ More d' = false
  | TokErr _ => True
  end.

Section shrinks.
Context (d : Decoder) (c : ascii) (s : string) (Hs : skip_ws (d_rest d) = String c s).

Lemma open_delim_shrinks st : shrinks d (open_delim c st d s).
Proof. unfold open_delim. apply head_shorter in Hs. by destruct (tokenValueAllowed _). Qed.

Lemma close_delim_shrinks st st' : shrinks d (close_delim c st st' d s).
Proof. unfold close_delim. apply head_shorter in Hs. case_decide; [|done]. by destruct (d_stack d). Qed.

Lemma key_token_shrinks : shrinks d (key_token d s).
Proof.
  unfold key_token. apply head_shorter in Hs. destruct (scan_string s) as [[raw r]|] eqn:Hr; [|done].
  apply scan_string_length in Hr. unfold shrinks, rest_length. simpl. lia.
Qed.

Lemma scalar_token_shrinks : shrinks d (scalar_token d (String c s)).
Proof.
  unfold scalar_token. pose proof (skip_ws_length (d_rest d)) as Hle. rewrite Hs in Hle.
  destruct (tokenValueAllowed _); [|done]. destruct (read_scalar (String c s)) as [[t r]|] eqn:Hr; [|done].
  apply read_scalar_spec in Hr as [Hr _]. unfold shrinks, rest_length. cbn [d_rest]. lia.
Qed.
End shrinks.

Ltac token_cases :=
  repeat (case_decide; try (by apply open_delim_shrinks); try (by apply close_delim_shrinks);
          try (by eapply key_token_shrinks); try (by apply scalar_token_shrinks); try done).

Lemma Token_loop_shrinks fuel d : shrinks d (Token_loop fuel d).
Proof.
  revert d. induction fuel as [|fuel IH]; intros d; cbn [Token_loop];
    (destruct (skip_ws (d_rest d)) as [|c s] eqn:Hs; [split; [done|unfold More; by rewrite Hs]|]).
  - token_cases; by destruct (d_state d).
  - assert (∀ st, shrinks d (Token_loop fuel (mkDecoder s st (d_stack d)))) as Hrec.
    { intros st. apply head_shorter in Hs. pose proof (IH (mkDecoder s st (d_stack d))) as Hr.
      unfold shrinks, rest_length in *. cbn [d_rest] in Hr.
      destruct (Token_loop _ _); [lia|split; [lia|apply Hr]|done]. }
    token_cases. by destruct (d_state d).
Qed.

Lemma closing_shrinks d d' : closing d = Ok d' → rest_length d' < rest_length d.
Proof.
  unfold closing. pose proof (Token_loop_shrinks 1 d) as Ht. fold (Token d) in Ht.
  destruct (Token d); [|done|done]. by intros [= <-].
Qed.

(** What a terminating scan leaves: no more than it was given, and less unless
    the text has ended. *)
Definition leaves (d : Decoder) (r : option (result Decoder)) : Prop :=
  ∃ x, r = Some x ∧
    ∀ d', x = Ok d' → rest_length d' ≤ rest_length d ∧ (rest_length d' < rest_length d ∨ More d' = false).

Lemma scans_total F :
  (∀ d, 2 * rest_length d + 2 ≤ F → leaves d (scanJSONValue F d)) ∧
  (∀ d seen, 2 * rest_length d + 3 ≤ F → leaves d (scanJSONObject F seen d)) ∧
  (∀ d, 2 * rest_length d + 3 ≤ F → leaves d (scanJSONArray F d)).
Proof.
  induction F as [|F (IHv & IHo & IHa)]; [split_and!; intros; lia|].
  assert (∀ d, leaves d (Some (closing d))) as Hclose.
  { intros d. eexists. split; [done|]. intros d' Hd%closing_shrinks. lia. }
  split_and!.
  - intros d HF. cbn [scanJSONValue]. pose proof (Token_loop_shrinks 1 d) as Ht. fold (Token d) in Ht.
    destruct (Token d) as [tok d1|d1|e]; simpl in Ht.
    + destruct tok as [c|x|x]; [|eexists; split; [done|]; intros d' [= <-]; lia..].
      repeat case_decide.
      * destruct (IHo d1 ∅ ltac:(lia)) as (x & -> & Hx). eexists. split; [done|].
        intros d' Hd. apply Hx in Hd. lia.
      * destruct (IHa d1 ltac:(lia)) as (x & -> & Hx). eexists. split; [done|].
        intros d' Hd. apply Hx in Hd. lia.
      * by eexists.
    + eexists. split; [done|]. intros d' [= <-]. destruct Ht. auto.
    + by eexists.
  - intros d seen HF. cbn [scanJSONObject]. destruct (More d); [|done].
    pose proof (Token_loop_shrinks 1 d) as Ht. fold (Token d) in Ht.
    destruct (Token d) as [tok d1|d1|e]; simpl in Ht; [|by eexists..].
    destruct tok as [c|key|x]; [by eexists| |by eexists]. case_decide; [by eexists|].
    destruct (IHv d1 ltac:(lia)) as ([d2|e] & -> & Hx); [|by eexists].
    destruct (Hx d2 eq_refl) as [Hle Hlt]. clear Hx.
    assert (leaves d2 (scanJSONObject F ({[key]} ∪ seen) d2)) as (x & -> & Hx).
    { destruct Hlt as [Hlt|Hmore]; [apply IHo; lia|]. destruct F as [|F']; [lia|]. cbn [scanJSONObject].
      by rewrite Hmore. }
    eexists. split; [done|]. intros d' Hd. apply Hx in Hd. lia.
  - intros d HF. cbn [scanJSONArray]. destruct (More d) eqn:Hm; [|done].
    destruct (IHv d ltac:(lia)) as ([d2|e] & -> & Hx); [|by eexists].
    destruct (Hx d2 eq_refl) as [Hle Hlt]. clear Hx.
    assert (leaves d2 (scanJSONArray F d2)) as (x & -> & Hx).
    { destruct Hlt as [Hlt|Hmore]; [apply IHa; lia|]. destruct F as [|F']; [lia|]. cbn [scanJSONArray].
      by rewrite Hmore. }
    eexists. split; [done|]. intros d' Hd. apply Hx in Hd. destruct Hlt as [Hlt|Hmore]; [lia|].
    destruct Hd as [Hd [Hd'|Hd']]; [lia|]. split; [lia|by right].
Qed.

(** ** Detection and canonicalisation *)

Lemma detect_valid (raw : bytes) t :
  parse (string_of_bytes raw) = Some t →
  if unique_keys t then detectDuplicateJSONKeys raw = Ok tt
  else ∃ key, detectDuplicateJSONKeys raw = Err (errDuplicate key).
Proof.
  unfold detectDuplicateJSONKeys. set (s := string_of_bytes raw).
  unfold parse. destruct (read_value _ _ s) as [[t' rest]|] eqn:Hr; [|done].
  case_decide; [|done]. intros [= ->]. destruct (scans_ok (2 * String.length s + 1)) as (Hv & _ & _).
  specialize (Hv _ _ _ _ Hr (NewDecoder s) tokenTopValue [] (2 * String.length s + 2)
                eq_refl eq_refl ltac:(lia)).
  unfold scanned in Hv. destruct (unique_keys t); [by rewrite Hv|]. destruct Hv as [k ->]. by exists k.
Qed.

(** C35. The duplicate-key scan terminates on every input, and on a valid JSON
    document it reports an error, one that wraps [ErrBadRequest] and names a
    key, exactly when some object at any depth repeats a key (compared after
    unescaping). *)
Theorem detectDuplicateJSONKeys_spec (raw : bytes) :
  is_Some (scanJSONValue (2 * String.length (string_of_bytes raw) + 2) (NewDecoder (string_of_bytes raw))) ∧
  ∀ t, parse (string_of_bytes raw) = Some t →
    if unique_keys t then detectDuplicateJSONKeys raw = Ok tt
    else ∃ key, detectDuplicateJSONKeys raw = Err (errDuplicate key) ∧
                errors_Is (errDuplicate key) ErrBadRequest = true.
Proof.
  split.
  - set (s := string_of_bytes raw). destruct (scans_total (2 * String.length s + 2)) as (Hv & _ & _).
    destruct (Hv (NewDecoder s)) as (x & -> & _); [done|by eexists].
  - intros t Ht. pose proof (detect_valid raw t Ht) as Hd. destruct (unique_keys t); [done|].
    destruct Hd as [k ->]. by exists k.
Qed.

Lemma string_bytes s : string_of_bytes (bytes_of_string s) = s.
Proof. apply String.string_of_list_byte_of_string. Qed.

(** C36. Canonicalisation is a projection: the canonical form of a document is a
    JSON text that reads as the same value and is its own canonical form. *)
Theorem canonicaliseJSON_idempotent (raw c : bytes) :
  canonicaliseJSON raw = Ok c →
  Unmarshal (string_of_bytes c) = Unmarshal (string_of_bytes raw) ∧ canonicaliseJSON c = Ok c.
Proof.
  unfold canonicaliseJSON. destruct (Unmarshal (string_of_bytes raw)) as [v|] eqn:Hv; [|done].
  intros [= <-]. destruct (Unmarshal_good _ _ Hv) as [Hw Hh].
  rewrite string_bytes, Unmarshal_Marshal by done. done.
Qed.

(** ** Order of members *)

(** The texts differ in the order of object members only. *)
Inductive reordered : jtext → jtext → Prop :=
  | reordered_refl t : reordered t t
  | reordered_array l l' : Forall2 reordered l l' → reordered (TArray l) (TArray l')
  | reordered_object ms ms1 ms' :
      ms ≡ₚ ms1 → Forall2 (λ a b, a.1 = b.1 ∧ reordered a.2 b.2) ms1 ms' →
      reordered (TObject ms) (TObject ms').

(** [l] decodes the members [ts] one by one. *)
Definition decodes (ts : list (string * jtext)) (l : list (string * json)) : Prop :=
  Forall2 (λ kt kv, kt.1 = kv.1 ∧ decode kt.2 = Some kv.2) ts l.

Lemma obj_set_perm k v (m : list (string * json)) :
  k ∉ map fst m → obj_set k v m ≡ₚ (k, v) :: m.
Proof.
  induction m as [|[k0 v0] m IH]; [done|]. cbn [map fst obj_set]. rewrite not_elem_of_cons. intros [Hne Hk].
  destruct (String.compare k k0) eqn:Hc; [|done|].
  - by apply String.compare_eq_iff in Hc.
  - rewrite IH by done. constructor.
Qed.

Lemma decode_members_spec ts acc :
  NoDup (map fst ts) → (∀ k, k ∈ map fst ts → k ∉ map fst acc) →
  match decode_members ts acc with
  | Some ms => ∃ l, decodes ts l ∧ ms ≡ₚ acc ++ l
  | None => ¬ ∃ l, decodes ts l
  end.
Proof.
  revert acc. induction ts as [|[k t] ts IH]; intros acc Hnd Hfr; cbn [decode_members map fst] in *.
  - exists []. split; [constructor|by rewrite app_nil_r].
  - apply NoDup_cons in Hnd as [Hk Hnd]. destruct (decode t) as [v|] eqn:Ht.
    + assert (k ∉ map fst acc) as Hka by (apply Hfr; left).
      pose proof (obj_set_perm k v acc Hka) as Hp. specialize (IH (obj_set k v acc) Hnd).
      destruct (decode_members ts (obj_set k v acc)) as [ms|].
      * destruct IH as (l & Hl & Hms).
        { intros k' Hk'. rewrite Hp. cbn [map fst]. rewrite not_elem_of_cons.
          split; [by intros ->|]. apply Hfr. by right. }
        exists ((k, v) :: l). split; [by constructor|]. by rewrite Hms, Hp, <- Permutation_middle.
      * intros (l & Hl). inversion Hl; subst. apply IH; [|by eexists].
        intros k' Hk'. rewrite Hp. cbn [map fst]. rewrite not_elem_of_cons.
        split; [by intros ->|]. apply Hfr. by right.
    + intros (l & Hl). inversion Hl as [|? ? ? ? [_ Hd]]; subst. simpl in Hd. congruence.
Qed.

Lemma decode_members_sorts ts acc ms :
  StronglySorted key_lt acc → decode_members ts acc = Some ms → StronglySorted key_lt ms.
Proof.
  revert acc. induction ts as [|[k t] ts IH]; intros acc Hacc; cbn [decode_members]; [by intros [= <-]|].
  destruct (decode t); [|done]. apply IH. by apply obj_set_sorted.
Qed.

Lemma sorted_members_unique (l l' : list (string * json)) :
  StronglySorted key_lt l → StronglySorted key_lt l' → l ≡ₚ l' → l = l'.
Proof.
  intros Hl. revert l'. induction Hl as [|a l Hl IH Ha]; intros l' Hl' Hp.
  { by apply Permutation_nil_l in Hp. }
  assert (∀ x, String.compare x x ≠ Lt) as Hirr.
  { intros x Hx. pose proof (compare_Gt _ _ Hx). congruence. }
  destruct Hl' as [|b l' Hl' Hb]; [by apply Permutation_nil_r in Hp|].
  rewrite Forall_forall in Ha, Hb.
  assert (a = b) as ->.
  { assert (a ∈ b :: l') as [|Hin]%elem_of_cons by (rewrite <- Hp; left); [done|].
    assert (b ∈ a :: l) as [|Hin']%elem_of_cons by (rewrite Hp; left); [done|].
    destruct (Hirr a.1). eapply string_compare_trans; [by apply Ha|by apply Hb]. }
  f_equal. apply IH; [done|]. by apply Permutation_cons_inv in Hp.
Qed.

(** Decoding depends on the members, not on their order. *)
Lemma decode_members_reorder ts ts' :
  NoDup (map fst ts) → NoDup (map fst ts') → (∀ l, decodes ts l → ∃ l', decodes ts' l' ∧ l ≡ₚ l') →
  (∀ l, decodes ts' l → ∃ l', decodes ts l') → decode_members ts [] = decode_members ts' [].
Proof.
  intros Hn Hn' H1 H2. assert (∀ k, k ∈ map fst ts → k ∉ map fst (@nil (string * json))) as Hfr by (intros; apply not_elem_of_nil).
  assert (∀ k, k ∈ map fst ts' → k ∉ map fst (@nil (string * json))) as Hfr' by (intros; apply not_elem_of_nil).
  pose proof (decode_members_spec ts [] Hn Hfr) as Hs. pose proof (decode_members_spec ts' [] Hn' Hfr') as Hs'.
  assert (StronglySorted key_lt []) as Hnil by constructor.
  destruct (decode_members ts []) as [ms|] eqn:E, (decode_members ts' []) as [ms'|] eqn:E'; [| | |done].
  - destruct Hs as (l & Hl & Hp), Hs' as (l' & Hl' & Hp'). f_equal.
    apply sorted_members_unique; [by eapply decode_members_sorts..|].
    destruct (H1 _ Hl) as (l2 & Hl2 & Hp2). rewrite Hp, Hp', Hp2. simpl.
    assert (l2 = l') as ->; [|done]. clear -Hl' Hl2. revert l2 Hl2.
    induction Hl' as [|[k t] [k' v] ts l' [Hk Hd] _ IH]; intros l2 Hl2; inversion Hl2 as [|? [k2 v2] ? ? [Hk2 Hd2]]; subst; [done|].
    simpl in *. f_equal; [congruence|by apply IH].
  - destruct Hs as (l & Hl & _). destruct (H1 _ Hl) as (l2 & Hl2 & _). destruct Hs'. by eexists.
  - destruct Hs' as (l & Hl & _). destruct (H2 _ Hl) as (l2 & Hl2). destruct Hs. by eexists.
Qed.

Lemma decodes_perm ts ts1 l : ts ≡ₚ ts1 → decodes ts l → ∃ l1, decodes ts1 l1 ∧ l ≡ₚ l1.
Proof.
  intros Hp. revert l. induction Hp as [|x ts ts1 Hp IH|x y ts|ts ts1 ts2 _ IH1 _ IH2]; intros l Hl.
  - inversion Hl; subst. by exists [].
  - inversion Hl as [|? v ? l' Hx Hl']; subst. destruct (IH _ Hl') as (l1 & Hl1 & Hp1).
    exists (v :: l1). split; [by constructor|by constructor].
  - inversion Hl as [|? v ? l' Hx Hl']; subst. inversion Hl' as [|? v' ? l'' Hy Hl'']; subst.
    exists (v' :: v :: l''). split; [constructor; [done|by constructor]|by constructor].
  - destruct (IH1 _ Hl) as (l1 & Hl1 & Hp1). destruct (IH2 _ Hl1) as (l2 & Hl2 & Hp2).
    exists l2. split; [done|by etransitivity].
Qed.

Lemma reordered_decode t : ∀ t', unique_keys t = true → reordered t t' → decode t = decode t'.
Proof.
  revert t. apply (jtext_nested_ind (λ t, ∀ t', unique_keys t = true → reordered t t' → decode t = decode t')).
  1-4: intros; match goal with H : reordered _ _ |- _ => by inversion H end.
  - intros l IH t' Hu Hr. inversion Hr as [|? l' Hl|]; subst; [done|]. rewrite !decode_TArray. f_equal.
    cbn [unique_keys] in Hu. clear Hr. revert Hu IH.
    induction Hl as [|a b l l' Hab Hl IHl]; [done|]. cbn [forallb decode_list].
    intros [Ha Hu]%andb_true_iff [IHa IH]%Forall_cons. by rewrite (IHa b), IHl.
  - intros ms IH t' Hu Hr. inversion Hr as [| |? ms1 ms' Hp Hms]; subst; [done|]. rewrite !decode_TObject. f_equal.
    cbn [unique_keys] in Hu. apply andb_true_iff in Hu as [Hnd%bool_decide_eq_true Hall]. rewrite forallb_forall in Hall.
    assert (map fst ms1 = map fst ms') as Hkeys by (clear -Hms; induction Hms as [|? ? ? ? [? _]]; simpl; congruence).
    assert (∀ a b, a ∈ ms1 → reordered a.2 b → decode a.2 = decode b) as Hdec.
    { intros a b Ha Hab. rewrite <- Hp in Ha. rewrite Forall_forall in IH.
      apply (IH a Ha); [|done]. apply Hall. by apply list_elem_of_In. }
    assert (∀ l, decodes ms1 l ↔ decodes ms' l) as Hiff.
    { clear -Hms Hdec. induction Hms as [|a b ms1 ms' [Hk Hab] Hms IH]; [done|]. intros l.
      assert (decode a.2 = decode b.2) as Hd by (apply Hdec; [left|done]).
      assert (∀ l, decodes ms1 l ↔ decodes ms' l) as IH' by (apply IH; intros; apply Hdec; [by right|done]).
      split; inversion 1 as [|? v ? l' [Hv1 Hv2] Hl']; subst;
        (constructor; [split; congruence|by apply IH']). }
    apply decode_members_reorder.
    + done.
    + by rewrite <- Hkeys, <- Hp.
    + intros l Hl. destruct (decodes_perm _ _ _ Hp Hl) as (l1 & Hl1 & Hpl). exists l1. by rewrite <- Hiff.
    + intros l Hl%Hiff. destruct (decodes_perm ms1 ms l ltac:(by symmetry) Hl) as (l1 & Hl1 & _). by exists l1.
Qed.

(** The sign bytes do not depend on the order of object members: two
    documents that differ only in member order (at any depth), white space and
    escapes, and repeat no key, have the same canonical form. *)
Theorem canonicaliseJSON_order (raw raw' : bytes) (t t' : jtext) :
  parse (string_of_bytes raw) = Some t → parse (string_of_bytes raw') = Some t' →
  unique_keys t = true → reordered t t' → canonicaliseJSON raw = canonicaliseJSON raw'.
Proof.
  intros Ht Ht' Hu Hr. unfold canonicaliseJSON, Unmarshal. rewrite Ht, Ht'.
  by rewrite (reordered_decode t t').
Qed.

(** ** Signing *)

Section sign.
Context {C : EthCrypto} {L : CosmosLib} {CL : EthCryptoLaws C} {W : Type} {V : SignVault W} {VS : SignVaultSpec W}.

(** C34. AMINO_JSON on a vault that holds the key with the Cosmos chain.  A
    document that repeats a key is refused with an error that wraps
    [ErrBadRequest]; a text that is not JSON, or has a number beyond
    [float64], is refused; both before the vault is asked.  Every other
    document is signed, without error or panic: the signature is over the
    SHA-256 of its canonical form and recovers to the key. *)
Theorem SignAmino_signs (w : W) (path : string) (k : PrivKey) (chains : list string) (doc : bytes) :
  holds w path k chains → "cosmos" ∈ chains →
  match parse (string_of_bytes doc) with
  | None => ∃ e, SignAmino path doc w = (w, Val (Err e))
  | Some t =>
      if unique_keys t then
        match decode t with
        | None => ∃ e, SignAmino path doc w = (w, Val (Err e))
        | Some v =>
            ∃ w' sig b, SignAmino path doc w = (w', Val (Ok (sig, CompressPubkey (PublicKey k)))) ∧
              holds w' path k chains ∧ length sig = 64 ∧ (b = Byte.x00 ∨ b = Byte.x01) ∧
              Ecrecover (Sum256 (bytes_of_string (Marshal v))) (sig ++ [b]) = Ok (FromECDSAPub (PublicKey k))
        end
      else ∃ e, SignAmino path doc w = (w, Val (Err e)) ∧ errors_Is e ErrBadRequest = true
  end.
Proof.
  intros Hh Hch. unfold SignAmino, body, bind, check, call, canonicaliseJSON, Unmarshal.
  destruct (parse (string_of_bytes doc)) as [t|] eqn:Hp.
  - pose proof (detect_valid doc t Hp) as Hd. destruct (unique_keys t).
    + rewrite Hd. destruct (decode t) as [v|]; [|by eexists].
      destruct (signHash_holds w path k chains (Sum256 (bytes_of_string (Marshal v))))
        as (w' & sig & b & -> & ?); [done|done|apply length_Sum256|]. by exists w', sig, b.
    + destruct Hd as [key ->]. by eexists.
  - destruct (detectDuplicateJSONKeys doc); by eexists.
Qed.
End sign.

(** ** Witnesses *)

Module AminoChecks.
Import ToyCrypto SignerChecks.
#[local] Existing Instance toy_vault.
#[local] Existing Instance toy_vault_spec.
#[local] Existing Instance toy_cosmos.

(** Single quotes stand for double quotes. *)
Fixpoint json_text (s : string) : string :=
  match s with
  | EmptyString => ""
  | String c s' => String (if decide (c = "'"%char) then quote else c) (json_text s')
  end.

Definition doc (s : string) : bytes := bytes_of_string (json_text s).

Example canonical_forms :
  (λ s, canonicaliseJSON (doc s)) <$>
    ["{'b': 2, 'a': [3, 1.50, -0], 'n': {'y': 1e21, 'x': '<\u0041>'}}"; "{'a':1} x"; "[1e400]"]
  = [Ok (doc "{'a':[3,1.5,-0],'b':2,'n':{'x':'\u003cA\u003e','y':1e+21}}"); Err errJSON; Err errJSON].
Proof. vm_compute. reflexivity. Qed.

Example duplicates :
  (λ s, match detectDuplicateJSONKeys (doc s) with Ok _ => "" | Err e => Error e end) <$>
    ["{'a':1,'b':{'a':2}}"; "[{'k':1,'\u006b':2}]"; "[1,"; ""]
  = [""; "duplicate key in amino sign doc: k: bad request"; "EOF"; ""].
Proof. vm_compute. reflexivity. Qed.

Definition doc1 : bytes := doc "{'b': 2, 'a': 1}".
Definition doc2 : bytes := doc "{ 'a': 1, 'b': 2 }".

Lemma detectDuplicateJSONKeys_spec_witness :
  is_Some (scanJSONValue (2 * String.length (string_of_bytes (doc "[{'k':1,'k':2}]")) + 2)
             (NewDecoder (string_of_bytes (doc "[{'k':1,'k':2}]")))) ∧
  ∀ t, parse (string_of_bytes (doc "[{'k':1,'k':2}]")) = Some t →
    if unique_keys t then detectDuplicateJSONKeys (doc "[{'k':1,'k':2}]") = Ok tt
    else ∃ key, detectDuplicateJSONKeys (doc "[{'k':1,'k':2}]") = Err (errDuplicate key) ∧
                errors_Is (errDuplicate key) ErrBadRequest = true.
Proof. apply (detectDuplicateJSONKeys_spec (doc "[{'k':1,'k':2}]")). Defined.

Lemma canonicaliseJSON_idempotent_witness :
  Unmarshal (string_of_bytes (doc "{'a':1,'b':2}")) = Unmarshal (string_of_bytes doc1) ∧
  canonicaliseJSON (doc "{'a':1,'b':2}") = Ok (doc "{'a':1,'b':2}").
Proof. apply (canonicaliseJSON_idempotent doc1). vm_compute. reflexivity. Defined.

Definition one : jtext := TNumber (mkNumlit false "1" "" None).
Definition two : jtext := TNumber (mkNumlit false "2" "" None).

Lemma canonicaliseJSON_order_witness : canonicaliseJSON doc1 = canonicaliseJSON doc2.
Proof.
  apply (canonicaliseJSON_order doc1 doc2 (TObject [("b", two); ("a", one)]) (TObject [("a", one); ("b", two)])).
  - vm_compute. reflexivity.
  - vm_compute. reflexivity.
  - vm_compute. reflexivity.
  - apply (reordered_object _ [("a", one); ("b", two)]); [constructor|].
    repeat constructor.
Defined.

Lemma SignAmino_signs_witness :
  match parse (string_of_bytes doc1) with
  | None => ∃ e, SignAmino "a/b/c" doc1 tt = (tt, Val (Err e))
  | Some t =>
      if unique_keys t then
        match decode t with
        | None => ∃ e, SignAmino "a/b/c" doc1 tt = (tt, Val (Err e))
        | Some v =>
            ∃ w' sig b, SignAmino "a/b/c" doc1 tt = (w', Val (Ok (sig, CompressPubkey (PublicKey key)))) ∧
              holds w' "a/b/c" key both ∧ length sig = 64 ∧ (b = Byte.x00 ∨ b = Byte.x01) ∧
              Ecrecover (Sum256 (bytes_of_string (Marshal v))) (sig ++ [b]) = Ok (FromECDSAPub (PublicKey key))
        end
      else ∃ e, SignAmino "a/b/c" doc1 tt = (tt, Val (Err e)) ∧ errors_Is e ErrBadRequest = true
  end.
Proof.
  apply (SignAmino_signs tt "a/b/c" key both doc1); [apply toy_holds|apply cosmos_in_both].
Defined.
End AminoChecks.

