(* ===== verification/Mount.v ===== *)
(** * The plugin behind the client: Vault as documented

    What Vault's core and its API client do between [internal/vault] and
    [internal/plugin] is outside the repository.  The class [VaultMount]
    states it for a plugin mounted at [kms] and a world in which Vault is
    [online]: a request reaches the handler the plugin registered, with the
    captured name and the body as field data, and the handler's reply comes
    back over HTTP. *)

From S2P Require Import Prelude GoLib Types KeyPath Crypto Plugin PluginProps Interfaces.
From S2P Require Import VaultClient.

(** The field data of a request for [name] with a JSON body. *)
Definition request_fields (name : string) (body : gmap string any) : FieldData :=
  mkFieldData ("name" :: (map_to_list body).*1)
    (λ k, if decide (k = "name") then Some (AString name) else body !! k).

(** A value after its trip through JSON. *)
Definition json_view (v : any) : any :=
  match v with AStrings l => AList (AString <$> l) | _ => v end.

(** The status of a failed request. *)
Definition error_status (e : error) : Z :=
  if errors_Is e ErrPermissionDenied then 403
  else if errors_Is e ErrInvalidRequest then 400 else 500.

(** How a handler's reply arrives at the client. *)
Definition http_reply (reply : Reply) (r : api_error + option Secret) : Prop :=
  match reply with
  | (None, None) => r = inr None
  | (Some (DataResponse d), None) =>
      ∃ lease, r = inr (Some (mkSecret (Some (json_view <$> d)) lease))
  | (Some (ListResponse names), None) =>
      if decide (names = []) then r = inr None
      else ∃ lease, r = inr (Some (mkSecret (Some {["keys" := AList (AString <$> names)]}) lease))
  | (Some (ErrorResponse m), None) => ∃ text, r = inl (ResponseError 400 [m] text)
  | (_, Some e) => ∃ errs text, r = inl (ResponseError (error_status e) errs text)
  end.

Class VaultMount {C : EthCrypto} {S : Type} {St : LogicalStorage S} {SH : StorageHealth S}
    {E : EntryCodec} (W : Type) {A : VaultAPI W} := {
  plugin : W → backend S;
  draw : W → Ambient;
  online : W → Prop;
  online_healthy : ∀ w, online w → healthy (Storage (plugin w));
  online_Read : ∀ w name b1 reply, online w → KeyPathOk name →
    handleReadKey (keyStoragePrefix +:+ name) (Some (request_fields name ∅)) (plugin w)
      = (b1, Val reply) →
    ∃ w' r, api_Read (ToVaultPath name) w = (w', r) ∧ online w' ∧ plugin w' = b1 ∧
            http_reply reply r;
  online_Write : ∀ w name body b1 b2 exists_ reply, online w → KeyPathOk name →
    handleKeyExistence (keyStoragePrefix +:+ name) (Some (request_fields name body)) (plugin w)
      = (b1, Val (Ok exists_)) →
    (if exists_ : bool then handleKeyWrite else handleCreateKey) (draw w)
        (keyStoragePrefix +:+ name) (Some (request_fields name body)) b1 = (b2, Val reply) →
    ∃ w' r, api_Write (ToVaultPath name) body w = (w', r) ∧ online w' ∧ plugin w' = b2 ∧
            http_reply reply r;
  online_Sign : ∀ w name body b1 reply, online w → KeyPathOk name →
    handleSign (Some (request_fields name body)) (plugin w) = (b1, Val reply) →
    ∃ w' r, api_Write (ToSignPath name) body w = (w', r) ∧ online w' ∧ plugin w' = b1 ∧
            http_reply reply r }.
