(* ===== verification/EndToEnd.v ===== *)
(** * From the client to the plugin and back

    The Vault client over a mounted plugin keeps the contract of a signing
    vault ([SignVaultSpec]), so that the theorems about the signers hold for
    keys created through the client. *)

From S2P Require Import Prelude GoLib Types KeyPath Crypto Plugin KeyManager PluginModel.
From S2P Require Import PluginProps Interfaces VaultClient Mount EvmSigner CosmosSigner.
From S2P Require Import SignerTheorems.

Section endtoend.
Context {C : EthCrypto} {CL : EthCryptoLaws C} {S : Type} {St : LogicalStorage S}
        {SL : LogicalStorageLaws S} {SH : StorageHealth S} {E : EntryCodec} {EL : EntryCodecLaws E}
        {W : Type} {A : VaultAPI W} {VM : VaultMount (SH:=SH) W}.

Abbreviation client := (Client W).

(** The world is online and its vault stores [m]. *)
Definition stores (m : gmap string KeyEntry) (w : W) : Prop :=
  online w ∧ Rep m (plugin w).

Lemma stores_serves m w : stores m w → serves m (plugin w).
Proof. intros [Ho HR]. split; [done|by apply online_healthy]. Qed.

(** ** One request through the API *)

Lemma read_stores m w name :
  stores m w → KeyPathOk name →
  ∃ w' r, api_Read (ToVaultPath name) w = (w', r) ∧ stores m w' ∧
    match m !! name with
    | None => r = inr None
    | Some e => ∃ lease, r = inr (Some (mkSecret (Some (json_view <$> keyInfoData e)) lease))
    end.
Proof.
  intros Hs Hn. pose proof (stores_serves _ _ Hs) as Hsv. destruct Hs as [Ho HR].
  destruct (handleReadKey_run (keyStoragePrefix +:+ name) (Some (request_fields name ∅)) m
              (plugin w)) as (b1 & Hrun & [HR1 _]); [|done|].
  { simpl. rewrite decide_False by (by apply KeyPathOk_nonempty). by apply KeyPathOk_nonempty. }
  destruct (online_Read _ _ _ _ Ho Hn Hrun) as (w' & r & Hapi & Ho' & <- & Hr).
  exists w', r. split_and!; [done..|]. simpl in Hr. rewrite decide_False in Hr by (by apply KeyPathOk_nonempty).
  by destruct (m !! name).
Qed.

(** The body of a sign request of the client. *)
Definition sign_body (hash : bytes) (chain : string) : gmap string any :=
  <["input" := AString (hex_EncodeToString hash)]> {["chain" := AString chain]}.

Lemma sign_body_request name hash chain :
  KeyPathOk name → length hash = 32 → canonChain chain = chain → chain ≠ "" →
  sign_request (Some (request_fields name (sign_body hash chain))) name chain hash.
Proof.
  intros Hn Hl Hc Hne.
  exists (request_fields name (sign_body hash chain)), (AString (hex_EncodeToString hash)),
    (AString chain).
  split_and!; try done. apply hex_roundtrip.
Qed.

Lemma sign_stores m w name hash chain :
  stores m w → KeyPathOk name → length hash = 32 → canonChain chain = chain → chain ≠ "" →
  ∃ w' r, api_Write (ToSignPath name) (sign_body hash chain) w = (w', r) ∧ stores m w' ∧
          http_reply (sign_reply name chain hash (m !! name)) r.
Proof.
  intros Hs Hn Hl Hc Hne. pose proof (stores_serves _ _ Hs) as Hsv. destruct Hs as [Ho HR].
  destruct (handleSign_run m _ name chain hash (plugin w) (sign_body_request _ _ _ Hn Hl Hc Hne) Hsv)
    as (b1 & Hrun & [HR1 _]).
  destruct (online_Sign _ _ _ _ _ Ho Hn Hrun) as (w' & r & Hapi & Ho' & <- & Hr).
  by exists w', r.
Qed.

(** The existence check agrees with the stored map. *)
Lemma handleKeyExistence_run m b path data :
  serves m b → keyName path data ≠ "" →
  ∃ b', handleKeyExistence path data b
        = (b', Val (Ok (bool_decide (is_Some (m !! keyName path data))))) ∧ serves m b'.
Proof.
  intros [HR Hh] Hne. apply mwp_val. unfold handleKeyExistence. repeat wp_step; to_prop; [done|].
  unfold mwp, on_storage. fold (skey (keyName path data)).
  pose proof (Get_contents (skey (keyName path data)) (Storage b)) as Hc.
  pose proof (Get_Ok (skey (keyName path data)) (Storage b)) as Hg.
  destruct (healthy_Get (skey (keyName path data)) _ Hh) as [Hh' [r Hr]].
  specialize (HR (keyName path data)) as HRn. unfold bcontents in HRn.
  destruct (st_Get _ (Storage b)) as [s' r']; simpl in *; subst. repeat wp_step.
  rewrite <- (Hg _ eq_refl) in HRn. split; [|by split; [eapply Rep_same|]].
  do 2 f_equal. destruct r; [destruct HRn as (e & _ & ->)|rewrite HRn];
    symmetry; [apply bool_decide_eq_true|apply bool_decide_eq_false]; [by eexists|by intros []].
Qed.

(** The body of a create request of the client. *)
Definition create_body (chains : list string) : gmap string any :=
  {["chains" := AString (Join chains ",")]}.

Lemma create_body_request name chains :
  KeyPathOk name → Canonical chains →
  create_request (keyStoragePrefix +:+ name) (Some (request_fields name (create_body chains)))
    name chains.
Proof.
  intros Hn Hc. split_and!; [|done|].
  - simpl. by rewrite decide_False by (by apply KeyPathOk_nonempty).
  - exists chains. split; [|by apply ParseChains_Canonical_id].
    unfold requestChains. change (GetOk _ _) with (Some (AString (Join chains ","))). simpl.
    by destruct (Canonical_cases _ Hc) as [->|[->| ->]].
Qed.

Lemma create_stores m w name chains :
  stores m w → KeyPathOk name → Canonical chains →
  ((∀ e, m !! name = Some e → Chains e = []) → storable (create_map (draw w) name chains m) name) →
  ∃ w' r, api_Write (ToVaultPath name) (create_body chains) w = (w', r) ∧
    stores (create_map (draw w) name chains m) w' ∧
    http_reply (create_reply (draw w) name chains m) r.
Proof.
  intros Hs Hn Hc Hst. pose proof (stores_serves _ _ Hs) as Hsv. destruct Hs as [Ho _].
  pose proof (create_body_request name chains Hn Hc) as Hreq.
  destruct (handleKeyExistence_run m (plugin w) (keyStoragePrefix +:+ name)
              (Some (request_fields name (create_body chains))) Hsv) as (b1 & Hex & Hs1).
  { destruct Hreq as (-> & _). by apply KeyPathOk_nonempty. }
  destruct (handleCreateKey_run (draw w) _ _ _ _ _ b1 Hreq Hs1 Hst) as (b2 & Hrun & [HR2 _]).
  destruct (online_Write _ _ _ _ b2 _ (create_reply (draw w) name chains m) Ho Hn Hex)
    as (w' & r & Hapi & Ho' & <- & Hr).
  { case_bool_decide; [|done]. unfold handleKeyWrite, body, bind, fieldData, call, next.
    change (GetOk _ _) with (Some (AString (Join chains ","))). cbv beta iota. by rewrite Hrun. }
  by exists w', r.
Qed.

(** ** The client over the mount *)

(** The world of the client after an API call. *)
Lemma mwp_api_call {X} (f : W → W * X) w' x (c : client) Q :
  f (api c) = (w', x) →
  Q (mkClient w' (pubkeyCache c) (lastLookupNs c) (renewalFailures c) (vaultCalls c)) (Val x) →
  mwp (api_call f) Q c.
Proof. intros Hf HQ. unfold mwp, api_call. by rewrite Hf. Qed.

Lemma mwp_recordCall op err (c : client) Q :
  (∀ c', api c' = api c → pubkeyCache c' = pubkeyCache c → Q c' (Val tt)) →
  mwp (recordCall op err) Q c.
Proof. intros H. by apply H. Qed.

(** The client's world stores the key [k] at [path] with the allow-list
    [chains], and the public-key cache does not contradict it. *)
Definition client_holds (c : client) (path : string) (k : PrivKey) (chains : list string) : Prop :=
  ∃ m e, stores m (api c) ∧ m !! path = Some e ∧ KeyPathOk path ∧
    PrivateKey e = FromECDSA k ∧ CompressedPubKey e = CompressPubkey (PublicKey k) ∧
    Chains e = chains ∧ Canonical chains ∧
    (∀ v, pubkeyCache c !! path = Some v → v = FromECDSAPub (PublicKey k)).

Lemma client_GetPublicKey_holds c path k chains :
  client_holds c path k chains →
  ∃ c', client_GetPublicKey path c = (c', Val (Ok (FromECDSAPub (PublicKey k)))) ∧
        client_holds c' path k chains.
Proof.
  intros (m & e & Hs & He & Hn & Hpriv & Hpub & Hch & Hcan & Hcache).
  apply Validate_KeyPathOk in Hn as HV. apply mwp_val. unfold client_GetPublicKey, ValidateKeyPath.
  repeat wp_step; try congruence.
  { rewrite (Hcache _ eq_refl). split; [done|]. exists m, e. split_and!; try done.
    intros v Hv. apply Hcache. congruence. }
  destruct (read_stores m (api c) path Hs Hn) as (w' & r & Hapi & Hs' & Hr).
  eapply mwp_api_call; [done|]. rewrite He in Hr. destruct Hr as [lease ->].
  unfold requireData. repeat wp_step. apply mwp_recordCall. intros c1 Hw1 Hc1. simpl in Hw1, Hc1. wp_step.
  assert (as_string_or_zero (index (json_view <$> keyInfoData e) "compressed_pub_key")
          = b64_Encode StdEncoding (CompressPubkey (PublicKey k))) as Hfield.
  { unfold index, keyInfoData. rewrite <- Hpub, lookup_fmap.
    destruct (ImportedAt e); rewrite ?lookup_insert_ne by done; by rewrite lookup_insert_eq. }
  rewrite Hfield. repeat wp_step; to_prop.
  - exfalso. eapply b64_Encode_nonempty; [|done]. intros Hnil.
    pose proof (length_CompressPubkey (PublicKey k)) as Hl. by rewrite Hnil in Hl.
  - rewrite b64_roundtrip in *. simplify_eq. by rewrite length_CompressPubkey in *.
  - rewrite b64_roundtrip in *. simplify_eq. rewrite DecompressPubkey_Compress in *. simplify_eq.
    split; [done|]. exists m, e. simpl. split_and!; try done.
    intros v. rewrite lookup_insert_eq. by intros [= <-].
  - rewrite b64_roundtrip in *. simplify_eq. by rewrite DecompressPubkey_Compress in *.
  - by rewrite b64_roundtrip in *.
Qed.

Lemma sign_reply_ok e k chain hash name :
  PrivateKey e = FromECDSA k → chain ∈ Chains e → length hash = 32 →
  ∃ r s v, sign_reply name chain hash (Some e)
    = (Some (DataResponse (<["r" := AString (hex_EncodeToString r)]>
                          (<["s" := AString (hex_EncodeToString s)]> ∅))), None) ∧
    length r = 32 ∧ length s = 32 ∧ (v = Byte.x00 ∨ v = Byte.x01) ∧
    Sign hash k = Ok (r ++ s ++ [v]) ∧
    Ecrecover hash (r ++ s ++ [v]) = Ok (FromECDSAPub (PublicKey k)).
Proof.
  intros Hpriv Hch Hlen. destruct (Sign_digest hash k Hlen) as (r & s & v & HS & Hr & Hs & Hv & Hrec).
  exists r, s, v. split_and!; try done. unfold sign_reply.
  rewrite decide_True by done. rewrite Hpriv, ToECDSA_FromECDSA, HS, (take_app_length' r) by done.
  by rewrite (drop_app_length' r), (take_app_length' s), !length_app, Hr, Hs by done.
Qed.

Lemma hex_nonempty b : length b = 32 → hex_EncodeToString b ≠ "".
Proof. by destruct b. Qed.

Lemma hex_result_Encode b : hex_result (hex_EncodeToString b) = Ok b.
Proof. unfold hex_result. by rewrite hex_roundtrip. Qed.

Lemma client_Sign_holds c path k chains hash chain :
  client_holds c path k chains → length hash = 32 → chain ∈ chains →
  ∃ c' r s v, client_Sign path hash chain c = (c', Val (Ok (SetBytes r, SetBytes s))) ∧
    client_holds c' path k chains ∧ length r = 32 ∧ length s = 32 ∧ (v = Byte.x00 ∨ v = Byte.x01) ∧
    Sign hash k = Ok (r ++ s ++ [v]) ∧
    Ecrecover hash (r ++ s ++ [v]) = Ok (FromECDSAPub (PublicKey k)).
Proof.
  intros (m & e & Hs & He & Hn & Hpriv & Hpub & Hch & Hcan & Hcache) Hlen Hin.
  assert (canonChain chain = chain) as Hc by (by eapply Canonical_canonChain).
  assert (chain ≠ "") as Hne by (by destruct (Canonical_members _ _ Hcan Hin) as [->| ->]).
  apply Validate_KeyPathOk in Hn as HV.
  destruct (sign_stores m (api c) path hash chain Hs Hn Hlen Hc Hne) as (w' & x & Hapi & Hs' & Hr).
  rewrite <- Hch in Hin. destruct (sign_reply_ok e k chain hash path Hpriv Hin Hlen)
    as (r & s & v & Hreply & Lr & Ls & Hv & HS & Hrec).
  rewrite He, Hreply in Hr. destruct Hr as [lease ->].
  assert (∃ c', client_Sign path hash chain c = (c', Val (Ok (SetBytes r, SetBytes s))) ∧
    client_holds c' path k chains) as (c' & Hrun & Hh'); [|by exists c', r, s, v].
  apply mwp_val. unfold client_Sign, ValidateKeyPath. fold (canonChain chain). rewrite Hc.
  repeat wp_step; to_prop; try congruence.
  eapply mwp_api_call; [exact Hapi|]. unfold requireData. repeat wp_step.
  apply mwp_recordCall. intros c1 Hw1 Hc1. simpl in Hw1, Hc1. wp_step.
  assert (as_string_or_zero (index (json_view <$> <["r":=AString (hex_EncodeToString r)]>
            (<["s":=AString (hex_EncodeToString s)]> ∅)) "r") = hex_EncodeToString r) as -> by done.
  assert (as_string_or_zero (index (json_view <$> <["r":=AString (hex_EncodeToString r)]>
            (<["s":=AString (hex_EncodeToString s)]> ∅)) "s") = hex_EncodeToString s) as -> by done.
  repeat wp_step; rewrite ?hex_result_Encode in *; try done.
  - exfalso. by rewrite !bool_decide_eq_false_2 in * by (by apply hex_nonempty).
  - simplify_eq. split; [done|]. exists m, e. by rewrite Hc1.
Qed.

(** The client keeps the contract of a signing vault. *)
#[export] Instance client_SignVaultSpec : SignVaultSpec client := {|
  holds := client_holds;
  Sign_holds := client_Sign_holds;
  GetPublicKey_holds := client_GetPublicKey_holds |}.

Lemma client_GetKeyChains_holds c path k chains :
  client_holds c path k chains →
  ∃ c', client_GetKeyChains path c = (c', Val (Ok chains)) ∧ client_holds c' path k chains.
Proof.
  intros (m & e & Hs & He & Hn & Hpriv & Hpub & Hch & Hcan & Hcache).
  apply Validate_KeyPathOk in Hn as HV. apply mwp_val. unfold client_GetKeyChains, ValidateKeyPath.
  destruct (read_stores m (api c) path Hs Hn) as (w' & r & Hapi & Hs' & Hr).
  repeat wp_step; try congruence.
  eapply mwp_api_call; [done|]. rewrite He in Hr. destruct Hr as [lease ->].
  unfold requireData. repeat wp_step. apply mwp_recordCall. intros c1 Hw1 Hc1.
  simpl in Hw1, Hc1. wp_step.
  assert (decodeStringSlice (index (json_view <$> keyInfoData e) "chains") = Ok chains) as ->.
  { unfold index, keyInfoData. rewrite lookup_fmap.
    destruct (ImportedAt e); rewrite ?lookup_insert_ne by done; rewrite lookup_insert_eq; simpl;
      rewrite Hch; destruct (Canonical_cases _ Hcan) as [->|[->| ->]]; done. }
  repeat wp_step; simplify_eq. split; [done|]. exists m, e. by rewrite Hc1.
Qed.

(** Creating a key at a free name makes the client hold it. *)
Lemma client_CreateKey_holds c path k chains m :
  stores m (api c) → m !! path = None → KeyPathOk path → Canonical chains →
  GenerateKey (draw (api c)) = Ok k → pubkeyCache c !! path = None →
  storable (create_map (draw (api c)) path chains m) path →
  ∃ c', client_CreateKey path chains c = (c', Val (Ok tt)) ∧ client_holds c' path k chains.
Proof.
  intros Hs Hnone Hn Hcan Hgen Hcache Hst. apply Validate_KeyPathOk in Hn as HV.
  destruct (create_stores m (api c) path chains Hs Hn Hcan (λ _, Hst)) as (w' & r & Hapi & Hs' & Hr).
  unfold create_reply, create_map in *. rewrite Hnone, Hgen in *. rewrite lookup_insert_eq in *.
  rewrite decide_True in Hr by done. destruct Hr as [lease ->].
  apply mwp_val. unfold client_CreateKey, ValidateKeyPath. repeat wp_step; try congruence.
  eapply mwp_api_call; [exact Hapi|]. cbv beta iota. repeat wp_step. apply mwp_recordCall. intros c1 Hw1 Hc1.
  simpl in Hw1, Hc1. repeat wp_step. split; [done|].
  eexists _, _. rewrite Hw1, Hc1, Hcache. split_and!; [done|apply lookup_insert_eq|done..].
Qed.

(** Creating it again, with the same chains, changes nothing. *)
Lemma client_CreateKey_again c path k chains :
  client_holds c path k chains →
  ∃ c', client_CreateKey path chains c = (c', Val (Ok tt)) ∧ client_holds c' path k chains.
Proof.
  intros (m & e & Hs & He & Hn & Hpriv & Hpub & Hch & Hcan & Hcache).
  assert (Chains e ≠ []) as Hne by (destruct Hcan as (? & ? & _ & ?); congruence).
  apply Validate_KeyPathOk in Hn as HV.
  destruct (create_stores m (api c) path chains Hs Hn Hcan) as (w' & r & Hapi & Hs' & Hr).
  { intros Hnil. by specialize (Hnil _ He). }
  unfold create_reply, create_map in *. rewrite He in *.
  rewrite (decide_False (P:=Chains e = [])) in * by done. rewrite He, decide_True in Hr by (by rewrite Hch).
  destruct Hr as [lease ->].
  apply mwp_val. unfold client_CreateKey, ValidateKeyPath. repeat wp_step; try congruence.
  eapply mwp_api_call; [exact Hapi|]. cbv beta iota. repeat wp_step. apply mwp_recordCall.
  intros c1 Hw1 Hc1. simpl in Hw1, Hc1. repeat wp_step. split; [done|].
  exists m, e. rewrite Hw1, Hc1. split_and!; done.
Qed.
End endtoend.
