(* ===== verification/EndToEndTheorems.v ===== *)
(** * End-to-end theorems

    Keys created through the Vault client sign correctly through the signers,
    for every Vault that behaves as [VaultMount] states; and an in-memory
    Vault that does. *)

From S2P Require Import Prelude GoLib Types KeyPath Crypto Plugin KeyManager PluginModel.
From S2P Require Import PluginProps PluginTheorems Interfaces Sha256 VaultClient Mount EvmSigner.
From S2P Require Import CosmosSigner SignerTheorems EndToEnd.

Section theorems.
Context {C : EthCrypto} {CL : EthCryptoLaws C} {S : Type} {St : LogicalStorage S}
        {SL : LogicalStorageLaws S} {SH : StorageHealth S} {E : EntryCodec} {EL : EntryCodecLaws E}
        {W : Type} {A : VaultAPI W} {VM : VaultMount (SH:=SH) W}.

Abbreviation client := (Client W).

(** C7. End to end, EVM: after [Client.CreateKey] at a free path with an
    allow-list that has "evm", [SignPersonalMessage] through the client, the
    HTTP API and the plugin returns a signature of the EIP-191 hash that
    recovers to the created key, and the client reports that key's public key
    and its chains. *)
Theorem created_key_signs_messages (c : client) (path : string) (k : PrivKey)
    (chains : list string) (m : gmap string KeyEntry) (msg : bytes) :
  stores m (api c) → m !! path = None → KeyPathOk path → Canonical chains → "evm" ∈ chains →
  GenerateKey (draw (api c)) = Ok k → pubkeyCache c !! path = None →
  storable (create_map (draw (api c)) path chains m) path →
  ∃ c1 c2 c3 c4 sig,
    client_CreateKey path chains c = (c1, Val (Ok tt)) ∧
    SignPersonalMessage path msg c1 = (c2, Val (Ok sig)) ∧
    recovers (Keccak256 (personalPrefix (length msg) ++ msg)) k sig ∧
    client_GetPublicKey path c2 = (c3, Val (Ok (FromECDSAPub (PublicKey k)))) ∧
    client_GetKeyChains path c3 = (c4, Val (Ok chains)).
Proof.
  intros Hs Hnone Hn Hcan Hevm Hgen Hcache Hst.
  destruct (client_CreateKey_holds c path k chains m Hs Hnone Hn Hcan Hgen Hcache Hst)
    as (c1 & Hrun1 & Hh1).
  destruct (signWithRecovery_holds (VS:=client_SignVaultSpec) c1 path k chains _ Hh1
              (length_Keccak256 (personalPrefix (length msg) ++ msg)) Hevm)
    as (c2 & sig & Hrun2 & Hh2 & Hrec).
  destruct (client_GetPublicKey_holds _ _ _ _ Hh2) as (c3 & Hrun3 & Hh3).
  destruct (client_GetKeyChains_holds _ _ _ _ Hh3) as (c4 & Hrun4 & _).
  exists c1, c2, c3, c4, sig. by split_and!.
Qed.

Lemma sign_reply_denied e chain hash name :
  chain ∉ Chains e → ∃ m, sign_reply name chain hash (Some e) = (Some (ErrorResponse m), Some errPermissionDenied).
Proof. intros Hch. unfold sign_reply. rewrite decide_False by done. eauto. Qed.

(** C9. End to end, denial: for a stored key whose allow-list lacks the
    requested chain, [Client.Sign] fails with an error that wraps
    [types.ErrPermission], whatever the hash; the vault's keys are
    unchanged. *)
Theorem chain_not_allowed_is_denied (c : client) (path chain : string) (hash : bytes)
    (m : gmap string KeyEntry) (e : KeyEntry) :
  stores m (api c) → m !! path = Some e → KeyPathOk path → length hash = 32 →
  canonChain chain = chain → chain ≠ "" → chain ∉ Chains e →
  ∃ c' err, client_Sign path hash chain c = (c', Val (Err err)) ∧
    errors_Is err ErrPermission = true ∧ stores m (api c').
Proof.
  intros Hs He Hn Hlen Hc Hne Hch. apply Validate_KeyPathOk in Hn as HV.
  destruct (sign_stores m (api c) path hash chain Hs Hn Hlen Hc Hne) as (w' & x & Hapi & Hs' & Hr).
  destruct (sign_reply_denied e chain hash path Hch) as [msg Hreply].
  rewrite He, Hreply in Hr. destruct Hr as (errs & text & ->). simpl in Hapi.
  change (error_status errPermissionDenied) with 403%Z in Hapi.
  assert (∃ c', client_Sign path hash chain c
      = (c', Val (Err (Errorf_w "" errPermission (": " +:+ text)))) ∧ stores m (api c'))
    as (c' & Hrun & Hst); [|by eexists c', _].
  apply mwp_val. unfold client_Sign, ValidateKeyPath. fold (canonChain chain). rewrite Hc.
  repeat wp_step; to_prop; try congruence.
  eapply mwp_api_call; [exact Hapi|]. unfold requireData. cbv beta iota. repeat wp_step.
  apply mwp_recordCall. intros c1 Hw1 Hc1. simpl in Hw1, Hc1. wp_step. split; [done|]. by rewrite Hw1.
Qed.
End theorems.

(** ** An in-memory Vault *)

Module MemServer.
Import ToyCrypto MemVault.

Definition http_of (reply : Reply) : api_error + option Secret :=
  match reply with
  | (None, None) => inr None
  | (Some (DataResponse d), None) => inr (Some (mkSecret (Some (json_view <$> d)) ""))
  | (Some (ListResponse names), None) =>
      if decide (names = []) then inr None
      else inr (Some (mkSecret (Some {["keys" := AList (AString <$> names)]}) ""))
  | (Some (ErrorResponse m), None) => inl (ResponseError 400 [m] m)
  | (_, Some e) => inl (ResponseError (error_status e) [Error e] (Error e))
  end.

Lemma http_of_reply reply : http_reply reply (http_of reply).
Proof.
  destruct reply as [[[]|] [e|]]; simpl; try case_decide; eauto.
Qed.

(** Storage that never fails. *)
Definition vault_store : Type := gmap string bytes.

#[export] Instance store_storage : LogicalStorage vault_store := {|
  st_Get k s := (s, Ok (s !! k));
  st_Put k v s := (<[k := v]> s, Ok tt);
  st_Delete k s := (delete k s, Ok tt);
  st_List p s := (s, Ok (mem_list p s)) |}.

#[export] Instance store_laws : LogicalStorageLaws vault_store.
Proof.
  refine {| contents := λ s : vault_store, s : gmap string bytes |}; simpl; intros; simplify_eq; try done.
  split; [|intros n; apply elem_of_mem_list].
  unfold mem_list. rewrite sort_Strings_perm. apply NoDup_elements.
Defined.

#[export] Instance store_health : StorageHealth vault_store.
Proof. refine {| healthy _ := True |}; simpl; eauto. Defined.

(** Its state: the plugin's backend, the next key and the clock. *)
Record server := mkServer { sv_backend : backend vault_store; sv_next : byte; sv_clock : Z }.

(** Run a handler and send its reply. *)
Definition respond (w : server) (run : backend vault_store * outcome Reply)
    : server * (api_error + option Secret) :=
  (mkServer run.1 (sv_next w) (sv_clock w),
   match run.2 with
   | Val reply => http_of reply
   | Panic _ => inl (ResponseError 500 [] "internal error")
   end).

(** It generates keys from its counter and stamps them with the epoch. *)
Definition env_of (w : server) : Ambient := mkAmbient toy (Ok (sv_next w)) 0.

Definition server_Read (path : string) (w : server) : server * (api_error + option Secret) :=
  match CutPrefix path "kms/keys/" with
  | Some name =>
      respond w (handleReadKey (keyStoragePrefix +:+ name) (Some (request_fields name ∅)) (sv_backend w))
  | None => (w, inr None)
  end.

Definition server_Write (path : string) (data : gmap string any) (w : server)
    : server * (api_error + option Secret) :=
  match CutPrefix path "kms/keys/", CutPrefix path "kms/sign/" with
  | Some name, _ =>
      let fd := Some (request_fields name data) in
      match handleKeyExistence (keyStoragePrefix +:+ name) fd (sv_backend w) with
      | (b1, Val (Ok ex)) =>
          respond w ((if ex : bool then handleKeyWrite else handleCreateKey) (env_of w)
                       (keyStoragePrefix +:+ name) fd b1)
      | (b1, _) => (mkServer b1 (sv_next w) (sv_clock w), inl (ResponseError 500 [] "internal error"))
      end
  | None, Some name => respond w (handleSign (Some (request_fields name data)) (sv_backend w))
  | None, None => (w, inl (ResponseError 404 [] "no handler for route"))
  end.

Definition server_List (path : string) (w : server) : server * (api_error + option Secret) :=
  match CutPrefix path "kms/keys/" with
  | Some name => respond w (handleListKeys (Some (request_fields name ∅)) (sv_backend w))
  | None => respond w (handleListKeys (Some (mkFieldData [] (λ _, None))) (sv_backend w))
  end.

#[export] Instance server_api : VaultAPI server := {|
  api_Write := server_Write;
  api_Read := server_Read;
  api_List := server_List;
  api_Health w := (w, None);
  api_LookupSelf w := (w, inr (Some (mkSecret (Some {["renewable" := ABool true]}) "")));
  api_RenewSelf w := (w, inr (mkSecret None ""));
  api_Now := sv_clock;
  api_Sleep ns w := mkServer (sv_backend w) (sv_next w) (sv_clock w + ns) |}.

#[export] Instance server_mount : VaultMount server.
Proof.
  refine {| plugin := sv_backend; draw := env_of; online _ := True |}; unfold ToVaultPath, ToSignPath.
  - done.
  - intros w name b1 reply _ _ Hrun.
    exists (mkServer b1 (sv_next w) (sv_clock w)), (http_of reply).
    split_and!; [|done..|apply http_of_reply].
    change (server_Read ("kms/keys/" +:+ name) w = (mkServer b1 (sv_next w) (sv_clock w), http_of reply)).
    unfold server_Read. by rewrite CutPrefix_app, Hrun.
  - intros w name data b1 b2 ex reply _ _ Hex Hrun.
    exists (mkServer b2 (sv_next w) (sv_clock w)), (http_of reply).
    split_and!; [|done..|apply http_of_reply].
    change (server_Write ("kms/keys/" +:+ name) data w
            = (mkServer b2 (sv_next w) (sv_clock w), http_of reply)).
    unfold server_Write. by rewrite CutPrefix_app, Hex, Hrun.
  - intros w name data b1 reply _ _ Hrun.
    exists (mkServer b1 (sv_next w) (sv_clock w)), (http_of reply).
    split_and!; [|done..|apply http_of_reply].
    change (server_Write ("kms/sign/" +:+ name) data w
            = (mkServer b1 (sv_next w) (sv_clock w), http_of reply)).
    unfold server_Write. rewrite CutPrefix_app. simpl. by rewrite Hrun.
Defined.
End MemServer.

Module EndToEndChecks.
Import ToyCrypto MemVault MemServer PluginWitness.

Definition fresh_server : server := mkServer (mkBackend ∅ (∅ : vault_store)) Byte.x07 0.
Definition fresh : Client server := mkClient fresh_server ∅ 0 0 None.

Lemma fresh_stores : stores ∅ (api fresh).
Proof. split; [done|]. by apply Rep_empty. Qed.

Lemma fresh_storable :
  storable (create_map (draw (api fresh)) alice ["cosmos"; "evm"] ∅) alice.
Proof. apply alice_storable. Qed.

Lemma created_key_signs_messages_witness :
  ∃ c1 c2 c3 c4 sig,
    client_CreateKey alice ["cosmos"; "evm"] fresh = (c1, Val (Ok tt)) ∧
    SignPersonalMessage alice [Byte.x68] c1 = (c2, Val (Ok sig)) ∧
    recovers (Keccak256 (personalPrefix 1 ++ [Byte.x68])) (Byte.x07 : PrivKey) sig ∧
    client_GetPublicKey alice c2 = (c3, Val (Ok (FromECDSAPub (PublicKey (Byte.x07 : PrivKey))))) ∧
    client_GetKeyChains alice c3 = (c4, Val (Ok ["cosmos"; "evm"])).
Proof.
  apply (created_key_signs_messages (C:=toy) (VM:=server_mount) fresh alice Byte.x07
           ["cosmos"; "evm"] ∅ [Byte.x68]).
  - apply fresh_stores.
  - done.
  - apply KeyPathOk_alice.
  - by exists true, true.
  - set_solver.
  - done.
  - done.
  - apply fresh_storable.
Defined.

(** A vault with one key that may sign for Cosmos only. *)
Definition cosmos_entry : KeyEntry := newEntry (C:=toy) Byte.x07 ["cosmos"] 0.

Definition cosmos_client : Client server :=
  mkClient (mkServer (mkBackend ∅ (<[skey alice := serialize cosmos_entry]> ∅ : vault_store)) Byte.x07 0)
    ∅ 0 0 None.

Lemma cosmos_stores : stores {[alice := cosmos_entry]} (api cosmos_client).
Proof.
  split; [done|]. eapply (Rep_insert ∅ (mkBackend ∅ (∅ : vault_store)));
    [by apply Rep_empty|by vm_compute|done].
Qed.

Lemma chain_not_allowed_is_denied_witness :
  ∃ c' err, client_Sign alice digest "evm" cosmos_client = (c', Val (Err err)) ∧
    errors_Is err ErrPermission = true ∧ stores {[alice := cosmos_entry]} (api c').
Proof.
  apply (chain_not_allowed_is_denied (C:=toy) (VM:=server_mount) cosmos_client alice "evm" digest
           {[alice := cosmos_entry]} cosmos_entry).
  - apply cosmos_stores.
  - by rewrite lookup_singleton_eq.
  - apply KeyPathOk_alice.
  - done.
  - done.
  - done.
  - simpl. set_solver.
Defined.
End EndToEndChecks.
