(* ===== verification/ClientTheorems.v ===== *)
(** * Theorems about the Vault client

    Error classification, the public-key cache, start-up and token renewal,
    for an arbitrary Vault API. *)

From stdpp Require Import relations.
From S2P Require Import Prelude GoLib Types KeyPath Crypto Interfaces VaultClient Mount PluginModel.
From S2P Require Import PluginTheorems EndToEndTheorems.

(** ** Errors *)

(** [mapVaultErr] classifies by HTTP status alone: 403, 404 and 400 become
    errors that wrap exactly [ErrPermission], [ErrNotFound] and [ErrBadRequest];
    every other response and every transport error passes through unchanged
    and wraps no sentinel; and [recordCall] labels the four classes
    accordingly. *)
Theorem mapVaultErr_classifies (path : string) (e : api_error) :
  let code := match e with ResponseError code _ _ => Some code | OtherError _ => None end in
  wraps (mapVaultErr path e)
  = (if decide (code = Some 403%Z) then [ErrPermission]
     else if decide (code = Some 404%Z) then [ErrNotFound]
     else if decide (code = Some 400%Z) then [ErrBadRequest] else []) ∧
  (code ∉ [Some 403%Z; Some 404%Z; Some 400%Z] → mapVaultErr path e = api_err e) ∧
  callStatus (Some (mapVaultErr path e))
  = (if decide (code = Some 403%Z) then "permission_denied"
     else if decide (code = Some 404%Z) then "not_found" else "error").
Proof.
  destruct e as [code errs text|text]; simpl; [|by split_and!].
  destruct (Z.eqb_spec code 403) as [->|H3]; [split_and!; try done; set_solver|].
  destruct (Z.eqb_spec code 404) as [->|H4]; [split_and!; try done; set_solver|].
  destruct (Z.eqb_spec code 400) as [->|H0]; [split_and!; try done; set_solver|].
  repeat (rewrite decide_False by congruence). by split_and!.
Qed.

Section cache.
Context {C : EthCrypto} {W : Type} {A : VaultAPI W}.

Abbreviation client := (Client W).

(** ** The public-key cache *)

(** One call of an exported method, or one step of the renewal goroutine. *)
Inductive client_step (c : client) : client → Prop :=
  | step_Health : client_step c (client_Health c).1
  | step_CreateKey path chains : client_step c (client_CreateKey path chains c).1
  | step_GetPublicKey path : client_step c (client_GetPublicKey path c).1
  | step_Sign path hash chain : client_step c (client_Sign path hash chain c).1
  | step_GetKeyChains path : client_step c (client_GetKeyChains path c).1
  | step_UpdateKeyChains path add : client_step c (client_UpdateKeyChains path add c).1
  | step_ListKeys prefix : client_step c (client_ListKeys prefix c).1
  | step_renewal oor ev st : client_step c (renewal_step oor ev (c, st)).1.

Lemma mwp_api_call_cache {X} (f : W → W * X) (c : client) Q :
  (∀ c' x, pubkeyCache c' = pubkeyCache c → Q c' (Val x)) → mwp (api_call f) Q c.
Proof. intros H. unfold mwp, api_call. destruct (f (api c)) as [w x]. by apply H. Qed.

Lemma mwp_recordCall_cache op err (c : client) Q :
  (∀ c', pubkeyCache c' = pubkeyCache c → Q c' (Val tt)) → mwp (recordCall op err) Q c.
Proof. intros H. by apply H. Qed.

Ltac client_wp :=
  unfold requireData;
  repeat first [ wp_step | apply mwp_api_call_cache; intros | apply mwp_recordCall_cache; intros ];
  try congruence.
(** Chain the cache equations of the calls made so far. *)
Ltac cache_eqs := repeat match goal with H : pubkeyCache _ = _ |- _ => rewrite H; clear H end.

Lemma renewal_step_cache oor ev (c : client) st :
  pubkeyCache (renewal_step oor ev (c, st)).1 = pubkeyCache c.
Proof.
  destruct st, ev; simpl; try done.
  - unfold renewal_lookup. by destruct (api_LookupSelf (api c)) as [w [|[]]].
  - unfold renewal_tick. destruct (api_RenewSelf (api c)) as [w []]; [done|].
    by destruct (api_LookupSelf w) as [w' [|[]]].
Qed.

Lemma GetPublicKey_cache_grows path (c : client) :
  mwp (client_GetPublicKey path) (λ c' o, pubkeyCache c ⊆ pubkeyCache c' ∧
    ∀ v, o = Val (Ok v) → pubkeyCache c' !! path = Some v ∧ KeyPathOk path) c.
Proof.
  unfold client_GetPublicKey, ValidateKeyPath. client_wp.
  all: repeat match goal with H : pubkeyCache _ = _ |- _ => simpl in *; rewrite H; clear H end.
  all: split; [first [done | by apply insert_subseteq]|].
  all: intros v [= <-]; (split; [first [done | apply lookup_insert_eq]|by apply Validate_KeyPathOk]).
Qed.

Lemma client_step_cache_grows (c c' : client) : client_step c c' → pubkeyCache c ⊆ pubkeyCache c'.
Proof.
  assert (∀ X (m : M client X), mwp m (λ c' _, pubkeyCache c ⊆ pubkeyCache c') c →
            pubkeyCache c ⊆ pubkeyCache (m c).1) as Hm by done.
  destruct 1; try apply Hm.
  - unfold client_Health. client_wp; by cache_eqs.
  - unfold client_CreateKey, ValidateKeyPath. client_wp; try done; by cache_eqs.
  - eapply mwp_mono; [apply GetPublicKey_cache_grows|]. by intros ? ? [? _].
  - unfold client_Sign, ValidateKeyPath. client_wp; try done; by cache_eqs.
  - unfold client_GetKeyChains, ValidateKeyPath. client_wp; try done; by cache_eqs.
  - unfold client_UpdateKeyChains, ValidateKeyPath. client_wp; try done; by cache_eqs.
  - unfold client_ListKeys. client_wp; try done; by cache_eqs.
  - by rewrite renewal_step_cache.
Qed.

(** C39. The public-key cache memoises for the lifetime of the client: once
    [GetPublicKey] has returned a key for a path, it returns the same bytes
    after any further calls and renewal steps, without contacting Vault again,
    whatever has become of the key there. *)
Theorem GetPublicKey_memoised (c c1 c2 : client) (path : string) (v : bytes) :
  client_GetPublicKey path c = (c1, Val (Ok v)) → rtc client_step c1 c2 →
  client_GetPublicKey path c2 = (c2, Val (Ok v)).
Proof.
  intros Hrun Hsteps.
  destruct (mwp_run _ _ _ _ _ (GetPublicKey_cache_grows path c) Hrun) as [_ Hv].
  destruct (Hv _ eq_refl) as [Hc Hn%Validate_KeyPathOk].
  assert (pubkeyCache c2 !! path = Some v) as Hc2.
  { clear Hrun Hv. induction Hsteps as [|x y z Hs _ IH]; [done|].
    apply IH. eapply lookup_weaken; [done|by apply client_step_cache_grows]. }
  unfold client_GetPublicKey, ValidateKeyPath, body, bind, check, get. rewrite Hn, Hc2. done.
Qed.

(** ** Token renewal *)

Lemma renewalInterval_floor oor info : (renewal_floor ≤ renewalInterval oor info)%Z.
Proof.
  unfold renewalInterval. destruct info as [[[d|] l]|]; try done.
  case_match; to_prop; [done|lia].
Qed.

(** A TTL that arrives as a [json.Number] is not read: the interval is the
    floor, whatever the TTL. *)
Lemma renewalInterval_json_number oor ttl d lease :
  d !! "ttl" = Some (ANumber ttl) → renewalInterval oor (Some (mkSecret (Some d) lease)) = renewal_floor.
Proof. intros Hd. unfold renewalInterval, index. by rewrite Hd. Qed.

Lemma backoff_spec n : backoff n = (Z.min (2 ^ Z.of_nat n) 30 * second)%Z.
Proof.
  unfold backoff. do 6 (destruct n as [|n]; [done|]). simpl.
  assert (30 ≤ 2 ^ Z.of_nat (S (S (S (S (S (S n)))))))%Z; [|lia].
  transitivity (2 ^ 6)%Z; [done|]. apply Z.pow_le_mono_r; lia.
Qed.

(** How a goroutine that started on [c0] can be paced: the attempts so far are
    the failures it reported, a wait is the capped power of two, a tick is at
    least the floor apart. *)
Definition paced (c0 : client) (cs : client * renewal) : Prop :=
  match cs.2 with
  | Looking n => renewalFailures cs.1 = renewalFailures c0 + n
  | BackingOff n d =>
      renewalFailures cs.1 = renewalFailures c0 + n ∧
      ∃ k, n = S k ∧ d = (Z.min (2 ^ Z.of_nat k) 30 * second)%Z
  | Ticking i => (renewal_floor ≤ i)%Z ∧ renewalFailures c0 ≤ renewalFailures cs.1
  | Returned => renewalFailures c0 ≤ renewalFailures cs.1
  end.

Lemma renewal_step_paced oor ev c0 cs : paced c0 cs → paced c0 (renewal_step oor ev cs).
Proof.
  destruct cs as [c st]. destruct st as [n|n d|i|], ev; unfold paced; simpl; try lia.
  - intros Hf. unfold renewal_lookup. destruct (api_LookupSelf (api c)) as [w [e|[info|]]];
      cbn [fst snd renewalFailures invokeRenewalFailure storeLookup set_api].
    + split; [lia|]. exists n. split; [done|apply backoff_spec].
    + pose proof (renewalInterval_floor oor (Some info)).
      match goal with |- context [if ?b then Ticking _ else Returned] => destruct b end; [split; [done|lia]|lia].
    + split; [lia|]. exists n. split; [done|apply backoff_spec].
  - intros [Hi Hf]. unfold renewal_tick. destruct (api_RenewSelf (api c)) as [w [e|s]]; simpl; [lia|].
    destruct (api_LookupSelf w) as [w' [e|[info|]]];
      cbn [fst snd renewalFailures invokeRenewalFailure storeLookup set_api]; [lia| |lia].
    split; [exact (renewalInterval_floor oor (Some info))|lia].
Qed.

(** Pacing of token renewal, for every sequence of timer events and API
    answers: before the first successful lookup the waits are 1, 2, 4, 8, 16,
    30, 30, ... seconds and each failed attempt is reported to the failure
    hook exactly once; afterwards ticks are never closer than 30 seconds,
    whatever TTL Vault reports (overflow of the duration included). *)
Theorem renewalLoop_paced (oor : Z) (evs : list wake) (c : client) :
  paced c (renewalLoop oor evs c).
Proof.
  unfold renewalLoop.
  assert (paced c (c, Looking 0)) as H0 by (unfold paced; simpl; lia).
  revert H0. generalize (c, Looking 0) as cs. induction evs as [|ev evs IH]; intros cs Hcs; simpl; [done|].
  by apply IH, renewal_step_paced.
Qed.
End cache.

Module ClientChecks.
Import ToyCrypto MemVault MemServer PluginWitness EndToEndChecks.

(** The client of a vault with one Cosmos key, after reading its public key. *)
Definition reading_client : Client server := (client_GetPublicKey alice cosmos_client).1.

Lemma GetPublicKey_memoised_witness :
  client_GetPublicKey alice (client_Sign alice digest "cosmos" reading_client).1
  = ((client_Sign alice digest "cosmos" reading_client).1,
     Val (Ok (FromECDSAPub (Byte.x07 : PubKey)))).
Proof.
  apply (GetPublicKey_memoised cosmos_client reading_client).
  - vm_compute. reflexivity.
  - apply rtc_once, step_Sign.
Defined.
End ClientChecks.
