(* ===== verification/Config.v ===== *)
(** * Configuration: [internal/config/config.go]

    The configuration struct, its defaults, loading and validation.  Viper is
    third-party: [Viper] records how the program sets it up, and the class
    [ViperLib] reads the file and fills the struct.  [strconv.Quote], which
    appears in error texts only, is a parameter. *)

From Stdlib Require Import SpecFloat.
From S2P Require Import Prelude GoLib.

(** [os.LookupEnv] *)
Definition Env : Type := string → option string.

Definition Getenv (env : Env) (key : string) : string := default "" (env key).

Record Config := mkConfig {
  Vault_Addr : string;
  Vault_Token : string;
  Gateway_Addr : string;
  Gateway_Token : string;
  TLSCertFile : string;
  TLSKeyFile : string;
  RateLimit : spec_float;
  RateBurst : Z;
  HealthRateLimit : spec_float;
  HealthRateBurst : Z;
  ChainsCacheTTL : Z;            (** [time.Duration] *)
  TrustedProxies : list string;
  PublicURL : string;
  SwaggerEnabled : bool;
  SwaggerAuth : bool;
  LogLevel : string }.

Definition zero_Config : Config :=
  mkConfig "" "" "" "" "" "" (S754_zero false) 0 (S754_zero false) 0 0 [] "" false false "".

Definition Default : Config :=
  mkConfig "" "" "127.0.0.1:8080" "" "" "" (f64_of_Z 100) 20 (f64_of_Z 10) 5 (30 * second) [] ""
    true true "info".

Definition set_LogLevel (c : Config) (level : string) : Config :=
  mkConfig (Vault_Addr c) (Vault_Token c) (Gateway_Addr c) (Gateway_Token c) (TLSCertFile c)
    (TLSKeyFile c) (RateLimit c) (RateBurst c) (HealthRateLimit c) (HealthRateBurst c)
    (ChainsCacheTTL c) (TrustedProxies c) (PublicURL c) (SwaggerEnabled c) (SwaggerAuth c) level.

(** ** Viper *)

(** What the program tells viper before it reads anything. *)
Record Viper := mkViper {
  v_configType : string;
  v_envPrefix : string;
  v_envKeyReplacer : list string;
  v_automaticEnv : bool;
  v_defaults : list (string * any);
  v_bound : list (string * list string);
  v_configFile : string }.

Definition viper_New : Viper := mkViper "" "" [] false [] [] "".

Definition SetConfigType (t : string) (v : Viper) : Viper :=
  mkViper t (v_envPrefix v) (v_envKeyReplacer v) (v_automaticEnv v) (v_defaults v) (v_bound v) (v_configFile v).
Definition SetEnvPrefix (p : string) (v : Viper) : Viper :=
  mkViper (v_configType v) p (v_envKeyReplacer v) (v_automaticEnv v) (v_defaults v) (v_bound v) (v_configFile v).
Definition SetEnvKeyReplacer (oldnew : list string) (v : Viper) : Viper :=
  mkViper (v_configType v) (v_envPrefix v) oldnew (v_automaticEnv v) (v_defaults v) (v_bound v) (v_configFile v).
Definition AutomaticEnv (v : Viper) : Viper :=
  mkViper (v_configType v) (v_envPrefix v) (v_envKeyReplacer v) true (v_defaults v) (v_bound v) (v_configFile v).
Definition SetDefault (k : string) (d : any) (v : Viper) : Viper :=
  mkViper (v_configType v) (v_envPrefix v) (v_envKeyReplacer v) (v_automaticEnv v) ((k, d) :: v_defaults v)
    (v_bound v) (v_configFile v).
Definition BindEnv (k : string) (names : list string) (v : Viper) : Viper :=
  mkViper (v_configType v) (v_envPrefix v) (v_envKeyReplacer v) (v_automaticEnv v) (v_defaults v)
    ((k, names) :: v_bound v) (v_configFile v).
Definition SetConfigFile (path : string) (v : Viper) : Viper :=
  mkViper (v_configType v) (v_envPrefix v) (v_envKeyReplacer v) (v_automaticEnv v) (v_defaults v) (v_bound v) path.

(** What [ReadInConfig] fails with: [viper.ConfigFileNotFoundError], or an
    error of the file system or the YAML parser. *)
Inductive viper_error :=
  | ConfigFileNotFoundError (err : error)
  | ReadError (isNotExist : bool) (err : error).

Definition viper_err (e : viper_error) : error :=
  match e with ConfigFileNotFoundError err => err | ReadError _ err => err end.

Class ViperLib := {
  Settings : Type;                                      (** what was read from the file *)
  no_Settings : Settings;
  ReadInConfig : Viper → viper_error + Settings;
  viper_Unmarshal : Env → Viper → Settings → Config → result Config }.

(** The keys of string fields. *)
Definition string_keys : list (string * (Config → string)) :=
  [("vault.addr", Vault_Addr); ("vault.token", Vault_Token); ("gateway.addr", Gateway_Addr);
   ("gateway.token", Gateway_Token); ("gateway.tls_cert_file", TLSCertFile);
   ("gateway.tls_key_file", TLSKeyFile); ("gateway.public_url", PublicURL); ("log_level", LogLevel)].

Fixpoint lookup_key {A} (k : string) (l : list (string * A)) : option A :=
  match l with
  | [] => None
  | (k', v) :: l' => if decide (k' = k) then Some v else lookup_key k l'
  end.

(** The first of the variables that is set and not empty. *)
Fixpoint first_set (env : Env) (names : list string) : option string :=
  match names with
  | [] => None
  | n :: names' =>
      match env n with
      | Some (String _ _ as v) => Some v
      | _ => first_set env names'
      end
  end.

(** Viper's documented precedence, for string keys: bound environment
    variables in their order (an empty one counts as unset), then the config
    file, then the default. *)
Class ViperLaws (V : ViperLib) := {
  settings_string : Settings → string → option string;
  no_Settings_string : ∀ k, settings_string no_Settings k = None;
  Unmarshal_string : ∀ env v s c c' k f,
    viper_Unmarshal env v s c = Ok c' → (k, f) ∈ string_keys →
    f c' = match first_set env (default [] (lookup_key k (v_bound v))) with
           | Some x => x
           | None =>
               match settings_string s k with
               | Some x => x
               | None => match lookup_key k (v_defaults v) with Some (AString x) => x | _ => f c end
               end
           end }.

Section config.
Context {V : ViperLib} (Quote : string → string).

(** ** Loading *)

Definition isFileNotFound (err : viper_error) : bool :=
  match err with
  | ConfigFileNotFoundError _ => true
  | ReadError isNotExist _ => isNotExist
  end.

(** [strconv.ParseBool] *)
Definition ParseBool (s : string) : option bool :=
  if decide (s ∈ ["1"; "t"; "T"; "true"; "TRUE"; "True"]) then Some true
  else if decide (s ∈ ["0"; "f"; "F"; "false"; "FALSE"; "False"]) then Some false
  else None.

Definition validateBoolEnv (env : Env) (key : string) : result unit :=
  match env key with
  | None => Ok tt
  | Some raw =>
      let raw := TrimSpace raw in
      if decide (raw = "") then Ok tt
      else match ParseBool raw with
           | Some _ => Ok tt
           | None => Err (errors_New ("invalid boolean value for " +:+ key +:+ ": " +:+ Quote raw))
           end
  end.

(** The calls of [Load] up to the validation of the environment. *)
Definition setup : Viper :=
  fold_left (λ v f, f v)
    [SetConfigType "yaml"; SetEnvPrefix "KMS"; SetEnvKeyReplacer ["."; "_"]; AutomaticEnv;
     SetDefault "gateway.addr" (AString "127.0.0.1:8080");
     SetDefault "gateway.rate_limit" (AInt 100);
     SetDefault "gateway.rate_burst" (AInt 20);
     SetDefault "gateway.health_rate_limit" (AInt 10);
     SetDefault "gateway.health_rate_burst" (AInt 5);
     SetDefault "gateway.chains_cache_ttl" (AInt64 (30 * second));
     SetDefault "gateway.swagger_enabled" (ABool true);
     SetDefault "gateway.swagger_auth" (ABool true);
     SetDefault "log_level" (AString "info");
     BindEnv "vault.addr" ["KMS_VAULT_ADDR"; "VAULT_ADDR"];
     BindEnv "vault.token" ["KMS_VAULT_TOKEN"; "VAULT_TOKEN"];
     BindEnv "gateway.addr" ["KMS_GATEWAY_ADDR"];
     BindEnv "gateway.token" ["KMS_GATEWAY_TOKEN"];
     BindEnv "gateway.tls_cert_file" ["KMS_GATEWAY_TLS_CERT_FILE"];
     BindEnv "gateway.tls_key_file" ["KMS_GATEWAY_TLS_KEY_FILE"];
     BindEnv "gateway.rate_limit" ["KMS_GATEWAY_RATE_LIMIT"];
     BindEnv "gateway.rate_burst" ["KMS_GATEWAY_RATE_BURST"];
     BindEnv "gateway.health_rate_limit" ["KMS_GATEWAY_HEALTH_RATE_LIMIT"];
     BindEnv "gateway.health_rate_burst" ["KMS_GATEWAY_HEALTH_RATE_BURST"];
     BindEnv "gateway.chains_cache_ttl" ["KMS_GATEWAY_CHAINS_CACHE_TTL"];
     BindEnv "gateway.public_url" ["KMS_GATEWAY_PUBLIC_URL"];
     BindEnv "gateway.swagger_enabled" ["KMS_GATEWAY_SWAGGER_ENABLED"];
     BindEnv "gateway.swagger_auth" ["KMS_GATEWAY_SWAGGER_AUTH"];
     BindEnv "log_level" ["KMS_LOG_LEVEL"]] viper_New.

(** [Load]; the list holds what [onWarn] was called with. *)
Definition Load (env : Env) (path : string) : list string * result Config :=
  match validateBoolEnv env "KMS_GATEWAY_SWAGGER_ENABLED" with
  | Err e => ([], Err e)
  | Ok _ =>
      match validateBoolEnv env "KMS_GATEWAY_SWAGGER_AUTH" with
      | Err e => ([], Err e)
      | Ok _ =>
          if decide (path = "") then ([], viper_Unmarshal env setup no_Settings Default)
          else
            let v := SetConfigFile path setup in
            match ReadInConfig v with
            | inr s => ([], viper_Unmarshal env v s Default)
            | inl err =>
                if isFileNotFound err
                then (["warning: config file " +:+ Quote path +:+ " not found; falling back to env/defaults"],
                      viper_Unmarshal env v no_Settings Default)
                else ([], Err (Errorf_w "read config: " (viper_err err) ""))
            end
      end
  end.

Definition ValidateRuntime (c : Config) : result unit :=
  if decide (Vault_Addr c = "") then Err (errors_New "vault addr is required")
  else if decide (Vault_Token c = "") then Err (errors_New "vault token is required")
  else if decide (Gateway_Token c = "") then Err (errors_New "gateway token is required")
  else Ok tt.

(** ** What was loaded *)

Lemma ValidateRuntime_Ok c :
  ValidateRuntime c = Ok tt ↔ Vault_Addr c ≠ "" ∧ Vault_Token c ≠ "" ∧ Gateway_Token c ≠ "".
Proof. unfold ValidateRuntime. repeat case_decide; naive_solver. Qed.

(** The file's settings that a successful load used. *)
Definition read_settings (path : string) : Settings :=
  if decide (path = "") then no_Settings
  else match ReadInConfig (SetConfigFile path setup) with inr s => s | inl _ => no_Settings end.

Lemma Load_Unmarshal env path warns c :
  Load env path = (warns, Ok c) →
  ∃ v, viper_Unmarshal env v (read_settings path) Default = Ok c ∧
       v_bound v = v_bound setup ∧ v_defaults v = v_defaults setup.
Proof.
  unfold Load, read_settings. destruct (validateBoolEnv _ _); [|done]. destruct (validateBoolEnv _ _); [|done].
  case_decide; [intros [= _ ?]; by exists setup|].
  destruct (ReadInConfig _) as [err|s]; [destruct (isFileNotFound err); [|done]|]; intros [= _ ?];
    by exists (SetConfigFile path setup).
Qed.

Context {L : ViperLaws V}.

(** A setting of the file, or the default. *)
Definition from_file (path key d : string) : string := default d (settings_string (read_settings path) key).

Lemma Load_string env path warns c k f :
  Load env path = (warns, Ok c) → (k, f) ∈ string_keys →
  f c = default (from_file path k match lookup_key k (v_defaults setup) with
                                  | Some (AString x) => x
                                  | _ => f Default
                                  end)
          (first_set env (default [] (lookup_key k (v_bound setup)))).
Proof.
  intros (v & Hv & Hb & Hd)%Load_Unmarshal Hk. rewrite (Unmarshal_string _ _ _ _ _ _ _ Hv Hk), Hb, Hd.
  unfold from_file. by repeat case_match.
Qed.

(** A loaded configuration takes the Vault address and token from the
    variables KMS_VAULT_ADDR, then VAULT_ADDR (KMS_VAULT_TOKEN, then
    VAULT_TOKEN), then the config file; the gateway's token and address from
    their KMS_GATEWAY variables, then the file, and only the address has a
    default, the loopback one; a token is never defaulted. *)
Theorem Load_precedence (env : Env) (path : string) (warns : list string) (c : Config) :
  Load env path = (warns, Ok c) →
  Vault_Addr c = default (from_file path "vault.addr" "") (first_set env ["KMS_VAULT_ADDR"; "VAULT_ADDR"]) ∧
  Vault_Token c = default (from_file path "vault.token" "") (first_set env ["KMS_VAULT_TOKEN"; "VAULT_TOKEN"]) ∧
  Gateway_Token c = default (from_file path "gateway.token" "") (first_set env ["KMS_GATEWAY_TOKEN"]) ∧
  Gateway_Addr c = default (from_file path "gateway.addr" "127.0.0.1:8080") (first_set env ["KMS_GATEWAY_ADDR"]).
Proof.
  intros Hl. split_and!.
  - exact (Load_string _ _ _ _ "vault.addr" Vault_Addr Hl ltac:(set_solver)).
  - exact (Load_string _ _ _ _ "vault.token" Vault_Token Hl ltac:(set_solver)).
  - exact (Load_string _ _ _ _ "gateway.token" Gateway_Token Hl ltac:(set_solver)).
  - exact (Load_string _ _ _ _ "gateway.addr" Gateway_Addr Hl ltac:(set_solver)).
Qed.
End config.

(** ** A concrete viper *)

Module ConfigChecks.

(** A config file that sets two tokens; only string fields are filled. *)
Definition file : list (string * string) := [("vault.token", "from-file"); ("gateway.token", "gw-file")].

Definition value (env : Env) (v : Viper) (s : list (string * string)) (d : string) (k : string) : string :=
  match first_set env (default [] (lookup_key k (v_bound v))) with
  | Some x => x
  | None => match lookup_key k s with
            | Some x => x
            | None => match lookup_key k (v_defaults v) with Some (AString x) => x | _ => d end
            end
  end.

#[export] Instance toy_viper : ViperLib := {|
  Settings := list (string * string);
  no_Settings := [];
  ReadInConfig v := if decide (v_configFile v = "/etc/kms.yaml") then inr file
                    else inl (ReadError true (errors_New "no such file"));
  viper_Unmarshal env v s c :=
    let g := value env v s in
    Ok (mkConfig (g (Vault_Addr c) "vault.addr") (g (Vault_Token c) "vault.token")
          (g (Gateway_Addr c) "gateway.addr") (g (Gateway_Token c) "gateway.token")
          (g (TLSCertFile c) "gateway.tls_cert_file") (g (TLSKeyFile c) "gateway.tls_key_file")
          (RateLimit c) (RateBurst c) (HealthRateLimit c) (HealthRateBurst c) (ChainsCacheTTL c)
          (TrustedProxies c) (g (PublicURL c) "gateway.public_url") (SwaggerEnabled c) (SwaggerAuth c)
          (g (LogLevel c) "log_level")) |}.

#[export] Instance toy_viper_laws : ViperLaws toy_viper.
Proof.
  refine {| settings_string := λ (s : Settings (ViperLib:=toy_viper)) k, lookup_key k s |}; [done|].
  intros env v s c c' k f [= <-] Hk.
  repeat (apply elem_of_cons in Hk as [[= -> ->]|Hk]; [reflexivity|]). by apply not_elem_of_nil in Hk.
Defined.

Definition env1 : Env := λ k,
  lookup_key k [("KMS_VAULT_TOKEN", ""); ("VAULT_TOKEN", "s.abc"); ("VAULT_ADDR", "http://v:8200")].

Definition loaded1 : Config := default zero_Config
  match (Load (λ s, s) env1 "/etc/kms.yaml").2 with Ok c => Some c | Err _ => None end.

Lemma Load_precedence_witness :
  Vault_Addr loaded1 = "http://v:8200" ∧ Vault_Token loaded1 = "s.abc" ∧
  Gateway_Token loaded1 = "gw-file" ∧ Gateway_Addr loaded1 = "127.0.0.1:8080".
Proof.
  assert (Load (λ s, s) env1 "/etc/kms.yaml" = ([], Ok loaded1)) as Hl by (vm_compute; reflexivity).
  pose proof (Load_precedence (λ s, s) env1 "/etc/kms.yaml" [] loaded1 Hl) as Hp.
  vm_compute in Hp |- *. exact Hp.
Defined.

Example bad_bool :
  is_Ok (Load (λ s, s) (λ k, if decide (k = "KMS_GATEWAY_SWAGGER_AUTH") then Some " yes " else None) "").2 = false.
Proof. vm_compute. reflexivity. Qed.
End ConfigChecks.
