(* ===== verification/Limiter.v ===== *)
(** * Rate limiting and bearer authentication

    [internal/gateway/principal_limiter.go] and [auth.go]: the bounded map of
    per-principal limiters, the principal key, and the token check.

    [golang.org/x/time/rate] is the class [RateLib]; HMAC-SHA-256 is the
    concrete one of [Sha256]. *)

From Stdlib Require Import SpecFloat.
From S2P Require Import Prelude GoLib Sha256.

(** [rate.Limiter]: [Allow] consumes a token at an instant (nanoseconds). *)
Class RateLib := {
  Limiter : Type;
  NewLimiter : spec_float → Z → Limiter;
  Allow : Z → Limiter → Limiter * bool }.

Section limiter.
Context {R : RateLib}.

Record limiterEntry := mkLimiterEntry { limiter : Limiter; lastSeen : Z }.

Record principalLimiters := mkPrincipalLimiters {
  pl_m : gmap string limiterEntry;
  pl_rate : spec_float;
  pl_burst : Z;
  pl_cap : Z }.

Definition newPrincipalLimiters (r : spec_float) (burst capacity : Z) : principalLimiters :=
  mkPrincipalLimiters ∅ r burst (if (capacity <=? 0)%Z then 10000%Z else capacity).

(** The order in which [range] visits the map: Go leaves it open, so it is a
    parameter of the operations that depend on it. *)
Definition iteration : Type := gmap string limiterEntry → list (string * limiterEntry).

Definition faithful (iter : iteration) : Prop := ∀ m, iter m ≡ₚ map_to_list m.

(** The loop of [evictOldestLocked]: the oldest entry seen so far. *)
Fixpoint oldest (l : list (string * limiterEntry)) (best : option (string * Z)) : option (string * Z) :=
  match l with
  | [] => best
  | (k, e) :: l' =>
      match best with
      | None => oldest l' (Some (k, lastSeen e))
      | Some (k0, t0) =>
          if (lastSeen e <? t0)%Z then oldest l' (Some (k, lastSeen e)) else oldest l' best
      end
  end.

Definition set_m (p : principalLimiters) (m : gmap string limiterEntry) : principalLimiters :=
  mkPrincipalLimiters m (pl_rate p) (pl_burst p) (pl_cap p).

Definition evictOldestLocked (iter : iteration) (p : principalLimiters) : principalLimiters :=
  match oldest (iter (pl_m p)) None with
  | Some (oldestKey, _) => if decide (oldestKey = "") then p else set_m p (delete oldestKey (pl_m p))
  | None => p
  end.

(** [get]: the limiter of a key at the instant [now], created on first use. *)
Definition limiters_get (iter : iteration) (now : Z) (key : string) (p : principalLimiters)
    : principalLimiters * Limiter :=
  match pl_m p !! key with
  | Some e => (set_m p (<[key := mkLimiterEntry (limiter e) now]> (pl_m p)), limiter e)
  | None =>
      let p := if (pl_cap p <=? Z.of_nat (size (pl_m p)))%Z then evictOldestLocked iter p else p in
      let e := mkLimiterEntry (NewLimiter (pl_rate p) (pl_burst p)) now in
      (set_m p (<[key := e]> (pl_m p)), limiter e)
  end.

(** [p.get(key).Allow()]: the limiter is shared by reference, so what [Allow]
    consumes stays in the map. *)
Definition limiters_allow (iter : iteration) (now : Z) (key : string) (p : principalLimiters)
    : principalLimiters * bool :=
  let '(p1, l) := limiters_get iter now key p in
  let '(l', ok) := Allow now l in
  (set_m p1 (<[key := mkLimiterEntry l' now]> (pl_m p1)), ok).

(** [sweep]: drop the entries last seen before [cutoff]; the number dropped. *)
Definition sweep (cutoff : Z) (p : principalLimiters) : principalLimiters * nat :=
  let kept := filter (λ ke : string * limiterEntry, ¬ (lastSeen ke.2 < cutoff)%Z) (pl_m p) in
  (set_m p kept, size (pl_m p) - size kept).

(** [len] *)
Definition limiters_len (p : principalLimiters) : nat := size (pl_m p).
End limiter.

(** ** Principals and tokens *)

(** What the server keeps for them: [serverNonce] and [cfg.Gateway.Token]. *)
Record AuthConfig := mkAuthConfig { serverNonce : bytes; gw_Token : string }.

Definition ipFromRemoteAddr (remote : string) : string :=
  if decide (remote = "") then ""
  else match BeforeLast remote ":" with
       | Some host => TrimSuffix (TrimPrefix host "[") "]"
       | None => remote
       end.

Definition principalKey (cfg : AuthConfig) (authorization remoteAddr : string) : string :=
  let bearer := default "" (CutPrefix authorization "Bearer ") in
  hex_EncodeToString (Sha256.hmac_Sum (serverNonce cfg) (bytes_of_string bearer)) +:+ "|" +:+
  ipFromRemoteAddr remoteAddr.

(** [authHMAC]; [subtle.ConstantTimeCompare] is equality of the digests. *)
Definition authHMAC (cfg : AuthConfig) (supplied : string) : bool :=
  bool_decide (Sha256.hmac_Sum (serverNonce cfg) (bytes_of_string supplied)
               = Sha256.hmac_Sum (serverNonce cfg) (bytes_of_string (gw_Token cfg))).

(** The decision of the [auth] middleware on the Authorization header: the
    request goes on, or it is answered 401 for the logged reason. *)
Inductive auth_reason := missing | bad_format | mismatch.

Definition auth_check (cfg : AuthConfig) (header : string) : option auth_reason :=
  if decide (header = "") then Some missing
  else match CutPrefix header "Bearer " with
       | None | Some EmptyString => Some bad_format
       | Some bearer => if authHMAC cfg bearer then None else Some mismatch
       end.

(** ** Lemmas *)

Section lemmas.
Context {R : RateLib}.

Lemma oldest_Some l k0 t0 :
  ∃ k t, oldest l (Some (k0, t0)) = Some (k, t) ∧
    (k = k0 ∧ t = t0 ∨ ∃ e, (k, e) ∈ l ∧ lastSeen e = t) ∧ (t ≤ t0)%Z ∧
    (∀ k' e', (k', e') ∈ l → t ≤ lastSeen e')%Z.
Proof.
  revert k0 t0. induction l as [|[k1 e1] l IH]; intros k0 t0; simpl.
  - exists k0, t0. split_and!; [done|by left|lia|]. by intros ? ? ?%not_elem_of_nil.
  - setoid_rewrite elem_of_cons.
    destruct (Z.ltb_spec (lastSeen e1) t0) as [Hlt|Hge].
    + destruct (IH k1 (lastSeen e1)) as (k & t & -> & Hin & Hle & Hall).
      exists k, t. split_and!; [done| |lia|].
      * destruct Hin as [[-> ->]|(e & ? & ?)]; eauto.
      * intros k' e' [[= -> ->]|?]; eauto.
    + destruct (IH k0 t0) as (k & t & -> & Hin & Hle & Hall).
      exists k, t. split_and!; [done| |lia|].
      * destruct Hin as [[-> ->]|(e & ? & ?)]; eauto.
      * intros k' e' [[= -> ->]|?]; [lia|eauto].
Qed.

(** What an eviction removes from a non-empty map: an entry no other was seen
    before. *)
Lemma evictOldestLocked_spec iter p :
  faithful iter → pl_m p ≠ ∅ → pl_m p !! "" = None →
  ∃ k e, pl_m p !! k = Some e ∧ (∀ k' e', pl_m p !! k' = Some e' → lastSeen e ≤ lastSeen e')%Z ∧
         evictOldestLocked iter p = set_m p (delete k (pl_m p)).
Proof.
  intros Hiter Hne Hempty. specialize (Hiter (pl_m p)).
  assert (∀ k e, (k, e) ∈ iter (pl_m p) ↔ pl_m p !! k = Some e) as Hin.
  { intros k e. by rewrite Hiter, elem_of_map_to_list. }
  unfold evictOldestLocked. destruct (iter (pl_m p)) as [|[k1 e1] l].
  { destruct Hne. apply map_empty. intros k. destruct (pl_m p !! k) as [e|] eqn:Hk; [|done].
    apply Hin in Hk. by apply not_elem_of_nil in Hk. }
  simpl. destruct (oldest_Some l k1 (lastSeen e1)) as (k & t & -> & Hwho & Hle & Hall).
  assert (∃ e, (k, e) ∈ (k1, e1) :: l ∧ lastSeen e = t) as (e & He & Ht).
  { destruct Hwho as [[-> ->]|(e & ? & ?)]; [exists e1|exists e]; by rewrite elem_of_cons; auto. }
  apply Hin in He. exists k, e. split_and!; [done| |].
  - intros k' e' Hk'%Hin. rewrite elem_of_cons in Hk'. rewrite Ht.
    destruct Hk' as [[= -> ->]|?]; [done|by eapply Hall].
  - rewrite decide_False; [done|]. intros ->. congruence.
Qed.

Definition limiters_ok (p : principalLimiters) : Prop :=
  (1 ≤ pl_cap p)%Z ∧ (Z.of_nat (size (pl_m p)) ≤ pl_cap p)%Z ∧ pl_m p !! "" = None.

Lemma limiters_get_ok iter now key p :
  faithful iter → key ≠ "" → limiters_ok p →
  limiters_ok (limiters_get iter now key p).1 ∧
  is_Some (pl_m (limiters_get iter now key p).1 !! key) ∧
  pl_cap (limiters_get iter now key p).1 = pl_cap p.
Proof.
  intros Hiter Hkey (Hcap & Hsize & Hempty). unfold limiters_get, limiters_ok.
  destruct (pl_m p !! key) as [e|] eqn:Hk; simpl.
  { rewrite lookup_insert_ne, lookup_insert_eq, map_size_insert_Some by eauto. eauto. }
  destruct (Z.leb_spec (pl_cap p) (Z.of_nat (size (pl_m p)))) as [Hfull|Hroom]; simpl.
  - destruct (evictOldestLocked_spec iter p Hiter) as (k & e & Hke & _ & ->); [|done|].
    { intros Hm. rewrite Hm, map_size_empty in Hfull. lia. }
    simpl. assert (delete k (pl_m p) !! key = None) as Hdel by (rewrite lookup_delete; by case_decide).
    rewrite lookup_insert_ne, lookup_insert_eq, map_size_insert_None by done.
    rewrite (map_size_delete_Some k (pl_m p)) by eauto.
    split_and!; [done|lia| |eauto|done]. rewrite lookup_delete. by case_decide.
  - rewrite lookup_insert_ne, lookup_insert_eq, map_size_insert_None by done.
    split_and!; [done|lia|done|eauto|done].
Qed.

Lemma limiters_allow_ok iter now key p :
  faithful iter → key ≠ "" → limiters_ok p → limiters_ok (limiters_allow iter now key p).1.
Proof.
  intros Hiter Hkey Hok. destruct (limiters_get_ok iter now key p Hiter Hkey Hok) as (Hok' & Hk & _).
  unfold limiters_allow. destruct (limiters_get iter now key p) as [p1 l]. simpl in *.
  destruct (Allow now l) as [l' ok]. destruct Hok' as (? & ? & ?). unfold limiters_ok. simpl.
  by rewrite lookup_insert_ne, map_size_insert_Some.
Qed.

Lemma sweep_ok cutoff p : limiters_ok p → limiters_ok (sweep cutoff p).1.
Proof.
  intros (Hcap & Hsize & Hempty). unfold sweep, limiters_ok. simpl. split_and!; [done| |].
  - assert (size (filter (λ ke : string * limiterEntry, ¬ (lastSeen ke.2 < cutoff)%Z) (pl_m p))
            ≤ size (pl_m p)); [|lia].
    apply map_subseteq_size, map_filter_subseteq.
  - apply map_lookup_filter_None. by left.
Qed.
End lemmas.

(** ** Theorems *)

Section theorems.
Context {R : RateLib}.

(** The uses of a limiter map: a request of a principal, and the sweeper. *)
Inductive limiter_op :=
  | OpAllow (now : Z) (key : string)
  | OpSweep (cutoff : Z).

Definition limiter_run (iter : iteration) (p : principalLimiters) (op : limiter_op)
    : principalLimiters :=
  match op with
  | OpAllow now key => (limiters_allow iter now key p).1
  | OpSweep cutoff => (sweep cutoff p).1
  end.

Definition op_key_ok (op : limiter_op) : Prop :=
  match op with OpAllow _ key => key ≠ "" | OpSweep _ => True end.

(** C40. The limiter map is bounded: whatever requests and sweeps it has
    served, in whatever order Go iterates over the map, it never holds more
    entries than its capacity (10000 when none is configured). *)
Theorem limiters_bounded (iter : iteration) (r : spec_float) (burst capacity : Z) (ops : list limiter_op) :
  faithful iter → Forall op_key_ok ops →
  let p := fold_left (limiter_run iter) ops (newPrincipalLimiters r burst capacity) in
  (Z.of_nat (limiters_len p) ≤ if (capacity <=? 0)%Z then 10000 else capacity)%Z.
Proof.
  intros Hiter Hops. set (p0 := newPrincipalLimiters r burst capacity). cbv zeta.
  assert (limiters_ok p0) as H0.
  { unfold limiters_ok, p0. simpl. rewrite map_size_empty. case_match; to_prop; split_and!; try done; lia. }
  replace (if (capacity <=? 0)%Z then 10000%Z else capacity) with (pl_cap p0) by done.
  clearbody p0. revert p0 H0. induction Hops as [|op ops Hop Hops IH]; intros p0 H0; simpl.
  { by destruct H0 as (? & ? & ?). }
  assert (limiters_ok (limiter_run iter p0 op) ∧ pl_cap (limiter_run iter p0 op) = pl_cap p0)
    as [H1 <-]; [|by apply IH].
  destruct op as [now key|cutoff]; simpl in *; [|split; [by apply sweep_ok|done]].
  split; [by apply limiters_allow_ok|].
  destruct (limiters_get_ok iter now key p0 Hiter Hop H0) as (_ & _ & Hc).
  unfold limiters_allow. destruct (limiters_get iter now key p0) as [p1 l]. simpl in *.
  by destruct (Allow now l).
Qed.

(** What one request does to the map: a known principal keeps its limiter
    (its budget is not reset) and is marked as seen; a new one gets a fresh
    limiter, and only when the map is full one other entry is dropped, none of
    the kept ones having been seen earlier. *)
Theorem limiters_get_lru (iter : iteration) (now : Z) (key : string) (p : principalLimiters) :
  faithful iter → key ≠ "" → limiters_ok p →
  let '(p', l) := limiters_get iter now key p in
  pl_m p' !! key = Some (mkLimiterEntry l now) ∧
  match pl_m p !! key with
  | Some e => l = limiter e ∧ delete key (pl_m p') = delete key (pl_m p)
  | None =>
      l = NewLimiter (pl_rate p) (pl_burst p) ∧
      if (Z.of_nat (size (pl_m p)) <? pl_cap p)%Z then delete key (pl_m p') = pl_m p
      else ∃ k e, pl_m p !! k = Some e ∧ delete key (pl_m p') = delete k (pl_m p) ∧
             ∀ k' e', pl_m p !! k' = Some e' → (lastSeen e ≤ lastSeen e')%Z
  end.
Proof.
  intros Hiter Hkey (Hcap & Hsize & Hempty). unfold limiters_get.
  destruct (pl_m p !! key) as [e|] eqn:Hk; simpl.
  { rewrite lookup_insert_eq. split_and!; [done..|]. by rewrite delete_insert_eq. }
  destruct (Z.leb_spec (pl_cap p) (Z.of_nat (size (pl_m p)))) as [Hfull|Hroom]; simpl.
  - destruct (evictOldestLocked_spec iter p Hiter) as (k & e & Hke & Hmin & ->); [|done|].
    { intros Hm. rewrite Hm, map_size_empty in Hfull. lia. }
    simpl. rewrite lookup_insert_eq. split_and!; [done..|].
    destruct (Z.ltb_spec (Z.of_nat (size (pl_m p))) (pl_cap p)); [lia|].
    exists k, e. split_and!; [done| |done].
    rewrite delete_insert_id; [done|]. rewrite lookup_delete. by case_decide.
  - rewrite lookup_insert_eq. split_and!; [done..|].
    destruct (Z.ltb_spec (Z.of_nat (size (pl_m p))) (pl_cap p)); [|lia].
    by rewrite delete_insert_id.
Qed.
End theorems.

Lemma string_app_inj_len (a b c d : string) :
  String.length a = String.length b → a +:+ c = b +:+ d → a = b ∧ c = d.
Proof.
  revert b. induction a as [|x a IH]; intros [|y b] Hlen Heq; simpl in *; try done.
  injection Heq as -> Heq. destruct (IH b) as [-> ->]; [lia|done|done].
Qed.

Lemma hex_inj b1 b2 : hex_EncodeToString b1 = hex_EncodeToString b2 → b1 = b2.
Proof.
  intros Heq. pose proof (hex_roundtrip b1) as H1. rewrite Heq, hex_roundtrip in H1. by injection H1.
Qed.

(** Two requests share a rate-limit budget exactly when they come from
    the same remote IP and their bearer tokens have the same keyed digest. *)
Theorem principalKey_shared (cfg : AuthConfig) (auth1 addr1 auth2 addr2 : string) :
  principalKey cfg auth1 addr1 = principalKey cfg auth2 addr2 ↔
  ipFromRemoteAddr addr1 = ipFromRemoteAddr addr2 ∧
  Sha256.hmac_Sum (serverNonce cfg) (bytes_of_string (default "" (CutPrefix auth1 "Bearer ")))
  = Sha256.hmac_Sum (serverNonce cfg) (bytes_of_string (default "" (CutPrefix auth2 "Bearer "))).
Proof.
  unfold principalKey. split; [|by intros [-> ->]].
  intros [Hh Hip]%string_app_inj_len.
  - apply hex_inj in Hh. split; [|done]. by injection Hip.
  - by rewrite !hex_length, !Sha256.length_hmac_Sum.
Qed.

(** The bearer check lets a request through exactly when its
    Authorization header is "Bearer " followed by a non-empty token whose
    keyed digest equals that of the configured token. *)
Theorem auth_check_spec (cfg : AuthConfig) (header : string) :
  auth_check cfg header = None ↔
  ∃ token, header = "Bearer " +:+ token ∧ token ≠ "" ∧
    Sha256.hmac_Sum (serverNonce cfg) (bytes_of_string token)
    = Sha256.hmac_Sum (serverNonce cfg) (bytes_of_string (gw_Token cfg)).
Proof.
  unfold auth_check. split.
  - case_decide; [done|]. destruct (CutPrefix header "Bearer ") as [token|] eqn:Hc; [|done].
    apply CutPrefix_Some in Hc as ->. destruct token as [|c token]; [done|].
    unfold authHMAC. case_bool_decide as Heq; [|done]. intros _. by exists (String c token).
  - intros (token & -> & Hne & Heq). rewrite decide_False by done. rewrite CutPrefix_app.
    destruct token as [|c token]; [done|]. unfold authHMAC. by rewrite bool_decide_eq_true_2.
Qed.

(** ** Witnesses *)

Module LimiterChecks.
(** A limiter that admits [burst] requests in all. *)
#[local] Instance toy_rate : RateLib := {|
  Limiter := Z;
  NewLimiter r burst := burst;
  Allow now l := if (0 <? l)%Z then ((l - 1)%Z, true) else (l, false) |}.

Definition toy_iter : iteration := map_to_list.

Lemma toy_iter_faithful : faithful toy_iter.
Proof. intros m. done. Qed.

Definition toy_ops : list limiter_op := [OpAllow 1 "a"; OpAllow 2 "b"; OpAllow 3 "c"; OpSweep 3].

Lemma limiters_bounded_witness :
  (Z.of_nat (limiters_len (fold_left (limiter_run toy_iter) toy_ops (newPrincipalLimiters (f64_of_Z 1) 2 2))) ≤ 2)%Z.
Proof.
  apply (limiters_bounded toy_iter (f64_of_Z 1) 2 2 toy_ops toy_iter_faithful). by repeat constructor.
Defined.

Definition full_limiters : principalLimiters :=
  fold_left (limiter_run toy_iter) [OpAllow 2 "b"; OpAllow 1 "a"] (newPrincipalLimiters (f64_of_Z 1) 2 2).

Lemma limiters_get_lru_witness :
  let '(p', l) := limiters_get toy_iter 3 "c" full_limiters in
  pl_m p' !! "c" = Some (mkLimiterEntry l 3) ∧
  match pl_m full_limiters !! "c" with
  | Some e => l = limiter e ∧ delete "c" (pl_m p') = delete "c" (pl_m full_limiters)
  | None =>
      l = NewLimiter (pl_rate full_limiters) (pl_burst full_limiters) ∧
      if (Z.of_nat (size (pl_m full_limiters)) <? pl_cap full_limiters)%Z
      then delete "c" (pl_m p') = pl_m full_limiters
      else ∃ k e, pl_m full_limiters !! k = Some e ∧
             delete "c" (pl_m p') = delete k (pl_m full_limiters) ∧
             ∀ k' e', pl_m full_limiters !! k' = Some e' → (lastSeen e ≤ lastSeen e')%Z
  end.
Proof.
  apply (limiters_get_lru toy_iter 3 "c" full_limiters toy_iter_faithful); [done|].
  by split_and!; vm_compute.
Defined.
End LimiterChecks.
