(* ===== verification/Telemetry.v ===== *)
(** * Metrics and log records: [metrics.go], [requestid.go]

    The Prometheus collectors of the gateway with their labels, the log records
    of [log/slog], and the handler that adds the request id to them.  What the
    server emits is a sequence of events; the values of histograms are not
    kept. *)

From S2P Require Import Prelude GoLib.

(** ** Collectors *)

Inductive collectorKind := CounterKind | HistogramKind.

#[export] Instance collectorKind_eq_dec : EqDecision collectorKind.
Proof. solve_decision. Defined.

Record collector := mkCollector {
  col_kind : collectorKind;
  col_name : string;
  col_help : string;
  col_labels : list string }.

#[export] Instance collector_eq_dec : EqDecision collector.
Proof. solve_decision. Defined.

Definition kmsHTTPRequestsTotal : collector :=
  mkCollector CounterKind "kms_http_requests_total"
    "Total HTTP requests by matched route, method, and status."
    ["path"; "method"; "status"].
Definition kmsHTTPRequestDuration : collector :=
  mkCollector HistogramKind "kms_http_request_duration_seconds"
    "HTTP request latency by matched route and method."
    ["path"; "method"].
Definition kmsSigningDuration : collector :=
  mkCollector HistogramKind "kms_signing_duration_seconds"
    "Wall-clock duration of the signing operation, by chain."
    ["chain"].
Definition kmsChainAuthzDenialsTotal : collector :=
  mkCollector CounterKind "kms_chain_authz_denials_total"
    "Total gateway-side chain authorization denials, by attempted chain."
    ["chain"].
Definition kmsRateLimitRejectionsTotal : collector :=
  mkCollector CounterKind "kms_rate_limit_rejections_total"
    "Total HTTP 429 responses by matched route."
    ["path"].
Definition kmsVaultCallsTotal : collector :=
  mkCollector CounterKind "kms_vault_calls_total"
    "Vault calls by operation and outcome class."
    ["op"; "status"].
Definition kmsVaultCallDuration : collector :=
  mkCollector HistogramKind "kms_vault_call_duration_seconds"
    "Vault call latency by operation."
    ["op"].
Definition kmsTokenRenewalFailuresTotal : collector :=
  mkCollector CounterKind "kms_token_renewal_failures_total"
    "Total Vault token renewal failures observed by the renewal goroutine."
    [].
Definition kmsPanicsTotal : collector :=
  mkCollector CounterKind "kms_panics_total"
    "Total handler panics caught by the recover middleware, by matched route."
    ["path"].

(** The collectors [init] registers. *)
Definition metricsRegistry : list collector :=
  [kmsHTTPRequestsTotal; kmsHTTPRequestDuration; kmsSigningDuration; kmsChainAuthzDenialsTotal;
   kmsRateLimitRejectionsTotal; kmsVaultCallsTotal; kmsVaultCallDuration; kmsTokenRenewalFailuresTotal;
   kmsPanicsTotal].

Definition MetricsRegistry : list collector := metricsRegistry.

(** ** Log records *)

Inductive Level := LevelDebug | LevelInfo | LevelWarn | LevelError.

(** [slog.Record], its attributes in the order they are added. *)
Record LogRecord := mkRecord {
  rec_level : Level;
  rec_message : string;
  rec_attrs : list (string * string) }.

Definition AddAttrs (attrs : list (string * string)) (r : LogRecord) : LogRecord :=
  mkRecord (rec_level r) (rec_message r) (rec_attrs r ++ attrs).

(** [slog.Handler]; a context is known by the value it has under
    [requestIDKey]. *)
Class SlogHandler (H : Type) := {
  Handle : H → option string → LogRecord → result unit;
  WithAttrs : H → list (string * string) → H;
  WithGroup : H → string → H }.

Definition RequestIDFromContext (ctx : option string) : string :=
  match ctx with Some v => v | None => "" end.

(** The wrapper [NewRequestIDLogHandler] makes. *)
Record requestIDLogHandler (H : Type) := NewRequestIDLogHandler { rid_Handler : H }.
Arguments NewRequestIDLogHandler {H} _.
Arguments rid_Handler {H} _.

#[export] Instance requestIDLogHandler_handler {H} `{SlogHandler H} : SlogHandler (requestIDLogHandler H) := {|
  Handle h ctx r :=
    let id := RequestIDFromContext ctx in
    let r := if decide (id = "") then r else AddAttrs [("request_id", id)] r in
    Handle (rid_Handler h) ctx r;
  WithAttrs h attrs := NewRequestIDLogHandler (WithAttrs (rid_Handler h) attrs);
  WithGroup h name := NewRequestIDLogHandler (WithGroup (rid_Handler h) name) |}.

(** ** Events *)

(** An increment or an observation, by its label values, or a log record. *)
Inductive event :=
  | Observed (c : collector) (labels : list string)
  | Logged (r : LogRecord).

(** [IncrementTokenRenewalFailure] and [ObserveVaultCall] *)
Definition IncrementTokenRenewalFailure (t : list event) : list event :=
  t ++ [Observed kmsTokenRenewalFailuresTotal []].

Definition ObserveVaultCall (op status : string) (t : list event) : list event :=
  t ++ [Observed kmsVaultCallsTotal [op; status]; Observed kmsVaultCallDuration [op]].

(** An event [WithLabelValues] accepts: its collector is registered and has as
    many labels as values are given. *)
Definition well_labelled (e : event) : Prop :=
  match e with
  | Observed c labels => c ∈ metricsRegistry ∧ length labels = length (col_labels c)
  | Logged _ => True
  end.

(** [init] does not panic: no two collectors share a name. *)
Lemma metricsRegistry_distinct : NoDup (col_name <$> metricsRegistry).
Proof. by apply (bool_decide_unpack _). Qed.

(** The hooks of the Vault client keep to the collectors. *)
Lemma hooks_labelled t op status :
  Forall well_labelled t →
  Forall well_labelled (ObserveVaultCall op status t) ∧ Forall well_labelled (IncrementTokenRenewalFailure t).
Proof.
  intros Ht. split; apply Forall_app; (split; [done|]); forall_list; (split; [|done]);
    by apply (bool_decide_unpack _).
Qed.
