(* ===== verification/Gateway.v ===== *)
(** * The REST gateway: [internal/gateway]

    The server's state, the chains cache with chain authorization, the health
    and readiness probes, and one definition per request handler of
    [gateway.go].

    A handler takes the request as its JSON decoder or the URL delivered it
    ([None] for a body that does not decode or exceeds 1 MiB) and returns the
    one response it writes, with the payload as a structured value.  The log
    lines of the handlers are not modelled; their metrics are. *)

From S2P Require Import Prelude GoLib Types KeyPath Crypto Interfaces VaultClient EvmSigner.
From S2P Require Import CosmosSigner Limiter Telemetry.

(** ** Responses *)

Inductive Body :=
  | ErrorBody (msg : string)
  | SignBody (r : SignResponse)
  | SignatureBody (signature : string)
  | KeyInfoBody (info : KeyInfo)
  | KeyCreateBody (r : KeyCreateResponse)
  | KeyListBody (r : KeyListResponse)
  | ChainsBody (r : KeyUpdateChainsResponse)
  | MapBody (m : gmap string string)
  | TextBody (text : string)
  | RedirectBody (location : string).

Record HttpResponse := mkResponse { rs_status : Z; rs_body : Body }.

Definition StatusOK : Z := 200.
Definition StatusCreated : Z := 201.
Definition StatusBadRequest : Z := 400.
Definition StatusUnauthorized : Z := 401.
Definition StatusForbidden : Z := 403.
Definition StatusNotFound : Z := 404.
Definition StatusTooManyRequests : Z := 429.
Definition StatusInternalServerError : Z := 500.
Definition StatusServiceUnavailable : Z := 503.

Definition writeError (status : Z) (msg : string) : HttpResponse := mkResponse status (ErrorBody msg).
Definition writeJSON (b : Body) : HttpResponse := mkResponse StatusOK b.
Definition writeJSONStatus (status : Z) (b : Body) : HttpResponse := mkResponse status b.

(** The response of [writeVaultErr]. *)
Definition vaultErr (err : error) (keyPath : string) : HttpResponse :=
  if errors_Is err ErrNotFound then writeError StatusNotFound ("key not found: " +:+ keyPath)
  else if errors_Is err ErrPermission then writeError StatusForbidden "permission denied"
  else if errors_Is err ErrBadRequest then writeError StatusBadRequest (Error err)
  else writeError StatusInternalServerError "vault error".

Definition decodeHex (s : string) : result bytes := hex_result (TrimPrefix s "0x").

(** [x.Text(16)] *)
Fixpoint strip_zeros (s : string) : string :=
  match s with
  | String "0" (String _ _ as s') => strip_zeros s'
  | _ => s
  end.
Definition Text16 (x : Z) : string :=
  (if (x <? 0)%Z then "-" else "") +:+
  strip_zeros (hex_EncodeToString (be_bytes (Z.to_nat (Z.log2 (Z.abs x) / 8 + 1)) (Z.abs x))).

(** [x.Uint64()]: the low 64 bits of the absolute value. *)
Definition Uint64 (x : Z) : Z := Z.abs x mod 2 ^ 64.

(** ** The caches *)

Record chainsCacheEntry := mkChainsCacheEntry { cce_chains : list Chain; cce_at : Z }.

Record chainsCache := mkChainsCache { cc_ttl : Z; cc_entries : gmap string chainsCacheEntry }.

Definition newChainsCache (ttl : Z) : chainsCache :=
  mkChainsCache (if (ttl <=? 0)%Z then (30 * second)%Z else ttl) ∅.

(** [(chains, fresh, ok)], as an option of the first two. *)
Definition cache_get (c : chainsCache) (path : string) (now : Z) : option (list Chain * bool) :=
  match cc_entries c !! path with
  | None => None
  | Some e => Some (cce_chains e, (now - cce_at e <=? cc_ttl c)%Z)
  end.

Definition cache_set (c : chainsCache) (path : string) (chains : list Chain) (now : Z) : chainsCache :=
  mkChainsCache (cc_ttl c) (<[path := mkChainsCacheEntry chains now]> (cc_entries c)).

Definition cache_invalidate (c : chainsCache) (path : string) : chainsCache :=
  mkChainsCache (cc_ttl c) (delete path (cc_entries c)).

Definition canonicalizeChains (raw : list string) : result (list Chain) :=
  if length raw =? 0 then Ok []
  else match ParseChains raw with Err e => Err e | Ok chains => Ok chains end.

Record healthCache := mkHealthCache { hc_expiresAt : Z; hc_status : Z; hc_body : Body }.

Definition health_get (c : healthCache) (now : Z) : option (Z * Body) :=
  if (now <? hc_expiresAt c)%Z then Some (hc_status c, hc_body c) else None.

Definition health_set (status : Z) (body : Body) (ttl now : Z) : healthCache :=
  mkHealthCache (now + ttl)%Z status body.

(** ** The server *)

(** The signers as the gateway sees them. *)
Class EVMSigner (W : Type) := {
  evm_SignRawTx : string → option Z → bytes → M W (result bytes);
  evm_SignPersonalMessage : string → bytes → M W (result bytes);
  evm_SignEIP712Digest : string → bytes → M W (result bytes) }.

Class CosmosSignerI (W : Type) := {
  cosmos_SignDirect : string → bytes → M W (result (bytes * bytes));
  cosmos_SignAmino : string → bytes → M W (result (bytes * bytes)) }.

(** [time.Now()], in nanoseconds. *)
Class Clock (W : Type) := { clock : W → Z }.

(** The mutable state of [Server]; [telemetry] is what it has emitted. *)
Record Server (W : Type) := mkServerState {
  world : W;
  chains : option chainsCache;
  healthResp : healthCache;
  telemetry : list event }.
Arguments mkServerState {W} _ _ _ _.
Arguments world {W} _.
Arguments chains {W} _.
Arguments healthResp {W} _.
Arguments telemetry {W} _.

Section gateway.
Context {W : Type} {K : KeyStore W} {H : HealthChecker W} {T : Clock W}
        {EV : EVMSigner W} {CO : CosmosSignerI W} {C : EthCrypto} {TX : EthTx} {L : CosmosLib}.

Abbreviation SM := (M (Server W)).

(** A call of the vault, the signers or the key store. *)
Definition on_world {X} (m : M W X) : SM X := λ s,
  let '(w', x) := m (world s) in
  (mkServerState w' (chains s) (healthResp s) (telemetry s), x).

Definition setChains (c : option chainsCache) : SM unit := λ s,
  (mkServerState (world s) c (healthResp s) (telemetry s), Val tt).

Definition emit (e : event) : SM unit := λ s,
  (mkServerState (world s) (chains s) (healthResp s) (telemetry s ++ [e]), Val tt).

(** [c.WithLabelValues(labels).Inc()], or [Observe] of a histogram. *)
Definition inc (c : collector) (labels : list string) : SM unit := emit (Observed c labels).

(** [slog.ErrorContext(...)] and the like, then the response. *)
Definition logged (level : Level) (msg : string) (attrs : list (string * string)) (resp : HttpResponse)
    : SM HttpResponse :=
  body (call (emit (Logged (mkRecord level msg attrs))) ;;; next resp).

Definition writeVaultErr (err : error) (keyPath op : string) : SM HttpResponse :=
  logged LevelError "key operation failed" [("error", Error err); ("key_path", keyPath); ("op", op)]
    (vaultErr err keyPath).

(** *** Chain authorization *)

(** The result of [authorizeChain]: status 0 with the allow-list, or a status
    with an error. *)
Inductive authz :=
  | Authorized (allowed : list Chain)
  | Refused (allowed : list Chain) (status : Z) (err : error).

Definition denied (path : string) (attempted : Chain) (allowed : list Chain) : error :=
  errors_New ("key " +:+ path +:+ " not authorized for " +:+ attempted +:+
              " signing (allowed chains: [" +:+ Join allowed " " +:+ "])").

Definition authorizeChainFetch (path : string) (attempted : Chain) : SM authz :=
  body (
    let! rawChains := try_ (on_world (GetKeyChains path))
      (λ err, Refused [] (if errors_Is err ErrNotFound then StatusNotFound
                          else if errors_Is err ErrPermission then StatusForbidden
                          else StatusServiceUnavailable) err) in
    let! allowed := check (canonicalizeChains rawChains) (Refused [] StatusServiceUnavailable) in
    let! s := get in
    match chains s with
    | Some c => call (setChains (Some (cache_set c path allowed (clock (world s)))))
    | None => next tt
    end ;;;
    guard (ChainsContain allowed attempted) (Authorized allowed) ;;;
    call (inc kmsChainAuthzDenialsTotal [attempted]) ;;;
    next (Refused allowed StatusForbidden (denied path attempted allowed))).

Definition authorizeChain (path : string) (attempted : Chain) : SM authz :=
  body (
    let! s := get in
    match chains s with
    | Some c =>
        match cache_get c path (clock (world s)) with
        | Some (cached, true) =>
            guard (ChainsContain cached attempted) (Authorized cached) ;;;
            call (authorizeChainFetch path attempted)
        | _ => call (authorizeChainFetch path attempted)
        end
    | None => call (authorizeChainFetch path attempted)
    end).

(** [writeChainAuthzResult] on a refusal: the log line and the response. *)
Definition writeChainAuthzResult (keyPath : string) (attempted : Chain) (allowed : list Chain) (status : Z)
    (err : error) : SM HttpResponse :=
  if (status =? StatusForbidden)%Z then
    if errors_Is err ErrPermission then
      logged LevelWarn "chain authorization lookup permission denied"
        [("key_path", keyPath); ("attempted_chain", attempted)]
        (writeError status "permission denied")
    else
      logged LevelWarn "chain authorization denied"
        [("key_path", keyPath); ("attempted_chain", attempted); ("allowed_chains", "[" +:+ Join allowed " " +:+ "]")]
        (writeError status (Error err))
  else if (status =? StatusServiceUnavailable)%Z then
    logged LevelError "chain authorization lookup unavailable"
      [("error", Error err); ("key_path", keyPath); ("attempted_chain", attempted)]
      (writeError status "chain authorization unavailable")
  else if (status =? StatusNotFound)%Z then writeVaultErr err keyPath "GetKeyChains"
  else
    logged LevelError "chain authorization failed"
      [("error", Error err); ("key_path", keyPath); ("attempted_chain", attempted)]
      (writeError StatusInternalServerError "signing failed").

(** [allowed, status, err := s.authorizeChain(...); if !s.writeChainAuthzResult(...) { return }] *)
Definition requireChain (keyPath : string) (attempted : Chain) : Prog (Server W) HttpResponse unit :=
  let! r := call (authorizeChain keyPath attempted) in
  match r with
  | Authorized _ => next tt
  | Refused allowed status err => finish (writeChainAuthzResult keyPath attempted allowed status err)
  end.

(** *** Probes *)

Definition readinessWindow : Z := 30 * second.

Definition notReady (reason : string) : Z * Body :=
  (StatusServiceUnavailable, MapBody (<["status" := "not_ready"]> {["reason" := reason]})).

Definition ready : Z * Body := (StatusOK, MapBody {["status" := "ready"]}).

(** [computeReadiness]; [vault = false] is a nil [s.vault]. *)
Definition computeReadiness (vault : bool) : SM (Z * Body) :=
  body (
    if vault then
      try_ (on_world Health) (λ _, notReady "vault_unreachable") ;;;
      match LastLookupSelf with
      | None => next ready
      | Some last =>
          let! s := get in
          match last (world s) with
          | None => next (notReady "token_lookup_stale")
          | Some t =>
              guard (readinessWindow <? clock (world s) - t)%Z (notReady "token_invalid") ;;;
              next ready
          end
      end
    else next ready).

Definition handleLivez : SM HttpResponse :=
  body (next (writeJSON (MapBody {["status" := "alive"]}))).

Definition handleReadyz (vault : bool) : SM HttpResponse :=
  body (
    let! (status, payload) := call (computeReadiness vault) in
    next (if (status =? StatusOK)%Z then writeJSON payload else writeJSONStatus status payload)).

Definition health (vault : bool) : SM HttpResponse :=
  body (
    let! s := get in
    let now := clock (world s) in
    match health_get (healthResp s) now with
    | Some (status, b) => next (mkResponse status b)
    | None =>
        let! (status, payload) := call (computeReadiness vault) in
        let! s := get in
        put (mkServerState (world s) (chains s) (health_set status payload second now) (telemetry s)) ;;;
        next (mkResponse status payload)
    end).
End gateway.
