(* ===== verification/GatewayHandlers.v ===== *)
(** * The request handlers of the gateway

    [signEVM] and its three variants, [signCosmos], [createKey], [showKey],
    [updateKeyChains] and [listKeys] of [internal/gateway/gateway.go], with the
    pagination helpers. *)

From S2P Require Import Prelude GoLib Types KeyPath Crypto Interfaces VaultClient EvmSigner.
From S2P Require Import CosmosSigner HttpJson Limiter Telemetry Gateway.

(** ** Pure helpers *)

Definition listLimitDefault : Z := 100.
Definition listLimitMax : Z := 1000.

Definition parseListLimit (raw : string) : result Z :=
  if decide (raw = "") then Ok listLimitDefault
  else match Atoi raw with
       | None => Err (errors_New "limit must be a positive integer")
       | Some n =>
           if (n <? 1)%Z then Ok listLimitDefault
           else if (listLimitMax <? n)%Z then Ok listLimitMax
           else Ok n
       end.

Definition joinKeyPath (prefix name : string) : string :=
  if decide (prefix = "") then name
  else if HasSuffix prefix "/" then prefix +:+ name
  else prefix +:+ "/" +:+ name.

Definition toKeyListChains (raw : list string) : option (list Chain) :=
  match canonicalizeChains raw with Err _ => None | Ok out => Some out end.

(** [json.Unmarshal(raw, &addChains)] into a [[]string]: null is the nil slice,
    a null element the empty string. *)
Fixpoint unmarshal_items (items : list any) : option (list string) :=
  match items with
  | [] => Some []
  | AString s :: items' => cons s <$> unmarshal_items items'
  | ANil :: items' => cons "" <$> unmarshal_items items'
  | _ :: _ => None
  end.

Definition unmarshalStrings (raw : any) : option (list string) :=
  match raw with
  | ANil => Some []
  | AList items => unmarshal_items items
  | _ => None
  end.

Definition encodeListCursor (prefix : string) (offset : Z) : string :=
  b64_Encode URLEncoding (marshalCursor prefix offset).

(** [(offset, prefix, err)] *)
Definition parseListCursor (raw : string) : result (Z * string) :=
  if decide (raw = "") then Ok (0%Z, "")
  else match b64_DecodeString URLEncoding raw with
       | Err e => Err e
       | Ok decoded =>
           match unmarshalCursor decoded with
           | None => Err (errors_New "invalid cursor payload")
           | Some (prefix, offset) =>
               if (offset <? 0)%Z then Err (errors_New "negative cursor offset")
               else Ok (offset, prefix)
           end
       end.
(** The slice bounds of a page. *)
Definition pageBounds (n offset limit : Z) : Z * Z :=
  let offset := if (n <? offset)%Z then n else offset in
  let end_ := (offset + limit)%Z in
  (offset, if (n <? end_)%Z then n else end_).

(** [ks[offset:end]] *)
Definition slice {A} (l : list A) (lo hi : Z) : list A :=
  take (Z.to_nat (hi - lo)) (drop (Z.to_nat lo) l).

(** ** Handlers *)

Section handlers.
Context {W : Type} {K : KeyStore W} {H : HealthChecker W} {T : Clock W}
        {EV : EVMSigner W} {CO : CosmosSignerI W} {C : EthCrypto} {TX : EthTx} {L : CosmosLib}.

Abbreviation SM := (M (Server W)).

Definition ObserveSigningDuration (chain : string) : SM unit := inc kmsSigningDuration [chain].

(** [defer ObserveSigningDuration(label, ...)]: recorded however the function
    ends. *)
Definition observing {X} (label : string) (m : SM X) : SM X := λ s,
  let '(s', o) := m s in ((ObserveSigningDuration label s').1, o).

(** The log line and the response of a signer's error. *)
Definition signingFailed (msg keyPath : string) (err : error) : SM HttpResponse :=
  logged LevelError msg [("error", Error err); ("key_path", keyPath)]
    (writeError StatusInternalServerError "signing failed").

Definition signEVMRawTx (req : EVMSignRequest) : SM HttpResponse :=
  observing "evm" (body (
    guard (bool_decide (evm_RawTx req = ""))
      (writeError StatusBadRequest "raw_tx is required when type=raw_tx") ;;;
    guard (evm_ChainID req <=? 0)%Z
      (writeError StatusBadRequest "chain_id is required and must be positive") ;;;
    let! raw := check (decodeHex (evm_RawTx req))
                  (λ _, writeError StatusBadRequest "raw_tx must be hex") in
    requireChain (evm_KeyPath req) ChainEVM ;;;
    let! out := catch (on_world (evm_SignRawTx (evm_KeyPath req) (Some (evm_ChainID req)) raw))
                  (signingFailed "EVM raw tx signing failed" (evm_KeyPath req)) in
    let! tx := or_finish (UnmarshalBinary out)
                 (λ err, logged LevelError "decode signed tx failed" [("error", Error err)]
                           (writeError StatusInternalServerError ("decode signed tx: " +:+ Error err))) in
    let '(v, rpart, spart) := RawSignatureValues tx in
    next (writeJSON (SignBody
      {| sr_SignedTx := "0x" +:+ hex_EncodeToString out;
         sr_Signature := ""; sr_PubKey := "";
         sr_Parts := Some (mkSignatureParts (Text16 rpart) (Text16 spart) (Uint64 v));
         sr_CosmosAddress := "" |})))).

Definition signEVMPersonal (req : EVMSignRequest) : SM HttpResponse :=
  observing "evm" (body (
    guard (bool_decide (evm_PersonalMessage req = ""))
      (writeError StatusBadRequest "personal_message is required when type=personal_message") ;;;
    let! msg := check (decodeHex (evm_PersonalMessage req))
                  (λ _, writeError StatusBadRequest "personal_message must be hex") in
    requireChain (evm_KeyPath req) ChainEVM ;;;
    let! sig := catch (on_world (evm_SignPersonalMessage (evm_KeyPath req) msg))
                  (signingFailed "personal message signing failed" (evm_KeyPath req)) in
    next (writeJSON (SignatureBody ("0x" +:+ hex_EncodeToString (NormalizeEthereumV sig)))))).

Definition signEVMEIP712 (req : EVMSignRequest) : SM HttpResponse :=
  observing "evm" (body (
    guard (bool_decide (evm_EIP712Digest req = ""))
      (writeError StatusBadRequest "eip712_digest is required when type=eip712_digest") ;;;
    let! digest := check (decodeHex (evm_EIP712Digest req))
                     (λ _, writeError StatusBadRequest "eip712_digest must be hex") in
    guard (negb (length digest =? 32))
      (writeError StatusBadRequest "eip712_digest must be exactly 32 bytes") ;;;
    requireChain (evm_KeyPath req) ChainEVM ;;;
    let! sig := catch (on_world (evm_SignEIP712Digest (evm_KeyPath req) digest))
                  (signingFailed "EIP-712 signing failed" (evm_KeyPath req)) in
    next (writeJSON (SignatureBody ("0x" +:+ hex_EncodeToString sig))))).

(** [json.NewDecoder(r.Body).Decode(&req)] *)
Definition decodeBody {X} (b : option X) : Prog (Server W) HttpResponse X :=
  match b with
  | Some req => next req
  | None => return_ (writeError StatusBadRequest "invalid JSON")
  end.

Definition badRequest (e : error) : HttpResponse := writeError StatusBadRequest (Error e).

Definition signEVM (b : option EVMSignRequest) : SM HttpResponse :=
  body (
    let! req := decodeBody b in
    guard (bool_decide (evm_KeyPath req = ""))
      (writeError StatusBadRequest "key_path is required") ;;;
    check (ValidateKeyPath (evm_KeyPath req)) badRequest ;;;
    if decide (evm_Type req = "raw_tx") then call (signEVMRawTx req)
    else if decide (evm_Type req = "personal_message") then call (signEVMPersonal req)
    else if decide (evm_Type req = "eip712_digest") then call (signEVMEIP712 req)
    else if decide (evm_Type req = "") then
      next (writeError StatusBadRequest
              "type is required and must be one of raw_tx|personal_message|eip712_digest")
    else next (writeError StatusBadRequest
                 "type must be one of raw_tx|personal_message|eip712_digest")).

(** The outcome of the sign-mode switch of [signCosmos]: [(sig, pub, err)]. *)
Definition cosmosModes (req : CosmosSignRequest)
    : Prog (Server W) HttpResponse (result (bytes * bytes)) :=
  if decide (cos_SignMode req = "DIRECT") then
    match b64_DecodeString StdEncoding (cos_SignDoc req) with
    | Err e => next (Err e)
    | Ok doc =>
        requireChain (cos_KeyPath req) ChainCosmos ;;;
        call (on_world (cosmos_SignDirect (cos_KeyPath req) doc))
    end
  else if decide (cos_SignMode req = "AMINO_JSON") then
    requireChain (cos_KeyPath req) ChainCosmos ;;;
    call (on_world (cosmos_SignAmino (cos_KeyPath req) (bytes_of_string (cos_SignDoc req))))
  else return_ (writeError StatusBadRequest "unsupported sign_mode").

Definition signCosmos (b : option CosmosSignRequest) : SM HttpResponse :=
  observing "cosmos" (body (
    let! req := decodeBody b in
    guard (bool_decide (cos_KeyPath req = ""))
      (writeError StatusBadRequest "key_path is required") ;;;
    check (ValidateKeyPath (cos_KeyPath req)) badRequest ;;;
    let hrp := if decide (cos_HRP req = "") then "cosmos" else cos_HRP req in
    let! r := cosmosModes req in
    let! (sig, pub) := or_finish r
      (λ err, logged LevelError "Cosmos signing failed"
                [("error", Error err); ("key_path", cos_KeyPath req); ("sign_mode", cos_SignMode req)]
                (if errors_Is err ErrBadRequest then badRequest err
                 else writeError StatusInternalServerError "signing failed")) in
    let! addr := or_finish (DeriveCosmosAddressFromCompressed pub hrp)
      (λ derr, logged LevelError "cosmos address derivation failed" [("error", Error derr)]
                 (writeError StatusInternalServerError ("derive cosmos address: " +:+ Error derr))) in
    next (writeJSON (SignBody
      {| sr_SignedTx := ""; sr_Signature := b64_Encode StdEncoding sig;
         sr_PubKey := b64_Encode StdEncoding pub; sr_Parts := None;
         sr_CosmosAddress := addr |})))).

(** The store call that decides [alreadyExisted]. *)
Definition probeKey (path : string) : Prog (Server W) HttpResponse bool :=
  let! r := call (on_world (GetPublicKey path)) in
  match r with
  | Ok _ => next true
  | Err err => if errors_Is err ErrNotFound then next false else finish (writeVaultErr err path "GetPublicKey")
  end.

Definition createKey (b : option KeyCreateRequest) : SM HttpResponse :=
  body (
    let! req := decodeBody b in
    guard (bool_decide (kc_Path req = "")) (writeError StatusBadRequest "path is required") ;;;
    check (ValidateKeyPath (kc_Path req)) badRequest ;;;
    let! parsed := check (ParseChains (kc_Chains req)) badRequest in
    let! alreadyExisted := probeKey (kc_Path req) in
    catch (on_world (CreateKey (kc_Path req) parsed)) (λ err, writeVaultErr err (kc_Path req) "CreateKey") ;;;
    let! info := catch (on_world (For (kc_Path req) DefaultHRP parsed))
                   (λ err, writeVaultErr err (kc_Path req) "deriveKeyInfo") in
    next (writeJSONStatus (if alreadyExisted : bool then StatusOK else StatusCreated)
            (KeyCreateBody (mkKeyCreateResponse info alreadyExisted)))).

(** A persisted allow-list that does not parse. *)
Definition notCanonical (path : string) (err : error) : SM HttpResponse :=
  logged LevelError "persisted chains are not canonical" [("error", Error err); ("key_path", path)]
    (writeError StatusInternalServerError "invalid persisted chains").

Definition showKey (path : string) : SM HttpResponse :=
  body (
    guard (bool_decide (path = "")) (writeError StatusBadRequest "path is required") ;;;
    check (ValidateKeyPath path) badRequest ;;;
    let! rawChains := catch (on_world (GetKeyChains path)) (λ err, writeVaultErr err path "GetKeyChains") in
    let! parsed := or_finish (canonicalizeChains rawChains) (notCanonical path) in
    let! info := catch (on_world (For path DefaultHRP parsed)) (λ err, writeVaultErr err path "GetPublicKey") in
    next (writeJSON (KeyInfoBody info))).

Definition onlyAddChains : HttpResponse := writeError StatusBadRequest "only add_chains is supported".

(** The body is the decoded [map[string]json.RawMessage]. *)
Definition updateKeyChains (path : string) (b : option (gmap string any)) : SM HttpResponse :=
  body (
    guard (bool_decide (path = "")) (writeError StatusBadRequest "path is required") ;;;
    check (ValidateKeyPath path) badRequest ;;;
    let! raw := decodeBody b in
    guard (size raw =? 0) onlyAddChains ;;;
    guard (negb (size raw =? 1)) onlyAddChains ;;;
    let! addRaw := match raw !! "add_chains" with
                   | Some v => next v
                   | None => return_ onlyAddChains
                   end in
    let! addChains := match unmarshalStrings addRaw with
                      | Some l => next l
                      | None => return_ (writeError StatusBadRequest
                                           "add_chains must be an array of strings")
                      end in
    let! parsed := check (ParseChains addChains) badRequest in
    let! updated := catch (on_world (UpdateKeyChains path parsed)) (λ err, writeVaultErr err path "UpdateKeyChains") in
    let! s := get in
    match chains s with
    | Some c => call (setChains (Some (cache_invalidate c path)))
    | None => next tt
    end ;;;
    let! out := or_finish (canonicalizeChains updated) (notCanonical path) in
    next (writeJSON (ChainsBody (mkKeyUpdateChainsResponse path out)))).

(** One job of the worker pool: the chains of an entry, when they can be read
    and parsed. *)
Definition listEntry (path : string) : SM KeyListEntry :=
  body (
    let! r := call (on_world (GetKeyChains path)) in
    next match r with
         | Ok raw =>
             match toKeyListChains raw with
             | Some parsed => mkKeyListEntry path parsed true
             | None => mkKeyListEntry path [] false
             end
         | Err _ => mkKeyListEntry path [] false
         end).

(** The jobs of a page.  The workers take them from one channel and write to
    disjoint entries; the jobs are run here in the order they are sent. *)
Fixpoint listEntries (paths : list string) : SM (list KeyListEntry) :=
  match paths with
  | [] => body (next [])
  | p :: paths' =>
      body (
        let! e := call (listEntry p) in
        let! es := call (listEntries paths') in
        next (e :: es))
  end.

Definition listKeys (prefix limitRaw cursorRaw : string) : SM HttpResponse :=
  body (
    let! limit := check (parseListLimit limitRaw) badRequest in
    let! (offset, cursorPrefix) := check (parseListCursor cursorRaw)
                                     (λ _, writeError StatusBadRequest "invalid cursor") in
    guard (negb (bool_decide (cursorPrefix = "")) && negb (bool_decide (cursorPrefix = prefix)))
      (writeError StatusBadRequest "invalid cursor") ;;;
    let! ks := catch (on_world (ListKeys prefix)) (λ err, writeVaultErr err prefix "ListKeys") in
    let '(lo, hi) := pageBounds (Z.of_nat (length ks)) offset limit in
    let page := slice ks lo hi in
    let! entries := call (listEntries (joinKeyPath prefix <$> page)) in
    let nextCursor := if (hi <? Z.of_nat (length ks))%Z then encodeListCursor prefix hi else "" in
    next (writeJSON (KeyListBody
      {| klr_Keys := entries; klr_Count := Z.of_nat (length entries); klr_NextCursor := nextCursor |}))).
End handlers.
