(* ===== verification/GatewayTheorems.v ===== *)
(** * Theorems about the gateway

    Chain authorization and its cache, the gate in front of the signers,
    pagination, and readiness, for arbitrary key stores and signers. *)

From S2P Require Import Prelude GoLib Types KeyPath Crypto Interfaces VaultClient EvmSigner.
From S2P Require Import CosmosSigner Limiter Telemetry Gateway GatewayHandlers.

Section authorization.
Context {W : Type} {K : KeyStore W} {T : Clock W}.

(** The allow-list was read from the key store just now. *)
Definition fetched (path : string) (s s' : Server W) (allowed : list Chain) : Prop :=
  ∃ raw, GetKeyChains path (world s) = (world s', Val (Ok raw)) ∧
         canonicalizeChains raw = Ok allowed.

(** The allow-list is in the cache and no older than its time to live. *)
Definition cached_fresh (path : string) (s : Server W) (allowed : list Chain) : Prop :=
  ∃ c e, chains s = Some c ∧ cc_entries c !! path = Some e ∧ cce_chains e = allowed ∧
         (clock (world s) - cce_at e ≤ cc_ttl c)%Z.

(** What an authorization decision is justified by. *)
Definition authz_justified (path : string) (attempted : Chain) (s s' : Server W) (r : authz) : Prop :=
  match r with
  | Authorized allowed =>
      attempted ∈ allowed ∧
      ((cached_fresh path s allowed ∧ s' = s) ∨ fetched path s s' allowed)
  | Refused allowed status err =>
      (fetched path s s' allowed ∧ ¬ (attempted ∈ allowed) ∧ status = StatusForbidden ∧
       telemetry s' = telemetry s ++ [Observed kmsChainAuthzDenialsTotal [attempted]]) ∨
      (∃ o, GetKeyChains path (world s) = (world s', o) ∧ telemetry s' = telemetry s ∧
            allowed = [] ∧ status ≠ 0%Z)
  end.

Lemma mwp_on_world {X} (m : M W X) (s : Server W) Q :
  (∀ w' o, m (world s) = (w', o) →
     Q (mkServerState w' (chains s) (healthResp s) (telemetry s)) o) →
  mwp (on_world m) Q s.
Proof. intros HQ. unfold mwp, on_world. destruct (m (world s)) as [w' o]. by apply HQ. Qed.

(** ** Log lines *)

(** The server after a log line. *)
Definition after_log (level : Level) (msg : string) (attrs : list (string * string)) (s : Server W) : Server W :=
  mkServerState (world s) (chains s) (healthResp s) (telemetry s ++ [Logged (mkRecord level msg attrs)]).

Lemma mwp_logged level msg attrs resp (s : Server W) Q :
  Q (after_log level msg attrs s) (Val resp) → mwp (logged level msg attrs resp) Q s.
Proof. done. Qed.

(** The response of [writeChainAuthzResult]. *)
Definition chain_refusal (keyPath : string) (status : Z) (err : error) : HttpResponse :=
  if (status =? StatusForbidden)%Z then
    if errors_Is err ErrPermission then writeError status "permission denied"
    else writeError status (Error err)
  else if (status =? StatusServiceUnavailable)%Z
  then writeError status "chain authorization unavailable"
  else if (status =? StatusNotFound)%Z then vaultErr err keyPath
  else writeError StatusInternalServerError "signing failed".

(** The messages of the chain's own lines, which no handler writes. *)
Definition chain_lines : list string := ["request"; "panic in handler"].

Lemma mwp_writeChainAuthzResult path attempted allowed status err (s : Server W) Q :
  (∀ level msg attrs, msg ∉ chain_lines → Q (after_log level msg attrs s) (Val (chain_refusal path status err))) →
  mwp (writeChainAuthzResult path attempted allowed status err) Q s.
Proof.
  intros HQ. unfold writeChainAuthzResult, chain_refusal in *.
  repeat case_match; apply mwp_logged, HQ; by apply (bool_decide_unpack _).
Qed.

Lemma authorizeChainFetch_justified path attempted (s : Server W) :
  mwp (authorizeChainFetch path attempted)
      (λ s' o, ∀ r, o = Val r → authz_justified path attempted s s' r) s.
Proof.
  unfold authorizeChainFetch. repeat wp_step. apply mwp_on_world. intros w' [[raw|err]|m] Hk; simpl.
  - repeat wp_step.
    all: try match goal with |- mwp _ _ _ => unfold mwp, setChains, inc; simpl end.
    all: repeat wp_step.
    all: try match goal with |- mwp _ _ _ => unfold mwp, setChains, inc; simpl end.
    all: repeat wp_step.
    all: intros r [= <-]; simpl.
    all: try (left; split_and!; [by exists raw|by apply ChainsContain_false|done..]).
    all: try (split; [by apply ChainsContain_spec|right; by exists raw]).
    right. by eexists.
  - intros r [= <-]. right. eexists. split_and!; [done..|].
    destruct (errors_Is err ErrNotFound), (errors_Is err ErrPermission); done.
  - done.
Qed.

(** C5. Chain authorization is sound, cache or not: access is granted only
    when the attempted chain is in an allow-list that was either read from the
    key store by this request or cached no longer ago than the cache's time to
    live; a denial is never served from the cache, always follows a fresh read,
    and is counted; every other refusal is a failed read. *)
Theorem authorizeChain_sound (path : string) (attempted : Chain) (s s' : Server W) (r : authz) :
  authorizeChain path attempted s = (s', Val r) → authz_justified path attempted s s' r.
Proof.
  intros Hrun. refine (mwp_run (authorizeChain path attempted)
    (λ s' o, ∀ r, o = Val r → authz_justified path attempted s s' r) s s' (Val r) _ Hrun r eq_refl).
  unfold authorizeChain. repeat wp_step.
  all: try (eapply mwp_mono; [apply authorizeChainFetch_justified|]; by intros s1 [] HQ; simpl; auto).
  intros r0 [= <-]. split; [by apply ChainsContain_spec|]. left. split; [|done].
  unfold cache_get in *. destruct (cc_entries c !! path) as [e|] eqn:He; [|done]. simplify_eq.
  exists c, e. to_prop. done.
Qed.
End authorization.

(** A failure that is logged and answered. *)
Ltac log_step :=
  lazymatch goal with
  | |- mwp (logged _ _ _ _) _ _ => apply mwp_logged
  | |- mwp (writeVaultErr _ _ _) _ _ => apply mwp_logged
  | |- mwp (signingFailed _ _ _) _ _ => apply mwp_logged
  | |- mwp (notCanonical _ _) _ _ => apply mwp_logged
  end; cbn [returns]; cbv beta iota.

Section signing.
Context {W : Type} {K : KeyStore W} {T : Clock W} {EV : EVMSigner W} {CO : CosmosSignerI W}
        {TX : EthTx} {L : CosmosLib}.

Lemma vaultErr_not_ok err path : rs_status (vaultErr err path) ≠ StatusOK.
Proof. unfold vaultErr. repeat case_match; done. Qed.

Lemma chain_refusal_not_ok path status err : rs_status (chain_refusal path status err) ≠ StatusOK.
Proof.
  unfold chain_refusal.
  destruct (Z.eqb_spec status StatusForbidden) as [->|]; [by case_match|].
  destruct (Z.eqb_spec status StatusServiceUnavailable) as [->|]; [done|].
  case_match; [apply vaultErr_not_ok|done].
Qed.

Lemma wp_requireChain path attempted (s : Server W) Q :
  (∀ s1 allowed, authorizeChain path attempted s = (s1, Val (Authorized allowed)) → Q s1 (Next tt)) →
  (∀ s1 resp, rs_status resp ≠ StatusOK → Q s1 (Return resp)) →
  (∀ s1 m, Q s1 (Abrupt m)) →
  wp (requireChain path attempted) Q s.
Proof.
  intros Hok Hno Hpanic. unfold requireChain. repeat wp_step. unfold mwp.
  destruct (authorizeChain path attempted s) as [s1 [[allowed|allowed status err]|m]] eqn:Hrun;
    simpl; repeat wp_step; [by eapply Hok| |done].
  apply mwp_writeChainAuthzResult. intros lv msg attrs _. apply Hno, chain_refusal_not_ok.
Qed.

Lemma mwp_observing {X} label (m : M (Server W) X) (s : Server W) Q :
  mwp m (λ s' o, ∀ s'', world s'' = world s' → chains s'' = chains s' → Q s'' o) s →
  mwp (observing label m) Q s.
Proof.
  unfold mwp, observing. destruct (m s) as [s' o]. simpl. intros HQ. by apply HQ.
Qed.

(** What a successful EVM response says: the decoded payload was given to the
    signer for the request's key path, and the response carries the signer's
    answer. *)
Definition evm_answer (req : EVMSignRequest) (w w' : W) (body : Body) : Prop :=
  (evm_Type req = "raw_tx" ∧ (0 < evm_ChainID req)%Z ∧ ∃ raw out tx v r s,
     decodeHex (evm_RawTx req) = Ok raw ∧
     evm_SignRawTx (evm_KeyPath req) (Some (evm_ChainID req)) raw w = (w', Val (Ok out)) ∧
     UnmarshalBinary out = Ok tx ∧ RawSignatureValues tx = (v, r, s) ∧
     body = SignBody (mkSignResponse ("0x" +:+ hex_EncodeToString out) "" ""
              (Some (mkSignatureParts (Text16 r) (Text16 s) (Uint64 v))) "")) ∨
  (evm_Type req = "personal_message" ∧ ∃ msg sig,
     decodeHex (evm_PersonalMessage req) = Ok msg ∧
     evm_SignPersonalMessage (evm_KeyPath req) msg w = (w', Val (Ok sig)) ∧
     body = SignatureBody ("0x" +:+ hex_EncodeToString (NormalizeEthereumV sig))) ∨
  (evm_Type req = "eip712_digest" ∧ ∃ digest sig,
     decodeHex (evm_EIP712Digest req) = Ok digest ∧ length digest = 32 ∧
     evm_SignEIP712Digest (evm_KeyPath req) digest w = (w', Val (Ok sig)) ∧
     body = SignatureBody ("0x" +:+ hex_EncodeToString sig)).

(** The response is a refusal, or it was authorized and answers the request. *)
Definition evm_gated (req : EVMSignRequest) (s s' : Server W) (o : outcome HttpResponse) : Prop :=
  ∀ resp, o = Val resp → rs_status resp = StatusOK →
    ∃ s1 allowed, authorizeChain (evm_KeyPath req) ChainEVM s = (s1, Val (Authorized allowed)) ∧
                  evm_answer req (world s1) (world s') (rs_body resp).

Ltac gate :=
  repeat first [ wp_step
               | log_step
               | apply mwp_observing
               | apply wp_requireChain; [intros ? ? ?|intros ? ? ?|intros ? ?]
               | apply mwp_on_world; intros ? ? ?
               | match goal with |- match ?o with Val _ => _ | Panic _ => _ end => destruct o as [[?|?]|?] end ];
  intros; simplify_eq/=; try done.

Lemma signEVMRawTx_gated req (s : Server W) :
  evm_Type req = "raw_tx" → mwp (signEVMRawTx req) (evm_gated req s) s.
Proof.
  intros Hty. unfold signEVMRawTx. gate. all: unfold evm_gated; intros; simplify_eq/=.
  eexists _, _. split; [done|]. left. split_and!; [done|by to_prop|].
  by repeat eexists.
Qed.

Lemma signEVMPersonal_gated req (s : Server W) :
  evm_Type req = "personal_message" → mwp (signEVMPersonal req) (evm_gated req s) s.
Proof.
  intros Hty. unfold signEVMPersonal. gate. all: unfold evm_gated; intros; simplify_eq/=.
  eexists _, _. split; [done|]. right; left. split; [done|]. by repeat eexists.
Qed.

Lemma signEVMEIP712_gated req (s : Server W) :
  evm_Type req = "eip712_digest" → mwp (signEVMEIP712 req) (evm_gated req s) s.
Proof.
  intros Hty. unfold signEVMEIP712. gate. all: unfold evm_gated; intros; simplify_eq/=.
  eexists _, _. split; [done|]. right; right. split; [done|]. to_prop.
  by repeat eexists.
Qed.

(** C6. The EVM gate, for arbitrary stores and signers: a 200 response to an
    EVM sign request is only given for a valid key path that was authorized for
    "evm" by [authorizeChain], and it carries what the signer answered for that
    path and the decoded payload (with v normalised for personal messages
    only); undecodable bodies, bad paths, unknown types and missing payloads
    are answered with another status. *)
Theorem signEVM_gate (b : option EVMSignRequest) (s s' : Server W) (resp : HttpResponse) :
  signEVM b s = (s', Val resp) → rs_status resp = StatusOK →
  ∃ req s1 allowed, b = Some req ∧ KeyPathOk (evm_KeyPath req) ∧
    authorizeChain (evm_KeyPath req) ChainEVM s = (s1, Val (Authorized allowed)) ∧
    evm_answer req (world s1) (world s') (rs_body resp).
Proof.
  intros Hrun Hst.
  assert (mwp (signEVM b) (λ s' o, ∀ resp, o = Val resp → rs_status resp = StatusOK →
    ∃ req, b = Some req ∧ KeyPathOk (evm_KeyPath req) ∧ evm_gated req s s' o) s) as Hwp.
  { unfold signEVM, decodeBody, ValidateKeyPath. destruct b as [req|]; repeat wp_step.
    all: try (intros; by simplify_eq/=).
    all: eapply mwp_mono;
      [first [by apply signEVMRawTx_gated|by apply signEVMPersonal_gated|by apply signEVMEIP712_gated]|].
    all: intros s1 [] Hg r [= <-] Hr; exists req; split_and!; [done|by apply Validate_KeyPathOk|done]. }
  destruct (mwp_run _ _ _ _ _ Hwp Hrun _ eq_refl Hst) as (req & -> & Hn & Hg).
  destruct (Hg _ eq_refl Hst) as (s1 & allowed & Ha & Hb). eauto 8.
Qed.

(** What a successful Cosmos response says. *)
Definition cosmos_answer (req : CosmosSignRequest) (w w' : W) (body : Body) : Prop :=
  ∃ sig pub addr,
    ((cos_SignMode req = "DIRECT" ∧ ∃ doc, b64_DecodeString StdEncoding (cos_SignDoc req) = Ok doc ∧
        cosmos_SignDirect (cos_KeyPath req) doc w = (w', Val (Ok (sig, pub)))) ∨
     (cos_SignMode req = "AMINO_JSON" ∧
        cosmos_SignAmino (cos_KeyPath req) (bytes_of_string (cos_SignDoc req)) w
        = (w', Val (Ok (sig, pub))))) ∧
    DeriveCosmosAddressFromCompressed pub (if decide (cos_HRP req = "") then "cosmos" else cos_HRP req)
    = Ok addr ∧
    body = SignBody (mkSignResponse "" (b64_Encode StdEncoding sig) (b64_Encode StdEncoding pub)
                       None addr).

Lemma signCosmos_gated b (s : Server W) :
  mwp (signCosmos b) (λ s' o, ∀ resp, o = Val resp → rs_status resp = StatusOK →
    ∃ req s1 allowed, b = Some req ∧ KeyPathOk (cos_KeyPath req) ∧
      authorizeChain (cos_KeyPath req) ChainCosmos s = (s1, Val (Authorized allowed)) ∧
      cosmos_answer req (world s1) (world s') (rs_body resp)) s.
Proof.
  unfold signCosmos, decodeBody, cosmosModes, ValidateKeyPath. destruct b as [req|]; gate.
  all: repeat case_match; simplify_eq/=; try done.
  all: eexists _, _, _; split_and!; [done|by apply Validate_KeyPathOk|done|].
  all: eexists _, _, _; split; [first [left; by eauto | right; by eauto]|].
  all: by split; [case_decide|].
Qed.

(** C10. The Cosmos gate: a 200 response to a Cosmos sign request is only given
    for a valid key path authorized for "cosmos", and it carries the signer's
    signature and public key for that path and document with the address
    derived from that same public key under the requested HRP. *)
Theorem signCosmos_gate (b : option CosmosSignRequest) (s s' : Server W) (resp : HttpResponse) :
  signCosmos b s = (s', Val resp) → rs_status resp = StatusOK →
  ∃ req s1 allowed, b = Some req ∧ KeyPathOk (cos_KeyPath req) ∧
    authorizeChain (cos_KeyPath req) ChainCosmos s = (s1, Val (Authorized allowed)) ∧
    cosmos_answer req (world s1) (world s') (rs_body resp).
Proof. intros Hrun Hst. by apply (mwp_run _ _ _ _ _ (signCosmos_gated b s) Hrun). Qed.
End signing.
