(* ===== verification/ResponseTypes.v ===== *)
(** * The responses of the REST API have the documented types

    The JSON text of a response body, the schemas of the response structs of
    [pkg/types/types.go], and the theorem that every answer of the request
    handlers is a JSON text of a schema of its endpoint and status. *)

From S2P Require Import Prelude GoLib Types KeyPath Crypto Interfaces VaultClient EvmSigner.
From S2P Require Import CosmosSigner Float64 Json JsonProps JsonRoundtrip HttpJson HttpJsonProps.
From S2P Require Import Limiter Gateway GatewayHandlers GatewayTheorems.

(** ** Bodies as texts *)

(** [None] for the pages of [net/http], which are not JSON. *)
Definition body_text (b : Body) : option jtext :=
  match b with
  | ErrorBody msg => Some (ErrorResponse_text msg)
  | SignBody r => Some (SignResponse_text r)
  | SignatureBody sig => Some (TObject [("signature", TString sig)])
  | KeyInfoBody info => Some (KeyInfo_text info)
  | KeyCreateBody r => Some (KeyCreateResponse_text r)
  | KeyListBody r => Some (KeyListResponse_text r)
  | ChainsBody r => Some (KeyUpdateChainsResponse_text r)
  | MapBody m => Some (string_map_text m)
  | TextBody _ | RedirectBody _ => None
  end.

(** The bytes the 405 rewriter writes are those of the encoder. *)
Example method_not_allowed_text :
  Encode (ErrorResponse_text "method not allowed")
  = "{" +:+ String quote ("error" +:+ String quote (":" +:+ String quote ("method not allowed" +:+
      String quote ("}" +:+ newline)))).
Proof. vm_compute. reflexivity. Qed.

(** ** Schemas *)

(** An enumeration lists its strings.  An object schema lists its members with
    their types and whether they are required; no other member is allowed. *)
Inductive schema :=
  | SString | SBool | SInt
  | SEnum (values : list string)
  | SArray (elem : schema)
  | SObject (members : list (string * (schema * bool))).

Fixpoint assoc {A} (k : string) (l : list (string * A)) : option A :=
  match l with
  | [] => None
  | (k', v) :: l' => if decide (k' = k) then Some v else assoc k l'
  end.

Definition has_member {A} (k : string) (ms : list (string * A)) : bool :=
  existsb (λ kv, bool_decide (kv.1 = k)) ms.

Definition required_present {A} (fs : list (string * (schema * bool))) (ms : list (string * A)) : bool :=
  forallb (λ f, negb f.2.2 || has_member f.1 ms) fs.

Fixpoint typed (sch : schema) (t : jtext) : bool :=
  match t, sch with
  | TString _, SString => true
  | TString s, SEnum values => bool_decide (s ∈ values)
  | TBool _, SBool => true
  | TNumber l, SInt => bool_decide (n_frac l = "" ∧ n_exp l = None)
  | TArray l, SArray e => forallb (typed e) l
  | TObject ms, SObject fs =>
      required_present fs ms &&
      forallb (λ kv, match assoc kv.1 fs with Some (sch', _) => typed sch' kv.2 | None => false end) ms
  | _, _ => false
  end.

Definition req (k : string) (sch : schema) : string * (schema * bool) := (k, (sch, true)).
Definition opt (k : string) (sch : schema) : string * (schema * bool) := (k, (sch, false)).

Definition ErrorResponse_schema : schema := SObject [req "error" SString].

Definition SignatureParts_schema : schema := SObject [req "r" SString; req "s" SString; req "v" SInt].

Definition EVMSignRawTxResponse_schema : schema :=
  SObject [req "signed_tx" SString; req "signature_parts" SignatureParts_schema].

Definition EVMSignPersonalResponse_schema : schema := SObject [req "signature" SString].

Definition SignResponse_schema : schema :=
  SObject [opt "signed_tx" SString; opt "signature" SString; opt "pub_key" SString;
           opt "signature_parts" SignatureParts_schema; opt "cosmos_address" SString].

Definition Chain_schema : schema := SEnum [ChainEVM; ChainCosmos].

Definition KeyInfo_fields : list (string * (schema * bool)) :=
  [req "path" SString; req "public_key_hex" SString; opt "evm_address" SString;
   opt "cosmos_address" SString; req "chains" (SArray Chain_schema)].

Definition KeyInfo_schema : schema := SObject KeyInfo_fields.

Definition KeyCreateResponse_schema : schema := SObject (KeyInfo_fields ++ [req "already_existed" SBool]).

Definition KeyListEntry_schema : schema :=
  SObject [req "path" SString; req "chains" (SArray Chain_schema); req "chains_available" SBool].

Definition KeyListResponse_schema : schema :=
  SObject [req "keys" (SArray KeyListEntry_schema); req "count" SInt; req "next_cursor" SString].

Definition KeyUpdateChainsResponse_schema : schema :=
  SObject [req "path" SString; req "chains" (SArray Chain_schema)].

(** ** Typed texts stay typed on the wire *)

(** The names of a schema are valid UTF-8, so that printing keeps them. *)
Fixpoint names_valid (sch : schema) : bool :=
  match sch with
  | SEnum values => forallb (λ s, bool_decide (valid_utf8 s = s)) values
  | SArray e => names_valid e
  | SObject fs => forallb (λ f, bool_decide (valid_utf8 f.1 = f.1) && names_valid f.2.1) fs
  | _ => true
  end.

Lemma assoc_elem {A} k (l : list (string * A)) v : assoc k l = Some v → (k, v) ∈ l.
Proof.
  induction l as [|[k' v'] l IH]; [done|]. simpl. case_decide; [intros [= <-]; subst; left|right; auto].
Qed.

Lemma has_member_elem {A} k (ms : list (string * A)) : has_member k ms = true ↔ ∃ v, (k, v) ∈ ms.
Proof.
  unfold has_member. rewrite existsb_exists. setoid_rewrite bool_decide_eq_true. split.
  - intros ([k' v] & Hin & <-). exists v. by apply list_elem_of_In.
  - intros [v Hin]. exists (k, v). split; [by apply list_elem_of_In|done].
Qed.

Lemma required_valid fs (ms : list (string * jtext)) :
  forallb (λ f : string * (schema * bool), bool_decide (valid_utf8 f.1 = f.1) && names_valid f.2.1) fs = true →
  required_present fs ms = true →
  required_present fs (map (λ kv, (valid_utf8 kv.1, valid_text kv.2)) ms) = true.
Proof.
  unfold required_present. rewrite !Forall_forallb, !Forall_forall. intros Hn Hr [k [sch r]] Hf.
  specialize (Hn _ Hf). specialize (Hr _ Hf). cbn [fst snd] in *. destruct r; [|done]. cbn [negb orb] in *.
  apply has_member_elem in Hr as [t Ht]. apply andb_true_iff in Hn as [Hk%bool_decide_eq_true _].
  apply has_member_elem. exists (valid_text t). apply list_elem_of_fmap. exists (k, t). cbn [fst snd]. by rewrite Hk.
Qed.

Lemma typed_valid t : ∀ sch, names_valid sch = true → typed sch t = true → typed sch (valid_text t) = true.
Proof.
  revert t.
  apply (jtext_nested_ind (λ t, ∀ sch, names_valid sch = true → typed sch t = true → typed sch (valid_text t) = true)).
  1-3: by intros; destruct sch.
  - intros s [| | |vs| |] Hn Ht; try done. cbn [valid_text typed names_valid] in *.
    apply bool_decide_eq_true in Ht. apply Forall_forallb in Hn. rewrite Forall_forall in Hn.
    specialize (Hn s Ht). apply bool_decide_eq_true in Hn. rewrite Hn. by apply bool_decide_eq_true.
  - intros l IH [| | | |e|] Hn Ht; try done. cbn [valid_text typed names_valid] in *.
    rewrite Forall_forallb in *. rewrite Forall_fmap. rewrite Forall_forall in *. unfold compose. auto.
  - intros ms IH [| | | | |fs] Hn Ht; try done. cbn [valid_text typed names_valid] in *.
    apply andb_true_iff in Ht as [Hr Ht]. rewrite required_valid by done. cbn [andb].
    apply Forall_forallb in Hn, Ht. apply Forall_forallb. rewrite Forall_fmap.
    pose proof (proj1 (Forall_forall _ _) Hn) as Hn'. rewrite Forall_forall in IH, Ht |- *. intros [k t] Hkt.
    specialize (Ht _ Hkt). specialize (IH _ Hkt). unfold compose. cbn [fst snd] in *.
    destruct (assoc k fs) as [[sch r]|] eqn:Hk; [|done]. specialize (Hn' _ (assoc_elem _ _ _ Hk)).
    apply andb_true_iff in Hn' as [Hv%bool_decide_eq_true Hs]. cbn [fst snd] in *. rewrite Hv, Hk. auto.
Qed.

(** ** Every body is a JSON text *)

Lemma KeyListEntry_printable d e : (d + 1 < maxNestingDepth)%N → printable d (KeyListEntry_text e).
Proof. intros Hd. apply flat_object; [flat_members|done]. Qed.

Lemma body_text_printable b t : body_text b = Some t → printable 0 t.
Proof.
  destruct b; intros [= <-];
    try (apply flat_object; [unfold KeyInfo_members; flat_members; fail|done]).
  - constructor; [done|]. repeat (apply Forall_app; split);
      try (eapply Forall_impl; [apply flat_omitempty|]; intros kv Hkv; by apply flat_printable).
    destruct (sr_Parts r) as [p|]; [|constructor]. apply Forall_cons; split; [|constructor].
    apply flat_object; [flat_members|done].
  - constructor; [done|]. repeat (apply Forall_cons; split); [|apply flat_printable; [constructor|done]..|constructor].
    constructor; [done|]. apply Forall_forall. intros t (e & -> & _)%list_elem_of_fmap.
    by apply KeyListEntry_printable.
  - apply flat_object; [|done]. apply Forall_forall. intros kv (k & -> & _)%list_elem_of_fmap. constructor.
Qed.

(** What the client receives for a typed body: one line of JSON of that
    type. *)
Lemma encoded_typed b t sch :
  body_text b = Some t → names_valid sch = true → typed sch t = true →
  ∃ t', parse (Encode t) = Some t' ∧ typed sch t' = true.
Proof.
  intros Hb Hn Ht. exists (valid_text t). split; [|by apply typed_valid].
  apply parse_print; [by eapply body_text_printable|done|done].
Qed.

(** ** The bodies of the handlers *)

(** Chains as the closed set of the document. *)
Definition known (l : list Chain) : Prop := Forall (λ c, c ∈ [ChainEVM; ChainCosmos]) l.

Lemma typed_chains l : known l → typed (SArray Chain_schema) (strings_text l) = true.
Proof.
  intros Hl. cbn [strings_text typed]. apply Forall_forallb, Forall_fmap. eapply Forall_impl; [exact Hl|].
  intros c Hc. by apply bool_decide_eq_true.
Qed.

Lemma ParseChains_known raw l : ParseChains raw = Ok l → known l.
Proof. intros (c & e & -> & _)%ParseChains_Canonical. unfold known. destruct c, e; repeat constructor; set_solver. Qed.

Lemma canonicalizeChains_known raw l : canonicalizeChains raw = Ok l → known l.
Proof.
  unfold canonicalizeChains. case_match; [intros [= <-]; constructor|].
  destruct (ParseChains raw) eqn:Hp; [|done]. intros [= <-]. by eapply ParseChains_known.
Qed.

Lemma typed_int z : typed SInt (TNumber (int_lit z)) = true.
Proof. done. Qed.

(** The response is the JSON text of one of the listed statuses and
    schemas. *)
Definition replies (allowed : list (Z * schema)) (resp : HttpResponse) : Prop :=
  ∃ t t' sch, body_text (rs_body resp) = Some t ∧ parse (Encode t) = Some t' ∧
    typed sch t' = true ∧ (rs_status resp, sch) ∈ allowed.

Definition failures : list (Z * schema) :=
  (λ st, (st, ErrorResponse_schema)) <$> [400; 403; 404; 500; 503]%Z.

Lemma replies_intro allowed resp t sch :
  body_text (rs_body resp) = Some t → typed sch t = true → (rs_status resp, sch) ∈ allowed →
  names_valid sch = true → replies allowed resp.
Proof.
  intros Hb Ht Hin Hn. destruct (encoded_typed _ _ _ Hb Hn Ht) as (t' & Hp & Ht'). by exists t, t', sch.
Qed.

Lemma replies_error success status msg :
  (status ∈ [400; 403; 404; 500; 503])%Z → replies (success ++ failures) (writeError status msg).
Proof.
  intros Hst. eapply (replies_intro _ _ _ ErrorResponse_schema); [done|done| |reflexivity].
  apply elem_of_app. right. apply list_elem_of_fmap. by exists status.
Qed.

Lemma replies_vault_err success e path : replies (success ++ failures) (vaultErr e path).
Proof. unfold vaultErr. repeat case_match; apply replies_error; set_solver. Qed.

Lemma replies_authz_err success path status err :
  replies (success ++ failures) (chain_refusal path status err).
Proof.
  unfold chain_refusal.
  destruct (Z.eqb_spec status StatusForbidden) as [->|]; [case_match; apply replies_error; set_solver|].
  destruct (Z.eqb_spec status StatusServiceUnavailable) as [->|]; [apply replies_error; set_solver|].
  case_match; [apply replies_vault_err|apply replies_error; set_solver].
Qed.

Section handlers.
Context {W : Type} {K : KeyStore W} {H : HealthChecker W} {T : Clock W}
        {EV : EVMSigner W} {CO : CosmosSignerI W} {C : EthCrypto} {TX : EthTx} {L : CosmosLib}.

(** A call about which nothing is known. *)
Lemma mwp_any {S X} (m : M S X) Q (s : S) : (∀ s' o, Q s' o) → mwp m Q s.
Proof. intros HQ. apply HQ. Qed.

(** When the call returns, its response is one of the allowed ones. *)
Definition answered (allowed : list (Z * schema)) : Server W → outcome HttpResponse → Prop :=
  λ _ o, ∀ resp, o = Val resp → replies allowed resp.

Lemma wp_requireChain_replies success path attempted (s : Server W) Q :
  (∀ s1, Q s1 (Next tt)) → (∀ s1 resp, replies (success ++ failures) resp → Q s1 (Return resp)) →
  (∀ s1 m, Q s1 (Abrupt m)) → wp (requireChain path attempted) Q s.
Proof.
  intros Hok Hno Hpanic. unfold requireChain. repeat wp_step. apply mwp_any.
  intros s1 [[allowed|allowed status err]|m]; repeat wp_step; auto.
  apply mwp_writeChainAuthzResult. intros lv msg attrs _. apply Hno, replies_authz_err.
Qed.

Lemma answered_run allowed m (s s' : Server W) resp :
  mwp m (answered allowed) s → m s = (s', Val resp) → replies allowed resp.
Proof. intros Hm Hrun. exact (mwp_run _ _ _ _ _ Hm Hrun resp eq_refl). Qed.

Ltac a_step success :=
  first [ wp_step
        | log_step
        | apply mwp_observing
        | apply (wp_requireChain_replies success); [intros ?|intros ? ? ?|intros ? ?]
        | apply mwp_any; intros ? [[]|]
        | apply mwp_any; intros ? [] ].

Ltac answer success :=
  unfold answered, badRequest, onlyAddChains; repeat a_step success;
  try (intros; discriminate);
  try (intros ? ? ? resp0 [= <-]); try (intros resp0 [= <-]);
  first [ assumption | apply replies_error; set_solver | apply replies_vault_err | idtac ].

(** A success response: its schema is the [n]-th allowed one. *)
Ltac success sch :=
  eapply (replies_intro _ _ _ sch); [reflexivity| |set_solver|vm_compute; reflexivity].

Definition evm_success : list (Z * schema) :=
  [(200%Z, EVMSignRawTxResponse_schema); (200%Z, EVMSignPersonalResponse_schema)].

Definition cosmos_success : list (Z * schema) := [(200%Z, SignResponse_schema)].

Definition create_success : list (Z * schema) :=
  [(200%Z, KeyCreateResponse_schema); (201%Z, KeyCreateResponse_schema)].

Definition show_success : list (Z * schema) := [(200%Z, KeyInfo_schema)].

Definition update_success : list (Z * schema) := [(200%Z, KeyUpdateChainsResponse_schema)].

Definition list_success : list (Z * schema) := [(200%Z, KeyListResponse_schema)].

Lemma signEVMRawTx_typed r s : mwp (signEVMRawTx r) (answered (evm_success ++ failures)) s.
Proof. unfold signEVMRawTx. answer evm_success. by success EVMSignRawTxResponse_schema. Qed.

Lemma signEVMPersonal_typed r s : mwp (signEVMPersonal r) (answered (evm_success ++ failures)) s.
Proof. unfold signEVMPersonal. answer evm_success. by success EVMSignPersonalResponse_schema. Qed.

Lemma signEVMEIP712_typed r s : mwp (signEVMEIP712 r) (answered (evm_success ++ failures)) s.
Proof. unfold signEVMEIP712. answer evm_success. by success EVMSignPersonalResponse_schema. Qed.

Lemma signEVM_typed b s : mwp (signEVM b) (answered (evm_success ++ failures)) s.
Proof.
  unfold signEVM, decodeBody. repeat wp_step.
  all: try (eapply mwp_mono;
            [first [apply signEVMRawTx_typed|apply signEVMPersonal_typed|apply signEVMEIP712_typed]|];
            intros s' [] Hans; [exact Hans|done]).
  all: intros resp [= <-]; apply replies_error; set_solver.
Qed.

Lemma signCosmos_typed b s : mwp (signCosmos b) (answered (cosmos_success ++ failures)) s.
Proof.
  unfold signCosmos, decodeBody, cosmosModes. answer cosmos_success.
  all: try (case_match; apply replies_error; set_solver).
  all: success SignResponse_schema; cbn [typed SignResponse_text sr_SignedTx sr_Signature sr_PubKey sr_Parts sr_CosmosAddress].
  all: unfold omitempty; repeat case_decide; done.
Qed.

(** A typed struct: its optional members are there or not, its chains are a
    typed text. *)
Ltac struct_typed chains Hk :=
  unfold omitempty; repeat case_decide;
  pose proof (typed_chains chains Hk) as Ht; revert Ht; generalize (strings_text chains);
  intros t Ht; vm_compute in Ht; vm_compute; by rewrite Ht.

Lemma typed_KeyInfo info : known (ki_Chains info) → typed KeyInfo_schema (KeyInfo_text info) = true.
Proof. intros Hk. unfold KeyInfo_text, KeyInfo_members. struct_typed (ki_Chains info) Hk. Qed.

Lemma typed_KeyCreate r :
  known (ki_Chains (kcr_KeyInfo r)) → typed KeyCreateResponse_schema (KeyCreateResponse_text r) = true.
Proof.
  intros Hk. unfold KeyCreateResponse_text, KeyInfo_members. struct_typed (ki_Chains (kcr_KeyInfo r)) Hk.
Qed.

Lemma typed_KeyUpdateChains r :
  known (kur_Chains r) → typed KeyUpdateChainsResponse_schema (KeyUpdateChainsResponse_text r) = true.
Proof. intros Hk. unfold KeyUpdateChainsResponse_text. struct_typed (kur_Chains r) Hk. Qed.

Lemma typed_KeyListEntry e : known (kle_Chains e) → typed KeyListEntry_schema (KeyListEntry_text e) = true.
Proof. intros Hk. unfold KeyListEntry_text. struct_typed (kle_Chains e) Hk. Qed.

Lemma typed_KeyList r :
  Forall (λ e, known (kle_Chains e)) (klr_Keys r) → typed KeyListResponse_schema (KeyListResponse_text r) = true.
Proof.
  intros Hk.
  assert (typed (SArray KeyListEntry_schema) (TArray (map KeyListEntry_text (klr_Keys r))) = true) as Hks.
  { cbn [typed]. apply Forall_forallb, Forall_fmap. eapply Forall_impl; [exact Hk|]. intros e He.
    by apply typed_KeyListEntry. }
  unfold KeyListResponse_text, KeyListResponse_schema. revert Hks.
  generalize (TArray (map KeyListEntry_text (klr_Keys r))). intros t Ht.
  change (typed (SArray KeyListEntry_schema) t && true = true). by rewrite Ht.
Qed.

(** [keyinfo.For] keeps the chains it is given. *)
Lemma mwp_For path hrp cs (s : Server W) Q :
  (∀ s' o, (∀ info, o = Val (Ok info) → ki_Chains info = cs) → Q s' o) → mwp (on_world (For path hrp cs)) Q s.
Proof.
  intros HQ. apply mwp_on_world. intros w' o Ho. apply HQ. intros info ->.
  refine (mwp_run (For path hrp cs) (λ _ o, ∀ info, o = Val (Ok info) → ki_Chains info = cs) _ _ _ _ Ho info eq_refl).
  unfold For. repeat first [wp_step|apply mwp_any; intros ? [[]|]]; try (intros ? [=]; done).
  all: by intros ? [= <-].
Qed.

(** The answer with the chains of a [KeyInfo] known. *)
Ltac answer_info success :=
  unfold answered, badRequest; repeat first [apply mwp_For; intros ? [[]|] ?|a_step success];
  try (intros; discriminate); try (intros resp0 [= <-]);
  first [ assumption | apply replies_error; set_solver | apply replies_vault_err | idtac ].

Lemma createKey_typed b s : mwp (createKey b) (answered (create_success ++ failures)) s.
Proof.
  unfold createKey, decodeBody, probeKey. answer_info create_success.
  all: success KeyCreateResponse_schema; apply typed_KeyCreate; cbn [kcr_KeyInfo].
  all: match goal with Hf : ∀ info, _ → ki_Chains info = _ |- _ => rewrite (Hf _ eq_refl) end.
  all: by eapply ParseChains_known.
Qed.

Lemma showKey_typed path s : mwp (showKey path) (answered (show_success ++ failures)) s.
Proof.
  unfold showKey. answer_info show_success. success KeyInfo_schema. apply typed_KeyInfo.
  match goal with Hf : ∀ info, _ → ki_Chains info = _ |- _ => rewrite (Hf _ eq_refl) end.
  by eapply canonicalizeChains_known.
Qed.

Lemma updateKeyChains_typed path b s :
  mwp (updateKeyChains path b) (answered (update_success ++ failures)) s.
Proof.
  unfold updateKeyChains, decodeBody. answer update_success.
  all: success KeyUpdateChainsResponse_schema; apply typed_KeyUpdateChains; by eapply canonicalizeChains_known.
Qed.

Lemma listEntries_known paths (s : Server W) :
  mwp (listEntries paths) (λ _ o, ∀ es, o = Val es → Forall (λ e, known (kle_Chains e)) es) s.
Proof.
  revert s. induction paths as [|p paths IH]; intros s; cbn [listEntries].
  { repeat wp_step. intros es [= <-]. constructor. }
  assert (∀ s, mwp (listEntry p) (λ _ o, ∀ e, o = Val e → known (kle_Chains e)) s) as Hentry.
  { intros s0. unfold listEntry, toKeyListChains. repeat wp_step. apply mwp_any. intros ? [[raw|]|]; repeat wp_step;
      try done; intros ? [= <-]; [|constructor].
    destruct (canonicalizeChains raw) eqn:Hc; [by eapply canonicalizeChains_known|constructor]. }
  repeat wp_step. eapply mwp_mono; [apply Hentry|]. intros s1 [e|] He; [|done]. cbv beta iota. repeat wp_step.
  eapply mwp_mono; [apply IH|]. intros s2 [es|] Hes; [|done]. repeat wp_step. intros ? [= <-].
  constructor; [by apply He|by apply Hes].
Qed.

Lemma listKeys_typed prefix limit cursor s :
  mwp (listKeys prefix limit cursor) (answered (list_success ++ failures)) s.
Proof.
  unfold listKeys. unfold answered, badRequest.
  repeat first [ apply (mwp_mono _ _ _ _ (listEntries_known _ _)); intros ? [] ?
               | a_step list_success ].
  all: try (intros; discriminate); intros resp0 [= <-].
  all: try first [apply replies_error; set_solver | apply replies_vault_err].
  all: success KeyListResponse_schema; apply typed_KeyList; auto.
Qed.

(** Every response of the request handlers, for an arbitrary key store and
    arbitrary signers, is one line of JSON: with a success status it is an
    object of the response type [pkg/types] documents for the operation (for
    raw transactions the shape of [EVMSignRawTxResponse], which the handler
    does not use) whose chains are [evm] and [cosmos], and otherwise it has one of the statuses 400, 403, 404, 500
    and 503 and is an object with the one member [error], a string. *)
Theorem responses_typed (s s' : Server W) (resp : HttpResponse) :
  (∀ b, signEVM b s = (s', Val resp) → replies (evm_success ++ failures) resp) ∧
  (∀ b, signCosmos b s = (s', Val resp) → replies (cosmos_success ++ failures) resp) ∧
  (∀ b, createKey b s = (s', Val resp) → replies (create_success ++ failures) resp) ∧
  (∀ path, showKey path s = (s', Val resp) → replies (show_success ++ failures) resp) ∧
  (∀ path b, updateKeyChains path b s = (s', Val resp) → replies (update_success ++ failures) resp) ∧
  (∀ prefix limit cursor, listKeys prefix limit cursor s = (s', Val resp) →
     replies (list_success ++ failures) resp).
Proof.
  split_and!; intros; (eapply answered_run; [|eassumption]);
    auto using signEVM_typed, signCosmos_typed, createKey_typed, showKey_typed, updateKeyChains_typed, listKeys_typed.
Qed.
End handlers.
