(* ===== verification/GatewayListing.v ===== *)
(** * Theorems about key management through the gateway

    Pagination, the effect of a chain update on the cache, creation through
    the client, and readiness. *)

From S2P Require Import Prelude GoLib Types KeyPath Crypto Plugin PluginProps Interfaces.
From S2P Require Import VaultClient Mount EvmSigner CosmosSigner SignerTheorems EndToEnd Limiter.
From S2P Require Import Gateway GatewayHandlers GatewayTheorems PluginModel PluginTheorems.
From S2P Require Import EndToEndTheorems JsonProps HttpJson HttpJsonProps.

(** ** Pagination *)

Lemma parseListLimit_bounds raw limit : parseListLimit raw = Ok limit → (1 ≤ limit ≤ 1000)%Z.
Proof.
  unfold parseListLimit, listLimitDefault, listLimitMax. case_decide; [intros [= <-]; lia|].
  destruct (Atoi raw) as [n|]; [|done].
  destruct (Z.ltb_spec n 1); [intros [= <-]; lia|].
  destruct (Z.ltb_spec 1000 n); intros [= <-]; lia.
Qed.

Section listing.
Context {W : Type} {K : KeyStore W}.

(** The store lists [ks] under the prefix, whatever its state, and its calls
    return. *)
Definition lists (prefix : string) (ks : list string) : Prop :=
  (∀ w, ∃ w', ListKeys prefix w = (w', Val (Ok ks))) ∧
  (∀ p w, ∃ w' r, GetKeyChains p w = (w', Val r)).

Lemma parse_encodeListCursor prefix o :
  utf8 prefix → (0 ≤ o ≤ maxInt64)%Z → parseListCursor (encodeListCursor prefix o) = Ok (o, prefix).
Proof.
  intros Hc Ho. destruct (cursor_roundtrip prefix o Hc Ho) as [Hne Hrt]. unfold parseListCursor, encodeListCursor.
  rewrite decide_False by (by apply b64_Encode_nonempty). rewrite b64_roundtrip, Hrt.
  destruct (Z.ltb_spec o 0); [lia|done].
Qed.

Lemma listEntries_run prefix ks (s : Server W) paths :
  lists prefix ks →
  ∃ s' es, listEntries paths s = (s', Val es) ∧ kle_Path <$> es = paths.
Proof.
  intros [_ Hchains]. revert s. induction paths as [|p paths IH]; intros s; simpl.
  { by exists s, []. }
  destruct (Hchains p (world s)) as (w' & r & Hr).
  unfold body, bind, call, listEntry, body, bind, call, on_world. rewrite Hr.
  set (s1 := mkServerState _ _ _ _). destruct (IH s1) as (s2 & es & Hes & Hp).
  unfold next. rewrite Hes. do 2 eexists. split; [done|]. rewrite fmap_cons, Hp.
  repeat case_match; done.
Qed.

Lemma listKeys_run prefix limitRaw cursorRaw limit offset cp ks (s : Server W) :
  lists prefix ks → parseListLimit limitRaw = Ok limit →
  parseListCursor cursorRaw = Ok (offset, cp) → (cp = "" ∨ cp = prefix) →
  ∃ s' es, listKeys prefix limitRaw cursorRaw s
    = (s', Val (writeJSON (KeyListBody
        (let '(lo, hi) := pageBounds (Z.of_nat (length ks)) offset limit in
         mkKeyListResponse es (Z.of_nat (length es))
           (if (hi <? Z.of_nat (length ks))%Z then encodeListCursor prefix hi else ""))))) ∧
    kle_Path <$> es =
      (let '(lo, hi) := pageBounds (Z.of_nat (length ks)) offset limit in
       joinKeyPath prefix <$> slice ks lo hi).
Proof.
  intros Hl Hlim Hcur Hcp. destruct (proj1 Hl (world s)) as [w' Hks].
  unfold listKeys, catch, or_finish, body, bind, check, guard, on_world, call, next. rewrite Hlim, Hcur. cbv beta iota.
  assert (negb (bool_decide (cp = "")) && negb (bool_decide (cp = prefix)) = false) as ->.
  { apply andb_false_iff. destruct Hcp as [->| ->]; [left|right]; by rewrite bool_decide_eq_true_2. }
  rewrite Hks. destruct (pageBounds (Z.of_nat (length ks)) offset limit) as [lo hi].
  destruct (listEntries_run prefix ks (mkServerState w' (chains s) (healthResp s) (telemetry s))
              (joinKeyPath prefix <$> slice ks lo hi) Hl) as (s' & es & Hes & Hp).
  rewrite Hes. by exists s', es.
Qed.

(** A client that follows the cursors, collecting the paths; [None] when a
    page is not served or the fuel runs out. *)
Fixpoint crawl (fuel : nat) (prefix limitRaw cursorRaw : string) (s : Server W) : option (list string) :=
  match fuel with
  | O => None
  | S fuel' =>
      match listKeys prefix limitRaw cursorRaw s with
      | (s', Val (mkResponse 200 (KeyListBody r))) =>
          let paths := kle_Path <$> klr_Keys r in
          if decide (klr_NextCursor r = "") then Some paths
          else app paths <$> crawl fuel' prefix limitRaw (klr_NextCursor r) s'
      | _ => None
      end
  end.

Lemma pageBounds_inside n offset limit :
  (0 ≤ offset ≤ n)%Z → (1 ≤ limit)%Z →
  pageBounds n offset limit = (offset, Z.min n (offset + limit)).
Proof.
  intros Ho Hl. unfold pageBounds. destruct (Z.ltb_spec n offset); [lia|].
  destruct (Z.ltb_spec n (offset + limit)); f_equal; lia.
Qed.

Lemma crawl_from prefix limitRaw limit ks :
  lists prefix ks → utf8 prefix → (Z.of_nat (length ks) ≤ maxInt64)%Z →
  parseListLimit limitRaw = Ok limit →
  ∀ fuel offset cursorRaw cp (s : Server W),
    (0 ≤ offset ≤ Z.of_nat (length ks))%Z → (Z.of_nat (length ks) - offset < Z.of_nat fuel)%Z →
    parseListCursor cursorRaw = Ok (offset, cp) → (cp = "" ∨ cp = prefix) →
    crawl fuel prefix limitRaw cursorRaw s = Some (joinKeyPath prefix <$> drop (Z.to_nat offset) ks).
Proof.
  intros Hl Hrt Hmax Hlim. pose proof (parseListLimit_bounds _ _ Hlim) as Hb.
  induction fuel as [|fuel IH]; intros offset cursorRaw cp s Ho Hf Hcur Hcp; [lia|]. simpl.
  destruct (listKeys_run prefix limitRaw cursorRaw limit offset cp ks s Hl Hlim Hcur Hcp)
    as (s' & es & -> & Hp). unfold writeJSON, StatusOK.
  rewrite pageBounds_inside in * by lia. cbv zeta in *.
  set (hi := Z.min (Z.of_nat (length ks)) (offset + limit)) in *. simpl. rewrite Hp.
  destruct (Z.ltb_spec hi (Z.of_nat (length ks))) as [Hlt|Hge].
  - rewrite decide_False; [|apply b64_Encode_nonempty, cursor_roundtrip; [done|lia]].
    rewrite (IH hi _ prefix s'); [|lia|lia|apply parse_encodeListCursor; [done|lia]|by right].
    simpl. f_equal. rewrite <- fmap_app. f_equal. unfold slice.
    replace (Z.to_nat hi) with (Z.to_nat offset + Z.to_nat (hi - offset)) by lia.
    rewrite <- drop_drop. apply take_drop.
  - rewrite decide_True by done. f_equal. f_equal. unfold slice. apply take_ge.
    rewrite length_drop. lia.
Qed.

(** C37. Pagination loses and repeats nothing: for any requested limit the
    server accepts, a client that starts without a cursor and follows
    [next_cursor] receives, after at most one page per key (plus one), exactly
    the names the store lists, each once, in order, each as the full key path
    that [joinKeyPath] makes of the prefix and the name.  (README.md and the
    REST gateway specification describe bare names; the code joins the prefix,
    as its own comment says.) *)
Theorem listKeys_pages_complete (prefix limitRaw : string) (limit : Z) (ks : list string) (s : Server W) :
  lists prefix ks → utf8 prefix → (Z.of_nat (length ks) ≤ maxInt64)%Z →
  parseListLimit limitRaw = Ok limit →
  crawl (S (length ks)) prefix limitRaw "" s = Some (joinKeyPath prefix <$> ks).
Proof.
  intros Hl Hrt Hmax Hlim.
  by apply (crawl_from _ _ limit _ Hl Hrt Hmax Hlim _ 0 "" ""); [lia|lia|done|left].
Qed.
End listing.

(** ** Chain updates and the cache *)

Section update.
Context {W : Type} {K : KeyStore W}.

(** What a successful chain update says. *)
Definition chains_updated (path : string) (b : option (gmap string any)) (s s' : Server W)
    (body : Body) : Prop :=
  ∃ add raw parsed updated out,
    b = Some {["add_chains" := add]} ∧ KeyPathOk path ∧
    unmarshalStrings add = Some raw ∧ ParseChains raw = Ok parsed ∧
    UpdateKeyChains path parsed (world s) = (world s', Val (Ok updated)) ∧
    canonicalizeChains updated = Ok out ∧
    body = ChainsBody (mkKeyUpdateChainsResponse path out) ∧
    chains s' = (λ c, cache_invalidate c path) <$> chains s.

Lemma size_1_singleton (m : gmap string any) k v : size m = 1 → m !! k = Some v → m = {[k := v]}.
Proof.
  intros Hs Hk. assert (delete k m = ∅) as Hd.
  { apply map_size_empty_inv. rewrite map_size_delete_Some by eauto. lia. }
  by rewrite <- (insert_delete_id m k v Hk), Hd.
Qed.

Lemma updateKeyChains_wp path b (s : Server W) :
  mwp (updateKeyChains path b) (λ s' o, ∀ resp, o = Val resp → rs_status resp = StatusOK →
    chains_updated path b s s' (rs_body resp)) s.
Proof.
  unfold updateKeyChains, decodeBody, ValidateKeyPath. destruct b as [m|]; repeat wp_step.
  all: try (intros; by simplify_eq/=).
  apply mwp_on_world. intros w' [[updated|e]|msg] Hu; simpl; [|log_step; intros ? [= <-] Hr|done].
  2:{ by apply vaultErr_not_ok in Hr. }
  repeat wp_step.
  all: try match goal with |- mwp (setChains _) _ _ => unfold mwp, setChains; simpl end.
  all: repeat wp_step.
  all: intros resp [= <-] Hr; simpl in *; try done; to_prop.
  all: do 5 eexists; (split_and!; [by f_equal; apply size_1_singleton|by apply Validate_KeyPathOk|done..|]).
  all: match goal with H : chains _ = _ |- _ => by rewrite H end.
Qed.

(** A chain update takes effect at once: whenever [updateKeyChains]
    answers 200, the store accepted the canonical form of the requested
    chains, the response shows the canonical form of the store's answer, and
    no cached allow-list for the path is left (other paths keep theirs). *)
Theorem updateKeyChains_invalidates (path : string) (b : option (gmap string any))
    (s s' : Server W) (resp : HttpResponse) :
  updateKeyChains path b s = (s', Val resp) → rs_status resp = StatusOK →
  chains_updated path b s s' (rs_body resp).
Proof. intros Hrun Hst. by apply (mwp_run _ _ _ _ _ (updateKeyChains_wp path b s) Hrun). Qed.
End update.

(** ** Readiness *)

Section readiness.
Context {W : Type} {H : HealthChecker W} {T : Clock W}.

(** Readiness, for a vault client that can tell its last token lookup:
    the probe reports 200 exactly when the health call of this very probe
    succeeded and the last successful lookup is at most 30 seconds old;
    otherwise 503. *)
Theorem computeReadiness_ready (last : W → option Z) (s s' : Server W) (status : Z) (payload : Body) :
  LastLookupSelf = Some last → computeReadiness true s = (s', Val (status, payload)) →
  (status = StatusOK ∨ status = StatusServiceUnavailable) ∧
  (status = StatusOK ↔
   Health (world s) = (world s', Val (Ok tt)) ∧
   ∃ t, last (world s') = Some t ∧ (clock (world s') - t ≤ 30 * second)%Z).
Proof.
  intros Hlast. unfold computeReadiness, body, bind, try_, on_world. rewrite Hlast.
  destruct (Health (world s)) as [w' [[[]|e]|msg]]; simpl; [| |done].
  - unfold get, guard, next. simpl. destruct (last w') as [t|] eqn:Ht; simpl.
    + unfold readinessWindow. destruct (Z.ltb_spec (30 * second) (clock w' - t)) as [Hlt|Hge];
        intros [= <- <- <-]; simpl; (split; [auto|]); (split; [|intros (_ & t' & Ht' & Hle)]).
      * done.
      * rewrite Ht in Ht'. injection Ht' as <-. lia.
      * intros _. split; [done|]. by exists t.
      * done.
    + intros [= <- <- <-]. simpl. split; [auto|]. split; [done|]. intros (_ & t' & Ht' & _). congruence.
  - intros [= <- <- <-]. split; [auto|]. split; [done|]. by intros [? _].
Qed.
End readiness.

(** ** Creating a key through the whole stack *)

Section creation.
Context {C : EthCrypto} {CL : EthCryptoLaws C} {S : Type} {St : LogicalStorage S}
        {SL : LogicalStorageLaws S} {SH : StorageHealth S} {E : EntryCodec} {EL : EntryCodecLaws E}
        {W : Type} {A : VaultAPI W} {VM : VaultMount (SH:=SH) W} {L : CosmosLib}.

Abbreviation client := (Client W).

(** A free path reads as not found and leaves the client's knowledge alone. *)
Lemma client_GetPublicKey_missing (c : client) path m :
  stores m (api c) → m !! path = None → KeyPathOk path → pubkeyCache c !! path = None →
  ∃ c', client_GetPublicKey path c = (c', Val (Err (notFound path))) ∧
    (stores m (api c') ∧ pubkeyCache c' = pubkeyCache c).
Proof.
  intros Hs Hnone Hn Hcache. apply Validate_KeyPathOk in Hn as HV. apply mwp_val.
  unfold client_GetPublicKey, ValidateKeyPath.
  destruct (read_stores m (api c) path Hs Hn) as (w' & r & Hapi & Hs' & Hr).
  rewrite Hnone in Hr. subst r. repeat wp_step; try congruence.
  eapply mwp_api_call; [done|]. unfold requireData. repeat wp_step.
  apply mwp_recordCall. intros c1 Hw1 Hc1. simpl in Hw1, Hc1. wp_step. split; [done|].
  by rewrite Hw1.
Qed.

(** [GetPublicKey], [CreateKey] and [For] on the server's world. *)
Lemma on_world_run {X} (m : M client X) (s : Server client) c' o :
  m (world s) = (c', o) →
  on_world m s = (mkServerState c' (chains s) (healthResp s) (telemetry s), o).
Proof. intros Hm. unfold on_world. by rewrite Hm. Qed.

(** The key information of a held key with the allow-list [chains]. *)
Definition info_of (path : string) (k : PrivKey) (chains : list string) (addr : string) : KeyInfo :=
  mkKeyInfo path (hex_EncodeToString (FromECDSAPub (PublicKey k)))
    (if decide ("evm" ∈ chains) then PubkeyToAddress_Hex (PublicKey k) else "") addr chains.

Definition cosmos_addr (k : PrivKey) (chains : list string) : result string :=
  if decide ("cosmos" ∈ chains)
  then DeriveCosmosAddressFromCompressed (CompressPubkey (PublicKey k)) "cosmos" else Ok "".

Lemma For_on_world path k parsed addr (c2 : client) s' :
  client_holds c2 path k parsed → world s' = c2 → cosmos_addr k parsed = Ok addr →
  ∃ s'', client_holds (world s'') path k parsed ∧
    on_world (For (P:=client_PubKeys) path DefaultHRP parsed) s' = (s'', Val (Ok (info_of path k parsed addr))).
Proof.
  intros Hh <- Haddr.
  destruct (For_holds (VS:=client_SignVaultSpec) (world s') path DefaultHRP k parsed parsed Hh)
    as (c3 & Hh3 & Hrun).
  exists (mkServerState c3 (chains s') (healthResp s') (telemetry s')). split; [done|].
  apply on_world_run. etransitivity; [exact Hrun|]. unfold cosmos_addr in Haddr.
  change (if decide (DefaultHRP = "") then "cosmos" else DefaultHRP) with "cosmos".
  by rewrite Haddr.
Qed.

(** C22. Creating a key through gateway, client, HTTP and plugin: a create
    request for a free path answers 201 with the public key and the addresses
    of the key the vault now holds, and repeating it answers 200 with
    [already_existed] and the same information. *)
Theorem createKey_through_the_stack (path : string) (raw parsed : list string)
    (m : gmap string KeyEntry) (s : Server client) :
  stores m (api (world s)) → m !! path = None → KeyPathOk path → ParseChains raw = Ok parsed →
  pubkeyCache (world s) !! path = None →
  (∀ w, stores m w → ∃ k addr, GenerateKey (draw w) = Ok k ∧ cosmos_addr k parsed = Ok addr ∧
                               storable (create_map (draw w) path parsed m) path) →
  ∃ k addr s1 s2, client_holds (world s1) path k parsed ∧ client_holds (world s2) path k parsed ∧
    cosmos_addr k parsed = Ok addr ∧
    createKey (Some (mkKeyCreateRequest path raw)) s
      = (s1, Val (mkResponse 201 (KeyCreateBody
               (mkKeyCreateResponse (info_of path k parsed addr) false)))) ∧
    createKey (Some (mkKeyCreateRequest path raw)) s1
      = (s2, Val (mkResponse 200 (KeyCreateBody
               (mkKeyCreateResponse (info_of path k parsed addr) true)))).
Proof.
  intros Hs Hnone Hn Hparse Hcache Hgen. apply Validate_KeyPathOk in Hn as HV.
  pose proof (KeyPathOk_nonempty _ Hn) as Hne. pose proof (ParseChains_Canonical _ _ Hparse) as Hcan.
  destruct (client_GetPublicKey_missing (world s) path m Hs Hnone Hn Hcache) as (c1 & Hg & Hs1 & Hc1).
  destruct (Hgen _ Hs1) as (k & addr & Hk & Haddr & Hst). rewrite <- Hc1 in Hcache.
  destruct (client_CreateKey_holds c1 path k parsed m Hs1 Hnone Hn Hcan Hk Hcache Hst)
    as (c2 & Hcr & Hh2).
  set (st (c : client) := mkServerState c (chains s) (healthResp s) (telemetry s)).
  destruct (For_on_world path k parsed addr c2 (st c2) Hh2 eq_refl Haddr)
    as (s1 & Hh3 & Hfor1).
  destruct (client_GetPublicKey_holds _ _ _ _ Hh3) as (c4 & Hg4 & Hh4).
  destruct (client_CreateKey_again _ _ _ _ Hh4) as (c5 & Hcr5 & Hh5).
  set (st1 (c : client) := mkServerState c (chains s1) (healthResp s1) (telemetry s1)).
  destruct (For_on_world path k parsed addr c5 (st1 c5) Hh5 eq_refl Haddr)
    as (s2 & Hh6 & Hfor2).
  exists k, addr, s1, s2. split_and!; [done..| |].
  - unfold createKey, decodeBody, probeKey, catch, or_finish, body, bind, guard, check, call, ValidateKeyPath. simpl.
    rewrite bool_decide_eq_false_2, HV, Hparse by done.
    rewrite (on_world_run (client_GetPublicKey path) s _ _ Hg). simpl. fold (st c1).
    rewrite (on_world_run (client_CreateKey path parsed) (st c1) _ _ Hcr). simpl. fold (st c2).
    by rewrite Hfor1.
  - unfold createKey, decodeBody, probeKey, catch, or_finish, body, bind, guard, check, call, ValidateKeyPath. simpl.
    rewrite bool_decide_eq_false_2, HV, Hparse by done.
    rewrite (on_world_run (client_GetPublicKey path) s1 _ _ Hg4). simpl. fold (st1 c4).
    rewrite (on_world_run (client_CreateKey path parsed) (st1 c4) _ _ Hcr5). simpl. fold (st1 c5).
    by rewrite Hfor2.
Qed.
End creation.
