(* ===== verification/ListWorkers.v ===== *)
(** * The worker pool of [listKeys]

    [gateway.go] reads the chains of a page with up to eight goroutines that
    take jobs from one unbuffered channel and write to the entries of a shared
    slice, while the handler sends the jobs, closes the channel and waits.
    Here the pool is a step relation over the shared store, the slice and the
    goroutines, with every interleaving of their actions.  A panic of the
    store in a worker ends the process: it is outside the reach of
    [recoverPanic], which guards the goroutine of the request. *)

From stdpp Require Import relations.
From S2P Require Import Prelude GoLib Types KeyPath Crypto Interfaces VaultClient EvmSigner.
From S2P Require Import CosmosSigner HttpJson Limiter Gateway GatewayHandlers.

Definition listKeyChainsWorkers : nat := 8.

(** [listKeyChainsJob] *)
Record listKeyChainsJob := mkJob { job_index : nat; job_path : string }.

(** A worker waits for a job, has one, has the answer of the store, has written
    the chains of its entry, or has left its loop. *)
Inductive worker :=
  | Idle
  | Busy (job : listKeyChainsJob)
  | Answered (job : listKeyChainsJob) (r : result (list string))
  | HalfWritten (job : listKeyChainsJob) (r : result (list string))
  | Exited.

#[export] Instance Idle_dec t : Decision (t = Idle).
Proof. destruct t; first [by left|by right]. Defined.

#[export] Instance Exited_dec t : Decision (t = Exited).
Proof. destruct t; first [by left|by right]. Defined.

(** The handler: about to send job [i], after [close(jobs)], after
    [wg.Wait()]. *)
Inductive sender := Sending (i : nat) | Closed | Waited.

Record pool (W : Type) := mkPool {
  p_world : W;
  p_sender : sender;
  p_workers : list worker;
  p_entries : list KeyListEntry;
  p_crashed : bool }.
Arguments mkPool {W} _ _ _ _ _.
Arguments p_world {W} _.
Arguments p_sender {W} _.
Arguments p_workers {W} _.
Arguments p_entries {W} _.
Arguments p_crashed {W} _.

(** An entry before its job, and the two writes of a worker. *)
Definition blank (path : string) : KeyListEntry := mkKeyListEntry path [] false.

Definition set_kle_Chains (parsed : list Chain) (e : KeyListEntry) : KeyListEntry :=
  mkKeyListEntry (kle_Path e) parsed (kle_ChainsAvailable e).

Definition set_kle_Available (e : KeyListEntry) : KeyListEntry :=
  mkKeyListEntry (kle_Path e) (kle_Chains e) true.

(** The chains a worker writes for an answer; [None] when it writes nothing. *)
Definition to_write (r : result (list string)) : option (list Chain) :=
  match r with Ok raw => toKeyListChains raw | Err _ => None end.

Section pool.
Context {W : Type} {K : KeyStore W}.

(** The pool as [listKeys] starts it for a page; an empty page starts none. *)
Definition pool_init (w : W) (paths : list string) : pool W :=
  mkPool w (if decide (paths = []) then Waited else Sending 0)
    (replicate (Nat.min (length paths) listKeyChainsWorkers) Idle) (blank <$> paths) false.

(** One action of one goroutine. *)
Inductive pstep : pool W → pool W → Prop :=
  | ps_send w i ws es k e :
      ws !! k = Some Idle → es !! i = Some e →
      pstep (mkPool w (Sending i) ws es false)
            (mkPool w (Sending (S i)) (<[k := Busy (mkJob i (kle_Path e))]> ws) es false)
  | ps_close w ws es :
      pstep (mkPool w (Sending (length es)) ws es false) (mkPool w Closed ws es false)
  | ps_wait w ws es :
      Forall (λ t, t = Exited) ws → pstep (mkPool w Closed ws es false) (mkPool w Waited ws es false)
  | ps_call w w' m ws es k job r :
      ws !! k = Some (Busy job) → GetKeyChains (job_path job) w = (w', Val r) →
      pstep (mkPool w m ws es false) (mkPool w' m (<[k := Answered job r]> ws) es false)
  | ps_crash w w' m ws es k job msg :
      ws !! k = Some (Busy job) → GetKeyChains (job_path job) w = (w', Panic msg) →
      pstep (mkPool w m ws es false) (mkPool w' m ws es true)
  | ps_skip w m ws es k job r :
      ws !! k = Some (Answered job r) → to_write r = None →
      pstep (mkPool w m ws es false) (mkPool w m (<[k := Idle]> ws) es false)
  | ps_chains w m ws es k job r parsed :
      ws !! k = Some (Answered job r) → to_write r = Some parsed →
      pstep (mkPool w m ws es false)
            (mkPool w m (<[k := HalfWritten job r]> ws) (alter (set_kle_Chains parsed) (job_index job) es) false)
  | ps_available w m ws es k job r :
      ws !! k = Some (HalfWritten job r) →
      pstep (mkPool w m ws es false)
            (mkPool w m (<[k := Idle]> ws) (alter set_kle_Available (job_index job) es) false)
  | ps_exit w ws es k :
      ws !! k = Some Idle →
      pstep (mkPool w Closed ws es false) (mkPool w Closed (<[k := Exited]> ws) es false).

(** ** The store calls of a run, in their order *)

(** The pure part of a job: the entry of [listEntry]. *)
Definition entry_of (path : string) (r : result (list string)) : KeyListEntry :=
  match to_write r with
  | Some parsed => mkKeyListEntry path parsed true
  | None => blank path
  end.

(** The calls for the jobs of [log] take the store from one state to the
    other, with the answers the log records. *)
Inductive calls (paths : list string) : W → list (nat * result (list string)) → W → Prop :=
  | calls_nil w : calls paths w [] w
  | calls_snoc w log w1 i r path w2 :
      calls paths w log w1 → paths !! i = Some path → GetKeyChains path w1 = (w2, Val r) →
      calls paths w (log ++ [(i, r)]) w2.

(** ** Invariant *)

Definition active (t : worker) : option nat :=
  match t with Busy j | Answered j _ | HalfWritten j _ => Some (job_index j) | _ => None end.

Definition answer_of (t : worker) : option (nat * result (list string)) :=
  match t with Answered j r | HalfWritten j r => Some (job_index j, r) | _ => None end.

(** The entry a worker has half written. *)
Definition half (t : worker) : option (nat * result (list string)) :=
  match t with HalfWritten j r => Some (job_index j, r) | _ => None end.

Definition sent (n : nat) (m : sender) : nat := match m with Sending i => i | _ => n end.

Definition worker_ok (paths : list string) (t : worker) : Prop :=
  match t with
  | Busy j | Answered j _ => paths !! job_index j = Some (job_path j)
  | HalfWritten j r => paths !! job_index j = Some (job_path j) ∧ is_Some (to_write r)
  | _ => True
  end.

(** An entry between the two writes of its worker. *)
Definition half_entry (path : string) (r : result (list string)) : KeyListEntry :=
  mkKeyListEntry path (default [] (to_write r)) false.

(** [log] are the calls made so far and [fin] the jobs that are through. *)
Record pinv (paths : list string) (w0 w : W) (m : sender) (ws : list worker) (es : list KeyListEntry)
    (log fin : list (nat * result (list string))) : Prop := {
  pi_calls : calls paths w0 log w;
  pi_log : log ≡ₚ omap answer_of ws ++ fin;
  pi_jobs : omap active ws ++ fin.*1 ≡ₚ seq 0 (sent (length paths) m);
  pi_sent : sent (length paths) m ≤ length paths;
  pi_length : length es = length paths;
  pi_workers : Forall (worker_ok paths) ws;
  pi_done : ∀ k r path, (k, r) ∈ fin → paths !! k = Some path → es !! k = Some (entry_of path r);
  pi_half : ∀ k r path, (k, r) ∈ omap half ws → paths !! k = Some path → es !! k = Some (half_entry path r);
  pi_blank : ∀ k path, paths !! k = Some path → k ∉ fin.*1 → k ∉ (omap half ws).*1 → es !! k = Some (blank path);
  pi_exited : Exited ∈ ws → sent (length paths) m = length paths ∧ m ≠ Sending (length paths);
  pi_waited : m = Waited → Forall (λ t, t = Exited) ws }.

(** The workers count up to their order. *)
Lemma pinv_perm paths w0 w m ws ws' es log fin :
  ws ≡ₚ ws' → pinv paths w0 w m ws es log fin → pinv paths w0 w m ws' es log fin.
Proof.
  intros Hp []. split; try done.
  - by rewrite <- Hp.
  - by rewrite <- Hp.
  - by rewrite <- Hp.
  - intros k r path Hk. apply pi_half0. by rewrite Hp.
  - intros k path Hk Hf Hh. apply pi_blank0; [done|done|]. by rewrite Hp.
  - intros He. apply pi_exited0. by rewrite Hp.
  - intros Hm. rewrite <- Hp. auto.
Qed.

Lemma delete_insert_same {A} (l : list A) k y : delete k (<[k := y]> l) = delete k l.
Proof. revert k. induction l as [|x l IH]; intros [|k]; simpl; [done..|]. by rewrite IH. Qed.

Lemma insert_perm {A} (l : list A) k x y :
  l !! k = Some x → l ≡ₚ x :: delete k l ∧ <[k := y]> l ≡ₚ y :: delete k l.
Proof.
  intros Hk. split; [by apply delete_Permutation|].
  assert (<[k := y]> l !! k = Some y) as Hy by (apply list_lookup_insert_eq; by eapply lookup_lt_Some).
  rewrite (delete_Permutation _ _ _ Hy). by rewrite delete_insert_same.
Qed.

(** A worker's step, seen on the multiset of workers. *)
Lemma pinv_worker paths w0 w w' m m' ws es es' log log' fin fin' k t t' :
  ws !! k = Some t →
  (∀ rest, pinv paths w0 w m (t :: rest) es log fin → pinv paths w0 w' m' (t' :: rest) es' log' fin') →
  pinv paths w0 w m ws es log fin → pinv paths w0 w' m' (<[k := t']> ws) es' log' fin'.
Proof.
  intros Hk Hstep Hi. destruct (insert_perm ws k t t' Hk) as [Hp Hp'].
  eapply pinv_perm; [symmetry; exact Hp'|]. apply Hstep. by eapply pinv_perm.
Qed.

Section steps.
Context (paths : list string) (w0 : W).
Implicit Types (rest : list worker) (es : list KeyListEntry) (log fin : list (nat * result (list string))).

Lemma half_active k r (ws : list worker) : (k, r) ∈ omap half ws → k ∈ omap active ws.
Proof.
  rewrite !list_elem_of_omap. intros (t & Ht & Hh). exists t. split; [done|]. by destruct t; simplify_eq/=.
Qed.

Lemma half_active_fst k (ws : list worker) : k ∈ (omap half ws).*1 → k ∈ omap active ws.
Proof. intros ([k' r] & -> & Hk)%list_elem_of_fmap. by eapply half_active. Qed.

(** A job in progress is nobody else's and not through yet. *)
Lemma own_job w m t rest es log fin i :
  pinv paths w0 w m (t :: rest) es log fin → active t = Some i → (i ∉ omap active rest) ∧ (i ∉ fin.*1).
Proof.
  intros Hi Ht. pose proof (pi_jobs _ _ _ _ _ _ _ _ Hi) as Hj. cbn [omap list_omap] in Hj. rewrite Ht in Hj.
  assert (NoDup (i :: (omap active rest ++ fin.*1))) as Hn.
  { change (NoDup ((i :: omap active rest) ++ fin.*1)). rewrite Hj. apply NoDup_seq. }
  apply NoDup_cons in Hn as [Hn _]. rewrite elem_of_app in Hn. tauto.
Qed.

Lemma step_call w w' m rest es log fin job r :
  GetKeyChains (job_path job) w = (w', Val r) →
  pinv paths w0 w m (Busy job :: rest) es log fin →
  pinv paths w0 w' m (Answered job r :: rest) es (log ++ [(job_index job, r)]) fin.
Proof.
  intros Hr []. inversion_clear pi_workers0 as [|? ? Hjob Hrest]. split; try done.
  - by eapply calls_snoc.
  - cbn [omap list_omap answer_of] in *. rewrite pi_log0. by rewrite Permutation_app_comm.
  - by constructor.
  - intros [?|He]%elem_of_cons; [done|]. apply pi_exited0. by right.
  - intros Hm. specialize (pi_waited0 Hm). by inversion pi_waited0.
Qed.

Lemma step_skip w m rest es log fin job r :
  to_write r = None →
  pinv paths w0 w m (Answered job r :: rest) es log fin →
  pinv paths w0 w m (Idle :: rest) es log ((job_index job, r) :: fin).
Proof.
  intros Hr Hi. destruct (own_job _ _ _ _ _ _ _ _ Hi eq_refl) as [Hown Hfin]. destruct Hi.
  inversion_clear pi_workers0 as [|? ? Hjob Hrest]. split; try done.
  - cbn [omap list_omap answer_of] in *. rewrite pi_log0. by rewrite <- Permutation_middle.
  - cbn [omap list_omap active] in *. rewrite <- pi_jobs0. rewrite fmap_cons. by rewrite <- Permutation_middle.
  - by constructor.
  - intros k r' path [[= -> ->]|Hk]%elem_of_cons Hp; [|by apply pi_done0].
    unfold entry_of. rewrite Hr. apply pi_blank0; [done|done|].
    cbn [omap list_omap half]. by intros Hh%half_active_fst.
  - intros k path Hp. rewrite fmap_cons, not_elem_of_cons. intros [_ Hk] Hh. by apply pi_blank0.
  - intros [?|He]%elem_of_cons; [done|]. apply pi_exited0. by right.
  - intros Hm. specialize (pi_waited0 Hm). by inversion pi_waited0.
Qed.

Lemma step_chains w m rest es log fin job r parsed :
  to_write r = Some parsed →
  pinv paths w0 w m (Answered job r :: rest) es log fin →
  pinv paths w0 w m (HalfWritten job r :: rest) (alter (set_kle_Chains parsed) (job_index job) es) log fin.
Proof.
  intros Hr Hi. destruct (own_job _ _ _ _ _ _ _ _ Hi eq_refl) as [Hown Hfin]. destruct Hi.
  inversion_clear pi_workers0 as [|? ? Hjob Hrest]. split; try done.
  - by rewrite length_alter.
  - constructor; [|done]. split; [done|by eexists].
  - intros k r' path Hk Hp. rewrite list_lookup_alter_ne; [by apply pi_done0|].
    intros <-. apply Hfin, list_elem_of_fmap. by exists (job_index job, r').
  - intros k r' path Hk Hp. cbn [omap list_omap half] in Hk, pi_half0, pi_blank0.
    apply elem_of_cons in Hk as [[= -> ->]|Hk].
    + rewrite list_lookup_alter_eq, (pi_blank0 _ path) by (done || by intros ?%half_active_fst).
      unfold half_entry. by rewrite Hr.
    + rewrite list_lookup_alter_ne; [by apply pi_half0|]. intros <-. by apply half_active in Hk.
  - intros k path Hp Hk Hh. cbn [omap list_omap half] in Hh, pi_blank0.
    rewrite fmap_cons, not_elem_of_cons in Hh. destruct Hh as [Hne Hh].
    rewrite list_lookup_alter_ne by (cbn in Hne; congruence). by apply pi_blank0.
  - intros [?|He]%elem_of_cons; [done|]. apply pi_exited0. by right.
  - intros Hm. specialize (pi_waited0 Hm). by inversion pi_waited0.
Qed.

Lemma step_available w m rest es log fin job r :
  pinv paths w0 w m (HalfWritten job r :: rest) es log fin →
  pinv paths w0 w m (Idle :: rest) (alter set_kle_Available (job_index job) es) log ((job_index job, r) :: fin).
Proof.
  intros Hi. destruct (own_job _ _ _ _ _ _ _ _ Hi eq_refl) as [Hown Hfin]. destruct Hi.
  inversion_clear pi_workers0 as [|? ? Hok Hrest]. destruct Hok as [Hjob [parsed Hw]].
  cbn [omap list_omap half answer_of active] in *. split; try done; cbn [omap list_omap half answer_of active].
  - rewrite pi_log0. by rewrite <- Permutation_middle.
  - rewrite <- pi_jobs0, fmap_cons. by rewrite <- Permutation_middle.
  - by rewrite length_alter.
  - by constructor.
  - intros k r' path [[= -> ->]|Hk]%elem_of_cons Hp.
    + rewrite list_lookup_alter_eq, (pi_half0 _ r path) by (done || by left).
      unfold half_entry, entry_of. by rewrite Hw.
    + rewrite list_lookup_alter_ne; [by apply pi_done0|].
      intros <-. apply Hfin, list_elem_of_fmap. by exists (job_index job, r').
  - intros k r' path Hk Hp. rewrite list_lookup_alter_ne; [apply pi_half0; [by right|done]|].
    intros <-. by apply half_active in Hk.
  - intros k path Hp. rewrite fmap_cons, not_elem_of_cons. intros [Hne Hk] Hh.
    rewrite list_lookup_alter_ne by (cbn in Hne; congruence). apply pi_blank0; [done|done|].
    rewrite fmap_cons, not_elem_of_cons. done.
  - intros [?|He]%elem_of_cons; [done|]. apply pi_exited0. by right.
  - intros Hm. specialize (pi_waited0 Hm). by inversion pi_waited0.
Qed.

Lemma step_send w i rest es log fin e :
  es !! i = Some e →
  pinv paths w0 w (Sending i) (Idle :: rest) es log fin →
  pinv paths w0 w (Sending (S i)) (Busy (mkJob i (kle_Path e)) :: rest) es log fin.
Proof.
  intros He Hi. pose proof (lookup_lt_Some _ _ _ He) as Hlt. destruct Hi.
  inversion_clear pi_workers0 as [|? ? _ Hrest]. rewrite pi_length0 in Hlt.
  cbn [omap list_omap half answer_of active sent] in *.
  assert ((i ∉ fin.*1) ∧ (i ∉ omap active rest)) as [Hfin Hact].
  { assert (i ∉ omap active rest ++ fin.*1) as Hn; [|rewrite elem_of_app in Hn; tauto].
    rewrite pi_jobs0, elem_of_seq. lia. }
  destruct (lookup_lt_is_Some_2 paths i Hlt) as [path Hpath].
  assert (e = blank path) as ->.
  { rewrite (pi_blank0 i path) in He; [by injection He|done|done|by intros ?%half_active_fst]. }
  split; try done; cbn [omap list_omap half answer_of active sent].
  - rewrite seq_S, <- pi_jobs0. solve_Permutation.
  - by constructor.
  - intros [?|Hx]%elem_of_cons; [done|]. destruct pi_exited0 as [-> ?]; [by right|lia].
Qed.

(** The handler's own steps. *)
Lemma step_sender w m m' ws es log fin :
  sent (length paths) m' = sent (length paths) m → (∀ i, m' ≠ Sending i) →
  (m' = Waited → Forall (λ t, t = Exited) ws) →
  pinv paths w0 w m ws es log fin → pinv paths w0 w m' ws es log fin.
Proof.
  intros Hs Hm Hw []. split; try done; rewrite ?Hs; try done. intros He.
  split; [by apply pi_exited0|by apply Hm].
Qed.

Lemma step_exit w rest es log fin :
  pinv paths w0 w Closed (Idle :: rest) es log fin → pinv paths w0 w Closed (Exited :: rest) es log fin.
Proof. intros []. split; try done. constructor; [done|]. by inversion pi_workers0. Qed.

Definition pool_ok (p : pool W) : Prop :=
  length (p_workers p) = Nat.min (length paths) listKeyChainsWorkers ∧
  (p_sender p ≠ Waited → paths ≠ []) ∧
  (p_crashed p = false →
   ∃ log fin, pinv paths w0 (p_world p) (p_sender p) (p_workers p) (p_entries p) log fin).

Lemma omap_replicate_Idle {A} (f : worker → option A) n : f Idle = None → omap f (replicate n Idle) = [].
Proof. intros Hf. induction n as [|n IH]; cbn [replicate omap list_omap]; [done|]. by rewrite Hf. Qed.

Lemma pool_init_ok : pool_ok (pool_init w0 paths).
Proof.
  split; [apply length_replicate|]. split; [simpl; by case_decide|]. intros _. exists [], [].
  assert (∀ {A} (f : worker → option A), f Idle = None → omap f (p_workers (pool_init w0 paths)) = []) as Ho
    by (intros; by apply omap_replicate_Idle).
  split; rewrite ?Ho by done; simpl.
  - constructor.
  - done.
  - case_decide as Hp; [|done]. by subst.
  - case_decide; simpl; lia.
  - by rewrite length_fmap.
  - apply Forall_replicate. done.
  - by intros ? ? ? ?%not_elem_of_nil.
  - by intros ? ? ? ?%not_elem_of_nil.
  - intros k path Hk _ _. by rewrite list_lookup_fmap, Hk.
  - by intros [? _]%elem_of_replicate.
  - case_decide as Hp; [|done]. subst. intros _. constructor.
Qed.

Lemma pstep_ok p p' : pool_ok p → pstep p p' → pool_ok p'.
Proof.
  intros (Hlen & Hne & Hi) Hstep.
  destruct Hstep; unfold pool_ok; cbn [p_workers p_sender p_crashed p_world p_entries] in *;
    (split; [by rewrite ?length_insert|]); (split; [try done; intros _; by apply Hne|]); try done; intros _;
    destruct (Hi eq_refl) as (log & fin & Hinv).
  - exists log, fin. eapply pinv_worker; [done| |done]. intros. by apply step_send.
  - exists log, fin. eapply step_sender; [|done..]. simpl. symmetry. by destruct Hinv.
  - exists log, fin. eapply step_sender; [|done..]; done.
  - eexists _, fin. eapply pinv_worker; [done| |done]. intros. by eapply step_call.
  - eexists log, _. eapply pinv_worker; [done| |done]. intros. by eapply step_skip.
  - exists log, fin. eapply pinv_worker; [done| |done]. intros. by eapply step_chains.
  - eexists log, _. eapply pinv_worker; [done| |done]. intros. by eapply step_available.
  - exists log, fin. eapply pinv_worker; [done| |done]. intros. by apply step_exit.
Qed.

Lemma reachable_ok p : rtc pstep (pool_init w0 paths) p → pool_ok p.
Proof.
  intros Hr. pose proof pool_init_ok as H0. induction Hr as [|p p1 p2 Hstep _ IH]; [done|].
  by apply IH, (pstep_ok p).
Qed.

(** ** Progress and termination *)

(** The page is complete: the handler is past [wg.Wait()]. *)
Definition complete (p : pool W) : Prop := p_sender p = Waited ∧ p_crashed p = false.

Lemma worker_progress w m ws es k t :
  ws !! k = Some t → t ≠ Idle → t ≠ Exited → ∃ p', pstep (mkPool w m ws es false) p'.
Proof.
  intros Hk Hi He. destruct t as [|j|j r|j r|]; try done.
  - destruct (GetKeyChains (job_path j) w) as [w' [r|msg]] eqn:Hg; eexists; [by eapply ps_call|by eapply ps_crash].
  - destruct (to_write r) eqn:Hr; eexists; [by eapply ps_chains|by eapply ps_skip].
  - eexists. by eapply ps_available.
Qed.

Lemma pool_progress p :
  pool_ok p → complete p ∨ p_crashed p = true ∨ ∃ p', pstep p p'.
Proof.
  destruct p as [w m ws es [|]]; [auto|]. intros (Hlen & Hne & Hi). cbn in *.
  destruct (Hi eq_refl) as (log & fin & Hinv). destruct m as [i| |].
  - destruct (decide (i = length paths)) as [->|Hlt].
    { right. right. rewrite <- (pi_length _ _ _ _ _ _ _ _ Hinv). eexists. apply ps_close. }
    assert (i < length es) as Hes.
    { pose proof (pi_length _ _ _ _ _ _ _ _ Hinv). pose proof (pi_sent _ _ _ _ _ _ _ _ Hinv). simpl in *. lia. }
    destruct (lookup_lt_is_Some_2 es i Hes) as [e He]. destruct ws as [|t ws].
    { exfalso. destruct paths; [by apply Hne|]. simpl in Hlen. lia. }
    right. right. destruct (decide (t = Idle)) as [->|Hidle]; [eexists; by eapply (ps_send _ _ _ _ 0)|].
    eapply (worker_progress _ _ _ _ 0 t); [done|done|]. intros ->.
    destruct (pi_exited _ _ _ _ _ _ _ _ Hinv) as [Hs _]; [left|]. simpl in Hs. lia.
  - right. right. destruct (decide (Forall (λ t, t = Exited) ws)) as [Hall|Hsome]; [eexists; by apply ps_wait|].
    apply not_Forall_Exists in Hsome; [|apply _]. apply Exists_exists in Hsome as (t & [k Hk]%list_elem_of_lookup & Ht).
    destruct (decide (t = Idle)) as [->|Hidle]; [eexists; by eapply ps_exit|by eapply worker_progress].
  - left. done.
Qed.

Definition weight (t : worker) : nat :=
  match t with Idle => 1 | Busy _ => 4 | Answered _ _ => 3 | HalfWritten _ _ => 2 | Exited => 0 end.

Definition sender_weight (m : sender) : nat :=
  match m with Sending i => 4 * (length paths - i) + 2 | Closed => 1 | Waited => 0 end.

Definition pool_measure (p : pool W) : nat :=
  if p_crashed p then 0 else S (sender_weight (p_sender p) + sum_list_with weight (p_workers p)).

Lemma sum_insert (ws : list worker) k t t' :
  ws !! k = Some t →
  sum_list_with weight (<[k := t']> ws) + weight t = sum_list_with weight ws + weight t'.
Proof.
  revert k. induction ws as [|t0 ws IH]; intros [|k] Hk; simplify_eq/=; [lia|]. specialize (IH _ Hk). lia.
Qed.

Lemma sum_idle n : sum_list_with weight (replicate n Idle) = n.
Proof. induction n as [|n IH]; simpl; [done|]. by rewrite IH. Qed.

Lemma pstep_measure p p' : pool_ok p → pstep p p' → pool_measure p' < pool_measure p.
Proof.
  intros (_ & _ & Hi) Hstep. destruct Hstep; unfold pool_measure; cbn [p_crashed p_sender p_workers]; try lia;
    try (match goal with
         | Hk : ?ws !! ?k = Some ?t |- context [<[?k := ?t']> ?ws] => pose proof (sum_insert ws k t t' Hk)
         end); cbn [weight sender_weight] in *; try lia.
  destruct (Hi eq_refl) as (log & fin & Hinv). pose proof (lookup_lt_Some _ _ _ H0) as Hlt.
  cbn in Hinv, Hlt. rewrite (pi_length _ _ _ _ _ _ _ _ Hinv) in Hlt. lia.
Qed.

Lemma pool_bound n p p' : pool_ok p → nsteps pstep n p p' → n + pool_measure p' ≤ pool_measure p.
Proof.
  intros Hok Hn. induction Hn as [|n p p1 p2 Hs _ IH]; [lia|].
  pose proof (pstep_measure _ _ Hok Hs). specialize (IH (pstep_ok _ _ Hok Hs)). lia.
Qed.

Lemma pool_completes n p :
  pool_ok p → pool_measure p ≤ n → ∃ p', rtc pstep p p' ∧ (complete p' ∨ p_crashed p' = true).
Proof.
  revert p. induction n as [|n IH]; intros p Hok Hn.
  - destruct (pool_progress p Hok) as [?|[?|[p' Hs]]]; [by eauto using rtc_refl..|].
    pose proof (pstep_measure _ _ Hok Hs). lia.
  - destruct (pool_progress p Hok) as [?|[?|[p' Hs]]]; [by eauto using rtc_refl..|].
    pose proof (pstep_measure _ _ Hok Hs).
    destruct (IH p' (pstep_ok _ _ Hok Hs) ltac:(lia)) as (p2 & Hr & Hd). exists p2. split; [by eapply rtc_l|done].
Qed.

(** ** What a complete run has done *)

Lemma omap_exited {A} (f : worker → option A) (ws : list worker) :
  f Exited = None → Forall (λ t, t = Exited) ws → omap f ws = [].
Proof. intros Hf. induction 1 as [|t ws -> _ IH]; [done|]. cbn [omap list_omap]. by rewrite Hf. Qed.

(** The entries are those of the answers in the log. *)
Definition entries_of_log (log : list (nat * result (list string))) (es : list KeyListEntry) : Prop :=
  length es = length paths ∧
  ∀ k r path, (k, r) ∈ log → paths !! k = Some path → es !! k = Some (entry_of path r).

Lemma complete_log p :
  rtc pstep (pool_init w0 paths) p → complete p →
  ∃ log, log.*1 ≡ₚ seq 0 (length paths) ∧ calls paths w0 log (p_world p) ∧ entries_of_log log (p_entries p).
Proof.
  intros Hr [Hw Hc]. destruct (reachable_ok p Hr) as (_ & _ & Hi). destruct (Hi Hc) as (log & fin & []).
  rewrite Hw in *. specialize (pi_waited0 eq_refl).
  rewrite (omap_exited answer_of) in pi_log0 by done. rewrite (omap_exited active) in pi_jobs0 by done.
  cbn [app] in pi_log0, pi_jobs0. exists log. split_and!.
  - by rewrite pi_log0.
  - done.
  - split; [done|]. intros k r path Hk. rewrite pi_log0 in Hk. by apply pi_done0.
Qed.

(** When an answer does not depend on the state of the store, the slice is the
    page's answers in order. *)
Lemma stable_entries (answer : string → result (list string)) log w es :
  (∀ path w, ∃ w', GetKeyChains path w = (w', Val (answer path))) →
  log.*1 ≡ₚ seq 0 (length paths) → calls paths w0 log w → entries_of_log log es →
  es = (λ path, entry_of path (answer path)) <$> paths.
Proof.
  intros Hans Hperm Hcalls [Hlen Hes].
  assert (∀ k r path, (k, r) ∈ log → paths !! k = Some path → r = answer path) as Hr.
  { clear -Hans Hcalls. induction Hcalls as [|w0 log w1 i r path w2 _ IH Hp Hg].
    - by intros ? ? ? ?%not_elem_of_nil.
    - intros k r' path' [Hk|[= -> ->]%list_elem_of_singleton]%elem_of_app Hp'; [by eapply IH|].
      destruct (Hans path w1) as [w' Hw']. simplify_eq. congruence. }
  apply list_eq. intros k. rewrite list_lookup_fmap. destruct (paths !! k) as [path|] eqn:Hk; simpl.
  - assert (k ∈ log.*1) as ([k' r] & -> & Hin)%list_elem_of_fmap.
    { rewrite Hperm, elem_of_seq. apply lookup_lt_Some in Hk. lia. }
    cbn [fst] in *. by rewrite (Hes k' r path Hin Hk), (Hr k' r path Hin Hk).
  - apply lookup_ge_None. apply lookup_ge_None in Hk. lia.
Qed.
End steps.

Lemma listEntries_stable (answer : string → result (list string)) paths (s : Server W) :
  (∀ path w, ∃ w', GetKeyChains path w = (w', Val (answer path))) →
  ∃ s', listEntries paths s = (s', Val ((λ path, entry_of path (answer path)) <$> paths)).
Proof.
  intros Hans. revert s. induction paths as [|p paths IH]; intros s; cbn [listEntries]; [by eexists|].
  destruct (Hans p (world s)) as [w' Hw]. unfold body, bind, call, listEntry, body, bind, call, on_world. rewrite Hw.
  destruct (IH (mkServerState w' (chains s) (healthResp s) (telemetry s))) as [s' Hs]. unfold next. rewrite Hs.
  eexists. rewrite fmap_cons. unfold entry_of, to_write, blank. repeat case_match; simplify_eq; done.
Qed.

(** C20. The worker pool of [listKeys], under every interleaving of the handler
    and its goroutines, for an arbitrary store: a page that is complete was
    read by calling the store exactly once for every path, in some order, one
    call after the other, and every entry holds the answer of the call for its
    own path.  For a store whose answers do not depend on the order of the
    calls, the entries are those the jobs give when they run one by one, in
    the order of the page. *)
Theorem pool_serialises (paths : list string) (w0 : W) (p : pool W) :
  rtc pstep (pool_init w0 paths) p → complete p →
  (∃ log, log.*1 ≡ₚ seq 0 (length paths) ∧ calls paths w0 log (p_world p) ∧
     entries_of_log paths log (p_entries p)) ∧
  (∀ answer, (∀ path w, ∃ w', GetKeyChains path w = (w', Val (answer path))) →
   ∀ s, ∃ s', listEntries paths s = (s', Val (p_entries p))).
Proof.
  intros Hr Hc. destruct (complete_log paths w0 p Hr Hc) as (log & Hperm & Hcalls & Hes). split; [eauto|].
  intros answer Hans s. rewrite (stable_entries paths w0 answer log (p_world p) _ Hans Hperm Hcalls Hes).
  by apply listEntries_stable.
Qed.

(** C21. The worker pool ends: no run of it is longer than [4n + 11] steps for a
    page of [n] paths, no state it can reach is a deadlock, and from every
    state it reaches it can complete the page, unless a call of the store
    panics in a worker. *)
Theorem pool_terminates (paths : list string) (w0 : W) :
  (∀ n p, nsteps pstep n (pool_init w0 paths) p → n ≤ 4 * length paths + 11) ∧
  (∀ p, rtc pstep (pool_init w0 paths) p →
     (complete p ∨ p_crashed p = true ∨ ∃ p', pstep p p') ∧
     ∃ p', rtc pstep p p' ∧ (complete p' ∨ p_crashed p' = true)) ∧
  ((∀ path w, ∃ w' r, GetKeyChains path w = (w', Val r)) →
   ∀ p, rtc pstep (pool_init w0 paths) p → p_crashed p = false).
Proof.
  split_and!.
  - intros n p Hn. pose proof (pool_bound paths w0 _ _ _ (pool_init_ok paths w0) Hn) as Hb.
    unfold pool_measure at 2, pool_init in Hb. cbn [p_crashed p_sender p_workers] in Hb.
    rewrite sum_idle in Hb. unfold listKeyChainsWorkers in Hb.
    destruct (decide (paths = [])) as [->|]; simpl in Hb; lia.
  - intros p Hr. pose proof (reachable_ok _ _ _ Hr) as Hok. split; [by eapply pool_progress|].
    by eapply pool_completes.
  - intros Hret p Hr. assert (p_crashed (pool_init w0 paths) = false) as H0 by done. revert H0.
    induction Hr as [|p0 p1 p2 Hs _ IH]; [done|]. intros _. apply IH. destruct Hs; try done.
    destruct (Hret (job_path job) w) as (? & ? & ?). congruence.
Qed.
End pool.
