(* ===== verification/ChainsRace.v ===== *)
(** * Concurrent use of the chains cache

    The gateway serves requests concurrently: chain authorizations read the
    cache, the store and write the cache ([chains_cache.go], [authorizeChain]
    and [authorizeChainFetch]) while [updateKeyChains] widens an allow-list and
    then drops the cached one ([gateway.go]).  Each access of the cache is
    under its mutex and each call of the store is one action; between them the
    requests interleave, so that a list read before an update can be cached
    after it. *)

From stdpp Require Import relations.
From S2P Require Import Prelude GoLib Types KeyPath Crypto Interfaces VaultClient EvmSigner.
From S2P Require Import CosmosSigner HttpJson Limiter Telemetry Gateway GatewayHandlers.

(** What the requests rely on: a store whose allow-lists are read as they are
    and only ever grow ([env] is what other processes do to it, and the
    passing of time). *)
Class GrowingStore (W : Type) {K : KeyStore W} (env : relation W) := {
  allow : W → string → list Chain;
  GetKeyChains_reads path w w' o :
    GetKeyChains path w = (w', o) →
    (∀ p, allow w' p = allow w p) ∧
    ∀ raw l, o = Val (Ok raw) → canonicalizeChains raw = Ok l → l = allow w path;
  UpdateKeyChains_grows path added w w' o :
    UpdateKeyChains path added w = (w', o) →
    (∀ p, allow w p ⊆ allow w' p) ∧
    ∀ raw, o = Val (Ok raw) → added ⊆ allow w' path;
  env_grows w w' p : env w w' → allow w p ⊆ allow w' p }.

(** Where a request is: an authorization before its cache lookup, before its
    store call, with the list it read, and decided; an update before its store
    call, before it drops the cached list, and through. *)
Inductive rthread :=
  | AStart (path : string) (attempted : Chain)
  | AFetch (path : string) (attempted : Chain)
  | ASet (path : string) (attempted : Chain) (allowed : list Chain)
  | ADecided (path : string) (attempted : Chain) (r : authz)
  | UStart (path : string) (added : list Chain)
  | UWritten (path : string) (added : list Chain)
  | UDone (path : string) (added : list Chain) (ok : bool)
  | Panicked.

(** The cached list that authorizes the attempt at once. *)
Definition cache_hit {W} `{Clock W} (s : Server W) (path : string) (attempted : Chain) : option (list Chain) :=
  match chains s with
  | Some c =>
      match cache_get c path (clock (world s)) with
      | Some (cached, true) => if ChainsContain cached attempted then Some cached else None
      | _ => None
      end
  | None => None
  end.

Definition fetch_status (err : error) : Z :=
  if errors_Is err ErrNotFound then StatusNotFound
  else if errors_Is err ErrPermission then StatusForbidden
  else StatusServiceUnavailable.

Section race.
Context {W : Type} {K : KeyStore W} {T : Clock W} (env : relation W).

Definition with_world (w : W) (s : Server W) : Server W :=
  mkServerState w (chains s) (healthResp s) (telemetry s).

Definition with_chains (f : chainsCache → chainsCache) (s : Server W) : Server W :=
  mkServerState (world s) (f <$> chains s) (healthResp s) (telemetry s).

(** The end of an authorization that read the store. *)
Definition decide_chain (path : string) (attempted : Chain) (allowed : list Chain) (s : Server W) : Server W * authz :=
  let s := with_chains (λ c, cache_set c path allowed (clock (world s))) s in
  if ChainsContain allowed attempted then (s, Authorized allowed)
  else ((inc kmsChainAuthzDenialsTotal [attempted] s).1,
        Refused allowed StatusForbidden (denied path attempted allowed)).

Record rstate := mkRState { r_server : Server W; r_threads : list rthread }.

Inductive rstep : rstate → rstate → Prop :=
  | rs_hit s ts i path c cached :
      ts !! i = Some (AStart path c) → cache_hit s path c = Some cached →
      rstep (mkRState s ts) (mkRState s (<[i := ADecided path c (Authorized cached)]> ts))
  | rs_miss s ts i path c :
      ts !! i = Some (AStart path c) → cache_hit s path c = None →
      rstep (mkRState s ts) (mkRState s (<[i := AFetch path c]> ts))
  | rs_read s ts i path c w' raw allowed :
      ts !! i = Some (AFetch path c) → GetKeyChains path (world s) = (w', Val (Ok raw)) →
      canonicalizeChains raw = Ok allowed →
      rstep (mkRState s ts) (mkRState (with_world w' s) (<[i := ASet path c allowed]> ts))
  | rs_read_fails s ts i path c w' err :
      ts !! i = Some (AFetch path c) → GetKeyChains path (world s) = (w', Val (Err err)) →
      rstep (mkRState s ts)
            (mkRState (with_world w' s) (<[i := ADecided path c (Refused [] (fetch_status err) err)]> ts))
  | rs_read_invalid s ts i path c w' raw err :
      ts !! i = Some (AFetch path c) → GetKeyChains path (world s) = (w', Val (Ok raw)) →
      canonicalizeChains raw = Err err →
      rstep (mkRState s ts)
            (mkRState (with_world w' s) (<[i := ADecided path c (Refused [] StatusServiceUnavailable err)]> ts))
  | rs_read_panics s ts i path c w' msg :
      ts !! i = Some (AFetch path c) → GetKeyChains path (world s) = (w', Panic msg) →
      rstep (mkRState s ts) (mkRState (with_world w' s) (<[i := Panicked]> ts))
  | rs_set s ts i path c allowed :
      ts !! i = Some (ASet path c allowed) →
      rstep (mkRState s ts)
            (mkRState (decide_chain path c allowed s).1
                      (<[i := ADecided path c (decide_chain path c allowed s).2]> ts))
  | rs_update s ts i path added w' o :
      ts !! i = Some (UStart path added) → UpdateKeyChains path added (world s) = (w', o) →
      rstep (mkRState s ts)
            (mkRState (with_world w' s)
               (<[i := match o with
                       | Val (Ok _) => UWritten path added
                       | Val (Err _) => UDone path added false
                       | Panic _ => Panicked
                       end]> ts))
  | rs_invalidate s ts i path added :
      ts !! i = Some (UWritten path added) →
      rstep (mkRState s ts)
            (mkRState (with_chains (λ c, cache_invalidate c path) s) (<[i := UDone path added true]> ts))
  | rs_env s ts w' :
      env (world s) w' → rstep (mkRState s ts) (mkRState (with_world w' s) ts).

(** ** One request alone *)

(** Run without interruption, an authorization is [authorizeChain]. *)
Lemma authorizeChain_steps path c (s s' : Server W) r :
  authorizeChain path c s = (s', Val r) →
  rtc rstep (mkRState s [AStart path c]) (mkRState s' [ADecided path c r]).
Proof.
  intros Hrun. destruct (cache_hit s path c) as [cached|] eqn:Hhit.
  - eapply rtc_l; [by apply (rs_hit _ _ 0)|].
    enough ((s', Val r) = (s, Val (Authorized cached))) as [= -> ->] by reflexivity. rewrite <- Hrun.
    revert Hhit. unfold cache_hit, authorizeChain, body, bind, get, guard, call.
    destruct (chains s) as [cc|]; [|done]. destruct (cache_get _ _ _) as [[l [|]]|]; [|done..].
    destruct (ChainsContain l c); [|done]. by intros [= ->].
  - eapply rtc_l; [by apply (rs_miss _ _ 0)|].
    assert (authorizeChainFetch path c s = (s', Val r)) as Hf.
    { rewrite <- Hrun. revert Hhit. unfold cache_hit, authorizeChain, body, bind, get, guard, call, next.
      destruct (chains s) as [cc|]; [destruct (cache_get _ _ _) as [[l [|]]|]; [destruct (ChainsContain l c)|..]|];
        try done; intros _; destruct (authorizeChainFetch path c s) as [? []]; done. }
    revert Hf. unfold authorizeChainFetch, body, bind, try_, on_world, check.
    destruct (GetKeyChains path (world s)) as [w' [[raw|err]|msg]] eqn:Hg; [| |done].
    + destruct (canonicalizeChains raw) as [allowed|err] eqn:Hc; intros Hf.
      * eapply rtc_l; [by eapply (rs_read _ _ 0)|]. eapply rtc_l; [by apply (rs_set _ _ 0)|].
        enough ((s', r) = decide_chain path c allowed (with_world w' s)) as <- by reflexivity.
        revert Hf. unfold get, decide_chain, with_world, with_chains, guard, call, setChains, inc, next. cbn.
        destruct (chains s); cbn; destruct (ChainsContain allowed c); by intros [= <- <-].
      * injection Hf as <- <-. eapply rtc_l; [by eapply (rs_read_invalid _ _ 0)|]. reflexivity.
    + intros [= <- <-]. eapply rtc_l; [by eapply (rs_read_fails _ _ 0)|]. reflexivity.
Qed.

(** ** Any number of requests *)

Context {G : GrowingStore W env}.

(** The cache holds what the store allows, and so do the requests. *)
Definition cache_ok (s : Server W) : Prop :=
  ∀ cc path e, chains s = Some cc → cc_entries cc !! path = Some e → cce_chains e ⊆ allow (world s) path.

Definition thread_ok (w : W) (t : rthread) : Prop :=
  match t with
  | ASet path _ allowed => allowed ⊆ allow w path
  | ADecided path c (Authorized allowed) => c ∈ allow w path
  | UWritten path added | UDone path added true => added ⊆ allow w path
  | _ => True
  end.

Definition race_ok (st : rstate) : Prop :=
  cache_ok (r_server st) ∧ Forall (thread_ok (world (r_server st))) (r_threads st).

(** A request that has not begun. *)
Definition waiting (t : rthread) : Prop :=
  match t with AStart _ _ | UStart _ _ => True | _ => False end.

Lemma waiting_ok w ts : Forall waiting ts → Forall (thread_ok w) ts.
Proof. intros Hw. eapply Forall_impl; [exact Hw|]. by intros []. Qed.

Lemma thread_ok_grows w w' t : (∀ p, allow w p ⊆ allow w' p) → thread_ok w t → thread_ok w' t.
Proof.
  intros Hg. destruct t as [| | |path c [allowed|]| | |path added [|]|]; simpl; try done; try set_solver.
Qed.

Lemma race_ok_world s ts w' :
  (∀ p, allow (world s) p ⊆ allow w' p) → race_ok (mkRState s ts) → race_ok (mkRState (with_world w' s) ts).
Proof.
  intros Hg [Hc Ht]. split.
  - intros cc path e Hcc He. etrans; [by eapply Hc|apply Hg].
  - eapply Forall_impl; [exact Ht|]. intros t. by apply thread_ok_grows.
Qed.

Lemma race_ok_thread s ts i t :
  thread_ok (world s) t → race_ok (mkRState s ts) → race_ok (mkRState s (<[i := t]> ts)).
Proof. intros Ht [Hc Hts]. split; [done|]. by apply Forall_insert. Qed.

Lemma race_ok_at s ts i t : race_ok (mkRState s ts) → ts !! i = Some t → thread_ok (world s) t.
Proof. intros [_ Hts] Hi. by eapply Forall_lookup_1. Qed.

Lemma cache_hit_ok s path c cached :
  cache_ok s → cache_hit s path c = Some cached → c ∈ allow (world s) path.
Proof.
  intros Hc. unfold cache_hit, cache_get. destruct (chains s) as [cc|] eqn:Hcc; [|done].
  destruct (cc_entries cc !! path) as [e|] eqn:He; [|done]. destruct (_ <=? _)%Z; [|done].
  destruct (ChainsContain (cce_chains e) c) eqn:Hin; [|done]. intros _. eapply Hc; [done..|].
  by apply ChainsContain_spec.
Qed.

Lemma reads_same path w w' o p : GetKeyChains path w = (w', o) → allow w p ⊆ allow w' p.
Proof. intros Hg. destruct (GetKeyChains_reads _ _ _ _ Hg) as [Hs _]. by rewrite Hs. Qed.

Lemma decide_chain_ok s ts i path c allowed :
  cache_ok s → Forall (thread_ok (world s)) ts → allowed ⊆ allow (world s) path →
  race_ok (mkRState (decide_chain path c allowed s).1 (<[i := ADecided path c (decide_chain path c allowed s).2]> ts)).
Proof.
  intros Hc Hts Ha.
  assert (cache_ok (with_chains (λ cc, cache_set cc path allowed (clock (world s))) s)) as Hset.
  { intros cc' p e. cbn. intros (cc & Hcc & ->)%fmap_Some. cbn.
    intros [(<- & <-)|[_ He]]%lookup_insert_Some; [done|by eapply Hc]. }
  unfold decide_chain. destruct (ChainsContain allowed c) eqn:Hin; (split; [exact Hset|]); cbn.
  - apply Forall_insert; [done|]. simpl. apply Ha. by apply ChainsContain_spec.
  - by apply Forall_insert.
Qed.

Lemma rstep_ok st st' : race_ok st → rstep st st' → race_ok st'.
Proof.
  intros Hok Hstep. destruct Hstep as [s ts i path c cached Hi Hhit|s ts i path c Hi Hhit
    |s ts i path c w' raw allowed Hi Hg Hcan|s ts i path c w' err Hi Hg|s ts i path c w' raw err Hi Hg Hcan
    |s ts i path c w' msg Hi Hg|s ts i path c allowed Hi|s ts i path added w' o Hi Hu|s ts i path added Hi|s ts w' He].
  - apply race_ok_thread; [|done]. eapply cache_hit_ok; [apply Hok|done].
  - by apply race_ok_thread.
  - apply race_ok_thread; [|apply race_ok_world; [|done]; by intros p; eapply reads_same].
    destruct (GetKeyChains_reads _ _ _ _ Hg) as [Hs Hr]. simpl. rewrite Hs.
    by rewrite (Hr raw allowed eq_refl Hcan).
  - apply race_ok_thread; [done|]. apply race_ok_world; [|done]. by intros p; eapply reads_same.
  - apply race_ok_thread; [done|]. apply race_ok_world; [|done]. by intros p; eapply reads_same.
  - apply race_ok_thread; [done|]. apply race_ok_world; [|done]. by intros p; eapply reads_same.
  - pose proof (race_ok_at _ _ _ _ Hok Hi) as Ht. destruct Hok as [Hc Hts]. by apply decide_chain_ok.
  - destruct (UpdateKeyChains_grows _ _ _ _ _ Hu) as [Hg Ha].
    apply race_ok_thread; [|by apply race_ok_world]. destruct o as [[raw|]|]; simpl; try done. by eapply Ha.
  - pose proof (race_ok_at _ _ _ _ Hok Hi) as Ht. apply race_ok_thread; [done|]. destruct Hok as [Hc Hts].
    split; [|done]. intros cc' p e. cbn. intros (cc & Hcc & ->)%fmap_Some. cbn. intros [_ He]%lookup_delete_Some.
    by eapply Hc.
  - apply race_ok_world; [|done]. intros p. by apply env_grows.
Qed.

Lemma race_reachable st st' : race_ok st → rtc rstep st st' → race_ok st'.
Proof. intros Hok Hr. induction Hr as [|st st1 st2 Hs _ IH]; [done|]. by apply IH, (rstep_ok st). Qed.

(** The outcome of a failed store call. *)
Definition store_failed (r : authz) : Prop :=
  ∃ err, r = Refused [] (fetch_status err) err ∨ r = Refused [] StatusServiceUnavailable err.

(** A request for an allowed chain, from its start on. *)
Definition on_course (path : string) (c : Chain) (t : rthread) : Prop :=
  match t with
  | AStart p c' | AFetch p c' => p = path ∧ c' = c
  | ASet p c' allowed => p = path ∧ c' = c ∧ c ∈ allowed
  | ADecided p c' r => p = path ∧ c' = c ∧ ((∃ allowed, r = Authorized allowed) ∨ store_failed r)
  | Panicked => True
  | _ => False
  end.

Definition course (i : nat) (path : string) (c : Chain) (st : rstate) : Prop :=
  c ∈ allow (world (r_server st)) path ∧ ∃ t, r_threads st !! i = Some t ∧ on_course path c t.

Lemma course_insert i j path c (ts : list rthread) t t0 t' :
  ts !! i = Some t → on_course path c t → ts !! j = Some t0 → (on_course path c t0 → on_course path c t') →
  ∃ t1, <[j := t']> ts !! i = Some t1 ∧ on_course path c t1.
Proof.
  intros Hi Ht Hj Hnew. destruct (decide (j = i)) as [->|Hne].
  - exists t'. split; [apply list_lookup_insert_eq; by eapply lookup_lt_Some|]. apply Hnew. by simplify_eq.
  - exists t. by rewrite list_lookup_insert_ne.
Qed.

Lemma rstep_course i path c st st' : course i path c st → rstep st st' → course i path c st'.
Proof.
  intros [Hin (t & Ht & Hcourse)] Hstep. split.
  { destruct Hstep; cbn in *; try done.
    1-4: by eapply reads_same.
    - unfold decide_chain. by destruct (ChainsContain _ _).
    - destruct (UpdateKeyChains_grows _ _ _ _ _ H0) as [Hg _]. by apply Hg.
    - by eapply env_grows. }
  destruct Hstep; cbn in *; try (eapply course_insert; [done|done|done|]); cbn; try done; [..|by eauto].
  - intros [-> ->]. split_and!; [done|done|left; eauto].
  - intros [-> ->]. split_and!; [done|done|]. destruct (GetKeyChains_reads _ _ _ _ H0) as [_ Hr].
    by rewrite (Hr raw allowed eq_refl H1).
  - intros [-> ->]. split_and!; [done|done|right; eexists; by left].
  - intros [-> ->]. split_and!; [done|done|right; eexists; by right].
  - intros (-> & -> & Ha). split_and!; [done|done|left]. unfold decide_chain.
    apply ChainsContain_spec in Ha. rewrite Ha. by eexists.
Qed.

(** C18. Concurrent authorizations are sound: however the requests to the
    gateway interleave with each other and with other writers of a store whose
    allow-lists only grow, a request is authorized for a chain only if the
    store allows that chain for the key, and from then on; stale lists that
    end up in the cache included. *)
Theorem race_authorizes (s : Server W) (ts : list rthread) (st : rstate) (i : nat)
    (path : string) (c : Chain) (allowed : list Chain) :
  cache_ok s → Forall waiting ts → rtc rstep (mkRState s ts) st →
  r_threads st !! i = Some (ADecided path c (Authorized allowed)) →
  c ∈ allow (world (r_server st)) path.
Proof.
  intros Hc Hw Hr Hi. destruct st as [s' ts'].
  apply (race_ok_at s' ts' i (ADecided path c (Authorized allowed))); [|done].
  eapply race_reachable; [|exact Hr]. split; [done|by apply waiting_ok].
Qed.

(** C19. A widened allow-list is honoured at once: when an update that adds a
    chain has returned, every authorization for that chain that begins
    afterwards ends with [Authorized], unless the store fails; a list cached
    from before the update never denies it. *)
Theorem race_no_stale_denial (s : Server W) (ts : list rthread) (st st' : rstate) (i j : nat)
    (path : string) (c : Chain) (added : list Chain) (r : authz) :
  cache_ok s → Forall waiting ts → rtc rstep (mkRState s ts) st →
  r_threads st !! j = Some (UDone path added true) → c ∈ added →
  r_threads st !! i = Some (AStart path c) → rtc rstep st st' →
  r_threads st' !! i = Some (ADecided path c r) →
  (∃ allowed, r = Authorized allowed) ∨ store_failed r.
Proof.
  intros Hc Hw Hr Hj Hin Hi Hr' Hd.
  assert (race_ok st) as Hok by (eapply race_reachable; [|exact Hr]; split; [done|by apply waiting_ok]).
  assert (course i path c st) as Hco.
  { destruct st as [s1 ts1]. split; [exact (race_ok_at s1 ts1 j _ Hok Hj c Hin)|]. by exists (AStart path c). }
  clear Hok Hj Hi Hr. induction Hr' as [|st st1 st2 Hs _ IH]; [|apply IH; [done|by eapply rstep_course]].
  destruct Hco as (_ & t & Ht & Hon). rewrite Hd in Ht. injection Ht as <-. by destruct Hon as (_ & _ & ?).
Qed.
End race.

(** ** Witnesses *)

Module RaceChecks.

(** A store that keeps, per key, whether it is tagged for Cosmos and EVM. *)
Abbreviation tags := (gmap string (bool * bool)).

Definition toy_allow (w : tags) (path : string) : list Chain :=
  match w !! path with Some (cosmos, evm) => chain_list cosmos evm | None => [] end.

Definition known_chains (l : list Chain) : bool :=
  forallb (λ c, bool_decide (c = ChainCosmos) || bool_decide (c = ChainEVM)) l.

Definition toy_update (path : string) (added : list Chain) : M tags (result (list string)) := λ w,
  match w !! path with
  | None => (w, Val (Err (errors_New "key not found")))
  | Some (cosmos, evm) =>
      if known_chains added then
        let t := (cosmos || ChainsContain added ChainCosmos, evm || ChainsContain added ChainEVM) in
        (<[path := t]> w, Val (Ok (chain_list t.1 t.2)))
      else (w, Val (Err (errors_New "unknown chain")))
  end.

#[local] Instance toy_pub : PubKeys tags := {| GetPublicKey _ := λ w, (w, Val (Err (errors_New "none"))) |}.

#[local] Instance toy_tags : KeyStore tags := {|
  ks_keys := toy_pub;
  CreateKey _ _ := λ w, (w, Val (Ok tt));
  UpdateKeyChains := toy_update;
  GetKeyChains path := λ w,
    (w, Val match w !! path with
            | Some (cosmos, evm) => Ok (chain_list cosmos evm)
            | None => Err (errors_New "key not found")
            end);
  ListKeys _ := λ w, (w, Val (Ok [])) |}.

#[local] Instance toy_clock : Clock tags := {| clock _ := 0%Z |}.

Lemma chain_list_mono c e c' e' :
  (c = true → c' = true) → (e = true → e' = true) → chain_list c e ⊆ chain_list c' e'.
Proof. intros Hc He. destruct c, e; rewrite ?Hc, ?He by done; unfold chain_list; destruct c', e'; set_solver. Qed.

Lemma toy_update_grows path added w w' o :
  toy_update path added w = (w', o) →
  (∀ p, toy_allow w p ⊆ toy_allow w' p) ∧ ∀ raw, o = Val (Ok raw) → added ⊆ toy_allow w' path.
Proof.
  unfold toy_update. destruct (w !! path) as [[c e]|] eqn:Hp; [|intros [= <- <-]; by split].
  destruct (known_chains added) eqn:Hk; intros [= <- <-]; [|by split]. split.
  - intros p. unfold toy_allow. destruct (decide (p = path)) as [->|Hne]; [|by rewrite lookup_insert_ne].
    rewrite Hp, lookup_insert_eq. apply chain_list_mono; by intros ->.
  - intros raw _ x Hx. unfold toy_allow. rewrite lookup_insert_eq. apply Forall_forallb in Hk.
    rewrite Forall_forall in Hk. specialize (Hk x Hx). apply orb_true_iff in Hk as [Hk|Hk];
      apply bool_decide_eq_true in Hk as ->; apply ChainsContain_spec in Hx; rewrite Hx, orb_true_r;
      unfold chain_list; [|destruct (c || _)]; set_solver.
Qed.

#[local] Instance toy_growing : GrowingStore tags (λ _ _, False).
Proof.
  refine (Build_GrowingStore _ _ _ toy_allow _ _ _).
  - intros path w w' o [= <- <-]. split; [done|]. intros raw l. unfold toy_allow.
    destruct (w !! path) as [[[] []]|]; intros [= <-]; vm_compute; congruence.
  - apply toy_update_grows.
  - done.
Defined.

(** An authorization reads the old list, an update widens it, and the old list
    is cached after the update has dropped the cached one; then another
    request for the new chain begins. *)
Definition before : Server tags :=
  mkServerState {["k" := (true, false)]} (Some (newChainsCache 0)) (mkHealthCache 0 0 (ErrorBody "")) [].

Definition requests : list rthread := [AStart "k" ChainEVM; UStart "k" [ChainEVM]; AStart "k" ChainEVM].

Definition stale_list : list Chain := [ChainCosmos].
Definition wide_list : list Chain := [ChainCosmos; ChainEVM].

Definition widened : Server tags := with_world {["k" := (true, true)]} before.

Definition stale : rstate :=
  mkRState (decide_chain "k" ChainEVM stale_list widened).1
    [ADecided "k" ChainEVM (decide_chain "k" ChainEVM stale_list widened).2; UDone "k" [ChainEVM] true;
     AStart "k" ChainEVM].

Definition settled : rstate :=
  mkRState (decide_chain "k" ChainEVM wide_list (r_server stale)).1
    [ADecided "k" ChainEVM (decide_chain "k" ChainEVM stale_list widened).2; UDone "k" [ChainEVM] true;
     ADecided "k" ChainEVM (Authorized wide_list)].

Abbreviation steps := (rtc (rstep (λ _ _, False))).

Lemma stale_run : steps (mkRState before requests) stale.
Proof.
  eapply rtc_l; [by apply (rs_miss _ _ _ 0)|].
  eapply rtc_l; [by eapply (rs_read _ _ _ 0)|].
  eapply rtc_l; [by eapply (rs_update _ _ _ 1)|].
  eapply rtc_l; [by eapply (rs_invalidate _ _ _ 1)|].
  eapply rtc_l; [by eapply (rs_set _ _ _ 0)|]. reflexivity.
Qed.

Lemma settled_run : steps stale settled.
Proof.
  eapply rtc_l; [by apply (rs_miss _ _ _ 2)|].
  eapply rtc_l; [by eapply (rs_read _ _ _ 2)|].
  eapply rtc_l; [by eapply (rs_set _ _ _ 2)|]. reflexivity.
Qed.

Lemma before_ok : cache_ok (λ _ _, False) before.
Proof. intros cc path e [= <-]. cbn [cc_entries newChainsCache]. by rewrite lookup_empty. Qed.

Lemma requests_waiting : Forall waiting requests.
Proof. repeat constructor. Qed.

(** The cache does hold the old list when the second request begins. *)
Example stale_cached : cache_hit (r_server stale) "k" ChainCosmos = Some stale_list.
Proof. vm_compute. reflexivity. Qed.

Lemma race_authorizes_witness : ChainEVM ∈ toy_allow (world (r_server settled)) "k".
Proof.
  change (ChainEVM ∈ allow (env:=λ _ _, False) (world (r_server settled)) "k").
  apply (race_authorizes (λ _ _, False) before requests settled 2 "k" ChainEVM wide_list).
  - apply before_ok.
  - apply requests_waiting.
  - etrans; [apply stale_run|apply settled_run].
  - reflexivity.
Defined.

Lemma race_no_stale_denial_witness :
  (∃ allowed, Authorized wide_list = Authorized allowed) ∨ store_failed (Authorized wide_list).
Proof.
  apply (race_no_stale_denial (λ _ _, False) before requests stale settled 2 1 "k" ChainEVM [ChainEVM]).
  - apply before_ok.
  - apply requests_waiting.
  - apply stale_run.
  - reflexivity.
  - left.
  - reflexivity.
  - apply settled_run.
  - reflexivity.
Defined.
End RaceChecks.
