(* ===== verification/GatewayChecks.v ===== *)
(** * The gateway at work

    The gateway wired to the signers and the Vault client, as the program
    wires them, over the in-memory Vault: the witnesses of the gateway's
    theorems. *)

From S2P Require Import Prelude GoLib Types KeyPath Crypto Plugin PluginModel PluginProps.
From S2P Require Import PluginTheorems Interfaces VaultClient Mount EvmSigner CosmosSigner.
From S2P Require Import Amino SignerTheorems EndToEnd EndToEndTheorems Limiter Gateway GatewayHandlers.
From S2P Require Import ListWorkers GatewayTheorems GatewayListing JsonProps HttpJson HttpJsonProps ResponseTypes.

Module GatewayChecks.
Import ToyCrypto MemVault MemServer PluginWitness EndToEndChecks.

#[local] Existing Instance SignerChecks.toy_tx.
#[local] Existing Instance SignerChecks.toy_cosmos.

Abbreviation vault := (Client server).

#[local] Instance vault_clock : Clock vault := {| clock c := api_Now (api c) |}.

(** [evm.New(client)] and [cosmos.New(client)]. *)
#[local] Instance vault_evm : EVMSigner vault := {|
  evm_SignRawTx := SignRawTx;
  evm_SignPersonalMessage := SignPersonalMessage;
  evm_SignEIP712Digest := SignEIP712Digest |}.

#[local] Instance vault_cosmos : CosmosSignerI vault := {|
  cosmos_SignDirect := SignDirect;
  cosmos_SignAmino := SignAmino |}.

Definition response (o : outcome HttpResponse) : HttpResponse :=
  match o with Val r => r | Panic _ => writeError StatusInternalServerError "" end.

(** A gateway in front of a vault with one key for both chains. *)
Definition alice_client : vault := (client_CreateKey alice ["cosmos"; "evm"] fresh).1.

Definition gateway : Server vault :=
  mkServerState alice_client (Some (newChainsCache 0)) (mkHealthCache 0 0 (ErrorBody "")) [].

Lemma authorizeChain_sound_witness :
  authz_justified alice "evm" gateway (authorizeChain alice "evm" gateway).1
    (Authorized ["cosmos"; "evm"]).
Proof. apply authorizeChain_sound. vm_compute. reflexivity. Defined.

Definition personal : EVMSignRequest := mkEVMSignRequest "personal_message" alice 0 "" "0x68" "".

Lemma signEVM_gate_witness :
  ∃ req s1 allowed, Some personal = Some req ∧ KeyPathOk (evm_KeyPath req) ∧
    authorizeChain (evm_KeyPath req) ChainEVM gateway = (s1, Val (Authorized allowed)) ∧
    evm_answer req (world s1) (world (signEVM (Some personal) gateway).1)
      (rs_body (response (signEVM (Some personal) gateway).2)).
Proof. apply signEVM_gate; vm_compute; reflexivity. Defined.

Lemma responses_typed_witness :
  replies (evm_success ++ failures) (response (signEVM (Some personal) gateway).2).
Proof.
  apply (proj1 (responses_typed gateway (signEVM (Some personal) gateway).1 _) (Some personal)).
  vm_compute. reflexivity.
Defined.

Definition direct : CosmosSignRequest :=
  mkCosmosSignRequest alice "osmo" "DIRECT" (b64_Encode StdEncoding [Byte.x0a]).

Lemma signCosmos_gate_witness :
  ∃ req s1 allowed, Some direct = Some req ∧ KeyPathOk (cos_KeyPath req) ∧
    authorizeChain (cos_KeyPath req) ChainCosmos gateway = (s1, Val (Authorized allowed)) ∧
    cosmos_answer req (world s1) (world (signCosmos (Some direct) gateway).1)
      (rs_body (response (signCosmos (Some direct) gateway).2)).
Proof. apply signCosmos_gate; vm_compute; reflexivity. Defined.

(** A gateway in front of a key for Cosmos only, whose chains are widened. *)
Definition cosmos_gateway : Server vault :=
  mkServerState cosmos_client (Some (newChainsCache 0)) (mkHealthCache 0 0 (ErrorBody "")) [].

Definition widen : gmap string any := {["add_chains" := AList [AString "EVM"]]}.

Lemma updateKeyChains_invalidates_witness :
  chains_updated alice (Some widen) cosmos_gateway (updateKeyChains alice (Some widen) cosmos_gateway).1
    (rs_body (response (updateKeyChains alice (Some widen) cosmos_gateway).2)).
Proof. apply updateKeyChains_invalidates; vm_compute; reflexivity. Defined.

(** A vault client that looked its token up five seconds ago. *)
Definition ready_gateway : Server vault :=
  mkServerState (mkClient (mkServer (mkBackend ∅ (∅ : vault_store)) Byte.x07 (10 * second)) ∅
                   (5 * second) 0 None)
    None (mkHealthCache 0 0 (ErrorBody "")) [].

Lemma computeReadiness_ready_witness :
  (StatusOK = StatusOK ∨ StatusOK = StatusServiceUnavailable) ∧
  (StatusOK = StatusOK ↔
   Health (world ready_gateway) = (world ready_gateway, Val (Ok tt)) ∧
   ∃ t, client_LastLookupSelf (world ready_gateway) = Some t ∧
        (clock (world ready_gateway) - t ≤ 30 * second)%Z).
Proof.
  apply (computeReadiness_ready client_LastLookupSelf ready_gateway ready_gateway StatusOK
           (MapBody {["status" := "ready"]})); [done|]. vm_compute. reflexivity.
Defined.

(** A key store of three keys. *)
#[local] Instance three_keys : KeyStore unit := {|
  ks_keys := SignerChecks.toy_pubkeys;
  CreateKey _ _ := λ w, (w, Val (Ok tt));
  UpdateKeyChains _ l := λ w, (w, Val (Ok l));
  GetKeyChains _ := λ w, (w, Val (Ok ["evm"]));
  ListKeys _ := λ w, (w, Val (Ok ["a"; "b"; "c"])) |}.

Lemma prefix_utf8 : utf8 "acme/prod".
Proof. repeat (apply utf8_cons; [done|]). constructor. Qed.

Lemma three_keys_listed : lists "acme/prod" ["a"; "b"; "c"].
Proof. split; eauto. Qed.

Lemma listKeys_pages_complete_witness :
  crawl 4 "acme/prod" "2" ""
    (mkServerState tt None (mkHealthCache 0 0 (ErrorBody "")) [])
  = Some ["acme/prod/a"; "acme/prod/b"; "acme/prod/c"].
Proof.
  apply (listKeys_pages_complete "acme/prod" "2" 2 ["a"; "b"; "c"]).
  - apply three_keys_listed.
  - apply prefix_utf8.
  - done.
  - reflexivity.
Defined.

(** Two workers that finish in the opposite order of their jobs. *)
Definition two_pool : pool unit :=
  mkPool tt Waited [Exited; Exited]
    [mkKeyListEntry "acme/prod/a" ["evm"] true; mkKeyListEntry "acme/prod/b" ["evm"] true] false.

Lemma two_run : rtc pstep (pool_init tt ["acme/prod/a"; "acme/prod/b"]) two_pool.
Proof.
  eapply rtc_l; [by apply (ps_send _ _ _ _ 1)|].
  eapply rtc_l; [by apply (ps_send _ _ _ _ 0)|].
  eapply rtc_l; [exact (ps_close tt [Busy (mkJob 1 "acme/prod/b"); Busy (mkJob 0 "acme/prod/a")]
                          [blank "acme/prod/a"; blank "acme/prod/b"])|].
  eapply rtc_l; [by eapply (ps_call _ _ _ _ _ 0)|].
  eapply rtc_l; [by eapply (ps_call _ _ _ _ _ 1)|].
  eapply rtc_l; [by eapply (ps_chains _ _ _ _ 0)|].
  eapply rtc_l; [by eapply (ps_chains _ _ _ _ 1)|].
  eapply rtc_l; [by eapply (ps_available _ _ _ _ 0)|].
  eapply rtc_l; [by eapply (ps_exit _ _ _ 0)|].
  eapply rtc_l; [by eapply (ps_available _ _ _ _ 1)|].
  eapply rtc_l; [by eapply (ps_exit _ _ _ 1)|].
  eapply rtc_l; [apply ps_wait; repeat constructor|]. reflexivity.
Qed.

Lemma pool_serialises_witness :
  (∃ log, log.*1 ≡ₚ [0; 1] ∧ calls ["acme/prod/a"; "acme/prod/b"] tt log tt ∧
     entries_of_log ["acme/prod/a"; "acme/prod/b"] log (p_entries two_pool)) ∧
  (∀ answer, (∀ path w, ∃ w', GetKeyChains path w = (w', Val (answer path))) →
   ∀ s, ∃ s', listEntries ["acme/prod/a"; "acme/prod/b"] s = (s', Val (p_entries two_pool))).
Proof. apply (pool_serialises ["acme/prod/a"; "acme/prod/b"] tt two_pool two_run). by split. Defined.

(** An empty vault. *)
Definition empty_gateway : Server vault :=
  mkServerState fresh (Some (newChainsCache 0)) (mkHealthCache 0 0 (ErrorBody "")) [].

Lemma toy_entries_storable (k : byte) (chains : list string) :
  Canonical chains → ∃ raw, EncodeEntry (newEntry (C:=toy) k chains 0) = Ok raw.
Proof.
  intros Hc. exists (serialize (newEntry (C:=toy) k chains 0)).
  change (EncodeEntry ?e) with (if decide (deserialize (serialize e) = Ok e) then Ok (serialize e)
                                else Err (errors_New "json: unsupported value")).
  rewrite decide_True; [done|]. by destruct (Canonical_cases _ Hc) as [->|[->| ->]].
Qed.

Lemma createKey_through_the_stack_witness :
  ∃ k addr s1 s2, client_holds (world s1) alice k ["cosmos"; "evm"] ∧
    client_holds (world s2) alice k ["cosmos"; "evm"] ∧
    cosmos_addr k ["cosmos"; "evm"] = Ok addr ∧
    createKey (Some (mkKeyCreateRequest alice ["EVM"; "cosmos"])) empty_gateway
      = (s1, Val (mkResponse 201 (KeyCreateBody
               (mkKeyCreateResponse (info_of alice k ["cosmos"; "evm"] addr) false)))) ∧
    createKey (Some (mkKeyCreateRequest alice ["EVM"; "cosmos"])) s1
      = (s2, Val (mkResponse 200 (KeyCreateBody
               (mkKeyCreateResponse (info_of alice k ["cosmos"; "evm"] addr) true)))).
Proof.
  apply (createKey_through_the_stack (VM:=server_mount) alice ["EVM"; "cosmos"] ["cosmos"; "evm"] ∅).
  - apply fresh_stores.
  - done.
  - apply KeyPathOk_alice.
  - reflexivity.
  - done.
  - intros w _. eexists _, _. split_and!; [reflexivity|reflexivity|].
    intros e He. change (Some (newEntry (C:=toy) (sv_next w) ["cosmos"; "evm"] 0) = Some e) in He.
    injection He as <-. apply toy_entries_storable. by exists true, true.
Defined.
End GatewayChecks.
