(* ===== verification/Middleware.v ===== *)
(** * Routing and middleware of the gateway

    [gateway.go] ([appRoutes], [routes], [rateLimit], [healthRateLimit],
    [withDeprecation], [instrumentRoutes], the 405 rewriter), [auth.go],
    [requestid.go] and [recover.go]: the chain every request passes,
    requestID → recoverPanic → requestLogger → instrumentRoutes → 405 rewriter
    → mux → (deprecation, rate limit, authentication) → handler.

    [http.ServeMux] is modelled for the patterns the program registers and for
    paths without percent escapes.  Bodies are decoded by [HttpJson].  The
    pages of the Prometheus and http-swagger packages are parameters, and so is
    the handler of the swagger document ([Origin.serveSwaggerDoc]). *)

From S2P Require Import Prelude GoLib Types KeyPath Crypto Interfaces VaultClient EvmSigner.
From S2P Require Import CosmosSigner Sha256 HttpJson Limiter Telemetry Gateway GatewayHandlers.

(** [*http.Request]; the headers are those the program looks at. *)
Record Request := mkRequest {
  rq_Method : string;
  rq_Path : string;
  rq_Host : string;
  rq_TLS : bool;                    (** [r.TLS != nil] *)
  rq_Authorization : string;
  rq_XRequestID : string;
  rq_XForwardedProto : string;
  rq_XForwardedHost : string;
  rq_RemoteAddr : string;
  rq_RawQuery : string;
  rq_Query : string → string;
  rq_Body : bytes }.

Definition set_Path (r : Request) (path : string) : Request :=
  mkRequest (rq_Method r) path (rq_Host r) (rq_TLS r) (rq_Authorization r) (rq_XRequestID r)
    (rq_XForwardedProto r) (rq_XForwardedHost r) (rq_RemoteAddr r) (rq_RawQuery r) (rq_Query r) (rq_Body r).

(** [requestIDPattern]: one to 128 characters of [A-Za-z0-9._-]. *)
Definition id_char (c : ascii) : bool :=
  let n := N_of_ascii c in
  ((48 <=? n) && (n <=? 57) || (65 <=? n) && (n <=? 90) || (97 <=? n) && (n <=? 122)
   || (n =? 46) || (n =? 95) || (n =? 45))%N.

Definition requestIDPattern_Match (id : string) : bool :=
  string_forall id_char id && (1 <=? String.length id) && (String.length id <=? 128).

(** The server with its limiters, the header map of the response being
    written, and the request id in the context. *)
Record GState {R : RateLib} (W : Type) := mkGState {
  g_server : Server W;
  principals : principalLimiters;
  healthLimiters : principalLimiters;
  g_headers : gmap string string;
  g_requestID : string }.
Arguments mkGState {R W} _ _ _ _ _.
Arguments g_server {R W} _.
Arguments principals {R W} _.
Arguments healthLimiters {R W} _.
Arguments g_headers {R W} _.
Arguments g_requestID {R W} _.

(** The configuration the chain uses: [sunset] is [sunsetDate], [vault] tells
    whether a health checker is installed. *)
Record ChainConfig := mkChainConfig {
  cfg_auth : AuthConfig;
  cfg_sunset : string;
  cfg_vault : bool;
  cfg_swagger : bool;
  cfg_swagger_auth : bool }.

Section middleware.
Context {R : RateLib} {W : Type} {K : KeyStore W} {H : HealthChecker W} {T : Clock W}
        {EV : EVMSigner W} {CO : CosmosSignerI W} {C : EthCrypto} {TX : EthTx} {L : CosmosLib}.
Context (iter : iteration) (cfg : ChainConfig).

Abbreviation GM := (M (GState W)).

(** [http.Handler]; the second argument is [r.PathValue("path")]. *)
Definition Handler : Type := Request → string → GM HttpResponse.

Definition set_server (s : Server W) (g : GState W) : GState W :=
  mkGState s (principals g) (healthLimiters g) (g_headers g) (g_requestID g).

(** [w.Header().Set(k, v)] *)
Definition setHeader (k v : string) : GM unit := λ g,
  (mkGState (g_server g) (principals g) (healthLimiters g) (<[k := v]> (g_headers g)) (g_requestID g),
   Val tt).

(** A handler of [GatewayHandlers]; every one of them answers JSON. *)
Definition serve (h : Request → string → M (Server W) HttpResponse) : Handler := λ r pv g,
  let '(s', o) := h r pv (g_server g) in
  let g' := set_server s' g in
  match o with
  | Val resp => ((setHeader "Content-Type" "application/json" g').1, Val resp)
  | Panic m => (g', Panic m)
  end.

(** [writeError] in a middleware. *)
Definition reject (status : Z) (msg : string) : GM HttpResponse :=
  body (
    call (setHeader "Content-Type" "application/json") ;;;
    next (writeError status msg)).

(** A log record of the request. *)
Definition slog (level : Level) (msg : string) (attrs : list (string * string)) : GM unit := λ g,
  (set_server (emit (Logged (mkRecord level msg attrs)) (g_server g)).1 g, Val tt).

Definition reason_text (reason : auth_reason) : string :=
  match reason with missing => "missing" | bad_format => "bad-format" | mismatch => "mismatch" end.

Definition auth (h : Handler) : Handler := λ r pv,
  match auth_check (cfg_auth cfg) (rq_Authorization r) with
  | Some reason =>
      body (
        call (slog LevelWarn "unauthorized request" [("reason", reason_text reason)]) ;;;
        call (reject StatusUnauthorized "unauthorized"))
  | None => h r pv
  end.

(** [s.principals.get(key).Allow()] *)
Definition allowPrincipal (key : string) : GM bool := λ g,
  let '(p, ok) := limiters_allow iter (clock (world (g_server g))) key (principals g) in
  (mkGState (g_server g) p (healthLimiters g) (g_headers g) (g_requestID g), Val ok).

Definition allowHealth (key : string) : GM bool := λ g,
  let '(p, ok) := limiters_allow iter (clock (world (g_server g))) key (healthLimiters g) in
  (mkGState (g_server g) (principals g) p (g_headers g) (g_requestID g), Val ok).

(** [c.WithLabelValues(labels)], incremented or observed. *)
Definition observe (c : collector) (labels : list string) : GM unit := λ g,
  (set_server (inc c labels (g_server g)).1 g, Val tt).

Definition onRateLimitRejected (path : string) : GM unit :=
  body (
    call (slog LevelInfo "rate limit exceeded" [("path", path); ("reason", "rate_limited")]) ;;;
    call (observe kmsRateLimitRejectionsTotal [path]) ;;;
    next tt).

Definition rateLimit (h : Handler) : Handler := λ r pv,
  body (
    let key := principalKey (cfg_auth cfg) (rq_Authorization r) (rq_RemoteAddr r) in
    let! ok := call (allowPrincipal key) in
    if ok : bool then call (h r pv)
    else
      call (onRateLimitRejected (rq_Path r)) ;;;
      call (reject StatusTooManyRequests "rate limit exceeded")).

Definition healthRateLimit (h : Handler) : Handler := λ r pv,
  body (
    let key := "ip|" +:+ ipFromRemoteAddr (rq_RemoteAddr r) in
    let! ok := call (allowHealth key) in
    if ok : bool then call (h r pv)
    else
      call (onRateLimitRejected (rq_Path r)) ;;;
      call (reject StatusTooManyRequests "rate limit exceeded")).

Definition withDeprecation (h : Handler) : Handler := λ r pv,
  body (
    call (setHeader "Deprecation" "true") ;;;
    call (setHeader "Sunset" (cfg_sunset cfg)) ;;;
    call (h r pv)).

(** ** Routes *)

(** The two pattern shapes: a literal path, and a literal directory followed by
    [{path...}]. *)
Inductive pattern := Exact (path : string) | Rest (dir : string).

Record routeEntry := mkRouteEntry { re_method : string; re_pattern : pattern; re_handler : Handler }.

Definition appRoutes : list routeEntry :=
  [mkRouteEntry "GET" (Exact "/health") (healthRateLimit (serve (λ _ _, health (cfg_vault cfg))));
   mkRouteEntry "POST" (Exact "/sign/evm") (rateLimit (auth (serve (λ r _, signEVM (decode_EVM (rq_Body r))))));
   mkRouteEntry "POST" (Exact "/sign/cosmos")
     (rateLimit (auth (serve (λ r _, signCosmos (decode_Cosmos (rq_Body r))))));
   mkRouteEntry "POST" (Exact "/keys") (rateLimit (auth (serve (λ r _, createKey (decode_KeyCreate (rq_Body r))))));
   mkRouteEntry "PATCH" (Rest "/keys/")
     (rateLimit (auth (serve (λ r pv, updateKeyChains pv (decode_Raw (rq_Body r))))));
   mkRouteEntry "GET" (Exact "/keys/info") (rateLimit (auth (serve (λ r _, showKey (rq_Query r "path")))));
   mkRouteEntry "GET" (Exact "/keys")
     (rateLimit (auth (serve (λ r _, listKeys (rq_Query r "prefix") (rq_Query r "limit") (rq_Query r "cursor")))))].

Definition prefixed (p : pattern) : pattern :=
  match p with Exact q => Exact ("/v1" +:+ q) | Rest q => Rest ("/v1" +:+ q) end.

(** The endpoints outside the repository's own handlers: Prometheus' metrics
    page, the swagger pages and the generated document. *)
Context (metricsHandler swaggerUI swaggerDoc : Handler).

(** The directory itself is served as its index page. *)
Definition swaggerRoot : Handler := λ r pv,
  if decide (rq_Path r = "/swagger/") then swaggerUI (set_Path r "/swagger/index.html") pv
  else swaggerUI r pv.

Definition probeRoutes : list routeEntry :=
  [mkRouteEntry "GET" (Exact "/livez") (healthRateLimit (serve (λ _ _, handleLivez)));
   mkRouteEntry "GET" (Exact "/readyz") (healthRateLimit (serve (λ _ _, handleReadyz (cfg_vault cfg))));
   mkRouteEntry "GET" (Exact "/metrics") (healthRateLimit metricsHandler)].

Definition swaggerRoutes : list routeEntry :=
  if cfg_swagger cfg then
    let guard h := if cfg_swagger_auth cfg then auth h else h in
    [mkRouteEntry "GET" (Exact "/swagger/doc.json") (guard swaggerDoc);
     mkRouteEntry "GET" (Rest "/swagger/") (guard swaggerRoot)]
  else [].

Definition muxRoutes : list routeEntry :=
  flat_map (λ e, [mkRouteEntry (re_method e) (re_pattern e) (withDeprecation (re_handler e));
                  mkRouteEntry (re_method e) (prefixed (re_pattern e)) (re_handler e)]) appRoutes
  ++ probeRoutes ++ swaggerRoutes.

(** The path value when the pattern matches the path. *)
Definition matchPattern (p : pattern) (path : string) : option string :=
  match p with
  | Exact q => if decide (path = q) then Some "" else None
  | Rest dir => CutPrefix path dir
  end.

(** A GET pattern also serves HEAD. *)
Definition methodMatches (m : string) (r : string) : bool :=
  bool_decide (m = r) || (bool_decide (m = "GET") && bool_decide (r = "HEAD")).

(** An exact pattern is more specific than a directory one: it is tried
    first. *)
Definition bySpecificity (routes : list routeEntry) : list routeEntry :=
  List.filter (λ e, match re_pattern e with Exact _ => true | Rest _ => false end) routes ++
  List.filter (λ e, match re_pattern e with Exact _ => false | Rest _ => true end) routes.

Fixpoint findRoute (routes : list routeEntry) (method path : string) : option (routeEntry * string) :=
  match routes with
  | [] => None
  | e :: routes' =>
      match matchPattern (re_pattern e) path with
      | Some pv => if methodMatches (re_method e) method then Some (e, pv)
                   else findRoute routes' method path
      | None => findRoute routes' method path
      end
  end.

(** The methods registered for a path; GET brings HEAD. *)
Definition matchingMethods (path : string) : gset string :=
  let ms := list_to_set (omap (λ e, match matchPattern (re_pattern e) path with
                                    | Some _ => Some (re_method e)
                                    | None => None
                                    end) muxRoutes) in
  if decide ("GET" ∈ ms) then {["HEAD"]} ∪ ms else ms.

(** [http.cleanPath] *)
Definition clean_segments (segs : list string) : list string :=
  fold_left (λ out s,
    if decide (s = "" ∨ s = ".") then out
    else if decide (s = "..") then removelast out
    else out ++ [s]) segs [].

Definition cleanPath (p : string) : string :=
  let p := if HasPrefix p "/" then p else "/" +:+ p in
  let np := "/" +:+ Join (clean_segments (Split p "/")) "/" in
  if HasSuffix p "/" && negb (bool_decide (np = "/")) then np +:+ "/" else np.

(** A literal pattern, or the directory of a [{path...}] one. *)
Definition exactMatch (n : option (routeEntry * string)) (path : string) : bool :=
  match n with
  | None => false
  | Some (e, _) => match re_pattern e with Exact _ => true | Rest dir => bool_decide (path = dir) end
  end.

(** The path is redirected to itself with a slash. *)
Definition redirectsToSlash (method path : string) : bool :=
  let find := findRoute (bySpecificity muxRoutes) method in
  negb (exactMatch (find path) path) && negb (HasSuffix path "/") &&
  exactMatch (find (path +:+ "/")) (path +:+ "/").

(** [http.Redirect], 301 with the query kept. *)
Definition redirect (r : Request) (path : string) : GM HttpResponse :=
  let location := path +:+ (if decide (rq_RawQuery r = "") then "" else "?" +:+ rq_RawQuery r) in
  body (
    call (setHeader "Location" location) ;;;
    (if decide (rq_Method r = "GET" ∨ rq_Method r = "HEAD")
     then call (setHeader "Content-Type" "text/html; charset=utf-8") else next tt) ;;;
    next (mkResponse 301 (RedirectBody location))).

Definition pageNotFound : GM HttpResponse :=
  body (
    call (setHeader "Content-Type" "text/plain; charset=utf-8") ;;;
    call (setHeader "X-Content-Type-Options" "nosniff") ;;;
    next (mkResponse StatusNotFound (TextBody "404 page not found"))).

(** The mux's 405 keeps its [Allow] header; [methodNotAllowedRewriter] replaces
    its body by JSON. *)
Definition methodNotAllowed (methods : gset string) : GM HttpResponse :=
  body (
    call (setHeader "X-Content-Type-Options" "nosniff") ;;;
    call (setHeader "Allow" (Join (sort_Strings (elements methods)) ", ")) ;;;
    call (setHeader "Content-Type" "application/json") ;;;
    next (writeError 405 "method not allowed")).

(** [json405Handler(mux)] *)
Definition mux : Request → GM HttpResponse := λ r,
  let path := if decide (rq_Method r = "CONNECT") then rq_Path r else cleanPath (rq_Path r) in
  if redirectsToSlash (rq_Method r) path then redirect r (path +:+ "/")
  else if decide (path ≠ rq_Path r) then redirect r path
  else
    match findRoute (bySpecificity muxRoutes) (rq_Method r) path with
    | Some (e, pv) => re_handler e r pv
    | None =>
        let methods := matchingMethods path ∪ matchingMethods (path +:+ "/") in
        if decide (methods = ∅) then pageNotFound else methodNotAllowed methods
    end.

(** ** The outer chain *)

(** The label of a response status. *)
Definition intToStatusLabel (s : Z) : string :=
  if (200 <=? s)%Z && (s <? 300)%Z then Itoa s
  else if (s =? 0)%Z then "0"
  else Itoa s.

(** [instrumentRoutes]: counted after the handler has returned; a panic skips
    it. *)
Definition instrumentRoutes (h : Request → GM HttpResponse) : Request → GM HttpResponse := λ r,
  body (
    let! resp := call (h r) in
    call (observe kmsHTTPRequestsTotal [rq_Path r; rq_Method r; intToStatusLabel (rs_status resp)]) ;;;
    call (observe kmsHTTPRequestDuration [rq_Path r; rq_Method r]) ;;;
    next resp).

(** [time.Now()] *)
Definition now : GM Z := λ g, (g, Val (clock (world (g_server g)))).

(** [requestLogger]: the access line, written after the handler has returned;
    a panic skips it. *)
Definition requestLogger (h : Request → GM HttpResponse) : Request → GM HttpResponse := λ r,
  body (
    let! start := call now in
    let! resp := call (h r) in
    let! stop := call now in
    call (slog LevelInfo "request"
      [("method", rq_Method r); ("path", rq_Path r); ("status", Itoa (rs_status resp));
       ("duration_ms", Itoa (Z.quot (stop - start) 1000000)); ("remote_addr", rq_RemoteAddr r)]) ;;;
    next resp).

(** [recoverPanic]: a panic becomes a 500 with the request id; the stack trace
    of the log record is left out. *)
Definition recoverPanic (h : Request → GM HttpResponse) : Request → GM HttpResponse := λ r g,
  match h r g with
  | (g', Val resp) => (g', Val resp)
  | (g', Panic m) =>
      let g1 := (slog LevelError "panic in handler" [("panic", m)] g').1 in
      let g1 := (observe kmsPanicsTotal [rq_Path r] g1).1 in
      ((setHeader "Content-Type" "application/json" g1).1,
       Val (mkResponse StatusInternalServerError
              (MapBody (<["error" := "internal server error"]> {["request_id" := g_requestID g']}))))
  end.

(** [requestID]; [fresh] is [uuid.NewString()]. *)
Definition requestID (fresh : string) (h : Request → GM HttpResponse) : Request → GM HttpResponse := λ r g,
  let id := if bool_decide (rq_XRequestID r = "") || negb (requestIDPattern_Match (rq_XRequestID r))
            then fresh else rq_XRequestID r in
  h r (mkGState (g_server g) (principals g) (healthLimiters g) (<["X-Request-ID" := id]> (g_headers g)) id).

(** One request, from an empty header map. *)
Definition routes (fresh : string) (r : Request) : GM HttpResponse := λ g,
  requestID fresh (recoverPanic (requestLogger (instrumentRoutes mux))) r
    (mkGState (g_server g) (principals g) (healthLimiters g) ∅ "").
End middleware.
