(* ===== verification/Origin.v ===== *)
(** * The external origin and the swagger document

    [internal/gateway/origin.go] ([resolveOrigin] with its trusted proxies) and
    [serveSwaggerDoc] of [gateway.go].  [url.Parse] is a parameter that gives
    the scheme and the host of a URL, and the generated document that
    [swag.ReadDoc] returns is another. *)

From S2P Require Import Prelude GoLib Types KeyPath Net Crypto Interfaces VaultClient EvmSigner.
From S2P Require Import CosmosSigner Sha256 Float64 Json JsonProps JsonRoundtrip JsonSound HttpJson.
From S2P Require Import Limiter Telemetry Gateway GatewayHandlers Middleware.

(** The fields of [*url.URL] that are used; [None] is an error. *)
Record URL := mkURL { u_Scheme : string; u_Host : string }.

Class URLParser := { url_Parse : string → option URL }.

(** What [origin.go] reads of the server. *)
Record OriginConfig := mkOriginConfig { o_PublicURL : string; trustedProxies : list IPNet }.

Section origin.
Context {U : URLParser} (cfg : OriginConfig).

Definition publicURL : option URL :=
  let raw := TrimSpace (o_PublicURL cfg) in
  if decide (raw = "") then None
  else match url_Parse raw with
       | None => None
       | Some u => if decide (u_Host u = "") then None else Some u
       end.

Definition publicHost : string := match publicURL with None => "" | Some u => u_Host u end.

Definition scheme (r : Request) : string :=
  if rq_TLS r then "https"
  else match publicURL with Some u => u_Scheme u | None => "http" end.

Definition peerIsTrusted (r : Request) : bool :=
  if length (trustedProxies cfg) =? 0 then false
  else match ParseIP (ipFromRemoteAddr (rq_RemoteAddr r)) with
       | None => false
       | Some ip => existsb (λ cidr, net_Contains cidr ip) (trustedProxies cfg)
       end.

(** The scheme after the X-Forwarded-Proto header of a trusted peer. *)
Definition forwardedScheme (r : Request) : string :=
  let proto := TrimSpace (rq_XForwardedProto r) in
  if decide (proto = "") then scheme r
  else
    let proto := default proto (BeforeFirst proto ",") in
    let p := ToLower (TrimSpace proto) in
    if decide (p = "http" ∨ p = "https") then p else scheme r.

(** [scheme + "://" + host], or nothing without a host. *)
Definition originOf (sch host : string) : string :=
  if decide (host = "") then "" else sch +:+ "://" +:+ host.

Definition resolveOrigin (r : Request) : string :=
  if peerIsTrusted r then
    let host := TrimSpace (rq_XForwardedHost r) in
    let host := if decide (host = "") then TrimSpace (rq_Host r) else host in
    originOf (forwardedScheme r) host
  else
    let host := publicHost in
    let host := if decide (host = "") then TrimSpace (rq_Host r) else host in
    originOf (scheme r) host.
End origin.

Fixpoint parseProxies_loop (raw : list string) (out : list IPNet) : result (list IPNet) :=
  match raw with
  | [] => Ok out
  | s :: raw' =>
      let s := TrimSpace s in
      if decide (s = "") then parseProxies_loop raw' out
      else match ParseCIDR s with
           | Err e => Err e
           | Ok cidr => parseProxies_loop raw' (out ++ [cidr])
           end
  end.

Definition parseTrustedProxies (raw : list string) : result (list IPNet) :=
  if length raw =? 0 then Ok [] else parseProxies_loop raw [].

(** ** The swagger document *)

(** The [servers] member of a document for an origin. *)
Definition serversOf (origin : string) : json :=
  JArray [JObject [("url", JString (TrimRight origin "/" +:+ "/"))]].

(** A document that is [null] decodes to a nil map, which cannot be written
    to. *)
Definition normalizeSwaggerDocServers (doc origin : string) : outcome (result string) :=
  match Unmarshal doc with
  | Err e => Val (Err e)
  | Ok (JObject spec) =>
      Val (Ok (Marshal (JObject (if decide (origin = "") then spec
                                 else obj_set "servers" (serversOf origin) spec))))
  | Ok JNull => if decide (origin = "") then Val (Ok (Marshal JNull)) else Panic "assignment to entry in nil map"
  | Ok _ => Val (Err errJSON)
  end.

Section swagger.
Context {U : URLParser} {R : RateLib} {W : Type} (cfg : OriginConfig) (ReadDoc : result string).

(** The log line and the response of a document that cannot be served. *)
Definition docUnavailable (msg : string) (err : error) : M (GState W) HttpResponse :=
  body (
    call (slog LevelError msg [("error", Error err)]) ;;;
    call (reject StatusInternalServerError "swagger doc unavailable")).

Definition serveSwaggerDoc : Handler (W:=W) := λ r _,
  body (
    let! doc := or_finish ReadDoc (docUnavailable "load swagger doc failed") in
    let! normalized := catch (λ g, (g, normalizeSwaggerDocServers doc (resolveOrigin cfg r)))
                         (docUnavailable "normalize swagger doc failed") in
    call (setHeader "Content-Type" "application/json") ;;;
    next (mkResponse StatusOK (TextBody normalized))).
End swagger.

(** ** Theorems *)

Section theorems.
Context {U : URLParser} (cfg : OriginConfig).

(** The parts of a request an untrusted peer's headers do not change. *)
Definition same_connection (r r' : Request) : Prop :=
  rq_Host r = rq_Host r' ∧ rq_TLS r = rq_TLS r' ∧ rq_RemoteAddr r = rq_RemoteAddr r'.

Lemma peerIsTrusted_elem r :
  peerIsTrusted cfg r = true ↔
  ∃ ip cidr, ParseIP (ipFromRemoteAddr (rq_RemoteAddr r)) = Some ip ∧ cidr ∈ trustedProxies cfg ∧
             net_Contains cidr ip = true.
Proof.
  unfold peerIsTrusted. destruct (Nat.eqb_spec (length (trustedProxies cfg)) 0) as [H0|_].
  { apply nil_length_inv in H0. rewrite H0. split; [done|]. intros (ip & cidr & _ & Hin & _). by apply not_elem_of_nil in Hin. }
  destruct (ParseIP _) as [ip|]; [|naive_solver]. rewrite existsb_exists. setoid_rewrite <- list_elem_of_In.
  naive_solver.
Qed.

Lemma resolveOrigin_untrusted r :
  peerIsTrusted cfg r = false →
  resolveOrigin cfg r = originOf (scheme cfg r) (if decide (publicHost cfg = "") then TrimSpace (rq_Host r) else publicHost cfg).
Proof. intros Ht. unfold resolveOrigin. by rewrite Ht. Qed.

(** C26. Forwarded headers are honoured only from trusted proxies: when the
    address of the peer is in none of the configured networks (or none is
    configured, or the address does not parse), two requests on the same
    connection that differ in the X-Forwarded headers, the path, the method or
    anything else have the same origin; the host is then the configured public
    one whenever there is one. *)
Theorem untrusted_headers_ignored (r r' : Request) :
  same_connection r r' →
  (∀ ip cidr, ParseIP (ipFromRemoteAddr (rq_RemoteAddr r)) = Some ip → cidr ∈ trustedProxies cfg →
     net_Contains cidr ip = false) →
  resolveOrigin cfg r = resolveOrigin cfg r' ∧
  (publicHost cfg ≠ "" → resolveOrigin cfg r = originOf (scheme cfg r) (publicHost cfg)).
Proof.
  intros (Hh & Ht & Ha) Hno.
  assert (peerIsTrusted cfg r = false) as Hu.
  { apply not_true_iff_false. intros (ip & cidr & Hip & Hin & Hc)%peerIsTrusted_elem.
    by rewrite (Hno ip cidr Hip Hin) in Hc. }
  assert (peerIsTrusted cfg r' = false) as Hu' by (unfold peerIsTrusted in *; by rewrite <- Ha).
  rewrite !resolveOrigin_untrusted by done. unfold scheme. rewrite Hh, Ht. split; [done|].
  intros Hp. by rewrite decide_False.
Qed.
End theorems.

(** ** Trusted networks *)

(** An entry of the configuration that is the IPv4 network [f/n]. *)
Definition v4_entry (s : string) (f : bytes) (n : Z) : Prop :=
  ∃ addr mask a, Cut (TrimSpace s) "/" = Some (addr, mask) ∧ ParseAddr addr = Some a ∧ a_is4 a = true ∧
    a_bytes a = v4InV6Prefix ++ f ∧ dtoi mask = Some n.

Lemma v4_entry_nonempty s f n : v4_entry s f n → TrimSpace s ≠ "".
Proof. intros (addr & mask & a & Hc & _) Hs. by rewrite Hs in Hc. Qed.

Lemma parseProxies_loop_elem raw out nets cidr :
  parseProxies_loop raw out = Ok nets →
  cidr ∈ nets ↔ cidr ∈ out ∨ ∃ s, s ∈ raw ∧ TrimSpace s ≠ "" ∧ ParseCIDR (TrimSpace s) = Ok cidr.
Proof.
  revert out. induction raw as [|s raw IH]; intros out; simpl.
  - intros [= <-]. split; [by left|]. intros [?|(s & Hs%not_elem_of_nil & _)]; done.
  - case_decide as He.
    + intros Hp. rewrite (IH _ Hp). setoid_rewrite elem_of_cons. naive_solver.
    + destruct (ParseCIDR (TrimSpace s)) as [c|e] eqn:Hc; [|done]. intros Hp.
      rewrite (IH _ Hp), elem_of_app, list_elem_of_singleton. setoid_rewrite elem_of_cons. split.
      * intros [[?| ->]|(x & Hx & ? & ?)]; [by left|right; exists s|right; exists x]; auto.
      * intros [?|(x & [->|Hx] & ? & Hpc)]; [by left; left| |right; by exists x].
        left. right. congruence.
Qed.

Lemma parseTrustedProxies_elem raw nets cidr :
  parseTrustedProxies raw = Ok nets →
  cidr ∈ nets ↔ ∃ s, s ∈ raw ∧ TrimSpace s ≠ "" ∧ ParseCIDR (TrimSpace s) = Ok cidr.
Proof.
  unfold parseTrustedProxies. destruct raw as [|s raw]; simpl length.
  - intros [= <-]. split; [by intros ?%not_elem_of_nil|]. by intros (s & Hs%not_elem_of_nil & _).
  - intros Hp%(parseProxies_loop_elem _ _ _ cidr). rewrite Hp. split; [|by right].
    by intros [?%not_elem_of_nil|?].
Qed.

(** With proxies configured as IPv4 networks, a peer with an IPv4 address
    is trusted exactly when its address agrees with one of the configured
    addresses in the leading bits its prefix length says. *)
Theorem trusted_peers_by_prefix (url : string) (raw : list string) (nets : list IPNet) (r : Request)
    (ip ip4 : bytes) :
  parseTrustedProxies raw = Ok nets → (∀ s, s ∈ raw → ∃ f n, v4_entry s f n) →
  ParseIP (ipFromRemoteAddr (rq_RemoteAddr r)) = Some ip → To4 ip = Some ip4 →
  peerIsTrusted (mkOriginConfig url nets) r = true ↔
  ∃ s f n, s ∈ raw ∧ v4_entry s f n ∧ (SetBytes f / 2 ^ (32 - n) = SetBytes ip4 / 2 ^ (32 - n))%Z.
Proof.
  intros Hp Hv4 Hip H4. rewrite peerIsTrusted_elem. cbn [trustedProxies].
  assert (∀ s f n cidr, v4_entry s f n → ParseCIDR (TrimSpace s) = Ok cidr →
            net_Contains cidr ip = bool_decide (SetBytes f / 2 ^ (32 - n) = SetBytes ip4 / 2 ^ (32 - n))%Z) as Hc.
  { intros s f n cidr (addr & mask & a & Hcut & Ha & Hi & Hb & Hd) Hpc.
    eapply net_Contains_v4; eauto. by eapply dtoi_nonneg. }
  split.
  - intros (ip' & cidr & Hip' & Hin & Hcon). rewrite Hip in Hip'. injection Hip' as <-.
    apply (parseTrustedProxies_elem _ _ _ Hp) in Hin as (s & Hs & Hne & Hpc).
    destruct (Hv4 s Hs) as (f & n & Hf). exists s, f, n. rewrite (Hc _ _ _ _ Hf Hpc) in Hcon.
    by apply bool_decide_eq_true in Hcon.
  - intros (s & f & n & Hs & Hf & Heq). pose proof (v4_entry_nonempty _ _ _ Hf) as Hne.
    destruct (ParseCIDR (TrimSpace s)) as [cidr|e] eqn:Hpc.
    + exists ip, cidr. split_and!; [done| |].
      * apply (parseTrustedProxies_elem _ _ _ Hp). by exists s.
      * rewrite (Hc _ _ _ _ Hf Hpc). by apply bool_decide_eq_true.
    + exfalso. unfold parseTrustedProxies in Hp. destruct raw as [|s0 raw]; [by apply not_elem_of_nil in Hs|].
      simpl length in Hp. cbn [Nat.eqb] in Hp. revert Hp. generalize (@nil IPNet).
      clear -Hs Hpc Hne. induction (s0 :: raw) as [|x l IH]; [by apply not_elem_of_nil in Hs|]. intros out. simpl.
      apply elem_of_cons in Hs as [<-|Hs].
      * rewrite decide_False by done. by rewrite Hpc.
      * case_decide; [by apply IH|]. destruct (ParseCIDR (TrimSpace x)); [by apply IH|done].
Qed.

Lemma serversOf_good origin : utf8 (TrimRight origin "/") → good 1 (serversOf origin).
Proof.
  intros Hu. unfold serversOf. apply good_array; [done|]. apply Forall_cons; split; [|constructor].
  apply good_object; [done|]. split; [repeat constructor|]. apply Forall_cons; split; [|constructor].
  split; [repeat (apply utf8_cons; [reflexivity|]); apply utf8_nil|]. split; [|vm_compute; discriminate].
  constructor. apply utf8_app; [done|]. apply utf8_cons; [reflexivity|apply utf8_nil].
Qed.

(** The document with its servers replaced reads back. *)
Lemma normalize_reads_back doc origin spec :
  Unmarshal doc = Ok (JObject spec) → origin ≠ "" → utf8 (TrimRight origin "/") →
  ∃ text, normalizeSwaggerDocServers doc origin = Val (Ok text) ∧
          Unmarshal text = Ok (JObject (obj_set "servers" (serversOf origin) spec)).
Proof.
  intros Hdoc Hne Hu. unfold normalizeSwaggerDocServers. rewrite Hdoc, decide_False by done.
  eexists. split; [done|]. apply Unmarshal_good in Hdoc. apply good_JObject_members in Hdoc.
  destruct (good_object 0 (obj_set "servers" (serversOf origin) spec)) as [Hw Hh]; [done| |by apply Unmarshal_Marshal].
  apply good_set; [repeat (apply utf8_cons; [reflexivity|]); apply utf8_nil|by apply serversOf_good|done].
Qed.

Section served.
Context {U : URLParser} {R : RateLib} {W : Type} (cfg : OriginConfig).

(** The swagger endpoint serves the generated document with [servers]
    naming the resolved origin, with one slash at its end, and every other
    member as it is in the document. *)
Theorem serveSwaggerDoc_servers (doc : string) (spec : list (string * json)) (r : Request) (pv : string)
    (g : GState W) :
  let origin := resolveOrigin cfg r in
  Unmarshal doc = Ok (JObject spec) → origin ≠ "" → utf8 (TrimRight origin "/") →
  ∃ g' text spec', serveSwaggerDoc cfg (Ok doc) r pv g = (g', Val (mkResponse StatusOK (TextBody text))) ∧
    g_headers g' = <["Content-Type" := "application/json"]> (g_headers g) ∧ g_server g' = g_server g ∧
    Unmarshal text = Ok (JObject spec') ∧
    (∀ k v, (k, v) ∈ spec' ↔
       (k = "servers" ∧ v = JArray [JObject [("url", JString (TrimRight origin "/" +:+ "/"))]]) ∨
       (k ≠ "servers" ∧ (k, v) ∈ spec)).
Proof.
  intros origin Hdoc Hne Hu. destruct (normalize_reads_back doc origin spec Hdoc Hne Hu) as (text & Ht & Hr).
  unfold origin in *. eexists _, text, _. unfold serveSwaggerDoc, catch, or_finish, body, bind, call, next. rewrite Ht.
  split; [reflexivity|]. do 2 (split; [reflexivity|]). split; [exact Hr|]. intros k v.
  destruct (decide (k = "servers")) as [->|Hk]; [|rewrite obj_set_lookup by done; naive_solver].
  split; [|intros [[_ ->]|[? _]]; [apply obj_set_has|done]].
  intros Hin. left. split; [done|]. apply Unmarshal_good, good_JObject_members in Hdoc as [Hs _].
  eapply sorted_unique; [|exact Hin|apply obj_set_has]. by apply obj_set_sorted.
Qed.
End served.

(** ** On examples *)

Module OriginChecks.

(** The scheme and the host of [scheme://host/...]. *)
#[local] Instance toy_url : URLParser := {|
  url_Parse s :=
    let parse sch := (λ rest, mkURL sch (default rest (BeforeFirst rest "/"))) <$> CutPrefix s (sch +:+ "://") in
    match parse "https" with Some u => Some u | None => parse "http" end |}.

Definition proxies : list string := [" 10.0.0.0/8"; ""; "192.168.1.0/24"].

Definition nets : list IPNet := match parseTrustedProxies proxies with Ok l => l | Err _ => [] end.

Definition cfg1 : OriginConfig := mkOriginConfig "https://kms.example.com/x" nets.

Definition from (remote host proto fhost : string) : Request :=
  mkRequest "GET" "/swagger/doc.json" host false "" "" proto fhost remote "" (λ _, "") [].

Example origins :
  resolveOrigin cfg1 <$>
    [from "10.1.2.3:99" "inner:8080" "http, https" "front.example.com"; from "10.1.2.3:99" "inner:8080" "ftp" "";
     from "11.1.2.3:99" "evil" "http" "evil"; from "[::ffff:192.168.1.9]:1" " h " "HTTPS" ""; from "nonsense" "" "" "evil"]
  = ["http://front.example.com"; "https://inner:8080"; "https://kms.example.com"; "https://h"; "https://kms.example.com"].
Proof. vm_compute. reflexivity. Qed.

Lemma untrusted_headers_ignored_witness :
  resolveOrigin cfg1 (from "11.1.2.3:99" "a" "http" "evil") = resolveOrigin cfg1 (from "11.1.2.3:99" "a" "" "") ∧
  (publicHost cfg1 ≠ "" →
   resolveOrigin cfg1 (from "11.1.2.3:99" "a" "http" "evil")
   = originOf (scheme cfg1 (from "11.1.2.3:99" "a" "http" "evil")) (publicHost cfg1)).
Proof.
  apply untrusted_headers_ignored; [done|]. intros ip cidr Hip Hin. vm_compute in Hip. injection Hip as <-.
  vm_compute in Hin. repeat (apply elem_of_cons in Hin as [->|Hin]; [vm_compute; reflexivity|]).
  by apply not_elem_of_nil in Hin.
Defined.

Lemma trusted_peers_by_prefix_witness :
  peerIsTrusted (mkOriginConfig "" (match parseTrustedProxies ["10.0.0.0/8"] with Ok l => l | Err _ => [] end))
    (from "10.9.8.7:1" "" "" "") = true ↔
  ∃ s f n, s ∈ ["10.0.0.0/8"] ∧ v4_entry s f n ∧
    (SetBytes f / 2 ^ (32 - n) = SetBytes [Byte.x0a; Byte.x09; Byte.x08; Byte.x07] / 2 ^ (32 - n))%Z.
Proof.
  apply (trusted_peers_by_prefix "" ["10.0.0.0/8"] _ (from "10.9.8.7:1" "" "" "")
           (v4InV6Prefix ++ [Byte.x0a; Byte.x09; Byte.x08; Byte.x07])).
  - vm_compute. reflexivity.
  - intros s ->%list_elem_of_singleton. exists [Byte.x0a; Byte.x00; Byte.x00; Byte.x00], 8%Z.
    exists "10.0.0.0", "8", (mkAddr (v4InV6Prefix ++ [Byte.x0a; Byte.x00; Byte.x00; Byte.x00]) true "").
    split_and!; vm_compute; reflexivity.
  - vm_compute. reflexivity.
  - vm_compute. reflexivity.
Defined.

Definition document : list (string * json) :=
  [("info", JObject [("title", JString "KMS")]); ("openapi", JString "3.0.3"); ("servers", JArray [])].

#[local] Instance no_limits : RateLib := {| Limiter := unit; NewLimiter _ _ := tt; Allow _ l := (l, true) |}.

Definition idle : GState unit :=
  mkGState (mkServerState tt None (mkHealthCache 0 0 (ErrorBody "")) []) (newPrincipalLimiters (f64_of_Z 1) 1 1)
    (newPrincipalLimiters (f64_of_Z 1) 1 1) ∅ "".

Lemma serveSwaggerDoc_servers_witness :
  ∃ g' text spec', serveSwaggerDoc cfg1 (Ok (Marshal (JObject document))) (from "10.1.2.3:9" "in" "" "a/") "" idle
      = (g', Val (mkResponse StatusOK (TextBody text))) ∧
    g_headers g' = <["Content-Type" := "application/json"]> (g_headers idle) ∧ g_server g' = g_server idle ∧
    Unmarshal text = Ok (JObject spec') ∧
    (∀ k v, (k, v) ∈ spec' ↔
       (k = "servers" ∧ v = JArray [JObject [("url", JString (TrimRight (resolveOrigin cfg1 (from "10.1.2.3:9" "in" "" "a/")) "/" +:+ "/"))]]) ∨
       (k ≠ "servers" ∧ (k, v) ∈ document)).
Proof.
  apply (serveSwaggerDoc_servers cfg1 (Marshal (JObject document)) document (from "10.1.2.3:9" "in" "" "a/") "" idle).
  - vm_compute. reflexivity.
  - vm_compute. discriminate.
  - replace (TrimRight _ _) with "https://a" by (vm_compute; reflexivity). repeat (apply utf8_cons; [reflexivity|]). apply utf8_nil.
Defined.
End OriginChecks.
