(* ===== verification/Startup.v ===== *)
(** * Building and running the gateway

    [NewOrFail], [New], [StartLimiterSweeper] and [ListenAndServe] of
    [gateway.go]: from a configuration to the server that [Middleware.routes]
    describes. *)

From Stdlib Require Import SpecFloat.
From S2P Require Import Prelude GoLib Types KeyPath Net Crypto Interfaces VaultClient EvmSigner.
From S2P Require Import CosmosSigner Sha256 Config Limiter Gateway GatewayHandlers Middleware Origin.

Section startup.
Context {R : RateLib} {W : Type}.

(** [*http.Server], without its handler; durations in nanoseconds. *)
Record httpServer := mkHttpServer {
  hs_Addr : string;
  hs_ReadHeaderTimeout : Z;
  hs_ReadTimeout : Z;
  hs_WriteTimeout : Z;
  hs_IdleTimeout : Z }.

(** [*Server]: its mutable state and what its handlers read. *)
Record GatewayServer := mkGatewayServer {
  gs_state : GState W;
  gs_chain : ChainConfig;
  gs_origin : OriginConfig;
  gs_http : httpServer;
  gs_tls : string * string }.

(** The zero [time.Time], in nanoseconds of the Unix clock. *)
Definition zero_time : Z := -62135596800 * second.

(** [NewOrFail]; [nonce] is what [cryptorand.Read] of 32 bytes gives, [vault]
    tells whether a health checker is passed, [sunset] is [sunsetDate]. *)
Definition NewOrFail (nonce : result bytes) (sunset : string) (cfg : Config) (vault : bool) (w : W)
    : result GatewayServer :=
  let addr := if decide (Gateway_Addr cfg = "") then "127.0.0.1:8080" else Gateway_Addr cfg in
  let rl := if f64_nonpos (RateLimit cfg) then f64_of_Z 100 else RateLimit cfg in
  let burst := if (RateBurst cfg <=? 0)%Z then 20%Z else RateBurst cfg in
  let healthRate := if f64_nonpos (HealthRateLimit cfg) then f64_of_Z 10 else HealthRateLimit cfg in
  let healthBurst := if (HealthRateBurst cfg <=? 0)%Z then 5%Z else HealthRateBurst cfg in
  match nonce with
  | Err e => Err e
  | Ok nonce =>
      match parseTrustedProxies (TrustedProxies cfg) with
      | Err e => Err e
      | Ok trusted =>
          Ok {| gs_state := mkGState
                  (mkServerState w (Some (newChainsCache (ChainsCacheTTL cfg)))
                     (mkHealthCache zero_time 0 (TextBody "")) [])
                  (newPrincipalLimiters rl burst 10000) (newPrincipalLimiters healthRate healthBurst 10000) ∅ "";
                gs_chain := mkChainConfig (mkAuthConfig nonce (Gateway_Token cfg)) sunset vault
                              (SwaggerEnabled cfg) (SwaggerAuth cfg);
                gs_origin := mkOriginConfig (PublicURL cfg) trusted;
                gs_http := mkHttpServer addr (5 * second) (15 * second) (30 * second) (60 * second);
                gs_tls := (TLSCertFile cfg, TLSKeyFile cfg) |}
      end
  end.

(** [New]: an error becomes a panic. *)
Definition New (nonce : result bytes) (sunset : string) (cfg : Config) (vault : bool) (w : W)
    : outcome GatewayServer :=
  match NewOrFail nonce sunset cfg vault w with
  | Ok s => Val s
  | Err e => Panic (Error e)
  end.

(** One tick of the sweeper, at the instant [now]. *)
Definition sweeper_tick (now : Z) (g : GState W) : GState W :=
  let cutoff := (now - 5 * 60 * second)%Z in
  mkGState (g_server g) (sweep cutoff (principals g)).1 (sweep cutoff (healthLimiters g)).1
    (g_headers g) (g_requestID g).

(** The goroutine: the instants of its ticks, until the context is done. *)
Definition limiterSweeper (ticks : list Z) (g : GState W) : GState W :=
  fold_left (λ g now, sweeper_tick now g) ticks g.

(** How the listener ended: an error, and whether it is [http.ErrServerClosed]. *)
Record listen_error := mkListenError { le_err : error; le_closed : bool }.

(** The listener as [net/http] provides it. *)
Record listener := mkListener {
  l_ListenAndServe : option listen_error;
  l_ListenAndServeTLS : string → string → option listen_error;
  l_Shutdown : option error }.

(** Which of the two channels is ready first. *)
Inductive select_ready := ListenerEnded | SignalReceived.

Definition ListenAndServe (l : listener) (ready : select_ready) (s : GatewayServer) : result unit :=
  let of_err e := match e with Some e => Err e | None => Ok tt end in
  match ready with
  | SignalReceived => of_err (l_Shutdown l)
  | ListenerEnded =>
      let '(cert, key) := gs_tls s in
      let err := if negb (bool_decide (cert = "")) && negb (bool_decide (key = ""))
                 then l_ListenAndServeTLS l cert key else l_ListenAndServe l in
      match err with
      | Some e => if le_closed e then Ok tt else Err (le_err e)
      | None => Ok tt
      end
  end.

(** ** Theorems *)

Definition limiters_sane (p : principalLimiters) : Prop :=
  pl_m p = ∅ ∧ f64_nonpos (pl_rate p) = false ∧ (0 < pl_burst p)%Z ∧ pl_cap p = 10000%Z.

Lemma default_rate (f : spec_float) (z : Z) :
  f64_nonpos (f64_of_Z z) = false → f64_nonpos (if f64_nonpos f then f64_of_Z z else f) = false.
Proof. intros Hz. by destruct (f64_nonpos f) eqn:?. Qed.

(** A gateway that could be built is ready to defend itself whatever the
    configured numbers are (zero, negative or missing values included): both
    limiters have a positive rate and burst and the capacity 10000, allow-lists
    expire after a positive time, the bearer token is the configured one with
    the fresh nonce, the listener has its timeouts and an address, every
    configured proxy was parsed, and a bad proxy entry or a failed random read
    is an error. *)
Theorem NewOrFail_sane (nonce : result bytes) (sunset : string) (cfg : Config) (vault : bool) (w : W) :
  match NewOrFail nonce sunset cfg vault w with
  | Ok s =>
      limiters_sane (principals (gs_state s)) ∧ limiters_sane (healthLimiters (gs_state s)) ∧
      (∃ c, chains (g_server (gs_state s)) = Some c ∧ (0 < cc_ttl c)%Z ∧ cc_entries c = ∅) ∧
      nonce = Ok (serverNonce (cfg_auth (gs_chain s))) ∧ gw_Token (cfg_auth (gs_chain s)) = Gateway_Token cfg ∧
      hs_Addr (gs_http s) ≠ "" ∧ (0 < hs_ReadHeaderTimeout (gs_http s))%Z ∧ (0 < hs_ReadTimeout (gs_http s))%Z ∧
      parseTrustedProxies (TrustedProxies cfg) = Ok (trustedProxies (gs_origin s)) ∧
      (∀ now, health_get (healthResp (g_server (gs_state s))) now = None ∨ (now < zero_time)%Z)
  | Err e => nonce = Err e ∨ parseTrustedProxies (TrustedProxies cfg) = Err e
  end.
Proof.
  unfold NewOrFail. destruct nonce as [nonce|e]; [|by left].
  destruct (parseTrustedProxies (TrustedProxies cfg)) as [nets|e]; [|by right].
  cbn [gs_state gs_chain gs_origin gs_http principals healthLimiters g_server chains cfg_auth serverNonce gw_Token
       hs_Addr hs_ReadHeaderTimeout hs_ReadTimeout trustedProxies healthResp].
  assert (∀ f z b d, (0 < d)%Z → f64_nonpos (f64_of_Z z) = false →
    limiters_sane (newPrincipalLimiters (if f64_nonpos f then f64_of_Z z else f) (if (b <=? 0)%Z then d else b) 10000)) as Hl.
  { intros f z b d Hd Hz. split_and!; [done|by apply default_rate| |done]. cbn. destruct (Z.leb_spec b 0); lia. }
  split_and!; try done; try (apply Hl; [lia|vm_compute; reflexivity]).
  - eexists. split; [done|]. split; [|done]. unfold newChainsCache. cbn.
    destruct (Z.leb_spec (ChainsCacheTTL cfg) 0); unfold second; lia.
  - by case_decide.
  - intros now. unfold health_get. cbn. destruct (Z.ltb_spec now zero_time); [by right|by left].
Qed.
End startup.
