(* ===== verification/Cli.v ===== *)
(** * The command line: [cmd/kms-wrapper/root.go]

    The commands of the program, from their flags to what they print and
    return, over the configuration, the Vault client, the signers and the
    gateway.  [cobra], which parses the flags, is outside: a command takes the
    values of its flags.  The process is the state [Proc]. *)

From Stdlib Require Import SpecFloat.
From S2P Require Import Prelude GoLib Types KeyPath Net Crypto Interfaces VaultClient EvmSigner.
From S2P Require Import CosmosSigner Sha256 Float64 Json Amino HttpJson Config Limiter Gateway GatewayHandlers.
From S2P Require Import Middleware Origin Startup.

(** ** Paths *)

(** [filepath.Clean] and [filepath.Join] on Unix. *)
Definition clean_step (rooted : bool) (out : list string) (seg : string) : list string :=
  if decide (seg = "" ∨ seg = ".") then out
  else if decide (seg = "..") then
    match last out with
    | Some l => if decide (l = "..") then out ++ [".."] else removelast out
    | None => if rooted then [] else [".."]
    end
  else out ++ [seg].

Definition Clean (path : string) : string :=
  if decide (path = "") then "."
  else
    let rooted := HasPrefix path "/" in
    let out := fold_left (clean_step rooted) (Split path "/") [] in
    if rooted then "/" +:+ Join out "/"
    else if decide (out = []) then "." else Join out "/".

(** The first non-empty element starts the path. *)
Fixpoint filepath_Join (elems : list string) : string :=
  match elems with
  | [] => ""
  | e :: elems' => if decide (e = "") then filepath_Join elems' else Clean (Join elems "/")
  end.

Definition UserHomeDir (env : Env) : result string :=
  if decide (Getenv env "HOME" = "") then Err (errors_New "$HOME is not defined") else Ok (Getenv env "HOME").

Definition expandHome (env : Env) (path : string) : string :=
  if bool_decide (path = "") || negb (HasPrefix path "~/") then path
  else match UserHomeDir env with
       | Err _ => path
       | Ok home => filepath_Join [home; TrimPrefix path "~/"]
       end.

(** ** Guards *)

Definition weakVaultTokens : gset string := {[ ""; "root"; "dev"; "dev-token"; "change-me" ]}.

Definition weakGatewayTokens : gset string := {[ ""; "change-me"; "dev"; "dev-token"; "password" ]}.

(** A guard writes a warning (or nothing) and returns. *)
Definition guardWeakVaultToken (env : Env) (token : string) : string * result unit :=
  if decide (token ∉ weakVaultTokens) then ("", Ok tt)
  else if decide (token = "") then ("", Ok tt)
  else if decide (Getenv env "KMS_DEV" ≠ "true")
  then ("", Err (errors_New "refusing to start with weak vault token; set KMS_DEV=true for local dev"))
  else ("warn: running with weak vault token (KMS_DEV=true)" +:+ newline, Ok tt).

Definition guardWeakGatewayToken (env : Env) (token : string) : string * result unit :=
  if decide (token ∉ weakGatewayTokens) then ("", Ok tt)
  else if decide (token = "") then ("", Ok tt)
  else if decide (Getenv env "KMS_DEV" ≠ "true")
  then ("", Err (errors_New "refusing to start with weak gateway token; set KMS_DEV=true for local dev"))
  else ("warn: running with weak gateway token (KMS_DEV=true)" +:+ newline, Ok tt).

Definition guardSwaggerNonLoopback (Quote : string → string) (env : Env) (cfg : Config) : string * result unit :=
  if SwaggerAuth cfg then ("", Ok tt)
  else match SplitHostPort (Gateway_Addr cfg) with
  | Err e => ("", Err (Errorf_w ("parse gateway addr " +:+ Quote (Gateway_Addr cfg) +:+ ": ") e ""))
  | Ok (host, _) =>
      if match ParseIP host with Some ip => IsLoopback ip | None => false end then ("", Ok tt)
      else if decide (host = "localhost") then ("", Ok tt)
      else if decide (Getenv env "KMS_DEV" ≠ "true")
      then ("", Err (errors_New "refusing to expose unauthenticated swagger on non-loopback address; set KMS_DEV=true for local dev"))
      else ("warn: running with unauthenticated swagger on non-loopback (KMS_DEV=true)" +:+ newline, Ok tt)
  end.

Definition swaggerUIURL (cfg : Config) : string :=
  let raw := TrimSpace (PublicURL cfg) in
  if decide (raw ≠ "") then TrimRight raw "/" +:+ "/swagger/index.html"
  else
    let addr := if decide (Gateway_Addr cfg = "") then "127.0.0.1:8080" else Gateway_Addr cfg in
    "http://" +:+ addr +:+ "/swagger/index.html".

(** [slog.Level] *)
Inductive Level := LevelDebug | LevelInfo | LevelWarn | LevelError.

Definition logLevelOf (level : string) : Level :=
  if decide (level = "debug") then LevelDebug
  else if decide (level = "warn") then LevelWarn
  else if decide (level = "error") then LevelError
  else LevelInfo.

(** ** The process *)

Record cliState := mkCliState { configPath : string; cli_logLevel : string; cli_cfg : Config }.

(** The persistent flags with their defaults. *)
Definition NewRootCommand (env : Env) : cliState :=
  let home := match UserHomeDir env with Ok h => h | Err _ => "" end in
  mkCliState (filepath_Join [home; ".kms-wrapper"; "config.yaml"]) "info" zero_Config.

(** What a command has done: its output, its client, the logger it
    installed, whether it renews the token and sweeps the limiters, the gateway it
    listens with. *)
Record Proc {R : RateLib} (W : Type) := mkProc {
  p_st : cliState;
  p_stdout : string;
  p_stderr : string;
  p_client : option (Client W);
  p_logger : option Level;
  p_renewing : bool;
  p_log : list string;
  p_sweeping : bool;
  p_gateway : option (GatewayServer (W:=Client W)) }.
Arguments mkProc {R W} _ _ _ _ _ _ _ _ _.
Arguments p_sweeping {R W} _.
Arguments p_st {R W} _.
Arguments p_stdout {R W} _.
Arguments p_stderr {R W} _.
Arguments p_client {R W} _.
Arguments p_logger {R W} _.
Arguments p_renewing {R W} _.
Arguments p_log {R W} _.
Arguments p_gateway {R W} _.

Section cli.
Context {R : RateLib} {V : ViperLib} {C : EthCrypto} {TX : EthTx} {L : CosmosLib} {W : Type} {A : VaultAPI W}.
Context (Quote : string → string) (env : Env).
Context (open : string → string → result W).

Abbreviation PM := (M (Proc W)).

Definition initial : Proc W := mkProc (NewRootCommand env) "" "" None None false [] false None.

(** [fmt.Fprint(cmd.OutOrStdout(), s)] and [cmd.ErrOrStderr()] *)
Definition print (s : string) : PM unit := λ p,
  (mkProc (p_st p) (p_stdout p +:+ s) (p_stderr p) (p_client p) (p_logger p) (p_renewing p) (p_log p) (p_sweeping p) (p_gateway p), Val tt).

Definition warn (s : string) : PM unit := λ p,
  (mkProc (p_st p) (p_stdout p) (p_stderr p +:+ s) (p_client p) (p_logger p) (p_renewing p) (p_log p) (p_sweeping p) (p_gateway p), Val tt).

Definition set_cfg (cfg : Config) : PM unit := λ p,
  (mkProc (mkCliState (configPath (p_st p)) (cli_logLevel (p_st p)) cfg) (p_stdout p) (p_stderr p) (p_client p)
     (p_logger p) (p_renewing p) (p_log p) (p_sweeping p) (p_gateway p), Val tt).

Definition set_client (c : Client W) : PM unit := λ p,
  (mkProc (p_st p) (p_stdout p) (p_stderr p) (Some c) (p_logger p) (p_renewing p) (p_log p) (p_sweeping p) (p_gateway p), Val tt).

Definition initLogger (level : string) : PM unit := λ p,
  (mkProc (p_st p) (p_stdout p) (p_stderr p) (p_client p) (Some (logLevelOf level)) (p_renewing p) (p_log p)
     (p_sweeping p) (p_gateway p), Val tt).

Definition startRenewal : PM unit := λ p,
  (mkProc (p_st p) (p_stdout p) (p_stderr p) (p_client p) (p_logger p) true (p_log p) (p_sweeping p) (p_gateway p), Val tt).

Definition StartLimiterSweeper : PM unit := λ p,
  (mkProc (p_st p) (p_stdout p) (p_stderr p) (p_client p) (p_logger p) (p_renewing p) (p_log p) true (p_gateway p), Val tt).

Definition slog_Info (line : string) : PM unit := λ p,
  (mkProc (p_st p) (p_stdout p) (p_stderr p) (p_client p) (p_logger p) (p_renewing p) (p_log p ++ [line])
     (p_sweeping p) (p_gateway p), Val tt).

Definition set_gateway (g : GatewayServer) : PM unit := λ p,
  (mkProc (p_st p) (p_stdout p) (p_stderr p) (p_client p) (p_logger p) (p_renewing p) (p_log p) (p_sweeping p) (Some g), Val tt).

(** A method of the client. *)
Definition on_client {X} (m : M (Client W) X) : PM X := λ p,
  match p_client p with
  | None => (p, Panic "nil client")
  | Some c =>
      let '(c', o) := m c in
      (mkProc (p_st p) (p_stdout p) (p_stderr p) (Some c') (p_logger p) (p_renewing p) (p_log p) (p_sweeping p) (p_gateway p), o)
  end.

(** [if err := guard(...); err != nil { return err }] with the warning it
    writes. *)
Definition guarded {X} (g : string * result unit) : Prog (Proc W) (result X) unit :=
  call (warn g.1) ;;; check g.2 Err ;;; next tt.

(** ** Loading *)

Definition load : PM (result unit) :=
  body (
    let! p := get in
    let '(warnings, loaded) := Load Quote env (expandHome env (configPath (p_st p))) in
    call (warn (String.concat "" (map (λ w, w +:+ newline) warnings))) ;;;
    let! cfg := check loaded Err in
    let cfg := if decide (cli_logLevel (p_st p) ≠ "") then set_LogLevel cfg (cli_logLevel (p_st p)) else cfg in
    call (set_cfg cfg) ;;;
    check (ValidateRuntime cfg) Err ;;;
    guarded (guardWeakVaultToken env (Vault_Token cfg)) ;;;
    next (Ok tt)).

Definition client : PM (result unit) :=
  body (
    try_ load Err ;;;
    let! p := get in
    let cfg := cli_cfg (p_st p) in
    let! c := check (NewClient open (Vault_Addr cfg) (TokenAuthProvider (Vault_Token cfg))) Err in
    call (set_client c) ;;;
    next (Ok tt)).

(** ** Keys *)

Definition printKeyInfo (path : string) : PM (result unit) :=
  body (
    let! rawChains := try_ (on_client (GetKeyChains path)) Err in
    let! chains := (if 0 <? length rawChains then check (ParseChains rawChains) Err else next []) in
    let! info := try_ (on_client (For path DefaultHRP chains))
      (λ err, if errors_Is err ErrNotFound then Err (errors_New ("key not found: " +:+ path)) else Err err) in
    call (print (Encode (KeyInfo_text info))) ;;;
    next (Ok tt)).

Definition missingFlag {X} (name : string) : result X := Err (errors_New ("required flag missing: " +:+ name)).

Definition keysCreate (path chainsRaw : string) : PM (result unit) :=
  body (
    guard (bool_decide (path = "")) (missingFlag "path") ;;;
    guard (bool_decide (chainsRaw = "")) (missingFlag "chains") ;;;
    try_ client Err ;;;
    let! chains := check (ParseChains (Split chainsRaw ",")) Err in
    try_ (on_client (CreateKey path chains)) Err ;;;
    call (printKeyInfo path)).

Definition keysUpdateChains (path addRaw : string) : PM (result unit) :=
  body (
    guard (bool_decide (path = "")) (missingFlag "path") ;;;
    guard (bool_decide (addRaw = "")) (missingFlag "add") ;;;
    try_ client Err ;;;
    let! addChains := check (ParseChains (Split addRaw ",")) Err in
    let! chains := try_ (on_client (UpdateKeyChains path addChains)) Err in
    call (print (Encode (strings_text chains))) ;;;
    next (Ok tt)).

Definition keysShow (path : string) : PM (result unit) :=
  body (
    guard (bool_decide (path = "")) (missingFlag "path") ;;;
    try_ client Err ;;;
    call (printKeyInfo path)).

Definition keysList (prefix : string) : PM (result unit) :=
  body (
    try_ client Err ;;;
    let! ks := try_ (on_client (ListKeys prefix)) Err in
    call (print (String.concat "" (map (λ k, k +:+ newline) ks))) ;;;
    next (Ok tt)).

(** ** Signing *)

Definition signEVMCmd (path rawTx : string) (chainID : Z) : PM (result unit) :=
  body (
    guard (bool_decide (path = "")) (missingFlag "path") ;;;
    guard (bool_decide (rawTx = "")) (missingFlag "raw-tx") ;;;
    try_ client Err ;;;
    let! raw := check (hex_result (TrimPrefix rawTx "0x")) Err in
    let! out := try_ (on_client (SignRawTx path (Some chainID) raw)) Err in
    call (print ("0x" +:+ hex_EncodeToString out +:+ newline)) ;;;
    next (Ok tt)).

(** The switch over the mode. *)
Definition cliCosmosModes (path mode signDoc : string) : Prog (Proc W) (result unit) (result (bytes * bytes)) :=
  if decide (mode = "DIRECT") then
    let! doc := check (b64_DecodeString StdEncoding signDoc) (λ e, Err (Errorf_w "decode sign-doc: " e "")) in
    call (on_client (SignDirect path doc))
  else if decide (mode = "AMINO_JSON") then
    call (on_client (SignAmino path (bytes_of_string signDoc)))
  else return_ (Err (errors_New "unsupported sign_mode")).

Definition signCosmosCmd (path hrp mode signDoc : string) : PM (result unit) :=
  body (
    guard (bool_decide (path = "")) (missingFlag "path") ;;;
    try_ client Err ;;;
    let! r := cliCosmosModes path mode signDoc in
    let! (sig, pub) := check r (λ e, Err (Errorf_w "sign cosmos: " e "")) in
    call (print ("signature: " +:+ b64_Encode StdEncoding sig +:+ newline +:+
                 "pub_key: " +:+ b64_Encode StdEncoding pub +:+ newline)) ;;;
    match DeriveCosmosAddressFromCompressed pub hrp with
    | Ok addr => call (print ("cosmos_address: " +:+ addr +:+ newline))
    | Err _ => next tt
    end ;;;
    next (Ok tt)).

(** ** The commands that answer with data *)

(** A command line of the [keys] and [sign] groups. *)
Inductive command :=
  | CmdKeysCreate (path chains : string)
  | CmdKeysUpdateChains (path add : string)
  | CmdKeysShow (path : string)
  | CmdKeysList (prefix : string)
  | CmdSignEVM (path rawTx : string) (chainID : Z)
  | CmdSignCosmos (path hrp mode signDoc : string).

Definition run_command (cmd : command) : PM (result unit) :=
  match cmd with
  | CmdKeysCreate path chains => keysCreate path chains
  | CmdKeysUpdateChains path add => keysUpdateChains path add
  | CmdKeysShow path => keysShow path
  | CmdKeysList prefix => keysList prefix
  | CmdSignEVM path rawTx chainID => signEVMCmd path rawTx chainID
  | CmdSignCosmos path hrp mode signDoc => signCosmosCmd path hrp mode signDoc
  end.

(** ** Health *)

Definition healthCmd : PM (result unit) :=
  body (
    let! r := call load in
    match r with
    | Err err =>
        call (print ("Config: INVALID (" +:+ Error err +:+ ")" +:+ newline)) ;;;
        return_ (Err (Errorf_w "config error: " err ""))
    | Ok _ => next tt
    end ;;;
    let! p := get in
    let cfg := cli_cfg (p_st p) in
    let unreachable := "Vault: UNREACHABLE (" +:+ Vault_Addr cfg +:+ ")" +:+ newline in
    match NewClient open (Vault_Addr cfg) (TokenAuthProvider (Vault_Token cfg)) with
    | Err err => call (print unreachable) ;;; return_ (Err err)
    | Ok c =>
        call (set_client c) ;;;
        let! h := call (on_client Health) in
        match h with
        | Err _ => call (print unreachable) ;;; return_ (Err (errors_New "vault unreachable"))
        | Ok _ => next tt
        end
    end ;;;
    call (print ("Vault: OK (" +:+ Vault_Addr cfg +:+ ")" +:+ newline)) ;;;
    next (Ok tt)).

(** ** Serving *)

(** [SetRenewalFailureHook] and [SetVaultCallObserver] with the hooks of
    [metrics.go]. *)
Definition SetVaultCallObserver : M (Client W) unit := λ c,
  (mkClient (api c) (pubkeyCache c) (lastLookupNs c) (renewalFailures c) (Some []), Val tt).

Context (nonce : result bytes) (sunset : string) (lst : listener) (ready : select_ready).

Definition serveCmd : PM (result unit) :=
  body (
    try_ client Err ;;;
    let! p := get in
    let cfg := cli_cfg (p_st p) in
    guarded (guardWeakGatewayToken env (Gateway_Token cfg)) ;;;
    guarded (guardSwaggerNonLoopback Quote env cfg) ;;;
    call (initLogger (LogLevel cfg)) ;;;
    call (on_client SetVaultCallObserver) ;;;
    call startRenewal ;;;
    call (slog_Info ("starting gateway addr=" +:+ Gateway_Addr cfg)) ;;;
    let! c := call (on_client (λ c, (c, Val c))) in
    let! s := check (NewOrFail nonce sunset cfg true c) (λ e, Err (Errorf_w "init gateway: " e "")) in
    call StartLimiterSweeper ;;;
    (if SwaggerEnabled cfg then call (slog_Info ("swagger UI url=" +:+ swaggerUIURL cfg)) else next tt) ;;;
    call (set_gateway s) ;;;
    next (ListenAndServe lst ready s)).
End cli.

(** [main]: the exit status of the process. *)
Definition main_exit (o : outcome (result unit)) : Z :=
  match o with
  | Val (Ok _) => 0
  | Val (Err _) => 1
  | Panic _ => 2
  end.
