(* ===== verification/CliTheorems.v ===== *)
(** * Theorems about the command line

    The gateway is only started behind the guards; a command that fails prints
    no result, and a result it prints is the signer's or the store's answer. *)

From Stdlib Require Import SpecFloat.
From S2P Require Import Prelude GoLib Types KeyPath Net Crypto Interfaces VaultClient EvmSigner.
From S2P Require Import CosmosSigner Sha256 Float64 Json Amino HttpJson Config Limiter Gateway GatewayHandlers.
From S2P Require Import Middleware Origin Startup Cli Plugin KeyManager PluginModel PluginProps Mount.
From S2P Require Import SignerTheorems EndToEnd EndToEndTheorems GatewayListing.

Lemma mwp_eval {St X} (m : M St X) p p' o Q : m p = (p', o) → Q p' o → mwp m Q p.
Proof. intros Hm HQ. unfold mwp. by rewrite Hm. Qed.

(** An assignment to the state of the process. *)
Ltac run :=
  lazymatch goal with
  | |- mwp (on_client _) _ _ => fail
  | |- mwp _ _ _ => eapply mwp_eval; [reflexivity|]; cbv beta iota zeta
  end.

Section cli.
Context {R : RateLib} {V : ViperLib} {C : EthCrypto} {TX : EthTx} {L : CosmosLib} {W : Type} {A : VaultAPI W}.
Context (Quote : string → string) (env : Env) (open : string → string → result W).

Abbreviation dev := (Getenv env "KMS_DEV" = "true").

(** ** Guards *)

Lemma guardWeakVaultToken_Ok token :
  (guardWeakVaultToken env token).2 = Ok tt → token ≠ "" → (token ∉ weakVaultTokens) ∨ dev.
Proof. unfold guardWeakVaultToken. repeat case_decide; naive_solver. Qed.

Lemma guardWeakGatewayToken_Ok token :
  (guardWeakGatewayToken env token).2 = Ok tt → token ≠ "" → (token ∉ weakGatewayTokens) ∨ dev.
Proof. unfold guardWeakGatewayToken. repeat case_decide; naive_solver. Qed.

(** The address is a loopback one. *)
Definition loopback (addr : string) : Prop :=
  ∃ host port, SplitHostPort addr = Ok (host, port) ∧
    (host = "localhost" ∨ ∃ ip, ParseIP host = Some ip ∧ IsLoopback ip = true).

Lemma guardSwaggerNonLoopback_Ok cfg :
  (guardSwaggerNonLoopback Quote env cfg).2 = Ok tt →
  SwaggerAuth cfg = true ∨ loopback (Gateway_Addr cfg) ∨ dev.
Proof.
  unfold guardSwaggerNonLoopback. destruct (SwaggerAuth cfg); [by left|]. intros Hg. right.
  destruct (SplitHostPort (Gateway_Addr cfg)) as [[host port]|e] eqn:Hs; [|done].
  destruct (ParseIP host) as [ip|] eqn:Hip; [destruct (IsLoopback ip) eqn:Hl|].
  - left. exists host, port. split; [done|]. right. by exists ip.
  - repeat case_decide; try done; [left; exists host, port; auto|right; naive_solver].
  - repeat case_decide; try done; [left; exists host, port; auto|right; naive_solver].
Qed.

(** ** Loading *)

(** What a loaded configuration has passed. *)
Definition config_ok (cfg : Config) : Prop :=
  Vault_Addr cfg ≠ "" ∧ Vault_Token cfg ≠ "" ∧ Gateway_Token cfg ≠ "" ∧
  ((Vault_Token cfg ∉ weakVaultTokens) ∨ dev).

(** Nothing was printed, no gateway started. *)
Definition quiet (p p' : Proc W) : Prop :=
  p_stdout p' = p_stdout p ∧ p_gateway p' = p_gateway p ∧
  configPath (p_st p') = configPath (p_st p) ∧ cli_logLevel (p_st p') = cli_logLevel (p_st p).

Lemma load_spec p :
  mwp (load Quote env)
    (λ p' o, ∃ r, o = Val r ∧ quiet p p' ∧
       (r = Ok tt → config_ok (cli_cfg (p_st p')) ∧
          (cli_logLevel (p_st p) ≠ "" → LogLevel (cli_cfg (p_st p')) = cli_logLevel (p_st p)))) p.
Proof.
  unfold load, guarded. repeat first [wp_step|run].
  all: try (by eexists; split; [reflexivity|]; split; [by split_and!|]).
  all: eexists; split; [reflexivity|]; split; [by split_and!|]; intros _; simpl.
  all: split; [|intros Hl; by rewrite decide_True].
  all: match goal with Hv : ValidateRuntime _ = Ok _ |- _ => apply ValidateRuntime_Ok in Hv as (? & ? & ?) end.
  all: split_and!; [done..|]. by apply guardWeakVaultToken_Ok.
Qed.

(** The client a command works with. *)
Definition has_client (p : Proc W) (c : Client W) : Prop :=
  p_client p = Some c ∧ config_ok (cli_cfg (p_st p)) ∧
  NewClient open (Vault_Addr (cli_cfg (p_st p))) (TokenAuthProvider (Vault_Token (cli_cfg (p_st p)))) = Ok c.

Lemma mwp_load p Q :
  (∀ p' e, quiet p p' → Q p' (Val (Err e))) →
  (∀ p', quiet p p' → config_ok (cli_cfg (p_st p')) → Q p' (Val (Ok tt))) →
  mwp (load Quote env) Q p.
Proof.
  intros He Ho. eapply mwp_mono; [apply load_spec|]. intros p' o (r & -> & Hq & Hok).
  destruct r as [[]|e]; [apply Ho; [done|by apply Hok]|by apply He].
Qed.

Lemma mwp_client p Q :
  (∀ p' e, quiet p p' → Q p' (Val (Err e))) →
  (∀ p' c, quiet p p' → has_client p' c → Q p' (Val (Ok tt))) →
  mwp (client Quote env open) Q p.
Proof.
  intros He Ho. unfold client. repeat wp_step. apply mwp_load; [by intros; apply He|].
  intros p' Hq Hok. repeat first [wp_step|run]; [|by apply He]. by eapply Ho.
Qed.

Lemma mwp_on_client {X} (m : M (Client W) X) p c Q :
  p_client p = Some c →
  (∀ c' o p', m c = (c', o) → quiet p p' → p_client p' = Some c' → p_st p' = p_st p → Q p' o) →
  mwp (on_client m) Q p.
Proof.
  intros Hc HQ. unfold mwp, on_client. rewrite Hc. destruct (m c) as [c' o] eqn:Hm. by eapply HQ.
Qed.

Lemma quiet_trans p p' p'' : quiet p p' → quiet p' p'' → quiet p p''.
Proof. unfold quiet. intros (? & ? & ? & ?) (? & ? & ? & ?). split_and!; congruence. Qed.

(** ** Commands that answer with data *)

(** A run from [p] that failed printed nothing, and none started a gateway. *)
Definition silent_failure (p p' : Proc W) (o : outcome (result unit)) : Prop :=
  p_gateway p' = p_gateway p ∧ (o = Val (Ok tt) ∨ p_stdout p' = p_stdout p).

Lemma quiet_silent p p' o : quiet p p' → silent_failure p p' o.
Proof. intros (? & ? & _). split; auto. Qed.

(** A step of a command that prints last: its client calls are quiet. *)
Ltac quiet_steps :=
  repeat first
    [ wp_step
    | apply mwp_client; [intros ? ? ?|intros ? ? ? (? & _)]
    | lazymatch goal with H : p_client ?q = Some ?c |- mwp (on_client _) _ ?q =>
        eapply (mwp_on_client _ q c); [exact H|]; intros ? [[]|] ? _ ? ? _ end
    | run ].

Ltac quiet_done :=
  first [ by apply quiet_silent
        | apply quiet_silent; repeat (eapply quiet_trans; [eassumption|]); by split_and!
        | split; [simpl; unfold quiet in *; intuition congruence|by left] ].

Lemma printKeyInfo_silent p p1 c path :
  quiet p p1 → p_client p1 = Some c → mwp (printKeyInfo path) (silent_failure p) p1.
Proof. intros Hq Hc. unfold printKeyInfo. quiet_steps; quiet_done. Qed.

(** C30. A [keys] or [sign] command that does not succeed prints nothing on
    standard output, whether it fails on its flags, its configuration, Vault,
    the signer or in a panic, and its exit status is not 0: what a caller reads
    from standard output is never part of a failed answer. *)
Theorem failed_commands_print_nothing (cmd : command) (p p' : Proc W) (o : outcome (result unit)) :
  run_command Quote env open cmd p = (p', o) →
  p_gateway p' = p_gateway p ∧ (p_stdout p' ≠ p_stdout p → main_exit o = 0%Z).
Proof.
  intros Hrun. assert (silent_failure p p' o) as [Hg Ho]; [|by split; [|destruct Ho as [->|]]].
  refine (mwp_run _ (silent_failure p) _ _ _ _ Hrun). clear.
  destruct cmd; simpl; unfold keysCreate, keysUpdateChains, keysShow, keysList, signEVMCmd, signCosmosCmd, cliCosmosModes.
  all: quiet_steps; try quiet_done.
  all: eapply mwp_mono; [eapply (printKeyInfo_silent p); eauto using quiet_trans|intros ? [] Hs; exact Hs].
Qed.

(** ** Serving *)

Context (nonce : result bytes) (sunset : string) (lst : listener) (ready : select_ready).

(** The state of a process that listens with [g]. *)
Definition started_safely (g : GatewayServer (W:=Client W)) (p' : Proc W) (o : outcome (result unit)) : Prop :=
  let cfg := cli_cfg (p_st p') in
  Vault_Addr cfg ≠ "" ∧ Vault_Token cfg ≠ "" ∧ Gateway_Token cfg ≠ "" ∧
  ((Vault_Token cfg ∉ weakVaultTokens) ∨ dev) ∧ ((Gateway_Token cfg ∉ weakGatewayTokens) ∨ dev) ∧
  (SwaggerAuth cfg = true ∨ loopback (Gateway_Addr cfg) ∨ dev) ∧
  gw_Token (cfg_auth (gs_chain g)) = Gateway_Token cfg ∧ cfg_swagger_auth (gs_chain g) = SwaggerAuth cfg ∧
  p_renewing p' = true ∧ p_sweeping p' = true ∧ o = Val (ListenAndServe lst ready g).

Lemma NewOrFail_chain cfg vault (c : Client W) g :
  NewOrFail nonce sunset cfg vault c = Ok g →
  gw_Token (cfg_auth (gs_chain g)) = Gateway_Token cfg ∧ cfg_swagger_auth (gs_chain g) = SwaggerAuth cfg.
Proof.
  unfold NewOrFail. destruct nonce; [|done]. destruct (parseTrustedProxies _); [|done]. by intros [= <-].
Qed.

(** The commands after the guards keep the configuration. *)
Lemma mwp_on_client_keeps {X} (m : M (Client W) X) p c Q :
  p_client p = Some c →
  (∀ p' o, p_st p' = p_st p → p_gateway p' = p_gateway p → p_renewing p' = p_renewing p →
     (∃ c', p_client p' = Some c') → Q p' o) →
  mwp (on_client m) Q p.
Proof. intros Hc HQ. unfold mwp, on_client. rewrite Hc. destruct (m c) as [c' o]. apply HQ; eauto. Qed.

(** C24. The gateway listens only behind its guards: when [serve] got as far as
    listening, the Vault address and both tokens are set, and unless KMS_DEV is
    exactly "true" neither token is one of the well-known weak ones and the
    swagger pages are authenticated or the listen address is a loopback one;
    the gateway accepts the configured token, the Vault token is being renewed
    and the limiters are swept. *)
Theorem serve_guarded (p p' : Proc W) (o : outcome (result unit)) (g : GatewayServer (W:=Client W)) :
  p_gateway p = None → serveCmd Quote env open nonce sunset lst ready p = (p', o) → p_gateway p' = Some g →
  started_safely g p' o.
Proof.
  intros Hnone Hrun Hg.
  refine (mwp_run _ (λ p' o, ∀ g, p_gateway p' = Some g → started_safely g p' o) p p' o _ Hrun g Hg).
  clear -Hnone. unfold serveCmd, guarded. repeat wp_step.
  apply mwp_client; [intros p1 e (_ & Hq & _) g; congruence|].
  intros p1 c (_ & Hgw & _) (Hc & Hcfg & _). rewrite Hnone in Hgw. repeat first [wp_step|run].
  - eapply mwp_on_client_keeps; [exact Hc|]. intros p2 o2 Hst Hg2 Hr2 [c2 Hc2]. destruct o2; [|simpl in *; congruence].
    repeat first [wp_step|run]. eapply mwp_on_client_keeps; [exact Hc2|].
    intros p3 o3 Hst3 Hg3 Hr3 [c3 Hc3]. destruct o3 as [c4|]; [|simpl in *; congruence].
    repeat first [wp_step|run]; try (simpl in *; congruence).
    all: intros g [= <-]; unfold started_safely; simpl in *; rewrite Hst3, Hst; destruct Hcfg as (? & ? & ? & ?).
    all: split_and!; auto using guardWeakGatewayToken_Ok, guardSwaggerNonLoopback_Ok.
    all: try (by eapply NewOrFail_chain).
  - simpl in *. congruence.
  - simpl in *. congruence.
Qed.
End cli.

(** ** From the command line to the plugin *)

Lemma connect_cache {W} {A : VaultAPI W} n attempt lastErr (c : Client W) :
  pubkeyCache (connect n attempt lastErr c).1 = pubkeyCache c.
Proof.
  revert attempt lastErr c. induction n as [|n IH]; intros attempt lastErr c; [done|]. cbn [connect].
  set (c1 := if (0 <? attempt)%Z then _ else c).
  assert (pubkeyCache c1 = pubkeyCache c) as Hc1 by (unfold c1; by case_match).
  assert (pubkeyCache (client_Health c1).1 = pubkeyCache c1) as Hh.
  { unfold client_Health, body, bind, call, api_call. by destruct (api_Health (api c1)). }
  destruct (client_Health c1) as [c2 [[]|]]; simpl in *; rewrite ?IH; congruence.
Qed.

Lemma NewClient_cache {W} {A : VaultAPI W} open addr auth (c : Client W) :
  NewClient open addr auth = Ok c → pubkeyCache c = ∅.
Proof.
  unfold NewClient. case_decide; [done|]. destruct (VaultClient.Token auth); [|by case_match]. destruct (open _ _) as [w|]; [|done].
  pose proof (connect_cache 3 0 (errors_New "") (mkClient w ∅ 0 0 None)) as Hc.
  destruct (connect _ _ _ _) as [c' []]; [|done]. by intros [= <-].
Qed.

Section endtoend.
Context {C : EthCrypto} {CL : EthCryptoLaws C} {S : Type} {St : LogicalStorage S}
        {SL : LogicalStorageLaws S} {SH : StorageHealth S} {E : EntryCodec} {EL : EntryCodecLaws E}
        {W : Type} {A : VaultAPI W} {VM : VaultMount (SH:=SH) W}.
Context {R : RateLib} {V : ViperLib} {TX : EthTx} {L : CosmosLib}.
Context (Quote : string → string) (env : Env).

(** The command connected: its configuration loaded and Vault answered. *)
Definition connects (open : string → string → result W) (p : Proc W) (p1 : Proc W) (c : Client W) : Prop :=
  client Quote env open p = (p1, Val (Ok tt)) ∧ p_client p1 = Some c.

Lemma connects_run open p p1 c :
  connects open p p1 c → quiet p p1 ∧ pubkeyCache c = ∅.
Proof.
  intros [Hrun Hc].
  refine (mwp_run _ (λ p1 o, o = Val (Ok tt) → p_client p1 = Some c → quiet p p1 ∧ pubkeyCache c = ∅)
            _ _ _ _ Hrun eq_refl Hc). clear.
  apply mwp_client; [done|]. intros p' c' Hq (Hc' & _ & Hn) _ Hc. split; [done|].
  rewrite Hc in Hc'. simplify_eq. by eapply NewClient_cache.
Qed.

(** Running a client call that is known to succeed. *)
Lemma mwp_on_client_run {X} (m : M (Client W) X) p c c' o Q :
  p_client p = Some c → m c = (c', o) →
  (∀ p', quiet p p' → p_client p' = Some c' → Q p' o) →
  mwp (on_client m) Q p.
Proof. intros Hc Hm HQ. unfold mwp, on_client. rewrite Hc, Hm. by apply HQ. Qed.

Lemma printKeyInfo_holds p1 c path k parsed addr :
  p_client p1 = Some c → client_holds c path k parsed → cosmos_addr k parsed = Ok addr →
  ∃ p2, printKeyInfo path p1 = (p2, Val (Ok tt)) ∧
    (∃ c2, p_client p2 = Some c2 ∧ client_holds c2 path k parsed) ∧
    p_stdout p2 = p_stdout p1 +:+ Encode (KeyInfo_text (info_of path k parsed addr)).
Proof.
  intros Hc Hh Haddr. apply mwp_val. unfold printKeyInfo. repeat wp_step.
  destruct (client_GetKeyChains_holds _ _ _ _ Hh) as (c1 & Hrun & Hh1).
  eapply mwp_on_client_run; [done..|]. intros p2 Hq Hc2. cbv beta iota.
  assert (Canonical parsed) as Hcan by (by destruct Hh as (? & ? & ? & ? & ? & ? & ? & ? & ? & _)).
  assert ((0 <? length parsed) = true) as -> by (by destruct (Canonical_cases _ Hcan) as [->|[->| ->]]).
  rewrite (ParseChains_Canonical_id _ Hcan). repeat wp_step; [|done].
  match goal with H : Ok _ = Ok _ |- _ => injection H as <- end.
  destruct (For_holds (VS:=client_SignVaultSpec) c1 path DefaultHRP k parsed parsed Hh1) as (c3 & Hh3 & Hfor).
  change (if decide (DefaultHRP = "") then "cosmos" else DefaultHRP) with "cosmos" in Hfor.
  unfold cosmos_addr in Haddr. rewrite Haddr in Hfor.
  eapply mwp_on_client_run; [done..|]. intros p3 Hq3 Hc3. cbv beta iota. repeat first [wp_step|run].
  split; [done|]. split; [by exists c3|]. simpl. destruct Hq as (<- & _), Hq3 as (<- & _). done.
Qed.

(** What [sign cosmos] prints. *)
Definition cosmos_lines (sig pub : bytes) (hrp : string) : string :=
  "signature: " +:+ b64_Encode StdEncoding sig +:+ newline +:+
  "pub_key: " +:+ b64_Encode StdEncoding pub +:+ newline +:+
  match DeriveCosmosAddressFromCompressed pub hrp with
  | Ok addr => "cosmos_address: " +:+ addr +:+ newline
  | Err _ => ""
  end.

Lemma keysCreate_holds open p p0 c0 m path chainsRaw addr parsed k :
  connects open p p0 c0 → stores m (api c0) → m !! path = None → KeyPathOk path →
  chainsRaw ≠ "" → ParseChains (Split chainsRaw ",") = Ok parsed →
  GenerateKey (draw (api c0)) = Ok k → storable (create_map (draw (api c0)) path parsed m) path →
  cosmos_addr k parsed = Ok addr →
  ∃ p1, keysCreate Quote env open path chainsRaw p = (p1, Val (Ok tt)) ∧
    (∃ c1, p_client p1 = Some c1 ∧ client_holds c1 path k parsed) ∧
    p_stdout p1 = p_stdout p +:+ Encode (KeyInfo_text (info_of path k parsed addr)).
Proof.
  intros Hco Hs Hnone Hn Hraw Hparse Hgen Hst Haddr. pose proof (connects_run _ _ _ _ Hco) as [(Hout & _) Hcache].
  destruct Hco as [Hcl Hc0]. pose proof (KeyPathOk_nonempty _ Hn) as Hne.
  destruct (client_CreateKey_holds c0 path k parsed m Hs Hnone Hn (ParseChains_Canonical _ _ Hparse) Hgen)
    as (c1 & Hrun & Hh); [by rewrite Hcache|done|].
  apply mwp_val. unfold keysCreate. repeat wp_step; to_prop; try done.
  eapply mwp_eval; [exact Hcl|]. cbv beta iota. repeat wp_step; [|congruence].
  assert (a = parsed) as -> by congruence. eapply mwp_on_client_run; [done|exact Hrun|]. intros p2 (Hout2 & _) Hc2. cbv beta iota. repeat wp_step.
  destruct (printKeyInfo_holds p2 c1 path k parsed addr Hc2 Hh Haddr) as (p3 & Hp3 & Hc3 & Hout3).
  eapply mwp_eval; [exact Hp3|]. cbv beta iota. split; [done|]. split; [done|]. congruence.
Qed.

Lemma signCosmosCmd_holds open q q0 c path k parsed doc hrp :
  connects open q q0 c → client_holds c path k parsed → "cosmos" ∈ parsed → validProto doc = true →
  ∃ q1 sig v,
    signCosmosCmd Quote env open path hrp "DIRECT" (b64_Encode StdEncoding doc) q = (q1, Val (Ok tt)) ∧
    p_stdout q1 = p_stdout q +:+ cosmos_lines sig (CompressPubkey (PublicKey k)) hrp ∧
    length sig = 64 ∧ (v = Byte.x00 ∨ v = Byte.x01) ∧
    Ecrecover (Sha256.Sum256 doc) (sig ++ [v]) = Ok (FromECDSAPub (PublicKey k)).
Proof.
  intros Hco Hh Hin Hdoc. pose proof (connects_run _ _ _ _ Hco) as [(Hout & _) _]. destruct Hco as [Hcl Hc].
  assert (path ≠ "") as Hne.
  { destruct Hh as (? & ? & _ & _ & Hn & _). by apply KeyPathOk_nonempty. }
  destruct (signHash_holds (VS:=client_SignVaultSpec) c path k parsed (Sha256.Sum256 doc) Hh Hin (Sha256.length_Sum256 doc))
    as (c1 & sig & v & Hrun & Hh1 & Hsig).
  assert (SignDirect path doc c = (c1, Val (Ok (sig, CompressPubkey (PublicKey k))))) as Hsd.
  { unfold SignDirect, body, bind, guard, call. rewrite Hdoc. simpl. by rewrite Hrun. }
  assert (∃ q1, signCosmosCmd Quote env open path hrp "DIRECT" (b64_Encode StdEncoding doc) q = (q1, Val (Ok tt)) ∧
      p_stdout q1 = p_stdout q +:+ cosmos_lines sig (CompressPubkey (PublicKey k)) hrp) as (q1 & ? & ?);
    [|by exists q1, sig, v].
  apply mwp_val. unfold signCosmosCmd, cliCosmosModes. repeat wp_step; to_prop; try done.
  eapply mwp_eval; [exact Hcl|]. cbv beta iota. rewrite decide_True by done. rewrite b64_roundtrip.
  repeat wp_step; [|done]. simplify_eq.
  eapply mwp_on_client_run; [done|exact Hsd|]. intros q2 (Hout2 & _) Hc2. cbv beta iota. repeat first [wp_step|run]; simplify_eq.
  all: split; [done|]; simpl; rewrite Hout2, Hout; unfold cosmos_lines.
  all: match goal with H : DeriveCosmosAddressFromCompressed _ _ = _ |- _ => rewrite H end.
  all: by rewrite ?string_app_assoc, ?string_app_nil_r.
Qed.

(** C23. From the command line to the plugin: [keys create] of a free path on a
    vault behind the HTTP API prints the key information of the key now stored;
    a later [sign cosmos] process that connects to that vault signs a
    well-framed document and prints exactly a signature over its SHA-256 that
    recovers to that key, the key's compressed public key and its address. *)
Theorem cli_create_then_sign (open : string → string → result W) (p p0 : Proc W) (c0 : Client W)
    (m : gmap string KeyEntry) (path chainsRaw addr : string) (parsed : list Chain) (k : PrivKey) :
  connects open p p0 c0 → stores m (api c0) → m !! path = None → KeyPathOk path →
  chainsRaw ≠ "" → ParseChains (Split chainsRaw ",") = Ok parsed → "cosmos" ∈ parsed →
  GenerateKey (draw (api c0)) = Ok k → storable (create_map (draw (api c0)) path parsed m) path →
  cosmos_addr k parsed = Ok addr →
  ∃ p1 c1, keysCreate Quote env open path chainsRaw p = (p1, Val (Ok tt)) ∧ p_client p1 = Some c1 ∧
    p_stdout p1 = p_stdout p +:+ Encode (KeyInfo_text (info_of path k parsed addr)) ∧
    ∀ open' q q0 c doc hrp,
      connects open' q q0 c → api c = api c1 → validProto doc = true →
      ∃ q1 sig v,
        signCosmosCmd Quote env open' path hrp "DIRECT" (b64_Encode StdEncoding doc) q = (q1, Val (Ok tt)) ∧
        p_stdout q1 = p_stdout q +:+ cosmos_lines sig (CompressPubkey (PublicKey k)) hrp ∧
        length sig = 64 ∧ (v = Byte.x00 ∨ v = Byte.x01) ∧
        Ecrecover (Sha256.Sum256 doc) (sig ++ [v]) = Ok (FromECDSAPub (PublicKey k)).
Proof.
  intros Hco Hs Hnone Hn Hraw Hparse Hin Hgen Hst Haddr.
  destruct (keysCreate_holds _ _ _ _ _ _ _ _ _ _ Hco Hs Hnone Hn Hraw Hparse Hgen Hst Haddr)
    as (p1 & Hrun & (c1 & Hc1 & Hh) & Hout).
  exists p1, c1. split_and!; [done..|]. intros open' q q0 c doc hrp Hco' Hapi Hdoc.
  eapply signCosmosCmd_holds; [exact Hco'| |done|done].
  pose proof (connects_run _ _ _ _ Hco') as [_ Hcache].
  destruct Hh as (m' & e & ? & ? & ? & ? & ? & ? & ? & _). exists m', e. rewrite Hapi, Hcache. by split_and!.
Qed.
End endtoend.
