(* ===== verification/CliChecks.v ===== *)
(** * The command line at work

    The commands over a concrete viper and the in-memory Vault: the witnesses
    of the theorems about the command line. *)

From Stdlib Require Import SpecFloat.
From S2P Require Import Prelude GoLib Types KeyPath Net Crypto Plugin PluginModel PluginProps PluginTheorems.
From S2P Require Import Interfaces VaultClient Mount EvmSigner CosmosSigner SignerTheorems EndToEnd EndToEndTheorems.
From S2P Require Import Config Limiter Gateway GatewayListing Sha256 Json HttpJson Startup Cli CliTheorems.

Module CliChecks.
Import ToyCrypto MemVault MemServer PluginWitness EndToEndChecks ConfigChecks.

#[local] Existing Instance SignerChecks.toy_tx.
#[local] Existing Instance SignerChecks.toy_cosmos.
#[local] Existing Instance LimiterChecks.toy_rate.

Definition env2 : Env := λ k,
  lookup_key k [("HOME", "/root"); ("VAULT_TOKEN", "s.abc"); ("VAULT_ADDR", "http://v:8200"); ("KMS_GATEWAY_TOKEN", "g.xyz")].

Definition quoted (s : string) : string := s.

Definition dial (addr tok : string) : result server := Ok fresh_server.

Definition start : Proc server := initial env2.

(** [serve] until it is interrupted. *)
Abbreviation served :=
  (serveCmd quoted env2 dial (Ok (replicate 32 Byte.x42)) "Wed, 31 Dec 2025 23:59:59 GMT"
    (mkListener None (λ _ _, None) None) SignalReceived start).

Lemma served_gateway : bool_decide (is_Some (p_gateway served.1)) = true.
Proof. vm_compute. reflexivity. Qed.

Lemma serve_guarded_witness :
  ∃ g, p_gateway served.1 = Some g ∧
    started_safely env2 (mkListener None (λ _ _, None) None) SignalReceived g served.1 served.2.
Proof.
  pose proof served_gateway as Hg. destruct served as [p' o] eqn:Hrun.
  apply bool_decide_eq_true_1 in Hg as [g Hg]. exists g. split; [exact Hg|].
  refine (serve_guarded _ _ _ _ _ _ _ start _ _ _ _ Hrun Hg); reflexivity.
Defined.

Abbreviation listed := (run_command quoted env2 dial (CmdKeysShow alice) start).

Lemma failed_commands_print_nothing_witness :
  p_gateway listed.1 = p_gateway start ∧ (p_stdout listed.1 ≠ p_stdout start → main_exit listed.2 = 0%Z).
Proof.
  destruct listed as [p' o] eqn:Hrun.
  exact (failed_commands_print_nothing quoted env2 dial (CmdKeysShow alice) start p' o Hrun).
Defined.

Definition connected : Proc server := (client quoted env2 dial start).1.

Definition c0 : Client server := default fresh (p_client connected).

Definition alice_addr : string :=
  match cosmos_addr (Byte.x07 : PrivKey) ["cosmos"; "evm"] with Ok a => a | Err _ => "" end.

Lemma c0_api : api c0 = fresh_server.
Proof. vm_compute. reflexivity. Qed.

Lemma cli_create_then_sign_witness :
  ∃ p1 c1, keysCreate quoted env2 dial alice "evm, Cosmos" start = (p1, Val (Ok tt)) ∧ p_client p1 = Some c1 ∧
    p_stdout p1 = p_stdout start +:+
      Encode (KeyInfo_text (info_of alice (Byte.x07 : PrivKey) ["cosmos"; "evm"] alice_addr)) ∧
    ∀ open' q q0 c doc hrp,
      connects quoted env2 open' q q0 c → api c = api c1 → validProto doc = true →
      ∃ q1 sig v,
        signCosmosCmd quoted env2 open' alice hrp "DIRECT" (b64_Encode StdEncoding doc) q = (q1, Val (Ok tt)) ∧
        p_stdout q1 = p_stdout q +:+ cosmos_lines sig (CompressPubkey (PublicKey (Byte.x07 : PrivKey))) hrp ∧
        length sig = 64 ∧ (v = Byte.x00 ∨ v = Byte.x01) ∧
        Ecrecover (Sha256.Sum256 doc) (sig ++ [v]) = Ok (FromECDSAPub (PublicKey (Byte.x07 : PrivKey))).
Proof.
  apply (cli_create_then_sign (C:=toy) (VM:=server_mount) quoted env2 dial start connected c0 ∅ alice "evm, Cosmos"
           alice_addr ["cosmos"; "evm"] Byte.x07).
  - split; [|vm_compute; reflexivity]. vm_compute. reflexivity.
  - rewrite c0_api. apply fresh_stores.
  - done.
  - apply KeyPathOk_alice.
  - done.
  - vm_compute. reflexivity.
  - set_solver.
  - vm_compute. reflexivity.
  - rewrite c0_api. apply fresh_storable.
  - vm_compute. reflexivity.
Defined.
End CliChecks.
