(* ===== verification/JsonIndent.v ===== *)
(** * Indented JSON: [json.MarshalIndent]

    The printer, and that what it prints reads back: white space between the
    tokens of a text does not change what is read. *)

From S2P Require Import Prelude GoLib Float64 Json JsonProps JsonRoundtrip HttpJson.

Fixpoint indent (d : nat) : string :=
  match d with O => "" | S d' => "    " +:+ indent d' end.

(** [json.MarshalIndent(v, "", "    ")] at nesting [d]; it cannot fail on a
    decoded value. *)
Fixpoint print_indent (d : nat) (v : json) : string :=
  match v with
  | JArray [] => "[]"
  | JObject [] => "{}"
  | JArray l =>
      "[" +:+ newline +:+ indent (S d) +:+
      Join (map (print_indent (S d)) l) ("," +:+ newline +:+ indent (S d)) +:+ newline +:+ indent d +:+ "]"
  | JObject m =>
      "{" +:+ newline +:+ indent (S d) +:+
      Join (map (λ kv, print_string kv.1 +:+ ": " +:+ print_indent (S d) kv.2) m) ("," +:+ newline +:+ indent (S d)) +:+
      newline +:+ indent d +:+ "}"
  | v => Marshal v
  end.

Definition MarshalIndent (v : json) : string := print_indent 0 v.

(** ** White space *)

Definition spaces (w : string) : Prop := string_forall isSpace w = true.

Lemma skip_ws_spaces w s : spaces w → skip_ws (w +:+ s) = skip_ws s.
Proof.
  unfold spaces. induction w as [|c w IH]; [done|]. cbn [string_forall]. intros [Hc Hw]%andb_true_iff.
  change (String c w +:+ s) with (String c (w +:+ s)). cbn [skip_ws]. rewrite Hc. by apply IH.
Qed.

Lemma skip_char_spaces c w s : spaces w → skip_char c (w +:+ s) = skip_char c s.
Proof. intros Hw. unfold skip_char. by rewrite skip_ws_spaces. Qed.

Lemma read_value_spaces fuel d w s : spaces w → read_value fuel d (w +:+ s) = read_value fuel d s.
Proof. intros Hw. destruct fuel; [done|]. cbn [read_value]. by rewrite skip_ws_spaces. Qed.

Lemma read_value_space fuel d s : read_value fuel d (String " " s) = read_value fuel d s.
Proof. by apply (read_value_spaces fuel d " "). Qed.

Lemma read_elements_spaces fuel d w s : spaces w → read_elements fuel d (w +:+ s) = read_elements fuel d s.
Proof. intros Hw. destruct fuel; [done|]. cbn [read_elements]. by rewrite read_value_spaces. Qed.

Lemma read_members_spaces fuel d w s : spaces w → read_members fuel d (w +:+ s) = read_members fuel d s.
Proof. intros Hw. destruct fuel; [done|]. cbn [read_members]. by rewrite skip_char_spaces. Qed.

Lemma spaces_indent d : spaces (newline +:+ indent d).
Proof. unfold spaces. simpl. induction d as [|d IH]; [done|]. exact IH. Qed.

(** ** Reading *)

(** The text [s] reads as [t] at nesting [d], whatever follows it. *)
Definition reads (d : N) (s : string) (t : jtext) : Prop := ∀ fuel rest,
  ends_number rest → 2 * String.length (s +:+ rest) + 1 ≤ fuel →
  read_value fuel d (s +:+ rest) = Some (t, rest).

Lemma Join_cons_app sep x y l tail : Join (x :: y :: l) sep +:+ tail = x +:+ sep +:+ (Join (y :: l) sep +:+ tail).
Proof. change (Join (x :: y :: l) sep) with (x +:+ sep +:+ Join (y :: l) sep). by rewrite !string_app_assoc. Qed.

Lemma ends_number_spaces w c rest : spaces w → isSpace c = false → ends_number (String c rest) →
  ends_number (w +:+ String c rest).
Proof.
  destruct w as [|c' w]; [done|]. intros [Hc' _]%andb_true_iff _ _. simpl.
  destruct c' as [[][][][][][][][]]; by vm_compute in Hc' |- *.
Qed.

(** The items of an array, between white space. *)
Lemma items_read d w1 w2 ss ts rest fuel :
  spaces w1 → spaces w2 → Forall2 (reads d) ss ts → ss ≠ [] →
  2 * String.length (Join ss ("," +:+ w1) +:+ w2 +:+ String "]" rest) + 2 ≤ fuel →
  read_elements fuel d (Join ss ("," +:+ w1) +:+ w2 +:+ String "]" rest) = Some (ts, rest).
Proof.
  intros Hw1 Hw2 Hr. revert fuel. induction Hr as [|s t ss ts Hs Hr IH]; intros fuel Hne Hfuel; [done|].
  destruct fuel as [|fuel]; [lia|]. destruct Hr as [|s' t' ss ts Hs' Hr].
  - cbn [Join] in *. erewrite read_elements_value; [|apply Hs; [by apply ends_number_spaces|lia]].
    by rewrite !skip_char_spaces, skip_char_miss, skip_char_hit by done.
  - rewrite Join_cons_app in *. set (tl := Join _ _ +:+ _) in *. rewrite string_app_assoc in *.
    rewrite !string_length_app in Hfuel. simpl String.length in Hfuel.
    erewrite read_elements_value; [|apply Hs; [done|rewrite !string_length_app; simpl; lia]].
    change ("," +:+ (w1 +:+ tl)) with (String "," (w1 +:+ tl)). rewrite skip_char_hit, read_elements_spaces by done.
    unfold tl in *. by rewrite IH by (done || lia).
Qed.

(** A member: its key, and its value behind a colon and a space. *)
Definition imember (kv : string * string) : string := print_string kv.1 +:+ ": " +:+ kv.2.

Lemma imember_text kv s :
  ∃ raw, imember kv +:+ s = String quote (raw +:+ String quote (String ":" (String " " (kv.2 +:+ s)))) ∧
    scan_string (raw +:+ String quote (String ":" (String " " (kv.2 +:+ s)))) = Some (raw, String ":" (String " " (kv.2 +:+ s))) ∧
    unquoted raw = valid_utf8 kv.1.
Proof.
  destruct (print_string_reads kv.1 (String ":" (String " " (kv.2 +:+ s)))) as (raw & Heq & Hs & Hr).
  exists raw. split_and!; [|done|done]. unfold imember. by rewrite !string_app_assoc.
Qed.

Lemma imembers_read d w1 w2 kvs ts rest fuel :
  spaces w1 → spaces w2 → Forall2 (λ kv kt, valid_utf8 kv.1 = kt.1 ∧ reads d kv.2 kt.2) kvs ts → kvs ≠ [] →
  2 * String.length (Join (map imember kvs) ("," +:+ w1) +:+ w2 +:+ String "}" rest) + 2 ≤ fuel →
  read_members fuel d (Join (map imember kvs) ("," +:+ w1) +:+ w2 +:+ String "}" rest) = Some (ts, rest).
Proof.
  intros Hw1 Hw2 Hr. revert fuel.
  induction Hr as [|[k s] [k' t] kvs ts [[= <-] Hs] Hr IH]; intros fuel Hne Hfuel; [done|].
  destruct fuel as [|fuel]; [lia|]. cbn [snd] in Hs. destruct Hr as [|kv' kt' kvs ts Hkv' Hr].
  - cbn [map Join] in *.
    destruct (imember_text (k, s) (w2 +:+ String "}" rest)) as (raw & Heq & Hscan & Hraw). rewrite Heq in *.
    cbn [fst snd] in *. simpl String.length in Hfuel. rewrite string_length_app in Hfuel. simpl String.length in Hfuel.
    erewrite read_members_one; [|exact Hscan|done|].
    2:{ rewrite read_value_space. apply Hs; [by apply ends_number_spaces|]. lia. }
    by rewrite Hraw, !skip_char_spaces, skip_char_miss, skip_char_hit by done.
  - cbn [map] in *. rewrite Join_cons_app in *. set (tl := Join _ _ +:+ _) in *. rewrite string_app_assoc in *.
    destruct (imember_text (k, s) ("," +:+ w1 +:+ tl)) as (raw & Heq & Hscan & Hraw). rewrite Heq in *.
    cbn [fst snd] in *. simpl String.length in Hfuel. rewrite !string_length_app in Hfuel. simpl String.length in Hfuel.
    rewrite ?string_length_app in Hfuel. simpl String.length in Hfuel.
    erewrite read_members_one; [|exact Hscan|done|].
    2:{ rewrite read_value_space. apply Hs; [done|]. rewrite !string_length_app. simpl String.length. lia. }
    change ("," +:+ w1 +:+ tl) with (String "," (w1 +:+ tl)).
    rewrite Hraw, skip_char_hit, read_members_spaces by done. unfold tl in *. by rewrite IH by (done || lia).
Qed.

(** ** Printed values read back *)

(** A value printed with indentation is a text that decodes to the value. *)
Definition indented (d : N) (v : json) : Prop := ∀ n, ∃ t, reads d (print_indent n v) t ∧ decode t = Some v.

Lemma indented_scalar d v t :
  text_of d v t → (∀ n, print_indent n v = Marshal v) → indented d v.
Proof.
  intros (Hp & Hok & Hv & Hd) Hn n. exists t. split; [|done]. rewrite Hn, <- Hp. intros fuel rest Hr Hf.
  rewrite (printable_reads_back t d Hok fuel rest Hr Hf). by rewrite Hv.
Qed.

Lemma print_indent_start n v rest : wf v → value_start (print_indent n v +:+ rest).
Proof.
  assert (∀ t, text_of 0 v t → value_start (Marshal v +:+ rest)) as Hscalar.
  { intros t (<- & Hok & _). by eapply print_start. }
  destruct 1 as [|b|f Hf|s Hs|l Hl|ms Hms].
  - apply (Hscalar TNull). by split_and!; [|constructor| |].
  - apply (Hscalar (TBool b)). split_and!; [by destruct b|constructor|done|done].
  - destruct (wf_text (JNumber f) 0) as [t Ht]; [by constructor|vm_compute; discriminate|]. by eapply Hscalar.
  - destruct (wf_text (JString s) 0) as [t Ht]; [by constructor|vm_compute; discriminate|]. by eapply Hscalar.
  - destruct l; by eexists _, _.
  - destruct ms; by eexists _, _.
Qed.

(** Texts and values, item by item. *)
Lemma indented_items d l n :
  Forall (indented d) l → ∃ ts, Forall2 (reads d) (map (print_indent n) l) ts ∧ decode_list ts = Some l.
Proof.
  induction 1 as [|v l Hv _ (ts & Hts & Hd)]; [by exists []; split; [constructor|]|].
  destruct (Hv n) as (t & Ht & Hdt). exists (t :: ts). split; [by constructor|]. cbn [decode_list]. by rewrite Hdt, Hd.
Qed.

Lemma indented_members d ms n :
  Forall (λ kv, utf8 kv.1 ∧ indented d kv.2) ms →
  ∃ ts, Forall2 (λ kv kt, valid_utf8 kv.1 = kt.1 ∧ reads d kv.2 kt.2) (map (λ kv, (kv.1, print_indent n kv.2)) ms) ts ∧
        Forall2 (λ kt kv, kt.1 = kv.1 ∧ decode kt.2 = Some kv.2) ts ms.
Proof.
  induction 1 as [|[k v] ms [Hk Hv] _ (ts & Hts & Hd)]; [by exists []; split; constructor|].
  destruct (Hv n) as (t & Ht & Hdt). exists ((k, t) :: ts). split; constructor; try done.
  split; [by apply valid_utf8_id|done].
Qed.

Lemma read_array_spaces fuel depth w s :
  (depth < maxNestingDepth)%N → spaces w → value_start s →
  read_value (S fuel) depth (String "[" (w +:+ s)) =
    match read_elements fuel (depth + 1) s with Some (vs, rest) => Some (TArray vs, rest) | None => None end.
Proof.
  intros Hd Hw (c & x & -> & Hc & Hn & _). cbn [read_value]. rewrite (skip_ws_start "[") by done.
  rewrite decide_False, decide_True by done. apply N.ltb_lt in Hd as ->.
  by rewrite skip_char_spaces, skip_char_miss, read_elements_spaces.
Qed.

Lemma read_object_spaces fuel depth w s :
  (depth < maxNestingDepth)%N → spaces w → value_start s →
  read_value (S fuel) depth (String "{" (w +:+ s)) =
    match read_members fuel (depth + 1) s with Some (ms, rest) => Some (TObject ms, rest) | None => None end.
Proof.
  intros Hd Hw (c & x & -> & Hc & _ & Hn). cbn [read_value]. rewrite (skip_ws_start "{") by done.
  rewrite decide_True by done. apply N.ltb_lt in Hd as ->.
  by rewrite skip_char_spaces, skip_char_miss, read_members_spaces.
Qed.

Lemma value_start_app s t : value_start s → value_start (s +:+ t).
Proof. intros (c & x & -> & Hc). by exists c, (x +:+ t). Qed.

(** A joined list starts like its first item. *)
Lemma value_start_Join x l sep : value_start x → value_start (Join (x :: l) sep).
Proof. intros Hx. destruct l; [done|]. by apply value_start_app. Qed.

Lemma indented_array d l :
  (d < maxNestingDepth)%N → Forall wf l → Forall (indented (d + 1)) l → indented d (JArray l).
Proof.
  intros Hd Hw Hl n. destruct (indented_items (d + 1) l (S n) Hl) as (ts & Hts & Hdec).
  exists (TArray ts). rewrite decode_TArray, Hdec. split; [|done]. intros [|fuel] rest _ Hf; [lia|].
  destruct l as [|v l].
  { apply Forall2_nil_inv_l in Hts as ->. cbn. by apply N.ltb_lt in Hd as ->. }
  set (w1 := newline +:+ indent (S n)). set (w2 := newline +:+ indent n).
  assert (print_indent n (JArray (v :: l)) +:+ rest
          = String "[" (w1 +:+ Join (map (print_indent (S n)) (v :: l)) ("," +:+ w1) +:+ w2 +:+ String "]" rest)) as Heq.
  { unfold w1, w2. cbn [print_indent]. by rewrite !string_app_assoc. }
  rewrite Heq in *. cbn [String.length] in Hf. rewrite string_length_app in Hf.
  rewrite read_array_spaces, (items_read _ _ _ _ ts); try done; try apply spaces_indent; [lia|].
  apply Forall_cons in Hw as [Hv _]. apply value_start_app, value_start_Join.
  pose proof (print_indent_start (S n) v "" Hv) as Hst. by rewrite string_app_nil_r in Hst.
Qed.

Lemma indented_object d ms :
  (d < maxNestingDepth)%N → StronglySorted key_lt ms → Forall (λ kv, utf8 kv.1 ∧ indented (d + 1) kv.2) ms →
  indented d (JObject ms).
Proof.
  intros Hd Hsort Hl n. destruct (indented_members (d + 1) ms (S n) Hl) as (ts & Hts & Hdec).
  exists (TObject ts). rewrite decode_TObject, (decode_members_sorted ts ms []) by done. split; [|done].
  intros [|fuel] rest _ Hf; [lia|]. destruct ms as [|kv ms].
  { apply Forall2_nil_inv_l in Hts as ->. cbn. by apply N.ltb_lt in Hd as ->. }
  set (w1 := newline +:+ indent (S n)). set (w2 := newline +:+ indent n).
  assert (print_indent n (JObject (kv :: ms)) +:+ rest
          = String "{" (w1 +:+ Join (map imember (map (λ kv, (kv.1, print_indent (S n) kv.2)) (kv :: ms))) ("," +:+ w1)
              +:+ w2 +:+ String "}" rest)) as Heq.
  { unfold w1, w2. rewrite map_map. cbn [print_indent]. by rewrite !string_app_assoc. }
  rewrite Heq in *. cbn [String.length] in Hf. rewrite string_length_app in Hf.
  rewrite read_object_spaces, (imembers_read _ _ _ _ ts); try done; try apply spaces_indent; [lia|].
  apply value_start_app, value_start_Join. by eexists _, _.
Qed.

Lemma wf_indented v : ∀ d, wf v → (d + height v ≤ maxNestingDepth)%N → indented d v.
Proof.
  revert v. apply (json_nested_ind (λ v, ∀ d, wf v → (d + height v ≤ maxNestingDepth)%N → indented d v)).
  1-4: intros; edestruct wf_text as [t Ht]; [eassumption..|]; by eapply indented_scalar.
  - intros l IH d Hw Hd. inversion Hw as [| | | |? Hl|]; subst. cbn [height] in Hd.
    apply indented_array; [lia|done|]. rewrite Forall_forall in *. intros v Hv.
    apply IH; [done|by apply Hl|by eapply height_elem].
  - intros ms IH d Hw Hd. inversion Hw as [| | | | |? Hs Hl]; subst. cbn [height] in Hd.
    apply indented_object; [lia|done|]. rewrite Forall_forall in *. intros kv Hkv. destruct (Hl kv Hkv).
    split; [done|]. apply IH; [done..|by eapply height_member].
Qed.

(** Printing with indentation and reading back, with a newline at the end. *)
Lemma Unmarshal_MarshalIndent v :
  wf v → (height v ≤ maxNestingDepth)%N → Unmarshal (MarshalIndent v +:+ newline) = Ok v.
Proof.
  intros Hw Hh. destruct (wf_indented v 0 Hw Hh 0) as (t & Hr & Hd). unfold Unmarshal, parse, MarshalIndent.
  rewrite Hr by (done || lia). by rewrite decide_True, Hd.
Qed.
