(* ===== verification/SwaggerPost.v ===== *)
(** * The OpenAPI post-processor: [cmd/swagger-postprocess/main.go]

    The build step that turns the document [swag] generates into the one the
    gateway serves.  A decoded document is a tree, so that an update of a
    nested Go map is a function of the value at its place.  Go iterates over
    maps in any order; the loops below visit the members in the order of their
    keys, and only the order of the names in the error text of
    [validateSpecRefs] depends on it. *)

From S2P Require Import Prelude GoLib Float64 Json JsonProps HttpJson JsonIndent Config.

(** ** Maps inside a document *)

Abbreviation members := (list (string * json)).

(** [m[k]] *)
Definition obj_get (k : string) (m : members) : option json := lookup_key k m.

(** [delete(m, k)] *)
Definition obj_delete (k : string) (m : members) : members := List.filter (λ kv, negb (bool_decide (kv.1 = k))) m.

(** Update the value at [k] in place, if there is one. *)
Definition alter (k : string) (f : json → json) (m : members) : members :=
  map (λ kv, if decide (kv.1 = k) then (kv.1, f kv.2) else kv) m.

(** [for k, v := range m] with an update of [v] in place. *)
Definition each (f : string → json → json) (m : members) : members := map (λ kv, (kv.1, f kv.1 kv.2)) m.

(** [if o, ok := v.(map[string]any); ok] and [if l, ok := v.([]any); ok] *)
Definition on_object (f : members → members) (v : json) : json :=
  match v with JObject m => JObject (f m) | _ => v end.

Definition on_array (f : list json → list json) (v : json) : json :=
  match v with JArray l => JArray (f l) | _ => v end.

(** [if v, ok := m[old]; ok { m[new] = v; delete(m, old) }] *)
Definition rename_key (old new : string) (m : members) : members :=
  match obj_get old m with
  | Some v => obj_delete old (obj_set new v m)
  | None => m
  end.

(** The string at [k], or the empty one. *)
Definition get_string (k : string) (m : members) : string :=
  match obj_get k m with Some (JString s) => s | _ => "" end.

(** The map at [k]; a nil map reads as an empty one. *)
Definition get_object (k : string) (m : members) : members :=
  match obj_get k m with Some (JObject o) => o | _ => [] end.

(** ** Servers, security, request bodies *)

Definition normalizeServer (server : members) : members :=
  let url := get_string "url" server in
  if bool_decide (url = "") || Contains url "://" || HasPrefix url "/" then server
  else obj_set "url" (JString ("http://" +:+ url)) server.

Definition normalizeServers (spec : members) : members :=
  alter "servers" (on_array (map (on_object normalizeServer))) spec.

(** [len(security) == 1] and the item has an empty list under the empty name. *)
Definition no_security (security : list json) : bool :=
  match security with
  | [JObject item] => match obj_get "" item with Some (JArray []) => true | _ => false end
  | _ => false
  end.

Definition normalizeSecurity (operation : members) : members :=
  alter "security"
    (on_array (λ security, if no_security security then []
                           else map (on_object (rename_key "bearerauth" "BearerAuth")) security)) operation.

(** An entry that is just [{"type": "object"}]. *)
Definition plain_object (item : json) : bool :=
  match item with
  | JObject entry =>
      (length entry =? 1) &&
      match obj_get "type" entry with Some (JString t) => bool_decide (t = "object") | _ => false end
  | _ => false
  end.

Definition normalizeSchema (schema : members) : members :=
  match obj_get "oneOf" schema with
  | Some (JArray oneOf) =>
      match List.filter (λ item, negb (plain_object item)) oneOf with
      | [] => obj_delete "oneOf" schema
      | [JObject only] => only
      | filtered => obj_set "oneOf" (JArray filtered) schema
      end
  | _ => schema
  end.

(** The schema of every media type of the request body. *)
Definition on_schemas (f : members → members) (operation : members) : members :=
  alter "requestBody" (on_object (alter "content" (on_object (each (λ _, on_object (alter "schema" (on_object f)))))))
    operation.

Definition normalizeRequestBody (operation : members) : members := on_schemas normalizeSchema operation.

Definition schemasRef : string := "#/components/schemas/".

Definition evmDiscriminator : json :=
  JObject [("mapping", JObject
              [("eip712_digest", JString (schemasRef +:+ "kms-wrapper_pkg_types.EVMSignEIP712Request"));
               ("personal_message", JString (schemasRef +:+ "kms-wrapper_pkg_types.EVMSignPersonalMessageRequest"));
               ("raw_tx", JString (schemasRef +:+ "kms-wrapper_pkg_types.EVMSignRawTxRequest"))]);
           ("propertyName", JString "type")].

Definition injectEVMDiscriminator (operation : members) : members :=
  on_schemas (λ schema, match obj_get "oneOf" schema with
                        | Some _ => obj_set "discriminator" evmDiscriminator schema
                        | None => schema
                        end) operation.

(** ** References *)

Fixpoint rewriteRefs (oldRef newRef : string) (node : json) : json :=
  match node with
  | JObject n =>
      JObject (map (λ kv, (kv.1, match kv.2 with
                                 | JString s => if HasPrefix s oldRef then JString (newRef +:+ TrimPrefix s oldRef)
                                                else JString s
                                 | _ => rewriteRefs oldRef newRef kv.2
                                 end)) n)
  | JArray l => JArray (map (rewriteRefs oldRef newRef) l)
  | _ => node
  end.

(** One schema of the loop; [m] is the map as it is by then. *)
Definition rename_schema (oldPrefix newPrefix : string) (m : members) (kv : string * json) : members :=
  if HasPrefix kv.1 (oldPrefix +:+ ".")
  then obj_delete kv.1 (obj_set (newPrefix +:+ "." +:+ TrimPrefix kv.1 (oldPrefix +:+ ".")) kv.2 m)
  else m.

Definition rename_schemas (oldPrefix newPrefix : string) (schemas : members) : members :=
  fold_left (rename_schema oldPrefix newPrefix) schemas schemas.

Definition rewrite_spec (oldRef newRef : string) (spec : members) : members :=
  match rewriteRefs oldRef newRef (JObject spec) with JObject spec' => spec' | _ => spec end.

Definition renameSchemaPrefix (oldPrefix newPrefix : string) (spec : members) : members :=
  let spec := alter "components"
                (on_object (alter "schemas" (on_object (rename_schemas oldPrefix newPrefix)))) spec in
  rewrite_spec (schemasRef +:+ oldPrefix +:+ ".") (schemasRef +:+ newPrefix +:+ ".") spec.

(** ** The whole document *)

Definition typesPrefix : string := "github_com_ryan-truong_kms-wrapper_pkg_types".
Definition newTypesPrefix : string := "kms-wrapper_pkg_types".

Definition normalizeOperation (pathKey : string) (operation : members) : members :=
  let operation := normalizeRequestBody (normalizeSecurity operation) in
  if HasSuffix pathKey "/sign/evm" then injectEVMDiscriminator operation else operation.

Definition normalizeSpec (spec : members) : members :=
  let spec := obj_set "openapi" (JString "3.0.3") spec in
  let spec := normalizeServers spec in
  let spec := renameSchemaPrefix typesPrefix newTypesPrefix spec in
  let spec := alter "components"
                (on_object (alter "securitySchemes" (on_object (rename_key "bearerauth" "BearerAuth")))) spec in
  alter "paths"
    (on_object (each (λ pathKey, on_object (each (λ _, on_object (normalizeOperation pathKey)))))) spec.

(** ** Validation *)

Definition ref_exists (schemas : members) (ref : string) : bool :=
  if negb (HasPrefix ref schemasRef) then true
  else match obj_get (TrimPrefix ref schemasRef) schemas with Some _ => true | None => false end.

(** The discriminator mapping of a node. *)
Definition mapping_of (n : members) : members := get_object "mapping" (get_object "discriminator" n).

Definition bad_refs (schemas : members) (n : members) : list string :=
  omap (λ kv, match kv.2 with
              | JString s => if ref_exists schemas s then None else Some (kv.1 +:+ " -> " +:+ s)
              | _ => None
              end) (mapping_of n).

Fixpoint walk (schemas : members) (node : json) : list string :=
  match node with
  | JObject n => bad_refs schemas n ++ concat (map (λ kv, walk schemas kv.2) n)
  | JArray l => concat (map (walk schemas) l)
  | _ => []
  end.

Definition validateSpecRefs (spec : members) : result unit :=
  let schemas := get_object "schemas" (get_object "components" spec) in
  match walk schemas (JObject spec) with
  | [] => Ok tt
  | bad => Err (errors_New ("dangling discriminator mapping refs: " +:+ Join bad ", "))
  end.

(** ** Files *)

(** The files, and for each path that cannot be written what a failed write
    leaves there. *)
Record FS := mkFS { fs_files : gmap string string; fs_faults : gmap string (option string) }.

Definition ReadFile (path : string) : M FS (result string) := λ fs,
  (fs, Val match fs_files fs !! path with
           | Some data => Ok data
           | None => Err (errors_New ("open " +:+ path +:+ ": no such file or directory"))
           end).

Definition WriteFile (path data : string) : M FS (result unit) := λ fs,
  match fs_faults fs !! path with
  | Some left_ => (mkFS (partial_alter (λ _, left_) path (fs_files fs)) (fs_faults fs),
                   Val (Err (errors_New ("write " +:+ path))))
  | None => (mkFS (<[path := data]> (fs_files fs)) (fs_faults fs), Val (Ok tt))
  end.

(** [None] is the nil map a [null] document decodes to. *)
Definition loadSpec (path : string) : M FS (result (option members)) :=
  body (
    let! b := try_ (ReadFile path) (λ e, Err (Errorf_w ("read " +:+ path +:+ ": ") e "")) in
    match Unmarshal b with
    | Ok (JObject spec) => next (Ok (Some spec))
    | Ok JNull => next (Ok None)
    | Ok _ => return_ (Err (Errorf_w ("unmarshal " +:+ path +:+ ": ") errJSON ""))
    | Err e => return_ (Err (Errorf_w ("unmarshal " +:+ path +:+ ": ") e ""))
    end).

(** [strings.Index]; [None] is -1. *)
Fixpoint Index (s sub : string) : option nat :=
  if HasPrefix s sub then Some 0
  else match s with EmptyString => None | String _ s' => S <$> Index s' sub end.

Definition backtick : ascii := ascii_of_N 96.
Definition startMarker : string := "const docTemplate = " +:+ String backtick "".
Definition endMarker : string := String backtick newline.

(** The text of [docs.go] with its template replaced. *)
Definition replace_template (path data spec : string) : result string :=
  match Index data startMarker with
  | None => Err (errors_New ("doc template start marker not found in " +:+ path))
  | Some start =>
      let contentStart := start + String.length startMarker in
      match Index (str_drop contentStart data) endMarker with
      | None => Err (errors_New ("doc template end marker not found in " +:+ path))
      | Some endRel =>
          let end_ := contentStart + endRel in
          Ok (str_take contentStart data +:+ spec +:+ str_drop end_ data)
      end
  end.

Definition rewriteDocTemplate (path spec : string) : M FS (result unit) :=
  body (
    let! data := try_ (ReadFile path) (λ e, Err (Errorf_w ("read " +:+ path +:+ ": ") e "")) in
    let! text := check (replace_template path data spec) Err in
    try_ (WriteFile path text) (λ e, Err (Errorf_w ("write " +:+ path +:+ ": ") e "")) ;;;
    next (Ok tt)).

Definition run : M FS (result unit) :=
  body (
    let! loaded := try_ (loadSpec "docs/swagger.json") Err in
    let! spec := match loaded with
                 | Some spec => next spec
                 | None => abrupt "assignment to entry in nil map"
                 end in
    let spec := normalizeSpec spec in
    check (validateSpecRefs spec) Err ;;;
    let jsonBytes := MarshalIndent (JObject spec) +:+ newline in
    try_ (WriteFile "docs/swagger.json" jsonBytes) (λ e, Err (Errorf_w "write docs/swagger.json: " e "")) ;;;
    try_ (WriteFile "docs/swagger.yaml" jsonBytes) (λ e, Err (Errorf_w "write docs/swagger.yaml: " e "")) ;;;
    try_ (rewriteDocTemplate "docs/docs.go" jsonBytes) Err ;;;
    next (Ok tt)).
