(* ===== verification/SwaggerProps.v ===== *)
(** * Normalisation keeps documents well formed

    Documents that print and read back ([ok]), with a condition on the strings
    that are values of members, and that every step of the post-processor
    keeps them so. *)

From S2P Require Import Prelude GoLib Float64 Json JsonProps JsonRoundtrip JsonSound HttpJson JsonIndent.
From S2P Require Import Config SwaggerPost.

(** ** Strings *)

Lemma string_forall_cons f c s : string_forall f (String c s) = true ↔ f c = true ∧ string_forall f s = true.
Proof. apply andb_true_iff. Qed.

Definition ascii_char (c : ascii) : bool := (N_of_ascii c <? 128)%N.

Lemma utf8_ascii s : string_forall ascii_char s = true → utf8 s.
Proof.
  induction s as [|c s IH]; [constructor|]. intros [Hc%N.ltb_lt Hs]%string_forall_cons. by apply utf8_cons; [|apply IH].
Qed.

(** What follows an ASCII prefix of a valid string is valid. *)
Lemma utf8_drop_ascii p s : string_forall ascii_char p = true → utf8 (p +:+ s) → utf8 s.
Proof.
  induction p as [|c p IH]; [done|]. intros [Hc%N.ltb_lt Hp]%string_forall_cons Hu. apply IH; [done|].
  change (String c p +:+ s) with (String c (p +:+ s)) in Hu. inversion Hu as [|? n Hn Hd]; subst.
  assert (n = 0) as ->; [|exact Hd]. cbn [rune_size] in Hn. apply N.ltb_lt in Hc. rewrite Hc in Hn. lia.
Qed.

Lemma HasPrefix_TrimPrefix s p : HasPrefix s p = true → s = p +:+ TrimPrefix s p.
Proof. intros [r ->]%HasPrefix_true. by rewrite TrimPrefix_app. Qed.

(** ** Well-formed documents *)

Section ok.
Context (Q : string → Prop).

(** A value at nesting [d] whose member strings satisfy [Q]. *)
Inductive ok : N → json → Prop :=
  | ok_null d : ok d JNull
  | ok_bool d b : ok d (JBool b)
  | ok_number d f : finite64 f → ok d (JNumber f)
  | ok_string d s : utf8 s → ok d (JString s)
  | ok_array d l : (d < maxNestingDepth)%N → Forall (ok (d + 1)) l → ok d (JArray l)
  | ok_object d m :
      (d < maxNestingDepth)%N → StronglySorted key_lt m →
      Forall (λ kv, utf8 kv.1 ∧ ok (d + 1) kv.2 ∧ ∀ s, kv.2 = JString s → Q s) m → ok d (JObject m).

(** The value of a member. *)
Definition vok (d : N) (v : json) : Prop := ok d v ∧ ∀ s, v = JString s → Q s.

Definition oks (d : N) (m : members) : Prop :=
  StronglySorted key_lt m ∧ Forall (λ kv, utf8 kv.1 ∧ vok d kv.2) m.

Lemma ok_JObject d m : ok d (JObject m) ↔ (d < maxNestingDepth)%N ∧ oks (d + 1) m.
Proof.
  split; [by inversion 1|]. intros (Hd & Hs & Hm). by constructor.
Qed.

Lemma ok_JArray d l : ok d (JArray l) ↔ (d < maxNestingDepth)%N ∧ Forall (ok (d + 1)) l.
Proof. split; [by inversion 1|]. intros [Hd Hl]. by constructor. Qed.

Lemma vok_JObject d m : vok d (JObject m) ↔ (d < maxNestingDepth)%N ∧ oks (d + 1) m.
Proof. rewrite <- ok_JObject. split; [by intros []|]. by split. Qed.

Lemma vok_JArray d l : vok d (JArray l) ↔ (d < maxNestingDepth)%N ∧ Forall (ok (d + 1)) l.
Proof. rewrite <- ok_JArray. split; [by intros []|]. by split. Qed.

(** A value also fits where there is more room. *)
Lemma ok_shallower v : ∀ d d', ok d v → (d' ≤ d)%N → ok d' v.
Proof.
  revert v. apply (json_nested_ind (λ v, ∀ d d', ok d v → (d' ≤ d)%N → ok d' v)).
  1-4: intros; match goal with H : ok _ _ |- _ => inversion H; by constructor end.
  - intros l IH d d' [Hd Hl]%ok_JArray Hle. apply ok_JArray. split; [lia|]. rewrite Forall_forall in *.
    intros v Hv. eapply IH; [done|by apply Hl|lia].
  - intros m IH d d' [Hd [Hs Hm]]%ok_JObject Hle. apply ok_JObject. split; [lia|]. split; [done|].
    rewrite Forall_forall in *. intros kv Hkv. destruct (Hm kv Hkv) as (Hk & Hv & HQ). split; [done|].
    split; [|done]. eapply IH; [done|exact Hv|lia].
Qed.

Lemma oks_shallower d d' m : oks d m → (d' ≤ d)%N → oks d' m.
Proof.
  intros [Hs Hm] Hle. split; [done|]. eapply Forall_impl; [exact Hm|].
  intros kv (Hk & Hv & HQ). split; [done|]. split; [by eapply ok_shallower|done].
Qed.

(** ** Operations on members *)

Lemma lookup_key_elem {A} k (m : list (string * A)) v : lookup_key k m = Some v → (k, v) ∈ m.
Proof.
  induction m as [|[k0 v0] m IH]; [done|]. cbn [lookup_key]. case_decide as Hk; [intros [= ->]; subst; left|right; auto].
Qed.

Lemma oks_get d m k v : oks d m → obj_get k m = Some v → vok d v.
Proof. intros [_ Hm] Hv%lookup_key_elem. rewrite Forall_forall in Hm. by apply (Hm _ Hv). Qed.

Lemma oks_set d m k v : utf8 k → vok d v → oks d m → oks d (obj_set k v m).
Proof.
  intros Hk Hv [Hs Hm]. split; [by apply obj_set_sorted|]. rewrite Forall_forall in *.
  intros kv [->|Hkv]%obj_set_elem; [done|by apply Hm].
Qed.

Lemma sorted_filter (f : string * json → bool) m : StronglySorted key_lt m → StronglySorted key_lt (List.filter f m).
Proof.
  induction 1 as [|kv m Hs IH Hall]; [constructor|]. simpl. destruct (f kv); [|done]. constructor; [done|].
  rewrite Forall_forall in *. intros kv' [? _]%elem_of_filter_bool. by apply Hall.
Qed.

Lemma oks_delete d m k : oks d m → oks d (obj_delete k m).
Proof.
  intros [Hs Hm]. split; [by apply sorted_filter|]. rewrite Forall_forall in *.
  intros kv [? _]%elem_of_filter_bool. by apply Hm.
Qed.

Lemma sorted_map (g : string * json → string * json) m :
  (∀ kv, (g kv).1 = kv.1) → StronglySorted key_lt m → StronglySorted key_lt (map g m).
Proof.
  intros Hg. induction 1 as [|kv m Hs IH Hall]; [constructor|]. constructor; [done|].
  apply Forall_map. eapply Forall_impl; [exact Hall|]. intros kv' Hkv. unfold key_lt in *. cbn. by rewrite !Hg.
Qed.

Lemma oks_map d d' (g : string * json → string * json) m :
  (∀ kv, (g kv).1 = kv.1) → (∀ kv, vok d kv.2 → vok d' (g kv).2) → oks d m → oks d' (map g m).
Proof.
  intros Hg Hv [Hs Hm]. split; [by apply sorted_map|]. apply Forall_map.
  eapply Forall_impl; [exact Hm|]. intros kv [Hk Hkv]. cbn. rewrite Hg. auto.
Qed.

Lemma oks_alter d k f m : (∀ v, vok d v → vok d (f v)) → oks d m → oks d (alter k f m).
Proof. intros Hf. apply oks_map; intros kv; case_decide; cbn; auto. Qed.

Lemma oks_each d f m : (∀ k v, vok d v → vok d (f k v)) → oks d m → oks d (each f m).
Proof. intros Hf. apply oks_map; intros kv; cbn; auto. Qed.

Lemma vok_on_object d f v : (∀ m, oks (d + 1) m → oks (d + 1) (f m)) → vok d v → vok d (on_object f v).
Proof. intros Hf Hv. destruct v; try done. cbn. rewrite vok_JObject in *. naive_solver. Qed.

Lemma ok_on_object d f v : (∀ m, oks (d + 1) m → oks (d + 1) (f m)) → ok d v → ok d (on_object f v).
Proof. intros Hf Hv. destruct v; try done. cbn. rewrite ok_JObject in *. naive_solver. Qed.

Lemma vok_on_array d f v :
  (∀ l, Forall (ok (d + 1)) l → Forall (ok (d + 1)) (f l)) → vok d v → vok d (on_array f v).
Proof. intros Hf Hv. destruct v; try done. cbn. rewrite vok_JArray in *. naive_solver. Qed.

Lemma oks_rename_key d old new m : utf8 new → oks d m → oks d (rename_key old new m).
Proof.
  intros Hn Hm. unfold rename_key. destruct (obj_get old m) eqn:Hg; [|done].
  apply oks_delete, oks_set; [done| |done]. by eapply oks_get.
Qed.

Lemma Forall_filter_bool {A} (P : A → Prop) (f : A → bool) l : Forall P l → Forall P (List.filter f l).
Proof. rewrite !Forall_forall. intros Hl x [? _]%elem_of_filter_bool. auto. Qed.

(** ** Operations of the post-processor *)

Lemma oks_normalizeSchema d schema : oks d schema → oks d (normalizeSchema schema).
Proof.
  intros Hs. unfold normalizeSchema. destruct (obj_get "oneOf" schema) as [v|] eqn:Hg; [|done].
  destruct v as [| | | |oneOf|]; try done.
  pose proof (oks_get _ _ _ _ Hs Hg) as [Hd Hl]%vok_JArray.
  assert (Forall (ok (d + 1)) (List.filter (λ item, negb (plain_object item)) oneOf)) as Hf
    by (by apply Forall_filter_bool).
  assert (∀ l, Forall (ok (d + 1)) l → oks d (obj_set "oneOf" (JArray l) schema)) as Hset.
  { intros l Hl'. apply oks_set; [by apply utf8_ascii| |done]. by apply vok_JArray. }
  destruct (List.filter _ oneOf) as [|item rest]; [by apply oks_delete|].
  destruct item, rest; try (by apply Hset).
  apply Forall_cons in Hf as [[Hd' Ho]%ok_JObject _]. eapply oks_shallower; [exact Ho|]. lia.
Qed.

Lemma oks_on_schemas d f m :
  (∀ schema, oks (d + 4) schema → oks (d + 4) (f schema)) → oks d m → oks d (on_schemas f m).
Proof.
  intros Hf Hm. unfold on_schemas. apply oks_alter; [|done]. intros v1. apply vok_on_object. intros m1.
  apply oks_alter. intros v2. apply vok_on_object. intros m2. apply oks_each. intros _ v3. apply vok_on_object.
  intros m3. apply oks_alter. intros v4. apply vok_on_object. intros m4.
  replace (d + 1 + 1 + 1 + 1)%N with (d + 4)%N by lia. apply Hf.
Qed.

Lemma oks_normalizeSecurity d m : oks d m → oks d (normalizeSecurity m).
Proof.
  apply oks_alter. intros v. apply vok_on_array. intros l Hl. destruct (no_security l); [constructor|].
  apply Forall_map. eapply Forall_impl; [exact Hl|]. intros x. apply ok_on_object. intros n.
  apply oks_rename_key. by apply utf8_ascii.
Qed.
End ok.

(** [good] is [ok] without a condition. *)
Lemma good_ok v : ∀ d, good d v → ok (λ _, True) d v.
Proof.
  revert v. apply (json_nested_ind (λ v, ∀ d, good d v → ok (λ _, True) d v)).
  1-4: intros; match goal with H : good _ _ |- _ => destruct H as [Hw _]; inversion Hw; by constructor end.
  - intros l IH d [Hw Hh]. inversion Hw as [| | | |? Hl|]; subst. cbn [height] in Hh. apply ok_JArray.
    split; [lia|]. rewrite Forall_forall in *. intros v Hv. apply IH; [done|]. split; [by apply Hl|by eapply height_elem].
  - intros m IH d [Hw Hh]. inversion Hw as [| | | | |? Hs Hm]; subst. cbn [height] in Hh. apply ok_JObject.
    split; [lia|]. split; [done|]. rewrite Forall_forall in *. intros kv Hkv. destruct (Hm kv Hkv). split; [done|].
    split; [|done]. apply IH; [done|]. split; [done|by eapply height_member].
Qed.

Lemma ok_good Q v : ∀ d, (d ≤ maxNestingDepth)%N → ok Q d v → good d v.
Proof.
  revert v. apply (json_nested_ind (λ v, ∀ d, (d ≤ maxNestingDepth)%N → ok Q d v → good d v)).
  1-4: intros; match goal with H : ok _ _ _ |- _ => inversion H; split; [by constructor|simpl; lia] end.
  - intros l IH d Hd [Hlt Hl]%ok_JArray. apply good_array; [done|]. rewrite Forall_forall in *.
    intros v Hv. apply IH; [done|lia|by apply Hl].
  - intros m IH d Hd [Hlt [Hs Hm]]%ok_JObject. apply good_object; [done|]. split; [done|].
    rewrite Forall_forall in *. intros kv Hkv. destruct (Hm kv Hkv) as (Hk & Hv & _). split; [done|].
    apply IH; [done|lia|done].
Qed.
