(* ===== verification/SwaggerTheorems.v ===== *)
(** * Theorems about the OpenAPI post-processor

    The published document is normalised and its discriminators resolve; the
    three files agree and read back; the template of [docs.go] is the only part
    of that file that changes. *)

From S2P Require Import Prelude GoLib Float64 Json JsonProps JsonRoundtrip JsonSound HttpJson JsonIndent.
From S2P Require Import Config SwaggerPost SwaggerProps.

(** ** References *)

Definition oldRef : string := schemasRef +:+ typesPrefix +:+ ".".
Definition newRef : string := schemasRef +:+ newTypesPrefix +:+ ".".

(** Not a reference to a schema under its old name. *)
Definition current (s : string) : Prop := HasPrefix s oldRef = false.

Lemma new_current r : current (newRef +:+ r).
Proof. unfold current. reflexivity. Qed.

Lemma vok_rewrite d v :
  (ok current d (rewriteRefs oldRef newRef v)) → utf8 match v with JString s => s | _ => "" end →
  vok current d match v with
                | JString s => if HasPrefix s oldRef then JString (newRef +:+ TrimPrefix s oldRef) else JString s
                | _ => rewriteRefs oldRef newRef v
                end.
Proof.
  intros Hv Hu. destruct v; try done. destruct (HasPrefix s oldRef) eqn:Hp.
  - split; [|intros s' [= <-]; apply new_current]. constructor. apply utf8_app; [by apply utf8_ascii|].
    apply (utf8_drop_ascii oldRef); [done|]. by rewrite <- HasPrefix_TrimPrefix.
  - split; [by constructor|]. by intros s' [= <-].
Qed.

Lemma rewriteRefs_ok v : ∀ d, ok (λ _, True) d v → ok current d (rewriteRefs oldRef newRef v).
Proof.
  revert v. apply (json_nested_ind (λ v, ∀ d, ok (λ _, True) d v → ok current d (rewriteRefs oldRef newRef v))).
  1-4: intros; match goal with H : ok _ _ _ |- _ => inversion H; by constructor end.
  - intros l IH d [Hd Hl]%ok_JArray. apply ok_JArray. split; [done|]. apply Forall_map.
    rewrite Forall_forall in *. intros v Hv. apply IH; [done|by apply Hl].
  - intros m IH d [Hd [Hs Hm]]%ok_JObject. cbn [rewriteRefs]. apply ok_JObject. split; [done|].
    split; [by apply sorted_map|]. apply Forall_map. rewrite Forall_forall in *. intros kv Hkv.
    destruct (Hm kv Hkv) as (Hk & Hv & _). split; [done|]. cbn [snd]. apply vok_rewrite; [by apply IH|].
    destruct Hv; (done || constructor).
Qed.

(** ** Schemas *)

Lemma oks_rename_schemas d (l acc : members) :
  oks (λ _, True) d acc → Forall (λ kv, utf8 kv.1 ∧ vok (λ _, True) d kv.2) l →
  oks (λ _, True) d (fold_left (rename_schema typesPrefix newTypesPrefix) l acc).
Proof.
  intros Hacc Hl. revert acc Hacc. induction Hl as [|[k v] l [Hk Hv] _ IH]; intros acc Hacc; [done|].
  apply IH. unfold rename_schema. cbn [fst snd]. destruct (HasPrefix k _) eqn:Hp; [|done].
  apply oks_delete, oks_set; [|done|done]. apply utf8_app; [by apply utf8_ascii|]. apply utf8_app; [by apply utf8_ascii|].
  apply (utf8_drop_ascii (typesPrefix +:+ ".")); [done|]. by rewrite <- HasPrefix_TrimPrefix.
Qed.

(** Every name with the old prefix is gone. *)
Lemma rename_schemas_current (l acc : members) :
  (∀ kv, kv ∈ acc → HasPrefix kv.1 (typesPrefix +:+ ".") = true → kv.1 ∈ l.*1) →
  ∀ kv, kv ∈ fold_left (rename_schema typesPrefix newTypesPrefix) l acc →
        HasPrefix kv.1 (typesPrefix +:+ ".") = false.
Proof.
  revert acc. induction l as [|[k v] l IH]; intros acc Hacc kv; cbn [fold_left].
  - intros Hkv. destruct (HasPrefix kv.1 _) eqn:Hp; [|done]. by apply (Hacc _ Hkv), not_elem_of_nil in Hp.
  - apply IH. unfold rename_schema. cbn [fst snd]. intros kv' Hkv' Hp'. destruct (HasPrefix k _) eqn:Hp.
    + apply elem_of_filter_bool in Hkv' as [Hin Hne]. to_prop. apply obj_set_elem in Hin as [->|Hin].
      * cbn [fst] in Hp'. by vm_compute in Hp'.
      * apply (Hacc _ Hin) in Hp'. cbn in Hp'. apply elem_of_cons in Hp' as [?|?]; [|done]. done.
    + apply (Hacc _ Hkv') in Hp' as Hin. cbn in Hin. apply elem_of_cons in Hin as [Heq|?]; [|done]. congruence.
Qed.

(** ** The whole document *)

Lemma oks_normalizeServers d m : oks (λ _, True) d m → oks (λ _, True) d (normalizeServers m).
Proof.
  apply oks_alter. intros v. apply vok_on_array. intros l Hl. apply Forall_map. eapply Forall_impl; [exact Hl|].
  intros x. apply ok_on_object. intros server Hs. unfold normalizeServer. case_match; [done|].
  apply oks_set; [by apply utf8_ascii| |done]. split; [|done]. constructor. apply utf8_app; [by apply utf8_ascii|].
  unfold get_string. destruct (obj_get "url" server) as [v'|] eqn:Hg; [|constructor].
  destruct (oks_get _ _ _ _ _ Hs Hg) as [Hv _]. destruct Hv; (done || constructor).
Qed.

Lemma vok_evmDiscriminator : vok current 8 evmDiscriminator.
Proof.
  assert (∀ d s, string_forall ascii_char s = true → current s → vok current d (JString s)) as Hstr.
  { intros d s Ha Hc. split; [constructor; by apply utf8_ascii|by intros s' [= <-]]. }
  apply vok_JObject. split; [done|]. split; [repeat constructor|].
  repeat (apply Forall_cons; split); [..|constructor]; (split; [by apply utf8_ascii|]); [|by apply Hstr].
  apply vok_JObject. split; [done|]. split; [repeat constructor|].
  repeat (apply Forall_cons; split); [..|constructor]; (split; [by apply utf8_ascii|]); by apply Hstr.
Qed.

Lemma oks_normalizeOperation path m : oks current 4 m → oks current 4 (normalizeOperation path m).
Proof.
  intros Hm. unfold normalizeOperation, normalizeRequestBody, injectEVMDiscriminator.
  assert (oks current 4 (on_schemas normalizeSchema (normalizeSecurity m))) as Hn.
  { apply oks_on_schemas; [intros schema; apply oks_normalizeSchema|by apply oks_normalizeSecurity]. }
  destruct (HasSuffix path "/sign/evm"); [|done]. apply oks_on_schemas; [|done]. intros schema Hs.
  destruct (obj_get "oneOf" schema); [|done]. apply oks_set; [by apply utf8_ascii|apply vok_evmDiscriminator|done].
Qed.

(** The document before its paths are normalised. *)
Definition renamed (spec : members) : members :=
  renameSchemaPrefix typesPrefix newTypesPrefix (normalizeServers (obj_set "openapi" (JString "3.0.3") spec)).

Lemma renamed_ok spec : ok (λ _, True) 0 (JObject spec) → oks current 1 (renamed spec).
Proof.
  intros [_ Hs]%ok_JObject. unfold renamed, renameSchemaPrefix, rewrite_spec.
  assert (oks (λ _, True) 1 (alter "components" (on_object (alter "schemas"
            (on_object (rename_schemas typesPrefix newTypesPrefix))))
            (normalizeServers (obj_set "openapi" (JString "3.0.3") spec)))) as H.
  { apply oks_alter.
    - intros v. apply vok_on_object. intros m. apply oks_alter. intros v'. apply vok_on_object. intros schemas Hm.
      apply oks_rename_schemas; [done|apply Hm].
    - apply oks_normalizeServers, oks_set; [by apply utf8_ascii| |done]. split; [|done]. constructor. by apply utf8_ascii. }
  assert (ok (λ _, True) 0 (JObject (alter "components" (on_object (alter "schemas"
            (on_object (rename_schemas typesPrefix newTypesPrefix))))
            (normalizeServers (obj_set "openapi" (JString "3.0.3") spec))))) as Ho by (by apply ok_JObject).
  apply rewriteRefs_ok in Ho. fold oldRef newRef. cbn [rewriteRefs] in Ho |- *. by apply ok_JObject in Ho as [_ Ho].
Qed.

Lemma normalizeSpec_ok spec : ok (λ _, True) 0 (JObject spec) → ok current 0 (JObject (normalizeSpec spec)).
Proof.
  intros Hs%renamed_ok. apply ok_JObject. split; [done|]. unfold normalizeSpec. fold (renamed spec). apply oks_alter.
  - intros v. apply vok_on_object. intros paths. apply oks_each. intros path v'. apply vok_on_object.
    intros ops. apply oks_each. intros _ v''. apply vok_on_object. intros op. apply oks_normalizeOperation.
  - apply oks_alter; [|done]. intros v. apply vok_on_object. intros m. apply oks_alter. intros v'.
    apply vok_on_object. intros m'. apply oks_rename_key. by apply utf8_ascii.
Qed.

(** ** Lookups *)

Lemma obj_get_map (g : string * json → json) k m :
  obj_get k (map (λ kv, (kv.1, g kv)) m) = (λ v, g (k, v)) <$> obj_get k m.
Proof.
  unfold obj_get. induction m as [|[k0 v0] m IH]; [done|]. cbn [map lookup_key fst]. case_decide; [by subst|done].
Qed.

Lemma obj_get_alter k k' f m : obj_get k (alter k' f m) = (if decide (k = k') then f else id) <$> obj_get k m.
Proof.
  unfold obj_get, alter. induction m as [|[k0 v0] m IH]; [done|]. cbn [map fst snd].
  destruct (decide (k0 = k')) as [->|Hne]; cbn [lookup_key].
  - destruct (decide (k' = k)) as [->|]; [by rewrite decide_True|done].
  - destruct (decide (k0 = k)) as [->|]; [by rewrite decide_False|done].
Qed.

Lemma obj_get_alter_ne k k' f m : k ≠ k' → obj_get k (alter k' f m) = obj_get k m.
Proof. intros Hk. rewrite obj_get_alter, decide_False by done. by destruct (obj_get k m). Qed.

Lemma get_object_alter_ne k k' f m : k ≠ k' → get_object k (alter k' f m) = get_object k m.
Proof. intros Hk. unfold get_object. by rewrite obj_get_alter_ne. Qed.

Lemma get_object_alter k f m : f [] = [] → get_object k (alter k (on_object f) m) = f (get_object k m).
Proof. intros Hf. unfold get_object. rewrite obj_get_alter, decide_True by done. by destruct (obj_get k m) as [[]|]. Qed.

Lemma obj_get_set k v m : obj_get k (obj_set k v m) = Some v.
Proof.
  unfold obj_get. induction m as [|[k0 v0] m IH]; cbn [obj_set]; [cbn; by rewrite decide_True|].
  destruct (String.compare k k0) eqn:Hc; cbn [lookup_key]; [by rewrite decide_True..|].
  rewrite decide_False; [done|]. intros ->. by rewrite string_compare_refl in Hc.
Qed.

Lemma obj_get_delete k m : obj_get k (obj_delete k m) = None.
Proof.
  unfold obj_get, obj_delete. induction m as [|[k0 v0] m IH]; [done|]. cbn [List.filter fst].
  case_bool_decide as Hk; [done|]. cbn [negb lookup_key]. by rewrite decide_False.
Qed.

Lemma obj_get_rename old new m : old ≠ new → obj_get old (rename_key old new m) = None.
Proof. intros _. unfold rename_key. destruct (obj_get old m) eqn:?; [apply obj_get_delete|done]. Qed.

(** ** Nodes of a document *)

Inductive within : json → json → Prop :=
  | within_here v : within v v
  | within_item l x v : x ∈ l → within x v → within (JArray l) v
  | within_member m k x v : (k, x) ∈ m → within x v → within (JObject m) v.

Lemma within_ok Q v w : within v w → ∀ d, ok Q d v → ∃ d', ok Q d' w.
Proof.
  induction 1 as [v|l x v Hx _ IH|m k x v Hx _ IH]; intros d; [eauto| |].
  - intros [_ Hl]%ok_JArray. rewrite Forall_forall in Hl. eapply IH, Hl, Hx.
  - intros [_ [_ Hm]]%ok_JObject. rewrite Forall_forall in Hm. destruct (Hm _ Hx) as (_ & Hv & _). eapply IH, Hv.
Qed.

(** Every local reference of a discriminator mapping in the document names a
    schema of the document. *)
Definition discriminators_resolve (spec : members) : Prop :=
  ∀ n k s, within (JObject spec) (JObject n) → (k, JString s) ∈ mapping_of n → HasPrefix s schemasRef = true →
    is_Some (obj_get (TrimPrefix s schemasRef) (get_object "schemas" (get_object "components" spec))).

Lemma ref_exists_true schemas s :
  ref_exists schemas s = true ↔ (HasPrefix s schemasRef = true → is_Some (obj_get (TrimPrefix s schemasRef) schemas)).
Proof.
  unfold ref_exists. destruct (HasPrefix s schemasRef); cbn [negb]; [|naive_solver].
  destruct (obj_get _ schemas); naive_solver.
Qed.

Lemma bad_refs_nil schemas n :
  bad_refs schemas n = [] ↔ ∀ k s, (k, JString s) ∈ mapping_of n → ref_exists schemas s = true.
Proof.
  unfold bad_refs. induction (mapping_of n) as [|[k0 v0] m IH]; [split; [by intros _ k s ?%not_elem_of_nil|done]|].
  cbn [omap list_omap snd]. setoid_rewrite elem_of_cons.
  destruct v0; try (rewrite IH; naive_solver).
  destruct (ref_exists schemas s) eqn:He; [rewrite IH; naive_solver|].
  split; [done|]. intros Hall. specialize (Hall k0 s (or_introl eq_refl)). congruence.
Qed.

Lemma concat_nil {A} (ls : list (list A)) : concat ls = [] ↔ Forall (λ l, l = []) ls.
Proof.
  induction ls as [|l ls IH]; [by split; [constructor|]|]. cbn [concat].
  rewrite Forall_cons, <- IH. split; [by intros ?%app_eq_nil|by intros [-> ->]].
Qed.

Lemma walk_nil schemas v : walk schemas v = [] ↔ ∀ n, within v (JObject n) → bad_refs schemas n = [].
Proof.
  revert v. apply (json_nested_ind (λ v, walk schemas v = [] ↔ ∀ n, within v (JObject n) → bad_refs schemas n = [])).
  1-4: by intros; split; [intros _ n Hw; inversion Hw|].
  - intros l IH. cbn [walk]. rewrite concat_nil, Forall_map, Forall_forall. rewrite Forall_forall in IH. split.
    + intros Hl n Hw. inversion Hw as [|? x ? Hx Hn|]; subst. apply (IH x Hx); [by apply Hl|done].
    + intros Hn x Hx. apply IH; [done|]. intros n Hw. apply Hn. by eapply within_item.
  - intros m IH. cbn [walk]. rewrite Forall_forall in IH. split.
    + intros [Hm Hc]%app_eq_nil n Hw. rewrite concat_nil, Forall_map, Forall_forall in Hc.
      inversion Hw as [| |? k x ? Hx Hn]; subst; [done|]. apply (IH (k, x) Hx); [by apply (Hc (k, x))|done].
    + intros Hn. rewrite (Hn m) by constructor. apply concat_nil, Forall_map, Forall_forall. intros [k x] Hx.
      apply (IH (k, x) Hx). intros n Hw. apply Hn. by eapply within_member.
Qed.

Lemma validateSpecRefs_iff (spec : members) :
  validateSpecRefs spec = Ok tt ↔ discriminators_resolve spec.
Proof.
  unfold validateSpecRefs, discriminators_resolve. set (schemas := get_object "schemas" _).
  assert (walk schemas (JObject spec) = [] ↔ ∀ n k s, within (JObject spec) (JObject n) →
    (k, JString s) ∈ mapping_of n → HasPrefix s schemasRef = true → is_Some (obj_get (TrimPrefix s schemasRef) schemas))
    as <-; [|by destruct (walk _ _)].
  rewrite walk_nil. setoid_rewrite bad_refs_nil. setoid_rewrite ref_exists_true. naive_solver.
Qed.

(** [validateSpecRefs] accepts a document exactly when every local
    reference in a discriminator mapping, at any depth, names a schema the
    document defines. *)
Theorem validateSpecRefs_spec (spec : members) :
  validateSpecRefs spec = Ok tt ↔ discriminators_resolve spec.
Proof. apply validateSpecRefs_iff. Qed.

(** ** The normalised document *)

(** The members of an object with their references rewritten. *)
Definition rewritten (kv : string * json) : json :=
  match kv.2 with
  | JString s => if HasPrefix s oldRef then JString (newRef +:+ TrimPrefix s oldRef) else JString s
  | _ => rewriteRefs oldRef newRef kv.2
  end.

Lemma rewrite_spec_map spec : rewrite_spec oldRef newRef spec = map (λ kv, (kv.1, rewritten kv)) spec.
Proof. done. Qed.

Lemma get_object_rewrite k m :
  get_object k (map (λ kv, (kv.1, rewritten kv)) m) = map (λ kv, (kv.1, rewritten kv)) (get_object k m).
Proof.
  unfold get_object. rewrite obj_get_map. destruct (obj_get k m) as [[]|]; try done.
  cbn. unfold rewritten. cbn. by destruct (HasPrefix s oldRef).
Qed.

Definition components (spec : members) : members := get_object "components" spec.

(** The prefixed document's schemas and security schemes. *)
Lemma normalizeSpec_components spec :
  components (normalizeSpec spec)
  = alter "securitySchemes" (on_object (rename_key "bearerauth" "BearerAuth")) (components (renamed spec)).
Proof.
  unfold components, normalizeSpec. fold (renamed spec). rewrite get_object_alter_ne by done. by rewrite get_object_alter.
Qed.

Lemma renamed_schemas spec :
  get_object "schemas" (components (renamed spec))
  = map (λ kv, (kv.1, rewritten kv)) (rename_schemas typesPrefix newTypesPrefix
      (get_object "schemas" (components (normalizeServers (obj_set "openapi" (JString "3.0.3") spec))))).
Proof.
  unfold components, renamed, renameSchemaPrefix. fold oldRef newRef. rewrite rewrite_spec_map, !get_object_rewrite.
  by rewrite !get_object_alter.
Qed.

Lemma normalizeSpec_reads_back data spec :
  Unmarshal data = Ok (JObject spec) →
  Unmarshal (MarshalIndent (JObject (normalizeSpec spec)) +:+ newline) = Ok (JObject (normalizeSpec spec)).
Proof.
  intros Hdata%Unmarshal_good%good_ok%normalizeSpec_ok. destruct (ok_good _ _ 0 ltac:(done) Hdata) as [Hw Hh].
  by apply Unmarshal_MarshalIndent.
Qed.

(** The normalised form of a decoded document: it declares OpenAPI 3.0.3;
    no member at any depth refers to a schema under the old prefix and no schema
    has a name with it; the security scheme is called [BearerAuth]; and printed
    with indentation it reads back as itself. *)
Theorem normalizeSpec_clean (data : string) (spec : members) :
  Unmarshal data = Ok (JObject spec) →
  let spec' := normalizeSpec spec in
  obj_get "openapi" spec' = Some (JString "3.0.3") ∧
  (∀ n k s, within (JObject spec') (JObject n) → (k, JString s) ∈ n → HasPrefix s oldRef = false) ∧
  (∀ name v, (name, v) ∈ get_object "schemas" (components spec') → HasPrefix name (typesPrefix +:+ ".") = false) ∧
  obj_get "bearerauth" (get_object "securitySchemes" (components spec')) = None ∧
  Unmarshal (MarshalIndent (JObject spec') +:+ newline) = Ok (JObject spec').
Proof.
  intros Hraw. pose proof Hraw as Hdata%Unmarshal_good%good_ok%normalizeSpec_ok. cbv zeta. split_and!.
  - unfold normalizeSpec. fold (renamed spec). rewrite !obj_get_alter_ne by done.
    unfold renamed, renameSchemaPrefix. fold oldRef newRef. rewrite rewrite_spec_map, obj_get_map.
    unfold normalizeServers. rewrite !obj_get_alter_ne by done. by rewrite obj_get_set.
  - intros n k s Hw Hk. destruct (within_ok _ _ _ Hw _ Hdata) as (d & [_ [_ Hn]]%ok_JObject).
    rewrite Forall_forall in Hn. destruct (Hn _ Hk) as (_ & _ & HQ). by apply HQ.
  - intros name v. rewrite normalizeSpec_components, get_object_alter_ne, renamed_schemas by done.
    intros ([k x] & [= -> ->] & Hin)%list_elem_of_fmap. refine (rename_schemas_current _ _ _ (k, x) Hin).
    intros kv Hkv _. apply list_elem_of_fmap. by exists kv.
  - rewrite normalizeSpec_components, get_object_alter by done. by apply obj_get_rename.
  - by eapply normalizeSpec_reads_back.
Qed.

(** ** The template of [docs.go] *)

Lemma CutPrefix_long s x p : String.length p ≤ String.length s → HasPrefix (s +:+ x) p = HasPrefix s p.
Proof.
  unfold HasPrefix. revert s. induction p as [|c p IH]; intros [|c' s] Hl; simpl in Hl; try done; [by destruct x|lia|].
  change (String c' s +:+ x) with (String c' (s +:+ x)). cbn [CutPrefix]. case_decide; [apply IH; lia|done].
Qed.

Lemma str_drop_app_exact s t : str_drop (String.length s) (s +:+ t) = t.
Proof. by rewrite str_drop_app, str_drop_all. Qed.

Lemma str_take_app_exact s t : str_take (String.length s) (s +:+ t) = s.
Proof. by rewrite str_take_app, str_take_all. Qed.

(** Where a marker is found first. *)
Lemma Index_Some s sub n :
  Index s sub = Some n → ∃ pre post, s = pre +:+ sub +:+ post ∧ String.length pre = n.
Proof.
  revert n. induction s as [|c s IH]; intros n; cbn [Index].
  - destruct (HasPrefix "" sub) eqn:Hp; [|done]. intros [= <-]. apply HasPrefix_true in Hp as [r Hr].
    exists "", r. by split.
  - destruct (HasPrefix (String c s) sub) eqn:Hp.
    + intros [= <-]. apply HasPrefix_true in Hp as [r Hr]. exists "", r. by split.
    + intros (n' & Hn & ->)%fmap_Some. destruct (IH n' Hn) as (pre & post & -> & <-). by exists (String c pre), post.
Qed.

(** What follows the first occurrence does not matter. *)
Lemma Index_same_prefix pre sub x y :
  sub ≠ "" → Index (pre +:+ sub +:+ x) sub = Some (String.length pre) →
  Index (pre +:+ sub +:+ y) sub = Some (String.length pre).
Proof.
  intros Hne. induction pre as [|c pre IH].
  - intros _. destruct sub as [|c sub]; [done|]. change ("" +:+ String c sub +:+ y) with (String c (sub +:+ y)).
    cbn [Index]. change (String c (sub +:+ y)) with (String c sub +:+ y). by rewrite HasPrefix_app.
  - change (String c pre +:+ sub +:+ x) with (String c (pre +:+ sub +:+ x)).
    change (String c pre +:+ sub +:+ y) with (String c (pre +:+ sub +:+ y)). cbn [Index].
    assert (∀ z, HasPrefix (String c (pre +:+ sub +:+ z)) sub = HasPrefix (String c (pre +:+ sub)) sub) as Hz.
    { intros z. rewrite <- string_app_assoc. apply (CutPrefix_long (String c (pre +:+ sub)) z sub).
      simpl. rewrite string_length_app. lia. }
    rewrite !Hz. destruct (HasPrefix _ sub); [done|]. intros (n & Hn & [= <-])%fmap_Some. by rewrite IH.
Qed.

(** The end marker is found behind a text that does not contain it. *)
Lemma Index_end s post :
  Contains s endMarker = false → Index (s +:+ endMarker +:+ post) endMarker = Some (String.length s).
Proof.
  induction s as [|c s IH]; [by destruct post|]. cbn [Contains]. intros [Hp Hs]%orb_false_iff.
  change (String c s +:+ endMarker +:+ post) with (String c (s +:+ endMarker +:+ post)). cbn [Index].
  assert (HasPrefix (String c (s +:+ endMarker +:+ post)) endMarker = false) as ->; [|by rewrite IH].
  revert Hp. unfold HasPrefix, endMarker. cbn [CutPrefix]. case_decide; [|done].
  destruct s as [|c' s]; [done|]. change (String c' s +:+ ?t) with (String c' (s +:+ t)). cbn [CutPrefix newline].
  case_decide; [|done]. by destruct s.
Qed.

Lemma replace_template_shape path data spec data' :
  replace_template path data spec = Ok data' →
  ∃ pre old post, data = pre +:+ startMarker +:+ old +:+ endMarker +:+ post ∧
    data' = pre +:+ startMarker +:+ spec +:+ endMarker +:+ post ∧
    Index data startMarker = Some (String.length pre) ∧
    Index (old +:+ endMarker +:+ post) endMarker = Some (String.length old).
Proof.
  unfold replace_template. destruct (Index data startMarker) as [start|] eqn:Hstart; [|done].
  destruct (Index_Some _ _ _ Hstart) as (pre & rest & -> & Hpre).
  assert (∀ x, str_drop (start + String.length startMarker) (pre +:+ startMarker +:+ x) = x) as Hdrop.
  { intros x. rewrite <- Hpre, <- string_length_app, <- string_app_assoc. apply str_drop_app_exact. }
  rewrite Hdrop. destruct (Index rest endMarker) as [endRel|] eqn:Hend; [|done]. intros [= <-].
  destruct (Index_Some _ _ _ Hend) as (old & post & -> & Hold). exists pre, old, post.
  split_and!; [done| |by rewrite Hpre|by rewrite Hold]. change 21 with (String.length startMarker).
  assert (str_take (start + String.length startMarker) (pre +:+ startMarker +:+ old +:+ endMarker +:+ post)
          = pre +:+ startMarker) as ->.
  { rewrite <- Hpre, <- string_length_app, <- string_app_assoc. apply str_take_app_exact. }
  assert (str_drop (start + String.length startMarker + endRel) (pre +:+ startMarker +:+ old +:+ endMarker +:+ post)
          = endMarker +:+ post) as ->.
  { rewrite <- Hpre, <- Hold, <- !string_length_app.
    rewrite <- (string_app_assoc pre), <- (string_app_assoc (pre +:+ startMarker)). apply str_drop_app_exact. }
  by rewrite !string_app_assoc.
Qed.

(** The template is found where the shape says. *)
Lemma replace_template_at path pre old post spec :
  Index (pre +:+ startMarker +:+ old +:+ endMarker +:+ post) startMarker = Some (String.length pre) →
  Index (old +:+ endMarker +:+ post) endMarker = Some (String.length old) →
  replace_template path (pre +:+ startMarker +:+ old +:+ endMarker +:+ post) spec
  = Ok (pre +:+ startMarker +:+ spec +:+ endMarker +:+ post).
Proof.
  intros Hs He. unfold replace_template. rewrite Hs. cbv zeta.
  set (a := pre +:+ startMarker). set (x := old +:+ endMarker +:+ post).
  assert (pre +:+ startMarker +:+ x = a +:+ x) as -> by (symmetry; apply string_app_assoc).
  assert (String.length pre + String.length startMarker = String.length a) as ->
    by (symmetry; apply string_length_app).
  rewrite str_drop_app_exact. unfold x at 1. rewrite He, str_take_app_exact.
  assert (a +:+ x = (a +:+ old) +:+ endMarker +:+ post) as -> by (unfold x; by rewrite string_app_assoc).
  rewrite <- string_length_app, str_drop_app_exact. unfold a. by rewrite string_app_assoc.
Qed.

(** Rewriting [docs.go] replaces exactly the text between the markers of
    its template and nothing else; and when the new text has no end marker in
    it, rewriting again gives what rewriting the original would: the last
    rewrite wins, so that running the build step repeatedly does not
    accumulate. *)
Theorem replace_template_stable (path data spec data' : string) :
  replace_template path data spec = Ok data' → Contains spec endMarker = false →
  (∃ pre old post, data = pre +:+ startMarker +:+ old +:+ endMarker +:+ post ∧
     data' = pre +:+ startMarker +:+ spec +:+ endMarker +:+ post) ∧
  ∀ spec', replace_template path data' spec' = replace_template path data spec'.
Proof.
  intros (pre & old & post & -> & -> & Hs & He)%replace_template_shape Hno. split; [by exists pre, old, post|].
  intros spec'. rewrite (replace_template_at path pre old) by done. apply replace_template_at.
  - by eapply Index_same_prefix.
  - by apply Index_end.
Qed.

(** ** The build step *)

Definition published (spec : members) : string := MarshalIndent (JObject (normalizeSpec spec)) +:+ newline.

Lemma loadSpec_reads (fs : FS) (data : string) (spec : members) :
  fs_files fs !! "docs/swagger.json" = Some data → Unmarshal data = Ok (JObject spec) →
  loadSpec "docs/swagger.json" fs = (fs, Val (Ok (Some spec))).
Proof. intros Hdata Hspec. unfold loadSpec, body, bind, try_, ReadFile. rewrite Hdata, Hspec. done. Qed.

(** ** What a run leaves *)

(** The first occurrence of a marker. *)
Definition first_at (sub data pre post : string) : Prop :=
  data = pre +:+ sub +:+ post ∧
  ∀ pre' post', data = pre' +:+ sub +:+ post' → String.length pre ≤ String.length pre'.

(** The text [old] of the template of a Go file: from its first start marker
    up to the next end marker. *)
Definition template_in (data pre old post : string) : Prop :=
  ∃ rest, first_at startMarker data pre rest ∧ first_at endMarker rest old post.

Lemma Index_bound pre sub post : ∃ n, Index (pre +:+ sub +:+ post) sub = Some n ∧ n ≤ String.length pre.
Proof.
  induction pre as [|c pre (n & Hn & Hle)].
  - exists 0. split; [|done]. change ("" +:+ sub +:+ post) with (sub +:+ post).
    pose proof (HasPrefix_app sub post) as Hp. destruct (sub +:+ post); cbn [Index]; by rewrite Hp.
  - change (String c pre +:+ sub +:+ post) with (String c (pre +:+ sub +:+ post)). cbn [Index].
    destruct (HasPrefix _ sub); [exists 0|exists (S n)]; split; [done|simpl; lia|by rewrite Hn|simpl; lia].
Qed.

Lemma first_at_Index sub data pre post :
  first_at sub data pre post ↔ data = pre +:+ sub +:+ post ∧ Index data sub = Some (String.length pre).
Proof.
  split; intros [-> Hfirst]; (split; [done|]).
  - destruct (Index_bound pre sub post) as (n & Hn & Hle). rewrite Hn. f_equal.
    destruct (Index_Some _ _ _ Hn) as (pre' & post' & Heq & <-). specialize (Hfirst _ _ Heq). lia.
  - intros pre' post' Heq. rewrite Heq in Hfirst. destruct (Index_bound pre' sub post') as (n & Hn & Hle).
    rewrite Hfirst in Hn. by injection Hn as ->.
Qed.

(** The step replaces the text of the template, and fails without one. *)
Lemma replace_template_spec path data spec :
  (∀ pre old post, template_in data pre old post →
     replace_template path data spec = Ok (pre +:+ startMarker +:+ spec +:+ endMarker +:+ post)) ∧
  ((∀ pre old post, ¬ template_in data pre old post) → ∃ e, replace_template path data spec = Err e).
Proof.
  split.
  - intros pre old post (rest & [-> Hs]%first_at_Index & [-> He]%first_at_Index). by apply replace_template_at.
  - intros Hno. destruct (replace_template path data spec) as [data'|e] eqn:Hr; [|by exists e].
    destruct (replace_template_shape _ _ _ _ Hr) as (pre & old & post & Hd & _ & Hs & He).
    destruct (Hno pre old post). eexists. by split; apply first_at_Index.
Qed.

Definition outputs : list string := ["docs/swagger.json"; "docs/swagger.yaml"; "docs/docs.go"].

(** The files after both documents have been written. *)
Definition documents_written (fs : FS) (text : string) : gmap string string :=
  <["docs/swagger.yaml" := text]> (<["docs/swagger.json" := text]> (fs_files fs)).

(** [docs.go] is there and has a template. *)
Definition has_template (fs : FS) : Prop :=
  ∃ docs pre old post, fs_files fs !! "docs/docs.go" = Some docs ∧ template_in docs pre old post.

(** The files a run leaves that stops on the way: in the write of one of the
    documents, at a [docs.go] that cannot be read or has no template, or in the
    write of [docs.go]. *)
Inductive interrupted (fs : FS) (text : string) : gmap string string → Prop :=
  | stopped_json left_ :
      fs_faults fs !! "docs/swagger.json" = Some left_ →
      interrupted fs text (partial_alter (λ _, left_) "docs/swagger.json" (fs_files fs))
  | stopped_yaml left_ :
      fs_faults fs !! "docs/swagger.json" = None → fs_faults fs !! "docs/swagger.yaml" = Some left_ →
      interrupted fs text
        (partial_alter (λ _, left_) "docs/swagger.yaml" (<["docs/swagger.json" := text]> (fs_files fs)))
  | stopped_template :
      fs_faults fs !! "docs/swagger.json" = None → fs_faults fs !! "docs/swagger.yaml" = None →
      ¬ has_template fs → interrupted fs text (documents_written fs text)
  | stopped_docs left_ :
      fs_faults fs !! "docs/swagger.json" = None → fs_faults fs !! "docs/swagger.yaml" = None →
      has_template fs → fs_faults fs !! "docs/docs.go" = Some left_ →
      interrupted fs text (partial_alter (λ _, left_) "docs/docs.go" (documents_written fs text)).

Lemma has_template_dec (fs : FS) : has_template fs ∨ ¬ has_template fs.
Proof.
  unfold has_template. destruct (fs_files fs !! "docs/docs.go") as [docs|] eqn:Hd; [|right; naive_solver].
  destruct (replace_template "" docs "") as [docs'|e] eqn:Hr.
  - left. destruct (replace_template_shape _ _ _ _ Hr) as (pre & old & post & Heq & _ & Hs & He).
    exists docs, pre, old, post. split; [done|]. eexists. by split; apply first_at_Index.
  - right. intros (d & pre & old & post & [= <-] & Ht).
    by rewrite (proj1 (replace_template_spec "" docs "") _ _ _ Ht) in Hr.
Qed.

Lemma rewriteDocTemplate_runs (fs : FS) text :
  (∀ docs pre old post, fs_files fs !! "docs/docs.go" = Some docs → template_in docs pre old post →
     fs_faults fs !! "docs/docs.go" = None →
     rewriteDocTemplate "docs/docs.go" text fs
     = (mkFS (<["docs/docs.go" := pre +:+ startMarker +:+ text +:+ endMarker +:+ post]> (fs_files fs)) (fs_faults fs),
        Val (Ok tt))) ∧
  (∀ left_, has_template fs → fs_faults fs !! "docs/docs.go" = Some left_ →
     ∃ e, rewriteDocTemplate "docs/docs.go" text fs
     = (mkFS (partial_alter (λ _, left_) "docs/docs.go" (fs_files fs)) (fs_faults fs), Val (Err e))) ∧
  (¬ has_template fs → ∃ e, rewriteDocTemplate "docs/docs.go" text fs = (fs, Val (Err e))).
Proof.
  unfold rewriteDocTemplate, ReadFile, WriteFile, body, bind, try_, check, next. split_and!.
  - intros docs pre old post Hd Ht Hf. rewrite Hd, (proj1 (replace_template_spec _ _ _) _ _ _ Ht). by rewrite Hf.
  - intros left_ (docs & pre & old & post & Hd & Ht) Hf.
    rewrite Hd, (proj1 (replace_template_spec _ _ _) _ _ _ Ht), Hf. by eexists.
  - intros Hno. destruct (fs_files fs !! "docs/docs.go") as [docs|] eqn:Hd; [|by eexists].
    destruct (proj2 (replace_template_spec "docs/docs.go" docs text)) as [e ->]; [|by eexists].
    intros pre old post Ht. apply Hno. by exists docs, pre, old, post.
Qed.

(** A run over a document whose discriminators resolve writes the documents
    and then rewrites [docs.go]. *)
Lemma run_resolved (fs : FS) (data : string) (spec : members) :
  fs_files fs !! "docs/swagger.json" = Some data → Unmarshal data = Ok (JObject spec) →
  discriminators_resolve (normalizeSpec spec) →
  fs_faults fs !! "docs/swagger.json" = None → fs_faults fs !! "docs/swagger.yaml" = None →
  run fs = rewriteDocTemplate "docs/docs.go" (published spec) (mkFS (documents_written fs (published spec)) (fs_faults fs)).
Proof.
  intros Hdata Hspec Hyes%validateSpecRefs_iff Hj Hy. unfold run, bind at 1, try_ at 1, body at 1.
  rewrite (loadSpec_reads fs data spec) by done. unfold bind, check, next, try_. rewrite Hyes. fold (published spec).
  unfold WriteFile. rewrite Hj. cbn [fs_faults fs_files]. rewrite Hy. fold (documents_written fs (published spec)).
  by destruct (rewriteDocTemplate _ _ _) as [fs' [[[]|]|]].
Qed.

(** A write of a document that fails ends the run. *)
Lemma run_write_fails (fs : FS) (data : string) (spec : members) :
  fs_files fs !! "docs/swagger.json" = Some data → Unmarshal data = Ok (JObject spec) →
  discriminators_resolve (normalizeSpec spec) →
  is_Some (fs_faults fs !! "docs/swagger.json") ∨ is_Some (fs_faults fs !! "docs/swagger.yaml") →
  ∃ fs' e, run fs = (fs', Val (Err e)) ∧ interrupted fs (published spec) (fs_files fs').
Proof.
  intros Hdata Hspec Hyes%validateSpecRefs_iff Hfault. unfold run, body, bind, try_, check, next.
  rewrite (loadSpec_reads fs data spec), Hyes by done. fold (published spec). unfold WriteFile at 1.
  destruct (fs_faults fs !! "docs/swagger.json") as [left_|] eqn:Hj.
  { do 2 eexists. split; [reflexivity|]. by apply stopped_json. }
  destruct Hfault as [[? ?]|[left_ Hy]]; [done|]. unfold WriteFile at 1. cbn [fs_faults fs_files]. rewrite Hy.
  do 2 eexists. split; [reflexivity|]. by apply stopped_yaml.
Qed.

Lemma has_template_written (fs : FS) text faults :
  has_template (mkFS (documents_written fs text) faults) ↔ has_template fs.
Proof. unfold has_template, documents_written. cbn [fs_files]. by rewrite !lookup_insert_ne. Qed.

(** What a run over files that can be written leaves. *)
Lemma run_writes (fs : FS) (data docs pre old post : string) (spec : members) :
  fs_files fs !! "docs/swagger.json" = Some data → Unmarshal data = Ok (JObject spec) →
  discriminators_resolve (normalizeSpec spec) → (∀ path, path ∈ outputs → fs_faults fs !! path = None) →
  fs_files fs !! "docs/docs.go" = Some docs → template_in docs pre old post →
  run fs = (mkFS (<["docs/docs.go" := pre +:+ startMarker +:+ published spec +:+ endMarker +:+ post]>
                   (documents_written fs (published spec))) (fs_faults fs), Val (Ok tt)).
Proof.
  intros Hdata Hspec Hyes Hf Hdocs Ht. rewrite (run_resolved fs data spec) by (done || apply Hf; set_solver).
  apply (proj1 (rewriteDocTemplate_runs (mkFS (documents_written fs (published spec)) (fs_faults fs)) (published spec))
           docs pre old post); [|done|apply Hf; set_solver].
  unfold documents_written. cbn [fs_files]. by rewrite !lookup_insert_ne.
Qed.

(** C27. What the build step does to the files, on a document that decodes: when
    a discriminator of the normalised document refers to a schema that is not
    there, it fails before any file is written.  Otherwise, when the three
    files can be written and [docs.go] has a template (the text from its first
    start marker to the next end marker), it succeeds: [swagger.json] and
    [swagger.yaml] hold one and the same text, which reads back as the
    normalised document, [docs.go] is as it was with exactly that text as its
    template, and every other file is as it was.  In all other cases it fails,
    and only the files before the failing one are rewritten: a [docs.go] that
    is missing or has no template is found after the documents have been
    written. *)
Theorem run_publishes (fs : FS) (data : string) (spec : members) :
  fs_files fs !! "docs/swagger.json" = Some data → Unmarshal data = Ok (JObject spec) →
  Unmarshal (published spec) = Ok (JObject (normalizeSpec spec)) ∧
  (¬ discriminators_resolve (normalizeSpec spec) → ∃ e, run fs = (fs, Val (Err e))) ∧
  (discriminators_resolve (normalizeSpec spec) →
     (∀ docs pre old post, (∀ path, path ∈ outputs → fs_faults fs !! path = None) →
        fs_files fs !! "docs/docs.go" = Some docs → template_in docs pre old post →
        run fs = (mkFS (<["docs/docs.go" := pre +:+ startMarker +:+ published spec +:+ endMarker +:+ post]>
                         (<["docs/swagger.yaml" := published spec]>
                           (<["docs/swagger.json" := published spec]> (fs_files fs)))) (fs_faults fs), Val (Ok tt))) ∧
     ((∃ path, path ∈ outputs ∧ is_Some (fs_faults fs !! path)) ∨ ¬ has_template fs →
        ∃ fs' e, run fs = (fs', Val (Err e)) ∧ interrupted fs (published spec) (fs_files fs'))).
Proof.
  intros Hdata Hspec. split_and!; [by eapply normalizeSpec_reads_back| |].
  { intros Hno. destruct (validateSpecRefs (normalizeSpec spec)) as [[]|e] eqn:Hv; [by apply validateSpecRefs_iff in Hv|].
    exists e. unfold run, body, bind, try_, check, next. by rewrite (loadSpec_reads fs data spec), Hv. }
  intros Hyes. split; [intros docs pre old post Hf Hdocs Ht; by eapply run_writes|]. intros Hbad.
  destruct (fs_faults fs !! "docs/swagger.json") eqn:Hj; [eapply run_write_fails; eauto|].
  destruct (fs_faults fs !! "docs/swagger.yaml") eqn:Hy; [eapply run_write_fails; eauto|].
  rewrite (run_resolved fs data spec) by done.
  destruct (rewriteDocTemplate_runs (mkFS (documents_written fs (published spec)) (fs_faults fs)) (published spec))
    as (_ & Hfails & Hmissing). rewrite has_template_written in Hmissing.
  destruct (has_template_dec fs) as [Ht|Hno].
  - destruct Hbad as [(path & Hpath & left_ & Hl)|]; [|done].
    assert (path = "docs/docs.go") as -> by (unfold outputs in Hpath; set_solver).
    destruct (Hfails left_ (proj2 (has_template_written _ _ _) Ht) Hl) as [e ->].
    do 2 eexists. split; [reflexivity|]. by apply stopped_docs.
  - destruct (Hmissing Hno) as [e ->]. do 2 eexists. split; [reflexivity|]. by apply stopped_template.
Qed.

(** ** Witnesses *)

Module SwaggerChecks.
Definition schema (name : string) : string * json := (typesPrefix +:+ "." +:+ name, JObject [("type", JString "object")]).

(** A document as [swag] writes it, with an EVM sign operation. *)
Definition generated : json :=
  JObject
    [("components", JObject
        [("schemas", JObject [schema "EVMSignEIP712Request"; schema "EVMSignPersonalMessageRequest";
                              schema "EVMSignRawTxRequest"]);
         ("securitySchemes", JObject [("bearerauth", JObject [("type", JString "http")])])]);
     ("openapi", JString "3.1.0");
     ("paths", JObject
        [("/v1/sign/evm", JObject
            [("post", JObject
                [("requestBody", JObject [("content", JObject [("application/json", JObject [("schema", JObject
                    [("oneOf", JArray [JObject [("type", JString "object")];
                                       JObject [("$ref", JString (oldRef +:+ "EVMSignRawTxRequest"))];
                                       JObject [("$ref", JString (oldRef +:+ "EVMSignEIP712Request"))]])])])])]);
                 ("security", JArray [JObject [("bearerauth", JArray [])]])])])]);
     ("servers", JArray [JObject [("url", JString "localhost:8080")]])].

Definition source : string := Marshal generated.

Definition spec : members := match generated with JObject m => m | _ => [] end.

Lemma source_decodes : Unmarshal source = Ok (JObject spec).
Proof. vm_compute. reflexivity. Qed.

Definition docs_go : string := "package docs " +:+ startMarker +:+ "{}" +:+ endMarker +:+ "var x = 1".

Definition files : FS := mkFS {["docs/swagger.json" := source; "docs/docs.go" := docs_go]} ∅.

Definition rewritten_docs : string :=
  match replace_template "docs/docs.go" docs_go (published spec) with Ok d => d | Err _ => "" end.

Lemma resolves : discriminators_resolve (normalizeSpec spec).
Proof. apply validateSpecRefs_iff. vm_compute. reflexivity. Qed.

Lemma replaced : replace_template "docs/docs.go" docs_go (published spec) = Ok rewritten_docs.
Proof. vm_compute. reflexivity. Qed.

Lemma docs_go_template : template_in docs_go "package docs " "{}" "var x = 1".
Proof. eexists. split; apply first_at_Index; by split. Qed.

Lemma run_publishes_witness :
  Unmarshal (published spec) = Ok (JObject (normalizeSpec spec)) ∧
  run files = (mkFS (<["docs/docs.go" := "package docs " +:+ startMarker +:+ published spec +:+ endMarker +:+ "var x = 1"]>
                      (<["docs/swagger.yaml" := published spec]>
                        (<["docs/swagger.json" := published spec]> (fs_files files)))) ∅, Val (Ok tt)).
Proof.
  destruct (run_publishes files source spec eq_refl source_decodes) as (Hback & _ & Hrun). split; [exact Hback|].
  apply (proj1 (Hrun resolves) docs_go "package docs " "{}" "var x = 1").
  - intros path _. apply lookup_empty.
  - reflexivity.
  - apply docs_go_template.
Defined.

(** Without a template in [docs.go] the step fails after both documents have
    been written. *)
Definition untemplated : FS := mkFS {["docs/swagger.json" := source; "docs/docs.go" := "package docs"]} ∅.

Example untemplated_run :
  match run untemplated with
  | (fs', Val (Err _)) => fs_files fs' = <["docs/swagger.yaml" := published spec]>
                                           (<["docs/swagger.json" := published spec]> (fs_files untemplated))
  | _ => False
  end.
Proof. vm_compute. reflexivity. Qed.

Lemma normalizeSpec_clean_witness :
  obj_get "openapi" (normalizeSpec spec) = Some (JString "3.0.3") ∧
  (∀ n k s, within (JObject (normalizeSpec spec)) (JObject n) → (k, JString s) ∈ n → HasPrefix s oldRef = false) ∧
  (∀ name v, (name, v) ∈ get_object "schemas" (components (normalizeSpec spec)) →
     HasPrefix name (typesPrefix +:+ ".") = false) ∧
  obj_get "bearerauth" (get_object "securitySchemes" (components (normalizeSpec spec))) = None ∧
  Unmarshal (MarshalIndent (JObject (normalizeSpec spec)) +:+ newline) = Ok (JObject (normalizeSpec spec)).
Proof. exact (normalizeSpec_clean source spec source_decodes). Defined.

Lemma replace_template_stable_witness :
  (∃ pre old post, docs_go = pre +:+ startMarker +:+ old +:+ endMarker +:+ post ∧
     rewritten_docs = pre +:+ startMarker +:+ published spec +:+ endMarker +:+ post) ∧
  ∀ spec', replace_template "docs/docs.go" rewritten_docs spec' = replace_template "docs/docs.go" docs_go spec'.
Proof.
  apply (replace_template_stable "docs/docs.go" docs_go (published spec) rewritten_docs replaced).
  vm_compute. reflexivity.
Defined.
End SwaggerChecks.
