(* ===== verification/OpenApi.v ===== *)
(** * The published OpenAPI document: [docs/docs.go]

    The document as a value.  Its text, which [docs.go] holds in a raw string,
    is the value printed as the build step prints it ([docTemplate]). *)

From S2P Require Import Prelude GoLib Float64 Json HttpJson JsonIndent SwaggerPost.

(** ** Abbreviations for what the document repeats *)

Definition number (z : Z) : json :=
  match ParseFloat (int_lit z) with Some f => JNumber f | None => JNull end.

(** The name of a schema of [pkg/types] and a reference to it. *)
Definition named (name : string) : string := newTypesPrefix +:+ "." +:+ name.
Definition ref (name : string) : string := schemasRef +:+ named name.
Definition refTo (name : string) : json := JObject [("$ref", JString (ref name))].

Definition ofType (t : string) : json := JObject [("type", JString t)].

(** A response with a JSON body. *)
Definition response (sch : json) (description : string) : json :=
  JObject
    [("content", JObject [("application/json", JObject [("schema", sch)])]);
     ("description", JString description)].

(** ** The document *)

Definition doc_Chain : json :=
  JObject
    [("enum", JArray [JString "evm"; JString "cosmos"]);
     ("type", JString "string");
     ("x-enum-varnames", JArray [JString "ChainEVM"; JString "ChainCosmos"])].

Definition doc_CosmosSignRequest : json :=
  JObject
    [("properties", JObject
         [("hrp", ofType "string");
          ("key_path", JObject [("example", JString "proj-a/prod/alice"); ("type", JString "string")]);
          ("sign_doc", JObject
              [("description", JString "SignDoc is base64 protobuf bytes when sign_mode=DIRECT and raw JSON when sign_mode=AMINO_JSON.");
               ("type", JString "string")]);
          ("sign_mode", JObject [("enum", JArray [JString "DIRECT"; JString "AMINO_JSON"]); ("type", JString "string")])]);
     ("required", JArray [JString "key_path"; JString "sign_doc"; JString "sign_mode"]);
     ("type", JString "object")].

Definition doc_EVMSignEIP712Request : json :=
  JObject
    [("properties", JObject
         [("eip712_digest", JObject [("pattern", JString "^(0x)?[0-9a-fA-F]{64}$"); ("type", JString "string")]);
          ("key_path", JObject [("example", JString "proj-a/prod/alice"); ("type", JString "string")])]);
     ("required", JArray [JString "eip712_digest"; JString "key_path"]);
     ("type", JString "object")].

Definition doc_EVMSignPersonalMessageRequest : json :=
  JObject
    [("properties", JObject
         [("key_path", JObject [("example", JString "proj-a/prod/alice"); ("type", JString "string")]);
          ("personal_message", JObject [("pattern", JString "^(0x)?[0-9a-fA-F]+$"); ("type", JString "string")])]);
     ("required", JArray [JString "key_path"; JString "personal_message"]);
     ("type", JString "object")].

Definition doc_EVMSignRawTxRequest : json :=
  JObject
    [("properties", JObject
         [("chain_id", JObject [("example", number 1); ("minimum", number 1); ("type", JString "integer")]);
          ("key_path", JObject [("example", JString "proj-a/prod/alice"); ("type", JString "string")]);
          ("raw_tx", JObject [("pattern", JString "^(0x)?[0-9a-fA-F]+$"); ("type", JString "string")])]);
     ("required", JArray [JString "chain_id"; JString "key_path"; JString "raw_tx"]);
     ("type", JString "object")].

Definition doc_ErrorResponse : json :=
  JObject
    [("properties", JObject [("error", JObject [("example", JString "unauthorized"); ("type", JString "string")])]);
     ("required", JArray [JString "error"]);
     ("type", JString "object")].

Definition doc_KeyCreateRequest : json :=
  JObject
    [("properties", JObject
         [("chains", JObject
              [("example", JArray [JString "evm"; JString "cosmos"]);
               ("items", refTo "Chain");
               ("type", JString "array");
               ("uniqueItems", JBool false)]);
          ("path", JObject [("example", JString "proj-a/prod/alice"); ("type", JString "string")])]);
     ("required", JArray [JString "chains"; JString "path"]);
     ("type", JString "object")].

Definition doc_KeyCreateResponse : json :=
  JObject
    [("properties", JObject
         [("already_existed", JObject [("example", JBool false); ("type", JString "boolean")]);
          ("chains", JObject [("items", refTo "Chain"); ("type", JString "array"); ("uniqueItems", JBool false)]);
          ("cosmos_address", ofType "string");
          ("evm_address", ofType "string");
          ("path", ofType "string");
          ("public_key_hex", ofType "string")]);
     ("type", JString "object")].

Definition doc_KeyInfo : json :=
  JObject
    [("properties", JObject
         [("chains", JObject [("items", refTo "Chain"); ("type", JString "array"); ("uniqueItems", JBool false)]);
          ("cosmos_address", ofType "string");
          ("evm_address", ofType "string");
          ("path", ofType "string");
          ("public_key_hex", ofType "string")]);
     ("type", JString "object")].

Definition doc_KeyListEntry : json :=
  JObject
    [("properties", JObject
         [("chains", JObject
              [("description", JString "Chains is the key's persisted allow-list, always a (possibly empty)
array — never null — so the closed-set enum schema holds for generated
clients. When the chain tag cannot be read in a resilient list,
ChainsAvailable is false and Chains is empty (see resilient list).");
               ("items", refTo "Chain");
               ("type", JString "array");
               ("uniqueItems", JBool false)]);
          ("chains_available", ofType "boolean");
          ("path", ofType "string")]);
     ("type", JString "object")].

Definition doc_KeyListResponse : json :=
  JObject
    [("properties", JObject
         [("count", JObject [("example", number 2); ("type", JString "integer")]);
          ("keys", JObject [("items", refTo "KeyListEntry"); ("type", JString "array"); ("uniqueItems", JBool false)]);
          ("next_cursor", ofType "string")]);
     ("type", JString "object")].

Definition doc_KeyUpdateChainsRequest : json :=
  JObject
    [("properties", JObject
         [("add_chains", JObject
              [("example", JArray [JString "cosmos"]);
               ("items", refTo "Chain");
               ("type", JString "array");
               ("uniqueItems", JBool false)])]);
     ("required", JArray [JString "add_chains"]);
     ("type", JString "object")].

Definition doc_KeyUpdateChainsResponse : json :=
  JObject
    [("properties", JObject
         [("chains", JObject [("items", refTo "Chain"); ("type", JString "array"); ("uniqueItems", JBool false)]);
          ("path", ofType "string")]);
     ("type", JString "object")].

Definition doc_SignResponse : json :=
  JObject
    [("properties", JObject
         [("cosmos_address", ofType "string");
          ("pub_key", ofType "string");
          ("signature", ofType "string");
          ("signature_parts", refTo "SignatureParts");
          ("signed_tx", ofType "string")]);
     ("type", JString "object")].

Definition doc_SignatureParts : json :=
  JObject
    [("properties", JObject [("r", ofType "string"); ("s", ofType "string"); ("v", ofType "integer")]);
     ("type", JString "object")].

Definition op_get_health : json :=
  JObject
    [("responses", JObject
         [("200", response (JObject [("additionalProperties", ofType "string"); ("type", JString "object")]) "OK");
          ("503", response (JObject [("additionalProperties", ofType "string"); ("type", JString "object")]) "Service Unavailable")]);
     ("security", JArray []);
     ("summary", JString "Gateway health status (alias of /readyz; deprecated)");
     ("tags", JArray [JString "health"])].

Definition op_get_keys : json :=
  JObject
    [("parameters", JArray
         [JObject
            [("description", JString "Optional path prefix");
             ("example", JString "proj-a/");
             ("in", JString "query");
             ("name", JString "prefix");
             ("schema", ofType "string")]]);
     ("responses", JObject
         [("200", response (refTo "KeyListResponse") "OK");
          ("401", response (refTo "ErrorResponse") "Unauthorized");
          ("403", response (refTo "ErrorResponse") "Forbidden");
          ("429", response (refTo "ErrorResponse") "Too Many Requests");
          ("500", response (refTo "ErrorResponse") "Internal Server Error")]);
     ("security", JArray [JObject [("BearerAuth", JArray [])]]);
     ("summary", JString "List KMS keys by prefix");
     ("tags", JArray [JString "keys"])].

Definition op_post_keys : json :=
  JObject
    [("requestBody", JObject
         [("content", JObject
              [("application/json", JObject
                   [("schema", JObject
                        [("$ref", JString (ref "KeyCreateRequest"));
                         ("description", JString "Key create payload");
                         ("summary", JString "body")])])]);
          ("description", JString "Key create payload");
          ("required", JBool true)]);
     ("responses", JObject
         [("200", response (refTo "KeyCreateResponse") "OK");
          ("400", response (refTo "ErrorResponse") "Bad Request");
          ("401", response (refTo "ErrorResponse") "Unauthorized");
          ("403", response (refTo "ErrorResponse") "Forbidden");
          ("429", response (refTo "ErrorResponse") "Too Many Requests");
          ("500", response (refTo "ErrorResponse") "Internal Server Error")]);
     ("security", JArray [JObject [("BearerAuth", JArray [])]]);
     ("summary", JString "Create a KMS key");
     ("tags", JArray [JString "keys"])].

Definition op_get_keys_info : json :=
  JObject
    [("parameters", JArray
         [JObject
            [("description", JString "Key path (format: {project}/{environment}/{username})");
             ("example", JString "proj-a/prod/alice");
             ("in", JString "query");
             ("name", JString "path");
             ("required", JBool true);
             ("schema", ofType "string")]]);
     ("responses", JObject
         [("200", response (refTo "KeyInfo") "OK");
          ("400", response (refTo "ErrorResponse") "Bad Request");
          ("401", response (refTo "ErrorResponse") "Unauthorized");
          ("403", response (refTo "ErrorResponse") "Forbidden");
          ("404", response (refTo "ErrorResponse") "Not Found");
          ("429", response (refTo "ErrorResponse") "Too Many Requests");
          ("500", response (refTo "ErrorResponse") "Internal Server Error")]);
     ("security", JArray [JObject [("BearerAuth", JArray [])]]);
     ("summary", JString "Show a KMS key");
     ("tags", JArray [JString "keys"])].

Definition op_patch_keys_path : json :=
  JObject
    [("parameters", JArray
         [JObject
            [("description", JString "Key path (format: {project}/{environment}/{username})");
             ("example", JString "proj-a/prod/alice");
             ("in", JString "path");
             ("name", JString "path");
             ("required", JBool true);
             ("schema", ofType "string")]]);
     ("requestBody", JObject
         [("content", JObject
              [("application/json", JObject
                   [("schema", JObject
                        [("$ref", JString (ref "KeyUpdateChainsRequest"));
                         ("description", JString "Chain expansion payload");
                         ("summary", JString "body")])])]);
          ("description", JString "Chain expansion payload");
          ("required", JBool true)]);
     ("responses", JObject
         [("200", response (refTo "KeyUpdateChainsResponse") "OK");
          ("400", response (refTo "ErrorResponse") "Bad Request");
          ("401", response (refTo "ErrorResponse") "Unauthorized");
          ("403", response (refTo "ErrorResponse") "Forbidden");
          ("429", response (refTo "ErrorResponse") "Too Many Requests");
          ("500", response (refTo "ErrorResponse") "Internal Server Error")]);
     ("security", JArray [JObject [("BearerAuth", JArray [])]]);
     ("summary", JString "Expand a KMS key's chain allow-list");
     ("tags", JArray [JString "keys"])].

Definition op_post_sign_cosmos : json :=
  JObject
    [("requestBody", JObject
         [("content", JObject
              [("application/json", JObject
                   [("schema", JObject
                        [("$ref", JString (ref "CosmosSignRequest"));
                         ("description", JString "Cosmos sign payload");
                         ("summary", JString "body")])])]);
          ("description", JString "Cosmos sign payload");
          ("required", JBool true)]);
     ("responses", JObject
         [("200", response (refTo "SignResponse") "OK");
          ("400", response (refTo "ErrorResponse") "Bad Request");
          ("401", response (refTo "ErrorResponse") "Unauthorized");
          ("429", response (refTo "ErrorResponse") "Too Many Requests");
          ("500", response (refTo "ErrorResponse") "Internal Server Error")]);
     ("security", JArray [JObject [("BearerAuth", JArray [])]]);
     ("summary", JString "Sign Cosmos payload");
     ("tags", JArray [JString "signing"])].

Definition op_post_sign_evm : json :=
  JObject
    [("requestBody", JObject
         [("content", JObject
              [("application/json", JObject
                   [("schema", JObject
                        [("discriminator", JObject
                             [("mapping", JObject
                                  [("eip712_digest", JString (ref "EVMSignEIP712Request"));
                                   ("personal_message", JString (ref "EVMSignPersonalMessageRequest"));
                                   ("raw_tx", JString (ref "EVMSignRawTxRequest"))]);
                              ("propertyName", JString "type")]);
                         ("oneOf", JArray
                             [JObject
                                [("$ref", JString (ref "EVMSignRawTxRequest"));
                                 ("description", JString "Raw-transaction payload");
                                 ("summary", JString "rawTx")];
                              JObject
                                [("$ref", JString (ref "EVMSignPersonalMessageRequest"));
                                 ("description", JString "Personal-message payload");
                                 ("summary", JString "personalMessage")];
                              JObject
                                [("$ref", JString (ref "EVMSignEIP712Request"));
                                 ("description", JString "EIP-712 digest payload");
                                 ("summary", JString "eip712")]])])])]);
          ("description", JString "Raw-transaction payload | Personal-message payload | EIP-712 digest payload");
          ("required", JBool true)]);
     ("responses", JObject
         [("200", response (refTo "SignResponse") "OK");
          ("400", response (refTo "ErrorResponse") "Bad Request");
          ("401", response (refTo "ErrorResponse") "Unauthorized");
          ("429", response (refTo "ErrorResponse") "Too Many Requests");
          ("500", response (refTo "ErrorResponse") "Internal Server Error")]);
     ("security", JArray [JObject [("BearerAuth", JArray [])]]);
     ("summary", JString "Sign EVM payload");
     ("tags", JArray [JString "signing"])].

(** [components] *)
Definition doc_components : json :=
  JObject
    [("schemas", JObject
        [(named "Chain", doc_Chain);
         (named "CosmosSignRequest", doc_CosmosSignRequest);
         (named "EVMSignEIP712Request", doc_EVMSignEIP712Request);
         (named "EVMSignPersonalMessageRequest", doc_EVMSignPersonalMessageRequest);
         (named "EVMSignRawTxRequest", doc_EVMSignRawTxRequest);
         (named "ErrorResponse", doc_ErrorResponse);
         (named "KeyCreateRequest", doc_KeyCreateRequest);
         (named "KeyCreateResponse", doc_KeyCreateResponse);
         (named "KeyInfo", doc_KeyInfo);
         (named "KeyListEntry", doc_KeyListEntry);
         (named "KeyListResponse", doc_KeyListResponse);
         (named "KeyUpdateChainsRequest", doc_KeyUpdateChainsRequest);
         (named "KeyUpdateChainsResponse", doc_KeyUpdateChainsResponse);
         (named "SignResponse", doc_SignResponse);
         (named "SignatureParts", doc_SignatureParts)]);
     ("securitySchemes", JObject
        [("BearerAuth", JObject
             [("description", JString "Bearer token authorization using Authorization: Bearer <token>.");
              ("scheme", JString "bearer");
              ("type", JString "http")])])].

(** [paths] *)
Definition doc_paths : json :=
  JObject
    [("/v1/health", JObject [("get", op_get_health)]);
     ("/v1/keys", JObject [("get", op_get_keys); ("post", op_post_keys)]);
     ("/v1/keys/info", JObject [("get", op_get_keys_info)]);
     ("/v1/keys/{path}", JObject [("patch", op_patch_keys_path)]);
     ("/v1/sign/cosmos", JObject [("post", op_post_sign_cosmos)]);
     ("/v1/sign/evm", JObject [("post", op_post_sign_evm)])].

(** The document. *)
Definition openapi : members :=
  [("components", doc_components);
   ("externalDocs", JObject [("description", JString ""); ("url", JString "")]);
   ("info", JObject
       [("description", JString "REST gateway for health checks and multi-chain signing operations.");
        ("title", JString "KMS Wrapper API");
        ("version", JString "1.0")]);
   ("openapi", JString "3.0.3");
   ("paths", doc_paths);
   ("servers", JArray [JObject [("url", JString "http://localhost:8080/")]])].

(** The text of the document, as [docs.go], [swagger.json] and [swagger.yaml]
    hold it. *)
Definition docTemplate : string := MarshalIndent (JObject openapi) +:+ newline.

(** [swag.Spec], and its instance in [docs.go]. *)
Record swag_Spec := mkSpec {
  spec_Version : string;
  spec_Title : string;
  spec_Description : string;
  InfoInstanceName : string;
  SwaggerTemplate : string;
  LeftDelim : string;
  RightDelim : string }.

Definition SwaggerInfo : swag_Spec :=
  mkSpec "1.0" "KMS Wrapper API" "REST gateway for health checks and multi-chain signing operations." "swagger"
    docTemplate "{{" "}}".

(** ** Registration *)

(** The methods of [swag.Spec]: the instance name, and the document, which is
    the template executed with the delimiters of the value. *)
Class SwagSpec := {
  InstanceName : swag_Spec → string;
  spec_ReadDoc : swag_Spec → string }.

Class SwagSpecLaws `{SwagSpec} := {
  InstanceName_set spec : InfoInstanceName spec ≠ "" → InstanceName spec = InfoInstanceName spec;
  spec_ReadDoc_plain spec : Contains (SwaggerTemplate spec) (LeftDelim spec) = false →
    spec_ReadDoc spec = SwaggerTemplate spec }.

(** The registry of documents by name: [swag.Register], which panics for a name
    that is taken, and [swag.ReadDoc]. *)
Class SwagRegistry (R : Type) := {
  Register : string → swag_Spec → R → outcome R;
  ReadDoc : string → R → result string }.

Class SwagRegistryLaws (R : Type) `{SwagSpec} `{SwagRegistry R} := {
  Register_new name spec reg e : ReadDoc name reg = Err e →
    ∃ reg', Register name spec reg = Val reg' ∧ ReadDoc name reg' = Ok (spec_ReadDoc spec) }.

(** The [init] of [docs.go], and that of [swagger_registry.go] on the registry
    of the first version of the package, which the gateway reads. *)
Definition docs_init `{SwagSpec} {R} `{SwagRegistry R} : R → outcome R :=
  Register (InstanceName SwaggerInfo) SwaggerInfo.

Definition gateway_init `{SwagSpec} {R} `{SwagRegistry R} : R → outcome R :=
  Register (InstanceName SwaggerInfo) SwaggerInfo.
