(* ===== verification/MiddlewareTheorems.v ===== *)
(** * Theorems about the gateway's request chain

    Requests without the bearer token reach no handler outside the public
    endpoints; every request is answered and carries a well-formed request id;
    a signature is only served by the sign handlers, to an authenticated
    request within its rate. *)

From S2P Require Import Prelude GoLib Types KeyPath Crypto Interfaces VaultClient EvmSigner.
From S2P Require Import CosmosSigner Sha256 HttpJson Limiter Telemetry Gateway GatewayHandlers Middleware.

Section middleware.
Context {R : RateLib} {W : Type} {K : KeyStore W} {H : HealthChecker W} {T : Clock W}
        {EV : EVMSigner W} {CO : CosmosSignerI W} {C : EthCrypto} {TX : EthTx} {L : CosmosLib}.
Context (iter : iteration) (cfg : ChainConfig) (metricsHandler swaggerUI swaggerDoc : Handler (W:=W)).

Abbreviation app := (muxRoutes iter cfg metricsHandler swaggerUI swaggerDoc).
Abbreviation dispatch := (mux iter cfg metricsHandler swaggerUI swaggerDoc).
Abbreviation chain := (routes iter cfg metricsHandler swaggerUI swaggerDoc).

(** ** The outer chain *)

(** What the chain emits for a request whose handler has returned, and for one
    whose handler has panicked. *)
Definition request_events (r : Request) (start stop : Z) (resp : HttpResponse) : list event :=
  [Observed kmsHTTPRequestsTotal [rq_Path r; rq_Method r; intToStatusLabel (rs_status resp)];
   Observed kmsHTTPRequestDuration [rq_Path r; rq_Method r];
   Logged (mkRecord LevelInfo "request"
     [("method", rq_Method r); ("path", rq_Path r); ("status", Itoa (rs_status resp));
      ("duration_ms", Itoa (Z.quot (stop - start) 1000000)); ("remote_addr", rq_RemoteAddr r)])].

Definition panic_events (r : Request) (m : string) : list event :=
  [Logged (mkRecord LevelError "panic in handler" [("panic", m)]); Observed kmsPanicsTotal [rq_Path r]].

Definition emitting (evs : list event) (g : GState W) : GState W :=
  let s := g_server g in
  set_server (mkServerState (world s) (chains s) (healthResp s) (telemetry s ++ evs)) g.

Definition panic_response (id : string) : HttpResponse :=
  mkResponse StatusInternalServerError
    (MapBody (<["error" := "internal server error"]> {["request_id" := id]})).

Lemma outer_run (h : Request → M (GState W) HttpResponse) r g :
  recoverPanic (requestLogger (instrumentRoutes h)) r g =
  match h r g with
  | (g1, Val resp) =>
      (emitting (request_events r (clock (world (g_server g))) (clock (world (g_server g1))) resp) g1, Val resp)
  | (g1, Panic m) =>
      ((setHeader "Content-Type" "application/json" (emitting (panic_events r m) g1)).1,
       Val (panic_response (g_requestID g1)))
  end.
Proof.
  unfold recoverPanic, requestLogger, instrumentRoutes, body, bind, call, now, next. cbn.
  destruct (h r g) as [[s p hl hd id] [resp|m]]; cbn; unfold emitting, set_server; cbn; by rewrite <- ?app_assoc.
Qed.

(** ** Dispatch *)

Lemma findRoute_Some (l : list (routeEntry (W:=W))) m p e pv :
  findRoute l m p = Some (e, pv) →
  e ∈ l ∧ matchPattern (re_pattern e) p = Some pv ∧ methodMatches (re_method e) m = true.
Proof.
  induction l as [|e0 l IH]; [done|]. simpl. rewrite elem_of_cons.
  destruct (matchPattern (re_pattern e0) p) as [pv0|] eqn:Hm; [|naive_solver].
  destruct (methodMatches (re_method e0) m) eqn:Hmeth; [|naive_solver].
  intros [= <- <-]. auto.
Qed.

Lemma bySpecificity_elem (l : list (routeEntry (W:=W))) e : e ∈ bySpecificity l → e ∈ l.
Proof.
  unfold bySpecificity. rewrite elem_of_app, !list_elem_of_In, !filter_In. naive_solver.
Qed.

(** The mux either runs the handler of a matching route, or answers by itself
    without touching the server. *)
Inductive dispatched (r : Request) : M (GState W) HttpResponse → Prop :=
  | d_handler e pv :
      e ∈ app → matchPattern (re_pattern e) (rq_Path r) = Some pv →
      methodMatches (re_method e) (rq_Method r) = true → dispatched r (re_handler e r pv)
  | d_redirect path : dispatched r (redirect r path)
  | d_pageNotFound : dispatched r pageNotFound
  | d_methodNotAllowed methods : dispatched r (methodNotAllowed methods).

Lemma mux_dispatched r : dispatched r (dispatch r).
Proof.
  unfold mux. set (path := if decide _ then _ else _). clearbody path. cbv zeta.
  destruct (redirectsToSlash _ _ _ _ _ _ _); [constructor|].
  case_decide as Hp; [constructor|subst path].
  destruct (findRoute _ _ _) as [[e pv]|] eqn:Hf; [|case_decide; constructor].
  apply findRoute_Some in Hf as (?%bySpecificity_elem & ? & ?). by constructor.
Qed.

(** ** Refusals *)

(** The server is left alone, its counters apart. *)
Definition same_server (s s' : Server W) : Prop :=
  world s' = world s ∧ chains s' = chains s ∧ healthResp s' = healthResp s.

Definition refusal (g : GState W) (x : GState W * outcome HttpResponse) : Prop :=
  ∃ resp, x.2 = Val resp ∧ rs_status resp ∈ [301; 401; 404; 405; 429]%Z ∧
    same_server (g_server g) (g_server x.1).

Lemma auth_refuses h r pv g :
  auth_check (cfg_auth cfg) (rq_Authorization r) ≠ None → refusal g (auth cfg h r pv g).
Proof.
  intros Ha. unfold auth. destruct (auth_check _ _); [|done].
  exists (writeError StatusUnauthorized "unauthorized"). split_and!; [done|set_solver|done..].
Qed.

Lemma rateLimit_auth_refuses h r pv g :
  auth_check (cfg_auth cfg) (rq_Authorization r) ≠ None →
  refusal g (rateLimit iter cfg (auth cfg h) r pv g).
Proof.
  intros Ha. unfold rateLimit, body, bind, call, allowPrincipal.
  destruct (limiters_allow _ _ _ _) as [p [|]].
  - destruct (auth_refuses h r pv
      (mkGState (g_server g) p (healthLimiters g) (g_headers g) (g_requestID g)) Ha)
      as (resp & Heq & Hst & Hs).
    exists resp. destruct (auth _ _ _ _ _) as [g' o]. simpl in *. subst o. done.
  - exists (writeError StatusTooManyRequests "rate limit exceeded"). split_and!; [done|set_solver|done..].
Qed.

Lemma withDeprecation_refuses h r pv g :
  (∀ g0, refusal g0 (h r pv g0)) → refusal g (withDeprecation cfg h r pv g).
Proof.
  intros Hh. unfold withDeprecation, body, bind, call, setHeader. cbn.
  match goal with |- context [h r pv ?g0] => destruct (Hh g0) as (resp & Heq & Hst & Hs);
    destruct (h r pv g0) as [g' o] end.
  simpl in *. subst o. by exists resp.
Qed.

Lemma dispatched_alone_refuses r g m :
  dispatched r m → (∀ e pv, e ∈ app → matchPattern (re_pattern e) (rq_Path r) = Some pv →
                     methodMatches (re_method e) (rq_Method r) = true → refusal g (re_handler e r pv g)) →
  refusal g (m g).
Proof.
  intros Hd Hh. destruct Hd as [e pv He Hm Hmeth|path| |methods]; [by apply Hh|..].
  - unfold redirect. destruct (decide (_ ∨ _)); eexists; (split; [reflexivity|]); (split; [set_solver|done]).
  - eexists. split; [reflexivity|]. split; [set_solver|done].
  - eexists. split; [reflexivity|]. split; [set_solver|done].
Qed.

(** Endpoints that need no token. *)
Definition public_path (path : string) : Prop :=
  path ∈ ["/health"; "/v1/health"; "/livez"; "/readyz"; "/metrics"] ∨
  (cfg_swagger cfg = true ∧ cfg_swagger_auth cfg = false ∧ HasPrefix path "/swagger/" = true).

(** The guard around the handler of a route. *)
Definition guarded (h : Handler (W:=W)) : Prop :=
  ∃ h', h = rateLimit iter cfg (auth cfg h') ∨ h = withDeprecation cfg (rateLimit iter cfg (auth cfg h')) ∨
        h = auth cfg h'.

Lemma matchPattern_Exact q p pv : matchPattern (Exact q) p = Some pv → p = q.
Proof. simpl. by case_decide. Qed.

Lemma matchPattern_Rest d p pv : matchPattern (Rest d) p = Some pv → HasPrefix p d = true.
Proof. simpl. unfold HasPrefix. by intros ->. Qed.

Lemma app_guarded e p pv :
  e ∈ app → matchPattern (re_pattern e) p = Some pv → guarded (re_handler e) ∨ public_path p.
Proof.
  unfold muxRoutes, appRoutes, probeRoutes, swaggerRoutes. simpl. intros He Hm.
  repeat (apply elem_of_cons in He as [->|He];
    [first [left; eexists; (left; reflexivity) || (right; left; reflexivity)
           |right; left; apply matchPattern_Exact in Hm; subst p; simpl; set_solver]|]).
  destruct (cfg_swagger cfg) eqn:Hs; [|by apply not_elem_of_nil in He].
  destruct (cfg_swagger_auth cfg) eqn:Ha.
  - left. repeat (apply elem_of_cons in He as [->|He]; [eexists; by right; right|]).
    by apply not_elem_of_nil in He.
  - right. right. split_and!; [done|done|].
    apply elem_of_cons in He as [->|[->|He%not_elem_of_nil]%elem_of_cons]; [| |done].
    + by apply matchPattern_Exact in Hm as ->.
    + by eapply matchPattern_Rest.
Qed.

Lemma guarded_refuses h r pv g :
  auth_check (cfg_auth cfg) (rq_Authorization r) ≠ None → guarded h → refusal g (h r pv g).
Proof.
  intros Ha (h' & [-> | [-> | ->]]).
  - by apply rateLimit_auth_refuses.
  - apply withDeprecation_refuses. intros g0. by apply rateLimit_auth_refuses.
  - by apply auth_refuses.
Qed.

Lemma routes_refusal fresh r g :
  (∀ g0, refusal g0 (dispatch r g0)) → refusal g (chain fresh r g).
Proof.
  intros Hh. unfold routes, requestID. rewrite outer_run.
  match goal with |- context [dispatch r ?g0] => destruct (Hh g0) as (resp & Heq & Hst & Hs);
    destruct (dispatch r g0) as [g' o] end.
  simpl in *. subst o. by exists resp.
Qed.

(** C11. Authentication: on every path but the public ones, a request without
    the configured bearer token is answered 401 or 429 (or 404, 405 or a
    redirect where no handler is registered), without calling Vault, a signer
    or the key store and without touching the chains and health caches. *)
Theorem unauthenticated_refused (fresh : string) (r : Request) (g : GState W) :
  auth_check (cfg_auth cfg) (rq_Authorization r) ≠ None → ¬ public_path (rq_Path r) →
  ∃ g' resp, chain fresh r g = (g', Val resp) ∧ rs_status resp ∈ [301; 401; 404; 405; 429]%Z ∧
    same_server (g_server g) (g_server g').
Proof.
  intros Ha Hpub. destruct (routes_refusal fresh r g) as (resp & Heq & Hst & Hs).
  - intros g0. apply (dispatched_alone_refuses r); [apply mux_dispatched|].
    intros e pv He Hm _. destruct (app_guarded e _ _ He Hm); [by apply guarded_refuses|done].
  - destruct (chain fresh r g) as [g' o]. simpl in *. subst o. eauto.
Qed.

(** ** Request ids *)

(** The request id of the response and of the context are left alone. *)
Definition keeps_id {X} (m : M (GState W) X) : Prop := ∀ g,
  g_headers (m g).1 !! "X-Request-ID" = g_headers g !! "X-Request-ID" ∧
  g_requestID (m g).1 = g_requestID g.

Definition keeps_id_prog {X A} (p : Prog (GState W) X A) : Prop := ∀ g,
  g_headers (p g).1 !! "X-Request-ID" = g_headers g !! "X-Request-ID" ∧
  g_requestID (p g).1 = g_requestID g.

Lemma keeps_id_bind {X A B} (p : Prog (GState W) X A) (k : A → Prog (GState W) X B) :
  keeps_id_prog p → (∀ a, keeps_id_prog (k a)) → keeps_id_prog (bind p k).
Proof.
  intros Hp Hk g. unfold bind. specialize (Hp g). destruct (p g) as [g1 [a| |]]; [|exact Hp..].
  destruct (Hk a g1) as [-> ->]. exact Hp.
Qed.

Lemma keeps_id_call {X A} (m : M (GState W) A) : keeps_id m → keeps_id_prog (call (R:=X) m).
Proof. intros Hm g. unfold call. specialize (Hm g). by destruct (m g) as [g1 [a|]]. Qed.

Lemma keeps_id_next {X A} (a : A) : keeps_id_prog (next (R:=X) a).
Proof. done. Qed.

Lemma keeps_id_body {X} (p : Prog (GState W) X X) : keeps_id_prog p → keeps_id (body p).
Proof. intros Hp g. unfold body. specialize (Hp g). by destruct (p g) as [g1 []]. Qed.

Lemma keeps_id_setHeader k v : k ≠ "X-Request-ID" → keeps_id (setHeader k v).
Proof. intros Hk g. simpl. by rewrite lookup_insert_ne. Qed.

Lemma keeps_id_server (f : Server W → Server W) {X} (o : X) :
  keeps_id (λ g, (set_server (f (g_server g)) g, Val o)).
Proof. done. Qed.

Lemma keeps_id_allow (key : string) : keeps_id (allowPrincipal iter key) ∧ keeps_id (allowHealth iter key).
Proof.
  unfold allowPrincipal, allowHealth. split; intros g; by destruct (limiters_allow _ _ _ _).
Qed.

Definition keeps (h : Handler (W:=W)) : Prop := ∀ r pv, keeps_id (h r pv).

Lemma keeps_reject status msg : keeps_id (reject (W:=W) status msg).
Proof.
  apply keeps_id_body, keeps_id_bind; [|intros ?; apply keeps_id_next].
  by apply keeps_id_call, keeps_id_setHeader.
Qed.

Lemma keeps_auth h : keeps h → keeps (auth cfg h).
Proof.
  intros Hh r pv. unfold auth. destruct (auth_check _ _); [|apply Hh].
  apply keeps_id_body, keeps_id_bind; [by apply keeps_id_call|]. intros _. apply keeps_id_call, keeps_reject.
Qed.

Lemma keeps_serve h : keeps (serve h).
Proof.
  intros r pv g. unfold serve. destruct (h r pv (g_server g)) as [s' [resp|]]; [|done].
  simpl. by rewrite lookup_insert_ne.
Qed.

Lemma keeps_limited (h : Handler (W:=W)) (allow : M (GState W) bool) r pv :
  keeps h → keeps_id allow →
  keeps_id (body (let! ok := call allow in
                  if ok : bool then call (h r pv)
                  else call (onRateLimitRejected (rq_Path r)) ;;;
                       call (reject StatusTooManyRequests "rate limit exceeded"))).
Proof.
  intros Hh Ha. apply keeps_id_body, keeps_id_bind; [by apply keeps_id_call|]. intros [|].
  - apply keeps_id_call, Hh.
  - apply keeps_id_bind; [by apply keeps_id_call|]. intros _. apply keeps_id_call, keeps_reject.
Qed.

Lemma keeps_rateLimit h : keeps h → keeps (rateLimit iter cfg h).
Proof. intros Hh r pv. apply keeps_limited; [done|apply keeps_id_allow]. Qed.

Lemma keeps_healthRateLimit h : keeps h → keeps (healthRateLimit iter h).
Proof. intros Hh r pv. apply keeps_limited; [done|apply keeps_id_allow]. Qed.

Lemma keeps_withDeprecation h : keeps h → keeps (withDeprecation cfg h).
Proof.
  intros Hh r pv. apply keeps_id_body.
  do 2 (apply keeps_id_bind; [by apply keeps_id_call, keeps_id_setHeader|intros _]).
  apply keeps_id_call, Hh.
Qed.

Lemma app_keeps e :
  keeps metricsHandler → keeps swaggerUI → keeps swaggerDoc → e ∈ app → keeps (re_handler e).
Proof.
  intros Hmet Hui Hdoc He.
  assert (keeps (swaggerRoot swaggerUI)) as Hroot.
  { intros r pv. unfold swaggerRoot. case_decide; apply Hui. }
  unfold muxRoutes, appRoutes, probeRoutes, swaggerRoutes in He. simpl in He.
  repeat (apply elem_of_cons in He as [->|He];
    [simpl; auto using keeps_withDeprecation, keeps_rateLimit, keeps_healthRateLimit, keeps_auth, keeps_serve|]).
  destruct (cfg_swagger cfg); [|by apply not_elem_of_nil in He].
  apply elem_of_cons in He as [->|[->|He%not_elem_of_nil]%elem_of_cons]; [| |done]; simpl;
    destruct (cfg_swagger_auth cfg); auto using keeps_auth.
Qed.

Lemma dispatch_keeps r :
  keeps metricsHandler → keeps swaggerUI → keeps swaggerDoc → keeps_id (dispatch r).
Proof.
  intros Hmet Hui Hdoc. destruct (mux_dispatched r) as [e pv He _ _|path| |methods].
  - by apply app_keeps.
  - apply keeps_id_body, keeps_id_bind; [by apply keeps_id_call, keeps_id_setHeader|intros _].
    apply keeps_id_bind; [|intros _; apply keeps_id_next].
    case_decide; [by apply keeps_id_call, keeps_id_setHeader|apply keeps_id_next].
  - apply keeps_id_body.
    do 2 (apply keeps_id_bind; [by apply keeps_id_call, keeps_id_setHeader|intros _]). apply keeps_id_next.
  - apply keeps_id_body.
    do 3 (apply keeps_id_bind; [by apply keeps_id_call, keeps_id_setHeader|intros _]). apply keeps_id_next.
Qed.

(** The id a request runs under, and the state its inner handlers start from. *)
Definition effective_id (fresh : string) (r : Request) : string :=
  if requestIDPattern_Match (rq_XRequestID r) then rq_XRequestID r else fresh.

Definition entered (id : string) (g : GState W) : GState W :=
  mkGState (g_server g) (principals g) (healthLimiters g) {["X-Request-ID" := id]} id.

Lemma routes_entered fresh r g :
  chain fresh r g
  = recoverPanic (requestLogger (instrumentRoutes dispatch)) r (entered (effective_id fresh r) g).
Proof.
  unfold routes, requestID, effective_id, entered. simpl.
  destruct (requestIDPattern_Match (rq_XRequestID r)) eqn:Hm.
  - rewrite bool_decide_false; [done|]. by intros He; rewrite He in Hm.
  - by rewrite orb_true_r.
Qed.

(** Every request is answered, even when its handler panics, and the
    response carries a well-formed request id in [X-Request-ID]: the client's
    own when it is well formed.  The answer to a panic is a 500 that names the
    same id. *)
Theorem every_request_answered (fresh : string) (r : Request) (g : GState W) :
  requestIDPattern_Match fresh = true →
  keeps metricsHandler → keeps swaggerUI → keeps swaggerDoc →
  ∃ g' resp id, chain fresh r g = (g', Val resp) ∧
    g_headers g' !! "X-Request-ID" = Some id ∧ requestIDPattern_Match id = true ∧
    (requestIDPattern_Match (rq_XRequestID r) = true → id = rq_XRequestID r) ∧
    (∀ g1 msg, dispatch r (entered id g) = (g1, Panic msg) →
       resp = mkResponse StatusInternalServerError
                (MapBody (<["error" := "internal server error"]> {["request_id" := id]}))).
Proof.
  intros Hf Hmet Hui Hdoc. rewrite routes_entered. set (id := effective_id fresh r).
  destruct (dispatch_keeps r Hmet Hui Hdoc (entered id g)) as [Hh Hid].
  rewrite outer_run.
  assert (requestIDPattern_Match id = true) as Hm.
  { unfold id, effective_id. by destruct (requestIDPattern_Match (rq_XRequestID r)) eqn:?. }
  assert (requestIDPattern_Match (rq_XRequestID r) = true → id = rq_XRequestID r) as Hown.
  { unfold id, effective_id. by intros ->. }
  destruct (dispatch r (entered id g)) as [g1 [resp|msg]] eqn:Hd; simpl in *.
  - do 2 eexists. exists id. split; [reflexivity|]. simpl.
    split_and!; [by rewrite Hh, lookup_singleton_eq|done..|intros ? ? Hp; rewrite Hd in Hp; congruence].
  - do 2 eexists. exists id. split; [reflexivity|]. simpl. rewrite lookup_insert_ne by done.
    split_and!; [by rewrite Hh, lookup_singleton_eq|done..|by rewrite Hid].
Qed.

(** ** The sign endpoints *)

(** What a sign endpoint runs. *)
Definition sign_handler (r : Request) : M (Server W) HttpResponse :=
  if decide (rq_Path r ∈ ["/sign/evm"; "/v1/sign/evm"]) then signEVM (decode_EVM (rq_Body r))
  else signCosmos (decode_Cosmos (rq_Body r)).

Definition sign_path (path : string) : Prop :=
  path ∈ ["/sign/evm"; "/v1/sign/evm"; "/sign/cosmos"; "/v1/sign/cosmos"].

(** The request passed its limiter and the token check, and the response is
    what [h] answered. *)
Definition served (r : Request) (h : M (Server W) HttpResponse) (g g' : GState W) (resp : HttpResponse) : Prop :=
  auth_check (cfg_auth cfg) (rq_Authorization r) = None ∧
  (limiters_allow iter (clock (world (g_server g)))
     (principalKey (cfg_auth cfg) (rq_Authorization r) (rq_RemoteAddr r)) (principals g)).2 = true ∧
  ∃ s', h (g_server g) = (s', Val resp) ∧ same_server s' (g_server g').

Lemma rateLimit_auth_served h r pv g g' resp :
  rateLimit iter cfg (auth cfg (serve h)) r pv g = (g', Val resp) → rs_status resp = StatusOK →
  served r (h r pv) g g' resp.
Proof.
  unfold rateLimit, served, body, bind, call, allowPrincipal, auth.
  destruct (limiters_allow _ _ _ _) as [p [|]]; [|by intros [= <- <-]].
  destruct (auth_check _ _); [by intros [= <- <-]|]. unfold serve. simpl.
  destruct (h r pv (g_server g)) as [s' [resp'|]]; simpl; [|done].
  intros [= <- <-] _. split_and!; [done|done|]. by exists s'.
Qed.

Lemma withDeprecation_served h r pv g g' resp :
  withDeprecation cfg (rateLimit iter cfg (auth cfg (serve h))) r pv g = (g', Val resp) →
  rs_status resp = StatusOK → served r (h r pv) g g' resp.
Proof.
  unfold withDeprecation, body, bind, call, setHeader. cbn.
  match goal with |- context [rateLimit _ _ _ _ _ ?g0] =>
    pose proof (rateLimit_auth_served h r pv g0) as Hs; destruct (rateLimit _ _ _ _ _ g0) as [g1 [o|]]
  end; intros [= <- <-] Hst. exact (Hs _ _ eq_refl Hst).
Qed.

Lemma methodMatches_POST m : methodMatches "POST" m = true → m = "POST".
Proof.
  unfold methodMatches. rewrite orb_true_iff, andb_true_iff, !bool_decide_eq_true. by intros [<-|[? _]].
Qed.

Lemma sign_handler_evm r :
  rq_Path r ∈ ["/sign/evm"; "/v1/sign/evm"] → sign_handler r = signEVM (decode_EVM (rq_Body r)).
Proof. intros Hp. unfold sign_handler. by rewrite decide_True. Qed.

Lemma sign_handler_cosmos r :
  rq_Path r ∈ ["/sign/cosmos"; "/v1/sign/cosmos"] → sign_handler r = signCosmos (decode_Cosmos (rq_Body r)).
Proof.
  intros Hp. unfold sign_handler. rewrite decide_False; [done|]. intros Hq.
  apply elem_of_cons in Hp as [Hp|[Hp|?%not_elem_of_nil]%elem_of_cons]; [| |done];
    rewrite Hp in Hq; by apply elem_of_cons in Hq as [?|[?|?%not_elem_of_nil]%elem_of_cons].
Qed.

(** The routes that match a sign path. *)
Lemma sign_routes e r pv :
  e ∈ app → sign_path (rq_Path r) → matchPattern (re_pattern e) (rq_Path r) = Some pv →
  re_method e = "POST" ∧
  ∃ h, (re_handler e = rateLimit iter cfg (auth cfg (serve h)) ∨
        re_handler e = withDeprecation cfg (rateLimit iter cfg (auth cfg (serve h)))) ∧
       h r pv = sign_handler r.
Proof.
  unfold sign_path, muxRoutes, appRoutes, probeRoutes, swaggerRoutes. simpl. intros He Hp Hm.
  assert (∀ h, rq_Path r ∈ ["/sign/evm"; "/v1/sign/evm"] → h = signEVM (decode_EVM (rq_Body r)) →
               h = sign_handler r) as Hevm by (intros h ? ->; symmetry; by apply sign_handler_evm).
  assert (∀ h, rq_Path r ∈ ["/sign/cosmos"; "/v1/sign/cosmos"] → h = signCosmos (decode_Cosmos (rq_Body r)) →
               h = sign_handler r) as Hcos by (intros h ? ->; symmetry; by apply sign_handler_cosmos).
  repeat (apply elem_of_cons in Hp as [Hq|Hp]; [rewrite Hq in Hm, Hevm, Hcos|]); [..|by apply not_elem_of_nil in Hp].
  all: repeat (apply elem_of_cons in He as [->|He];
    [first [by vm_compute in Hm
           |split; [done|eexists; split; [auto|first [apply Hevm; [set_solver|done]|apply Hcos; [set_solver|done]]]]]|]).
  all: destruct (cfg_swagger cfg); [|by apply not_elem_of_nil in He].
  all: apply elem_of_cons in He as [->|[->|He%not_elem_of_nil]%elem_of_cons]; by vm_compute in Hm.
Qed.

(** C12. The sign endpoints: a 200 answer is given only to a POST with the
    configured bearer token and within the rate of its principal, and it is
    the answer of the sign handler of that endpoint to the decoded body. *)
Theorem sign_endpoint_gate (fresh : string) (r : Request) (g g' : GState W) (resp : HttpResponse) :
  sign_path (rq_Path r) → chain fresh r g = (g', Val resp) → rs_status resp = StatusOK →
  rq_Method r = "POST" ∧ served r (sign_handler r) g g' resp.
Proof.
  rewrite routes_entered. set (g0 := entered (effective_id fresh r) g). intros Hp Hrun Hst.
  rewrite outer_run in Hrun.
  destruct (dispatch r g0) as [g1 [resp1|msg]] eqn:Hd; simpl in Hrun; simplify_eq.
  destruct (mux_dispatched r) as [e pv He Hm Hmeth|path| |methods].
  - destruct (sign_routes e r pv He Hp Hm) as (Hpost & h & Hh & Heq). rewrite Hpost in Hmeth.
    split; [by apply methodMatches_POST|]. rewrite <- Heq. destruct Hh as [Hh|Hh]; rewrite Hh in Hd.
    + by apply rateLimit_auth_served in Hd.
    + by apply withDeprecation_served in Hd.
  - exfalso. unfold redirect in Hd. destruct (decide (_ ∨ _)) in Hd; by injection Hd as <- <-.
  - by injection Hd as <- <-.
  - by injection Hd as <- <-.
Qed.
End middleware.
