(* ===== verification/TelemetryTheorems.v ===== *)
(** * Theorems about what the gateway emits

    Every request leaves one access line or one panic line, every metric is
    observed with the labels it is registered with, and the bearer token of a
    request has no influence on anything emitted beyond whether it is accepted
    and within its rate. *)

From S2P Require Import Prelude GoLib Types KeyPath Crypto Interfaces VaultClient EvmSigner.
From S2P Require Import CosmosSigner Sha256 HttpJson Limiter Telemetry Gateway GatewayHandlers GatewayTheorems.
From S2P Require Import Middleware Origin MiddlewareTheorems.

(** ** Events of handlers *)

(** An event from inside the chain: its labels fit its collector, and it is not
    the access line or the panic line. *)
Definition inner_event (e : event) : Prop :=
  well_labelled e ∧ ∀ rec, e = Logged rec → rec_message rec ∉ chain_lines.

(** The first trace continues as the second. *)
Definition extends (t t' : list event) : Prop := ∃ evs, t' = t ++ evs ∧ Forall inner_event evs.

#[export] Instance extends_preorder : PreOrder extends.
Proof.
  split.
  - intros t. exists []. by rewrite app_nil_r.
  - intros t t1 t2 (evs & -> & He) (evs' & -> & He'). exists (evs ++ evs'). rewrite app_assoc.
    split; [done|by apply Forall_app].
Qed.

Lemma extends_observed t c labels :
  c ∈ metricsRegistry → length labels = length (col_labels c) → extends t (t ++ [Observed c labels]).
Proof. intros Hc Hl. exists [Observed c labels]. split; [done|]. by apply Forall_singleton. Qed.

Lemma extends_logged t rec :
  rec_message rec ∉ chain_lines → extends t (t ++ [Logged rec]).
Proof.
  intros Hr. exists [Logged rec]. split; [done|].
  apply Forall_singleton. split; [done|]. by intros ? [= <-].
Qed.

Section handlers.
Context {W : Type} {K : KeyStore W} {H : HealthChecker W} {T : Clock W}
        {EV : EVMSigner W} {CO : CosmosSignerI W} {C : EthCrypto} {TX : EthTx} {L : CosmosLib}.

Definition quiet {X} (m : M (Server W) X) : Prop := ∀ s,
  mwp m (λ s' _, extends (telemetry s) (telemetry s')) s.

Lemma mwp_quiet {X} (m : M (Server W) X) Q (s : Server W) :
  quiet m → (∀ s' o, extends (telemetry s) (telemetry s') → Q s' o) → mwp m Q s.
Proof. intros Hm HQ. eapply mwp_mono; [apply Hm|]. auto. Qed.

Lemma quiet_observing {X} label (m : M (Server W) X) : quiet m → quiet (observing label m).
Proof.
  intros Hm s. specialize (Hm s). unfold mwp, observing in *. destruct (m s) as [s' o]. cbn in *.
  etrans; [exact Hm|]. apply extends_observed; [|done]. do 2 right. left.
Qed.

Lemma quiet_denial (s : Server W) c labels :
  c ∈ metricsRegistry → length labels = length (col_labels c) →
  extends (telemetry s) (telemetry (inc c labels s).1).
Proof. apply extends_observed. Qed.

(** One rule. *)
Ltac quiet_step :=
  lazymatch goal with
  | |- mwp (on_world _) _ _ => apply mwp_on_world; intros ? [] ?
  | |- mwp (inc _ _) _ _ => unfold mwp, inc, emit
  | |- mwp (setChains _) _ _ => unfold mwp, setChains
  | |- mwp (writeChainAuthzResult _ _ _ _ _) _ _ =>
      apply mwp_writeChainAuthzResult; intros ? ? ? ?; cbn [after_log telemetry returns]
  | |- mwp (signingFailed _ _ _) _ _ => log_step; cbn [after_log telemetry]
  | |- mwp (notCanonical _ _) _ _ => log_step; cbn [after_log telemetry]
  | |- mwp (writeVaultErr _ _ _) _ _ => log_step; cbn [after_log telemetry]
  | |- mwp (logged _ _ _ _) _ _ => log_step; cbn [after_log telemetry]
  | |- mwp (match ?x with _ => _ end) _ _ => destruct x
  | |- context [match ?x with _ => _ end] => destruct x
  | _ => wp_step
  end; cbn [fst snd telemetry].

Lemma authorizeChain_quiet path c : quiet (authorizeChain path c).
Proof.
  intros s. unfold authorizeChain, authorizeChainFetch. repeat quiet_step; try reflexivity.
  all: apply extends_observed; [do 3 right; left|done].
Qed.

Lemma listEntries_quiet paths : quiet (listEntries paths).
Proof.
  induction paths as [|p paths IH]; intros s; cbn [listEntries]; [by repeat wp_step|]. unfold listEntry.
  repeat first [apply (mwp_quiet _ _ _ IH); intros ? [] ?|quiet_step]; first [done|reflexivity].
Qed.

Ltac emits :=
  repeat first [ apply (mwp_quiet _ _ _ (authorizeChain_quiet _ _)); intros ? [] ?
               | apply (mwp_quiet _ _ _ (listEntries_quiet _)); intros ? [] ?
               | apply mwp_quiet; [apply quiet_observing|]; [intros ?|intros ? [] ?]
               | quiet_step ];
  try (etrans; [|apply extends_logged; first [assumption|by apply (bool_decide_unpack _)]]);
  first [ reflexivity | assumption | etrans; eassumption ].

Lemma signEVM_quiet b : quiet (signEVM b).
Proof.
  intros s. unfold signEVM, decodeBody, signEVMRawTx, signEVMPersonal, signEVMEIP712, requireChain. emits.
Qed.

Lemma signCosmos_quiet b : quiet (signCosmos b).
Proof. apply quiet_observing. intros s. unfold decodeBody, cosmosModes, requireChain. emits. Qed.

Lemma createKey_quiet b : quiet (createKey b).
Proof. intros s. unfold createKey, decodeBody, probeKey. emits. Qed.

Lemma showKey_quiet path : quiet (showKey path).
Proof. intros s. unfold showKey. emits. Qed.

Lemma updateKeyChains_quiet path b : quiet (updateKeyChains path b).
Proof. intros s. unfold updateKeyChains, decodeBody. emits. Qed.

Lemma listKeys_quiet prefix limit cursor : quiet (listKeys prefix limit cursor).
Proof. intros s. unfold listKeys. emits. Qed.

Lemma probes_quiet v : quiet (health v) ∧ quiet (handleReadyz v) ∧ quiet handleLivez.
Proof. split_and!; intros s; unfold health, handleReadyz, handleLivez, computeReadiness; emits. Qed.
End handlers.

(** ** The chain *)

Section chain.
Context {R : RateLib} {W : Type} {K : KeyStore W} {H : HealthChecker W} {T : Clock W}
        {EV : EVMSigner W} {CO : CosmosSignerI W} {C : EthCrypto} {TX : EthTx} {L : CosmosLib}.
Context (iter : iteration) (cfg : ChainConfig) (metricsHandler swaggerUI swaggerDoc : Handler (W:=W)).

Abbreviation app := (muxRoutes iter cfg metricsHandler swaggerUI swaggerDoc).
Abbreviation dispatch := (mux iter cfg metricsHandler swaggerUI swaggerDoc).
Abbreviation chain := (routes iter cfg metricsHandler swaggerUI swaggerDoc).

Definition trace (g : GState W) : list event := telemetry (g_server g).

Definition emits_inner {X} (m : M (GState W) X) : Prop := ∀ g, extends (trace g) (trace (m g).1).

Definition emits_inner_prog {X A} (p : Prog (GState W) X A) : Prop := ∀ g, extends (trace g) (trace (p g).1).

Lemma inner_bind {X A B} (p : Prog (GState W) X A) (k : A → Prog (GState W) X B) :
  emits_inner_prog p → (∀ a, emits_inner_prog (k a)) → emits_inner_prog (bind p k).
Proof.
  intros Hp Hk g. unfold bind. specialize (Hp g). destruct (p g) as [g1 [a| |]]; [|done..].
  etrans; [exact Hp|apply Hk].
Qed.

Lemma inner_call {X A} (m : M (GState W) A) : emits_inner m → emits_inner_prog (call (R:=X) m).
Proof. intros Hm g. unfold call. specialize (Hm g). by destruct (m g) as [g1 []]. Qed.

Lemma inner_next {X A} (a : A) : emits_inner_prog (next (R:=X) a).
Proof. intros g. reflexivity. Qed.

Lemma inner_body {X} (p : Prog (GState W) X X) : emits_inner_prog p → emits_inner (body p).
Proof. intros Hp g. unfold body. specialize (Hp g). by destruct (p g) as [g1 []]. Qed.

Lemma inner_setHeader k v : emits_inner (setHeader k v).
Proof. intros g. reflexivity. Qed.

Lemma inner_slog level msg attrs :
  msg ∉ chain_lines → emits_inner (slog level msg attrs).
Proof. intros Hm g. by apply extends_logged. Qed.

Lemma inner_observe c labels :
  c ∈ metricsRegistry → length labels = length (col_labels c) → emits_inner (observe c labels).
Proof. intros Hc Hl g. by apply extends_observed. Qed.

#[local] Hint Resolve inner_bind inner_call inner_next inner_body inner_setHeader : core.

Lemma inner_reject status msg : emits_inner (reject status msg).
Proof. unfold reject. auto. Qed.

Lemma inner_rejected path : emits_inner (onRateLimitRejected path).
Proof.
  unfold onRateLimitRejected. apply inner_body, inner_bind; [apply inner_call, inner_slog; set_solver|].
  intros _. apply inner_bind; [|auto]. apply inner_call, inner_observe; [do 4 right; left|done].
Qed.

Lemma inner_allow key : emits_inner (allowPrincipal iter key) ∧ emits_inner (allowHealth iter key).
Proof.
  unfold allowPrincipal, allowHealth. split; intros g; destruct (limiters_allow _ _ _ _); reflexivity.
Qed.

Definition quiet_handler (h : Handler (W:=W)) : Prop := ∀ r pv, emits_inner (h r pv).

Lemma inner_serve h : (∀ r pv, quiet (h r pv)) → quiet_handler (serve h).
Proof.
  intros Hh r pv g. unfold serve. specialize (Hh r pv (g_server g)). unfold mwp in Hh.
  destruct (h r pv (g_server g)) as [s' []]; exact Hh.
Qed.

Lemma inner_auth h : quiet_handler h → quiet_handler (auth cfg h).
Proof.
  intros Hh r pv. unfold auth. destruct (auth_check _ _); [|apply Hh]. apply inner_body, inner_bind.
  - apply inner_call, inner_slog. set_solver.
  - intros _. apply inner_call, inner_reject.
Qed.

Lemma inner_limited (h : Handler (W:=W)) (allow : M (GState W) bool) r pv :
  quiet_handler h → emits_inner allow →
  emits_inner (body (let! ok := call allow in
                     if ok : bool then call (h r pv)
                     else call (onRateLimitRejected (rq_Path r)) ;;;
                          call (reject StatusTooManyRequests "rate limit exceeded"))).
Proof.
  intros Hh Ha. apply inner_body, inner_bind; [auto|]. intros [|]; [apply inner_call, Hh|].
  apply inner_bind; [apply inner_call, inner_rejected|]. intros _. apply inner_call, inner_reject.
Qed.

Lemma inner_rateLimit h : quiet_handler h → quiet_handler (rateLimit iter cfg h).
Proof. intros Hh r pv. apply inner_limited; [done|apply inner_allow]. Qed.

Lemma inner_healthRateLimit h : quiet_handler h → quiet_handler (healthRateLimit iter h).
Proof. intros Hh r pv. apply inner_limited; [done|apply inner_allow]. Qed.

Lemma inner_withDeprecation h : quiet_handler h → quiet_handler (withDeprecation cfg h).
Proof. intros Hh r pv. unfold withDeprecation. apply inner_body, inner_bind; auto. Qed.

Lemma inner_finish {X A} (m : M (GState W) X) : emits_inner m → emits_inner_prog (finish (A:=A) m).
Proof. intros Hm. apply inner_bind; [auto|]. intros r g. reflexivity. Qed.

(** The handler of the swagger document is one of those. *)
Lemma serveSwaggerDoc_quiet {U : URLParser} (ocfg : OriginConfig) (doc : result string) :
  quiet_handler (serveSwaggerDoc ocfg doc).
Proof.
  assert (∀ msg err, msg ∉ chain_lines → emits_inner (docUnavailable msg err)) as Hfail.
  { intros msg err Hm. apply inner_body, inner_bind; [auto using inner_slog|]. auto using inner_reject. }
  intros r pv. unfold serveSwaggerDoc. apply inner_body, inner_bind.
  { destruct doc; [apply inner_next|]. apply inner_finish, Hfail. by apply (bool_decide_unpack _). }
  intros d. apply inner_bind; [|auto]. apply inner_bind; [by apply inner_call; intros g|]. intros [t|e]; [apply inner_next|].
  apply inner_finish, Hfail. by apply (bool_decide_unpack _).
Qed.

Lemma app_inner e :
  quiet_handler metricsHandler → quiet_handler swaggerUI → quiet_handler swaggerDoc → e ∈ app →
  quiet_handler (re_handler e).
Proof.
  intros Hmet Hui Hdoc He. destruct (probes_quiet (W:=W) (cfg_vault cfg)) as (Hh & Hr & Hl).
  assert (quiet_handler (swaggerRoot swaggerUI)) as Hroot.
  { intros r pv. unfold swaggerRoot. case_decide; apply Hui. }
  unfold muxRoutes, appRoutes, probeRoutes, swaggerRoutes in He. simpl in He.
  repeat (apply elem_of_cons in He as [->|He];
    [simpl; auto 8 using inner_withDeprecation, inner_rateLimit, inner_healthRateLimit, inner_auth, inner_serve,
       signEVM_quiet, signCosmos_quiet, createKey_quiet, showKey_quiet, updateKeyChains_quiet, listKeys_quiet|]).
  destruct (cfg_swagger cfg); [|by apply not_elem_of_nil in He].
  apply elem_of_cons in He as [->|[->|He%not_elem_of_nil]%elem_of_cons]; [| |done]; simpl;
    destruct (cfg_swagger_auth cfg); auto using inner_auth.
Qed.

Lemma dispatch_inner r :
  quiet_handler metricsHandler → quiet_handler swaggerUI → quiet_handler swaggerDoc → emits_inner (dispatch r).
Proof.
  intros Hmet Hui Hdoc.
  destruct (mux_dispatched iter cfg metricsHandler swaggerUI swaggerDoc r) as [e pv He _ _|path| |methods].
  - by apply app_inner.
  - unfold redirect. apply inner_body, inner_bind; [auto|]. intros _. apply inner_bind; [|auto]. case_decide; auto.
  - unfold pageNotFound. auto 8.
  - unfold methodNotAllowed. auto 10.
Qed.

Lemma request_events_labelled r start stop resp : Forall well_labelled (request_events r start stop resp).
Proof.
  apply Forall_cons; split; [split; [left|done]|]. apply Forall_cons; split; [split; [right; left|done]|].
  by apply Forall_singleton.
Qed.

Lemma panic_events_labelled r m : Forall well_labelled (panic_events r m).
Proof. apply Forall_cons; split; [done|]. apply Forall_singleton. split; [do 8 right; left|done]. Qed.

(** C16. Every request is accounted for: after what its handlers emit, the chain
    emits either the request counter, the duration and one access line, with
    the method, path and status of the response, or, when the handler
    panicked, one panic line and the panic counter, and the answer is a 500.
    Nothing else in the chain writes either line, and every observation names
    a registered collector with one value per label. *)
Theorem requests_accounted (fresh : string) (r : Request) (g : GState W) :
  quiet_handler metricsHandler → quiet_handler swaggerUI → quiet_handler swaggerDoc →
  ∃ g' resp inner last, chain fresh r g = (g', Val resp) ∧
    trace g' = trace g ++ inner ++ last ∧ Forall inner_event inner ∧ Forall well_labelled last ∧
    (last = request_events r (clock (world (g_server g))) (clock (world (g_server g'))) resp ∨
     ∃ m, last = panic_events r m ∧ rs_status resp = StatusInternalServerError).
Proof.
  intros Hmet Hui Hdoc. rewrite routes_entered, outer_run.
  destruct (dispatch_inner r Hmet Hui Hdoc (entered (effective_id fresh r) g)) as (inner & Heq & Hin).
  destruct (dispatch r _) as [g1 [resp|m]]; cbn in Heq; do 2 eexists; exists inner; eexists;
    (split; [reflexivity|]); unfold trace in *; cbn in *; rewrite Heq, <- app_assoc.
  - split_and!; [reflexivity|done|apply request_events_labelled|by left].
  - split_and!; [reflexivity|done|apply panic_events_labelled|right; by exists m].
Qed.

(** ** The bearer token *)

Definition set_Authorization (a : string) (r : Request) : Request :=
  mkRequest (rq_Method r) (rq_Path r) (rq_Host r) (rq_TLS r) a (rq_XRequestID r) (rq_XForwardedProto r)
    (rq_XForwardedHost r) (rq_RemoteAddr r) (rq_RawQuery r) (rq_Query r) (rq_Body r).

(** The decision of the limiter for the principal of a request. *)
Definition within_rate (g : GState W) (r : Request) : bool :=
  (limiters_allow iter (clock (world (g_server g)))
     (principalKey (cfg_auth cfg) (rq_Authorization r) (rq_RemoteAddr r)) (principals g)).2.

(** The same for everybody but the limiter of the principals. *)
Definition same_view (x y : GState W * outcome HttpResponse) : Prop :=
  g_server x.1 = g_server y.1 ∧ g_headers x.1 = g_headers y.1 ∧ g_requestID x.1 = g_requestID y.1 ∧
  healthLimiters x.1 = healthLimiters y.1 ∧ x.2 = y.2.

(** Two headers the gateway treats alike. *)
Definition alike (g : GState W) (r : Request) (a : string) : Prop :=
  auth_check (cfg_auth cfg) a = auth_check (cfg_auth cfg) (rq_Authorization r) ∧
  within_rate g (set_Authorization a r) = within_rate g r.

Definition ignores_token (h : Handler (W:=W)) : Prop := ∀ r a pv, h (set_Authorization a r) pv = h r pv.

(** From alike headers the handler comes to the same end. *)
Definition blind (h : Handler (W:=W)) : Prop := ∀ r a pv g,
  alike g r a → same_view (h (set_Authorization a r) pv g) (h r pv g).

Lemma ignores_blind h : ignores_token h → blind h.
Proof. intros Hh r a pv g _. rewrite Hh. done. Qed.

Lemma auth_blind h : blind h → blind (auth cfg h).
Proof.
  intros Hh r a pv g Ha. destruct (Ha) as [Hauth _]. unfold auth. cbn [rq_Authorization set_Authorization].
  rewrite Hauth. destruct (auth_check _ (rq_Authorization r)); [done|by apply Hh].
Qed.

Lemma withDeprecation_blind h : blind h → blind (withDeprecation cfg h).
Proof.
  intros Hh r a pv g Ha. unfold withDeprecation, body, bind, call, setHeader. cbn.
  match goal with |- context [h r pv ?g0] => pose proof (Hh r a pv g0 Ha) as Hv;
    destruct (h r pv g0) as [g1 o1], (h (set_Authorization a r) pv g0) as [g2 o2] end.
  destruct Hv as (? & ? & ? & ? & Ho). cbn in *. subst o2. by destruct o1.
Qed.

Lemma serve_ignores h : (∀ r a pv, h (set_Authorization a r) pv = h r pv) → ignores_token (serve h).
Proof. intros Hh r a pv. unfold serve. by rewrite Hh. Qed.

Lemma healthRateLimit_ignores h : ignores_token h → ignores_token (healthRateLimit iter h).
Proof. intros Hh r a pv. unfold healthRateLimit. cbn [set_Authorization rq_RemoteAddr rq_Path]. by rewrite Hh. Qed.

Lemma rateLimit_auth_blind h :
  (∀ r a pv, h (set_Authorization a r) pv = h r pv) → blind (rateLimit iter cfg (auth cfg (serve h))).
Proof.
  intros Hh r a pv g [Hauth Hrate]. unfold within_rate in Hrate.
  unfold rateLimit, body, bind, call, allowPrincipal, auth, serve. rewrite Hh.
  destruct (limiters_allow _ _ (principalKey _ (rq_Authorization r) _) _) as [p ok].
  cbn [set_Authorization rq_Authorization rq_RemoteAddr rq_Path] in *. rewrite Hauth.
  destruct (limiters_allow _ _ _ _) as [p' ok']. cbn in Hrate. subst ok'. destruct ok; [|done].
  clear Hauth. destruct (auth_check _ _); [done|]. cbn. by destruct (h r pv (g_server g)) as [s' []].
Qed.

Lemma app_blind e :
  ignores_token metricsHandler → ignores_token swaggerUI → ignores_token swaggerDoc → e ∈ app → blind (re_handler e).
Proof.
  intros Hmet Hui Hdoc He.
  assert (ignores_token (swaggerRoot swaggerUI)) as Hroot.
  { intros r a pv. unfold swaggerRoot. cbn [set_Authorization rq_Path]. case_decide; [|apply Hui].
    apply (Hui (set_Path r "/swagger/index.html") a pv). }
  unfold muxRoutes, appRoutes, probeRoutes, swaggerRoutes in He. simpl in He.
  repeat (apply elem_of_cons in He as [->|He];
    [simpl; auto 8 using withDeprecation_blind, rateLimit_auth_blind, ignores_blind, healthRateLimit_ignores,
       serve_ignores|]).
  destruct (cfg_swagger cfg); [|by apply not_elem_of_nil in He].
  apply elem_of_cons in He as [->|[->|He%not_elem_of_nil]%elem_of_cons]; [| |done]; simpl;
    destruct (cfg_swagger_auth cfg); auto using auth_blind, ignores_blind.
Qed.

Lemma dispatch_blind r a g :
  ignores_token metricsHandler → ignores_token swaggerUI → ignores_token swaggerDoc → alike g r a →
  same_view (dispatch (set_Authorization a r) g) (dispatch r g).
Proof.
  intros Hmet Hui Hdoc Ha. unfold mux. cbn [set_Authorization rq_Method rq_Path].
  set (path := if decide _ then _ else _). clearbody path. cbv zeta.
  destruct (redirectsToSlash _ _ _ _ _ _ _); [done|]. case_decide; [done|].
  destruct (findRoute _ _ _) as [[e pv]|] eqn:Hf; [|done].
  apply findRoute_Some in Hf as (He%bySpecificity_elem & _). by apply app_blind.
Qed.

(** C15. The supplied token is never logged: two requests that differ only in
    their Authorization header, both accepted or refused for the same reason
    and both within or beyond their rate, leave the server in the same state,
    with the same log records and the same metrics emitted, and get the same
    response.  What the gateway emits tells no more about a token than that. *)
Theorem token_not_revealed (fresh : string) (r : Request) (a : string) (g : GState W) :
  ignores_token metricsHandler → ignores_token swaggerUI → ignores_token swaggerDoc →
  auth_check (cfg_auth cfg) a = auth_check (cfg_auth cfg) (rq_Authorization r) →
  within_rate g (set_Authorization a r) = within_rate g r →
  same_view (chain fresh (set_Authorization a r) g) (chain fresh r g).
Proof.
  intros Hmet Hui Hdoc Hauth Hrate. rewrite !routes_entered, !outer_run.
  change (effective_id fresh (set_Authorization a r)) with (effective_id fresh r).
  pose proof (dispatch_blind r a (entered (effective_id fresh r) g) Hmet Hui Hdoc (conj Hauth Hrate)) as Hv.
  destruct (dispatch r _) as [g1 o1], (dispatch (set_Authorization a r) _) as [g2 o2].
  destruct Hv as (Hs & Hh & Hid & Hl & Ho). cbn in *. subst o2.
  destruct o1 as [resp|m]; unfold same_view; cbn; rewrite ?Hs, ?Hh, ?Hid, ?Hl; done.
Qed.
End chain.
