(* ===== verification/OpenApiTheorems.v ===== *)
(** * Theorems about the published OpenAPI document

    The document of [docs/docs.go] is a fixed point of the build step, its
    references resolve, and it describes the routes of the gateway, their
    authentication and the types of their answers. *)

From S2P Require Import Prelude GoLib Types KeyPath Crypto Interfaces VaultClient EvmSigner.
From S2P Require Import CosmosSigner Sha256 Float64 Json JsonProps JsonRoundtrip HttpJson JsonIndent.
From S2P Require Import Limiter Telemetry Gateway GatewayHandlers Middleware Origin.
From S2P Require Import SwaggerPost SwaggerProps SwaggerTheorems OpenApi.

(** ** The document is well formed *)

Fixpoint utf8b (fuel : nat) (s : string) : bool :=
  match fuel, s with
  | _, EmptyString => true
  | O, _ => false
  | S fuel', _ => match rune_size s with O => false | S n => utf8b fuel' (str_drop (S n) s) end
  end.

Lemma utf8b_sound fuel s : utf8b fuel s = true → utf8 s.
Proof.
  revert s. induction fuel as [|fuel IH]; intros [|c s]; cbn [utf8b]; try done; try constructor.
  destruct (rune_size (String c s)) as [|n] eqn:Hn; [done|]. intros Hs. by apply (utf8_rune _ n); [|apply IH].
Qed.

Definition is_utf8 (s : string) : bool := utf8b (String.length s) s.

Definition finiteb (f : float64) : bool :=
  ((0 <=? f_mant f) && (f_mant f <? 2 ^ 53) && (-1074 <=? f_exp f) && (f_exp f <=? 971) &&
   ((2 ^ 52 <=? f_mant f) || (f_exp f =? -1074)))%Z.

Lemma finiteb_sound f : finiteb f = true → finite64 f.
Proof. unfold finiteb, finite64, representable. lia. Qed.

Fixpoint sortedb (m : members) : bool :=
  match m with
  | [] => true
  | kv :: m' => forallb (λ kv', match String.compare kv.1 kv'.1 with Lt => true | _ => false end) m' && sortedb m'
  end.

Lemma sortedb_sound m : sortedb m = true → StronglySorted key_lt m.
Proof.
  induction m as [|kv m IH]; [constructor|]. cbn [sortedb]. intros [Hf Hm]%andb_true_iff.
  constructor; [by apply IH|]. apply Forall_forallb in Hf. eapply Forall_impl; [exact Hf|].
  intros kv'. unfold key_lt. by destruct (String.compare _ _).
Qed.

Fixpoint wfb (v : json) : bool :=
  match v with
  | JNull | JBool _ => true
  | JNumber f => finiteb f
  | JString s => is_utf8 s
  | JArray l => forallb wfb l
  | JObject m => sortedb m && forallb (λ kv, is_utf8 kv.1 && wfb kv.2) m
  end.

Lemma wfb_sound v : wfb v = true → wf v.
Proof.
  revert v. apply (json_nested_ind (λ v, wfb v = true → wf v)); try by constructor.
  - intros f Hf. constructor. by apply finiteb_sound.
  - intros s Hs. constructor. by eapply utf8b_sound.
  - intros l IH Hl. constructor. cbn [wfb] in Hl. rewrite Forall_forallb in Hl.
    rewrite Forall_forall in *. auto.
  - intros m IH. cbn [wfb]. intros [Hs Hm]%andb_true_iff. constructor; [by apply sortedb_sound|].
    rewrite Forall_forallb in Hm. rewrite Forall_forall in *. intros kv Hkv.
    destruct (andb_true_iff (is_utf8 kv.1) (wfb kv.2)) as [[Hk Hv] _]; [by apply Hm|]. split; [by eapply utf8b_sound|by apply IH].
Qed.

Lemma openapi_wf : wf (JObject openapi).
Proof. apply wfb_sound. reflexivity. Qed.

Lemma openapi_height : (height (JObject openapi) ≤ maxNestingDepth)%N.
Proof. apply N.leb_le. reflexivity. Qed.

Lemma docTemplate_decodes : Unmarshal docTemplate = Ok (JObject openapi).
Proof. apply Unmarshal_MarshalIndent; [apply openapi_wf|apply openapi_height]. Qed.

(** The build step leaves it as it is. *)
Lemma openapi_normal : normalizeSpec openapi = openapi.
Proof. reflexivity. Qed.

Lemma docTemplate_no_marker : Contains docTemplate endMarker = false.
Proof. reflexivity. Qed.

(** ** References *)

(** The schemas of a document. *)
Definition schemas_of (spec : members) : members := get_object "schemas" (get_object "components" spec).

(** A reference to a schema the document defines. *)
Definition ref_defined (spec : members) (s : string) : bool :=
  HasPrefix s schemasRef && bool_decide (is_Some (obj_get (TrimPrefix s schemasRef) (schemas_of spec))).

Definition refs_resolve (spec : members) : Prop :=
  ∀ n v, within (JObject spec) (JObject n) → obj_get "$ref" n = Some v →
    ∃ s, v = JString s ∧ ref_defined spec s = true.

(** Every object of a value passes [f]. *)
Fixpoint each_object (f : members → bool) (v : json) : bool :=
  match v with
  | JArray l => forallb (each_object f) l
  | JObject m => f m && forallb (λ kv, each_object f kv.2) m
  | _ => true
  end.

Lemma each_object_sound f v n : each_object f v = true → within v (JObject n) → f n = true.
Proof.
  intros Hf Hw. remember (JObject n) as w eqn:Hn. revert Hf.
  induction Hw as [v|l x v Hx _ IH|m k x v Hx _ IH]; [subst v|..]; cbn [each_object].
  - by intros [? _]%andb_true_iff.
  - rewrite Forall_forallb, Forall_forall. auto.
  - intros [_ Hm]%andb_true_iff. rewrite Forall_forallb, Forall_forall in Hm.
    apply IH; [done|]. exact (Hm _ Hx).
Qed.

Definition ref_member_ok (spec n : members) : bool :=
  match obj_get "$ref" n with
  | None => true
  | Some (JString s) => ref_defined spec s
  | Some _ => false
  end.

Lemma refs_resolve_check spec : each_object (ref_member_ok spec) (JObject spec) = true → refs_resolve spec.
Proof.
  intros Hc n v Hw Hv. pose proof (each_object_sound _ _ _ Hc Hw) as Hn. unfold ref_member_ok in Hn.
  rewrite Hv in Hn. destruct v as [| | |s| |]; try done. by exists s.
Qed.

(** C28. The published document is what the build step makes of itself: its text
    reads back as the document, every [$ref] in it, at any depth, and every
    reference of a discriminator names a schema it defines, and running the
    build step over the checked-in [docs.go], [swagger.json] and
    [swagger.yaml] changes no file. *)
Theorem openapi_published (fs : FS) (pre post : string) :
  fs_faults fs = ∅ →
  fs_files fs !! "docs/swagger.json" = Some (SwaggerTemplate SwaggerInfo) →
  fs_files fs !! "docs/swagger.yaml" = Some (SwaggerTemplate SwaggerInfo) →
  fs_files fs !! "docs/docs.go"
    = Some (pre +:+ startMarker +:+ SwaggerTemplate SwaggerInfo +:+ endMarker +:+ post) →
  Index (pre +:+ startMarker) startMarker = Some (String.length pre) →
  run fs = (fs, Val (Ok tt)) ∧
  Unmarshal (SwaggerTemplate SwaggerInfo) = Ok (JObject openapi) ∧
  refs_resolve openapi ∧ discriminators_resolve openapi.
Proof.
  change (SwaggerTemplate SwaggerInfo) with docTemplate. intros Hf Hjson Hyaml Hgo Hpre.
  assert (discriminators_resolve openapi) as Hd by (apply validateSpecRefs_iff; reflexivity).
  assert (published openapi = docTemplate) as Hpub by (unfold published; by rewrite openapi_normal).
  split_and!; [|apply docTemplate_decodes|apply refs_resolve_check; reflexivity|done].
  assert (template_in (pre +:+ startMarker +:+ docTemplate +:+ endMarker +:+ post) pre docTemplate post) as Ht.
  { eexists. split; apply first_at_Index; (split; [reflexivity|]).
    - apply (Index_same_prefix pre startMarker ""); [done|by rewrite string_app_nil_r].
    - apply Index_end, docTemplate_no_marker. }
  rewrite (run_writes fs docTemplate _ pre docTemplate post openapi Hjson docTemplate_decodes
             ltac:(by rewrite openapi_normal) ltac:(intros; by rewrite Hf, lookup_empty) Hgo Ht).
  rewrite Hpub. do 2 f_equal. destruct fs as [files faults]. cbn [fs_files fs_faults] in *. subst faults.
  f_equal. unfold documents_written. cbn [fs_files].
  by rewrite (insert_id _ "docs/swagger.json"), (insert_id _ "docs/swagger.yaml"), insert_id by done.
Qed.

(** ** The document the gateway serves *)

Section served.
Context `{SwagSpecLaws} {R : Type} `{SR : !SwagRegistry R} `{!SwagRegistryLaws R}.
Context {U : URLParser} {RL : RateLib} {W : Type} (cfg : OriginConfig).

(** The template has no delimiter, so that the registered document is its text. *)
Lemma registered_document : spec_ReadDoc SwaggerInfo = docTemplate.
Proof. by rewrite spec_ReadDoc_plain. Qed.

(** The [init] of the gateway registers the document under the name that
    [serveSwaggerDoc] reads, and the endpoint answers with it, its servers being
    the resolved origin. *)
Lemma openapi_served (reg : R) (e : error) (r : Request) (pv : string) (g : GState W) :
  ReadDoc "swagger" reg = Err e → resolveOrigin cfg r ≠ "" → utf8 (TrimRight (resolveOrigin cfg r) "/") →
  ∃ reg' g' text, gateway_init reg = Val reg' ∧
    serveSwaggerDoc cfg (ReadDoc "swagger" reg') r pv g = (g', Val (mkResponse StatusOK (TextBody text))) ∧
    g_server g' = g_server g ∧
    Unmarshal text = Ok (JObject (obj_set "servers" (serversOf (resolveOrigin cfg r)) openapi)).
Proof.
  intros Hreg Hne Hu. destruct (Register_new "swagger" SwaggerInfo reg e Hreg) as (reg' & Hr & Hd).
  destruct (normalize_reads_back docTemplate _ openapi docTemplate_decodes Hne Hu) as (text & Ht & Hread).
  exists reg'. eexists _, text. unfold gateway_init. rewrite InstanceName_set by done.
  rewrite Hd, registered_document. unfold serveSwaggerDoc, catch, or_finish, body, bind, call, next. rewrite Ht. by split_and!.
Qed.
End served.

Module ServedChecks.

#[local] Instance plain_spec : SwagSpec := {|
  InstanceName spec := if decide (InfoInstanceName spec = "") then "swagger" else InfoInstanceName spec;
  spec_ReadDoc := SwaggerTemplate |}.

#[local] Instance map_registry : SwagRegistry (gmap string string) := {|
  Register name spec reg := match reg !! name with
                            | Some _ => Panic "Register called twice for swag"
                            | None => Val (<[name := spec_ReadDoc spec]> reg)
                            end;
  ReadDoc name reg := match reg !! name with Some doc => Ok doc | None => Err (errors_New "not found") end |}.

#[local] Instance plain_laws : SwagSpecLaws.
Proof. split; [|done]. intros spec Hn. cbn. by rewrite decide_False. Qed.

#[local] Instance map_laws : SwagRegistryLaws (gmap string string).
Proof.
  split. intros name spec reg e. cbn. destruct (reg !! name) as [doc|] eqn:Hn; [done|]. intros _.
  eexists. split; [done|]. by rewrite lookup_insert_eq.
Qed.

(** A second registration would end the process. *)
Example registered_once :
  match gateway_init (R:=gmap string string) ∅ with
  | Val reg => gateway_init reg = Panic "Register called twice for swag" ∧ ReadDoc "swagger" reg = Ok docTemplate
  | Panic _ => False
  end.
Proof. unfold gateway_init. cbn -[docTemplate]. by split. Qed.
End ServedChecks.
