(* ===== verification/ApiContract.v ===== *)
(** * The gateway answers as its OpenAPI document says

    The operations of the document of [docs/docs.go] against the routes and
    handlers of [internal/gateway]: which requests an operation addresses,
    which answers its response schemas allow, and that the request chain gives
    no other answer on a documented status. *)

From S2P Require Import Prelude GoLib Types KeyPath Crypto Interfaces VaultClient EvmSigner.
From S2P Require Import CosmosSigner Sha256 Float64 Json JsonProps JsonRoundtrip HttpJson HttpJsonProps.
From S2P Require Import Limiter Telemetry Gateway GatewayHandlers GatewayTheorems ResponseTypes Middleware Startup.
From S2P Require Import JsonIndent SwaggerPost SwaggerProps SwaggerTheorems OpenApi MiddlewareTheorems OpenApiTheorems.

(** ** Schemas of the document *)

Definition strings_at (k : string) (s : members) : list string :=
  match obj_get k s with
  | Some (JArray l) => omap (λ v, match v with JString x => Some x | _ => None end) l
  | _ => []
  end.

Definition enum_ok (s : members) (x : string) : bool :=
  match obj_get "enum" s with None => true | Some _ => bool_decide (x ∈ strings_at "enum" s) end.

(** The schema of a member of an object. *)
Definition property (s : members) (k : string) : option json :=
  match obj_get k (get_object "properties" s) with
  | Some p => Some p
  | None => obj_get "additionalProperties" s
  end.

Definition items (s : members) : json := default JNull (obj_get "items" s).

(** The schema a reference stands for. *)
Definition deref (spec : members) (ref : json) : json :=
  match ref with
  | JString r => default JNull (obj_get (TrimPrefix r schemasRef) (schemas_of spec))
  | _ => JNull
  end.

(** A JSON text is an instance of a schema.  The fuel bounds the nesting of
    schemas and references; without fuel nothing is an instance. *)
Fixpoint conforms (fuel : nat) (spec : members) (sch : json) (t : jtext) : bool :=
  match fuel, sch with
  | S fuel', JObject s =>
      match obj_get "$ref" s with
      | Some ref => conforms fuel' spec (deref spec ref) t
      | None =>
          let ty := get_string "type" s in
          match t with
          | TNull => false
          | TString x => bool_decide (ty = "string") && enum_ok s x
          | TBool _ => bool_decide (ty = "boolean")
          | TNumber l => bool_decide (ty = "integer") && bool_decide (n_frac l = "" ∧ n_exp l = None)
          | TArray l => bool_decide (ty = "array") && forallb (conforms fuel' spec (items s)) l
          | TObject ms =>
              bool_decide (ty = "object") && forallb (λ k, has_member k ms) (strings_at "required" s) &&
              forallb (λ kv, match property s kv.1 with
                             | Some p => conforms fuel' spec p kv.2
                             | None => true
                             end) ms
          end
      end
  | _, _ => false
  end.

(** Every text of the type [S] is an instance of the schema. *)
Fixpoint covers (fuel : nat) (spec : members) (sch : json) (S : schema) : bool :=
  match fuel, sch with
  | Datatypes.S fuel', JObject s =>
      match obj_get "$ref" s with
      | Some ref => covers fuel' spec (deref spec ref) S
      | None =>
          let ty := get_string "type" s in
          match S with
          | SString => bool_decide (ty = "string") && negb (bool_decide (is_Some (obj_get "enum" s)))
          | SEnum vs => bool_decide (ty = "string") && forallb (enum_ok s) vs
          | SBool => bool_decide (ty = "boolean")
          | SInt => bool_decide (ty = "integer")
          | SArray e => bool_decide (ty = "array") && covers fuel' spec (items s) e
          | SObject fs =>
              bool_decide (ty = "object") &&
              forallb (λ k, match assoc k fs with Some (_, r) => r | None => false end) (strings_at "required" s) &&
              forallb (λ f, match property s f.1 with
                            | Some p => covers fuel' spec p f.2.1
                            | None => true
                            end) fs
          end
      end
  | _, _ => false
  end.

Lemma covers_sound fuel spec sch S t :
  covers fuel spec sch S = true → typed S t = true → conforms fuel spec sch t = true.
Proof.
  revert sch S t. induction fuel as [|fuel IH]; intros sch S t; [done|].
  destruct sch as [| | | | |s]; try done. cbn [covers conforms].
  destruct (obj_get "$ref" s) as [ref|]; [apply IH|]. cbv zeta.
  destruct S as [| | |vs|e|fs], t as [| |l|x|l|ms]; cbn [typed]; try done.
  - intros [-> He]%andb_true_iff _. unfold enum_ok. by destruct (obj_get "enum" s).
  - by intros -> ->.
  - intros [-> He]%andb_true_iff Hx%bool_decide_eq_true. rewrite Forall_forallb, Forall_forall in He. by rewrite He.
  - intros [-> He]%andb_true_iff. rewrite !Forall_forallb. cbn [andb]. rewrite Forall_forallb.
    intros Hl. eapply Forall_impl; [exact Hl|]. intros t. by apply IH.
  - intros [[-> Hreq]%andb_true_iff Hfs]%andb_true_iff [Hp Ht]%andb_true_iff. cbn [andb].
    apply Forall_forallb in Hreq, Hfs, Ht. unfold required_present in Hp. apply Forall_forallb in Hp.
    apply andb_true_iff. split; apply Forall_forallb.
    + eapply Forall_impl; [exact Hreq|]. cbv beta. intros k Hk. destruct (assoc k fs) as [[S0 [|]]|] eqn:Ha; try done.
      rewrite Forall_forall in Hp. exact (Hp _ (assoc_elem _ _ _ Ha)).
    + eapply Forall_impl; [exact Ht|]. intros [k t] Hk. cbn [fst snd] in *.
      destruct (assoc k fs) as [[S0 r]|] eqn:Ha; [|done]. rewrite Forall_forall in Hfs.
      specialize (Hfs _ (assoc_elem _ _ _ Ha)). cbn [fst snd] in Hfs. destruct (property s k); [|done].
      by eapply IH.
Qed.

(** ** Operations of the document *)

(** The operations, by path and method. *)
Definition api_operations (spec : members) : list (string * string * members) :=
  flat_map (λ p, match p.2 with
                 | JObject ops => omap (λ o, match o.2 with
                                             | JObject op => Some (p.1, o.1, op)
                                             | _ => None
                                             end) ops
                 | _ => []
                 end) (get_object "paths" spec).

(** The schema of the JSON answer with a status. *)
Definition response_schema (op : members) (status : Z) : option json :=
  obj_get "schema" (get_object "application/json" (get_object "content"
    (get_object (Itoa status) (get_object "responses" op)))).

(** A security requirement is stated. *)
Definition secured (op : members) : bool :=
  match obj_get "security" op with Some (JArray (_ :: _)) => true | _ => false end.

(** The name the document gives a route. *)
Definition template (p : pattern) : string :=
  match p with Exact q => q | Rest dir => dir +:+ "{path}" end.

(** A request path is an instance of a documented path: it is that path, or the
    parameter at its end stands for a non-empty text in a clean path. *)
Definition path_instance (documented path : string) : Prop :=
  match Index documented "{path}" with
  | None => path = documented
  | Some n => ∃ v, v ≠ "" ∧ path = str_take n documented +:+ v ∧ cleanPath path = path
  end.

(** The method an operation is listed under. *)
Definition verb (m : string) : option string :=
  assoc m [("get", "GET"); ("put", "PUT"); ("post", "POST"); ("delete", "DELETE"); ("options", "OPTIONS");
           ("head", "HEAD"); ("patch", "PATCH"); ("trace", "TRACE")].

Definition addresses (r : Request) (op : string * string * members) : Prop :=
  verb op.1.2 = Some (rq_Method r) ∧ path_instance op.1.1 (rq_Path r).

(** The statuses an operation can answer that the document does not list. *)
Definition undocumented (path method : string) : list Z :=
  default [] (assoc (path +:+ " " +:+ method)
    [("/v1/health get", [429; 500]%Z);
     ("/v1/keys get", [400; 404; 503]%Z);
     ("/v1/keys post", [201; 404; 503]%Z);
     ("/v1/keys/info get", [503]%Z);
     ("/v1/keys/{path} patch", [404; 503]%Z);
     ("/v1/sign/cosmos post", [403; 404; 503]%Z);
     ("/v1/sign/evm post", [403; 404; 503]%Z)]).

(** The body is JSON, of the schema of its status when there is one. *)
Definition documented (op : string * string * members) (resp : HttpResponse) : Prop :=
  ∃ t t', body_text (rs_body resp) = Some t ∧ parse (Encode t) = Some t' ∧
    match response_schema op.2 (rs_status resp) with
    | Some sch => conforms 16 openapi sch t' = true
    | None => rs_status resp ∈ undocumented op.1.1 op.1.2
    end.

(** The answers of these statuses and types are documented. *)
Definition covered (op : string * string * members) (allowed : list (Z * schema)) : bool :=
  forallb (λ x, match response_schema op.2 x.1 with
                | Some sch => covers 16 openapi sch x.2
                | None => bool_decide (x.1 ∈ undocumented op.1.1 op.1.2)
                end) allowed.

Lemma covered_sound op allowed resp : covered op allowed = true → replies allowed resp → documented op resp.
Proof.
  unfold covered. rewrite Forall_forallb, Forall_forall. intros Hc (t & t' & S & Ht & Hp & Hty & Hin).
  exists t, t'. split_and!; [done|done|]. specialize (Hc _ Hin). cbn [fst snd] in Hc.
  destruct (response_schema _ _); [by eapply covers_sound|by apply bool_decide_eq_true in Hc].
Qed.

Definition as_object (v : json) : members := match v with JObject m => m | _ => [] end.

Lemma api_operations_openapi : api_operations openapi =
  [("/v1/health", "get", as_object op_get_health);
   ("/v1/keys", "get", as_object op_get_keys); ("/v1/keys", "post", as_object op_post_keys);
   ("/v1/keys/info", "get", as_object op_get_keys_info);
   ("/v1/keys/{path}", "patch", as_object op_patch_keys_path);
   ("/v1/sign/cosmos", "post", as_object op_post_sign_cosmos);
   ("/v1/sign/evm", "post", as_object op_post_sign_evm)].
Proof. reflexivity. Qed.

(** ** Dispatch *)

Section contract.
Context {R : RateLib} {W : Type} {K : KeyStore W} {H : HealthChecker W} {T : Clock W}
        {EV : EVMSigner W} {CO : CosmosSignerI W} {C : EthCrypto} {TX : EthTx} {L : CosmosLib}.
Context (iter : iteration) (cfg : ChainConfig) (metricsHandler swaggerUI swaggerDoc : Handler (W:=W)).

Abbreviation app := (muxRoutes iter cfg metricsHandler swaggerUI swaggerDoc).
Abbreviation dispatch := (mux iter cfg metricsHandler swaggerUI swaggerDoc).
Abbreviation chain := (routes iter cfg metricsHandler swaggerUI swaggerDoc).

Lemma findRoute_skip (e : routeEntry (W:=W)) l m p :
  matchPattern (re_pattern e) p = None ∨ methodMatches (re_method e) m = false →
  findRoute (e :: l) m p = findRoute l m p.
Proof. cbn [findRoute]. intros [->| ->]; [done|by case_match]. Qed.

Lemma findRoute_hit (e : routeEntry (W:=W)) l m p pv :
  matchPattern (re_pattern e) p = Some pv → methodMatches (re_method e) m = true →
  findRoute (e :: l) m p = Some (e, pv).
Proof. cbn [findRoute]. by intros -> ->. Qed.

(** Try the routes one by one. *)
Ltac find_route :=
  unfold bySpecificity, muxRoutes, appRoutes, probeRoutes, swaggerRoutes; destruct (cfg_swagger cfg);
  cbn [flat_map List.filter re_pattern re_method prefixed List.app];
  repeat (rewrite findRoute_skip by first [right; reflexivity|left; reflexivity]);
  (eapply findRoute_hit; [first [reflexivity|apply (CutPrefix_app "/v1/keys/")]|reflexivity]).

Lemma mux_found r e pv :
  findRoute (bySpecificity app) (rq_Method r) (rq_Path r) = Some (e, pv) →
  cleanPath (rq_Path r) = rq_Path r →
  redirectsToSlash iter cfg metricsHandler swaggerUI swaggerDoc (rq_Method r) (rq_Path r) = false →
  dispatch r = re_handler e r pv.
Proof.
  intros Hf Hc Hs. unfold mux.
  assert ((if decide (rq_Method r = "CONNECT") then rq_Path r else cleanPath (rq_Path r)) = rq_Path r) as ->
    by (rewrite Hc; by case_decide).
  cbv zeta. rewrite Hs. rewrite (decide_False (P:=rq_Path r ≠ rq_Path r)) by (intros Hne; by apply Hne). by rewrite Hf.
Qed.

(** A request for the path of a literal pattern. *)
Lemma mux_exact r e pv :
  findRoute (bySpecificity app) (rq_Method r) (rq_Path r) = Some (e, pv) →
  cleanPath (rq_Path r) = rq_Path r → (∃ q, re_pattern e = Exact q) → dispatch r = re_handler e r pv.
Proof.
  intros Hf Hc [q Hq]. apply mux_found; [done..|]. unfold redirectsToSlash. rewrite Hf. cbn [exactMatch].
  by rewrite Hq.
Qed.

(** A request below the directory of a [{path...}] pattern. *)
Lemma mux_below r e pv dir v :
  (∀ p, HasPrefix p dir = true → ∃ pv, findRoute (bySpecificity app) (rq_Method r) p = Some (e, pv)) →
  findRoute (bySpecificity app) (rq_Method r) (rq_Path r) = Some (e, pv) →
  re_pattern e = Rest dir → rq_Path r = dir +:+ v → v ≠ "" → cleanPath (rq_Path r) = rq_Path r →
  dispatch r = re_handler e r pv.
Proof.
  intros Hall Hf Hd Hp Hv Hc. apply mux_found; [done..|]. unfold redirectsToSlash. rewrite Hf. cbn [exactMatch].
  assert (HasPrefix (rq_Path r +:+ "/") dir = true) as Hpre
    by (rewrite Hp, string_app_assoc; apply HasPrefix_app).
  destruct (Hall _ Hpre) as [pv' ->]. cbn [exactMatch]. rewrite Hd.
  rewrite (bool_decide_false (rq_Path r +:+ "/" = dir)); [by rewrite andb_false_r|].
  rewrite Hp. intros Heq. apply (f_equal String.length) in Heq. rewrite !string_length_app in Heq. simpl in Heq. lia.
Qed.

(** ** The operations and what runs for them *)

Record apiOp := mkApiOp {
  ao_path : string;
  ao_method : string;
  ao_handler : Request → string → M (Server W) HttpResponse;
  ao_answers : list (Z * schema) }.

(** The operations behind the token check. *)
Definition secured_ops : list apiOp :=
  [mkApiOp "/v1/keys" "get"
     (λ r _, listKeys (rq_Query r "prefix") (rq_Query r "limit") (rq_Query r "cursor"))
     (list_success ++ failures);
   mkApiOp "/v1/keys" "post" (λ r _, createKey (decode_KeyCreate (rq_Body r)))
     (create_success ++ failures);
   mkApiOp "/v1/keys/info" "get" (λ r _, showKey (rq_Query r "path"))
     (show_success ++ failures);
   mkApiOp "/v1/keys/{path}" "patch" (λ r pv, updateKeyChains pv (decode_Raw (rq_Body r)))
     (update_success ++ failures);
   mkApiOp "/v1/sign/cosmos" "post" (λ r _, signCosmos (decode_Cosmos (rq_Body r)))
     (cosmos_success ++ failures);
   mkApiOp "/v1/sign/evm" "post" (λ r _, signEVM (decode_EVM (rq_Body r)))
     (evm_success ++ failures)].

Lemma secured_answers a r pv s : a ∈ secured_ops → mwp (ao_handler a r pv) (answered (ao_answers a)) s.
Proof.
  unfold secured_ops. intros Ha.
  repeat (apply elem_of_cons in Ha as [->|Ha];
          [cbn [ao_handler ao_answers];
           auto using signEVM_typed, signCosmos_typed, createKey_typed, showKey_typed, updateKeyChains_typed,
             listKeys_typed|]).
  by apply not_elem_of_nil in Ha.
Qed.

Definition guardedHandler (h : Request → string → M (Server W) HttpResponse) : Handler :=
  rateLimit iter cfg (auth cfg (serve h)).

Lemma secured_dispatch a r op :
  a ∈ secured_ops → addresses r (ao_path a, ao_method a, op) →
  ∃ pv, dispatch r = guardedHandler (ao_handler a) r pv.
Proof.
  unfold secured_ops. intros Ha [Hm Hp].
  repeat (apply elem_of_cons in Ha as [->|Ha]); [..|by apply not_elem_of_nil in Ha].
  all: cbn [fst snd ao_path ao_method] in Hm, Hp; injection Hm as Hm.
  4:{ destruct Hp as (v & Hv & Hpath & Hclean). change (str_take 9 "/v1/keys/{path}") with "/v1/keys/" in Hpath.
      eexists. etrans; [eapply (mux_below r _ _ "/v1/keys/" v); [..|done|done|done]|].
      - rewrite <- Hm. intros p (w & ->)%HasPrefix_true. eexists. find_route.
      - rewrite <- Hm, Hpath. find_route.
      - reflexivity.
      - reflexivity. }
  all: cbn in Hp; exists ""; (etrans; [apply mux_exact;
         [rewrite <- Hm, Hp; find_route|rewrite Hp; reflexivity|by eexists]|reflexivity]).
Qed.
(** ** The health probe and its cache *)

Definition Probe_schema : schema := SObject [req "status" SString; opt "reason" SString].

Definition health_answers : list (Z * schema) := [(200%Z, Probe_schema); (503%Z, Probe_schema)].

Definition probe_answer (status : Z) (b : Body) : Prop :=
  (status, b) = ready ∨ ∃ reason, (status, b) = notReady reason.

(** What the probe's cache holds: nothing yet, or an answer of the probe. *)
Definition probe_cache (c : healthCache) : Prop :=
  (hc_expiresAt c ≤ zero_time)%Z ∨ probe_answer (hc_status c) (hc_body c).

Lemma probe_answer_replies status b : probe_answer status b → replies health_answers (mkResponse status b).
Proof.
  unfold probe_answer, ready, notReady.
  intros [[= -> ->]|[reason [= -> ->]]]; (eapply (replies_intro _ _ _ Probe_schema);
    [reflexivity|vm_compute; reflexivity|set_solver|reflexivity]).
Qed.

Lemma computeReadiness_answers v (s : Server W) :
  mwp (computeReadiness v) (λ s' o, healthResp s' = healthResp s ∧
         ∀ st b, o = Val (st, b) → probe_answer st b) s.
Proof.
  unfold computeReadiness. repeat wp_step; [apply mwp_on_world; intros w' [[[]|e]|m] _|];
    repeat wp_step; (split; [done|]); intros st b [=]; subst; unfold probe_answer; eauto.
Qed.

Lemma health_answers_probe v (s : Server W) :
  probe_cache (healthResp s) → (zero_time ≤ clock (world s))%Z →
  mwp (health v) (λ s' o, answered health_answers s' o ∧ probe_cache (healthResp s')) s.
Proof.
  intros Hc Ht. unfold health. repeat wp_step.
  - split; [|done]. intros resp [= <-]. apply probe_answer_replies.
    revert Heqo. unfold health_get. destruct (Z.ltb_spec (clock (world s)) (hc_expiresAt (healthResp s))); [|done].
    intros [= <- <-]. destruct Hc; [lia|done].
  - eapply mwp_mono; [apply computeReadiness_answers|]. intros s' [[st b]|m] [Hh Ha]; cbv beta iota.
    + specialize (Ha st b eq_refl). repeat wp_step. split; [|by right].
      intros resp [= <-]. by apply probe_answer_replies.
    + split; [done|]. by rewrite Hh.
Qed.

(** The other handlers do not touch it. *)
Definition leaves_probe {X} (m : M (Server W) X) : Prop := ∀ s,
  mwp m (λ s' _, healthResp s' = healthResp s) s.

Lemma mwp_observing_probe {X} label (m : M (Server W) X) (s : Server W) Q :
  mwp m (λ s' o, ∀ s'', healthResp s'' = healthResp s' → Q s'' o) s → mwp (observing label m) Q s.
Proof. unfold mwp, observing. destruct (m s) as [s' o]. simpl. intros HQ. by apply HQ. Qed.

Ltac probe_step :=
  lazymatch goal with
  | |- mwp (on_world _) _ _ => apply mwp_on_world; intros ? [] ?
  | |- mwp (inc _ _) _ _ => unfold mwp, inc
  | |- mwp (setChains _) _ _ => unfold mwp, setChains
  | |- mwp (observing _ _) _ _ => apply mwp_observing_probe
  | |- mwp (writeChainAuthzResult _ _ _ _ _) _ _ => apply mwp_writeChainAuthzResult; intros ? ? ? _
  | |- mwp (signingFailed _ _ _) _ _ => log_step
  | |- mwp (notCanonical _ _) _ _ => log_step
  | |- mwp (writeVaultErr _ _ _) _ _ => log_step
  | |- mwp (logged _ _ _ _) _ _ => log_step
  | |- mwp (match ?x with _ => _ end) _ _ => destruct x
  | |- context [match ?x with _ => _ end] => destruct x
  | _ => wp_step
  end; cbn [fst snd healthResp].

Lemma authorizeChain_probe path c : leaves_probe (authorizeChain path c).
Proof. intros s. unfold authorizeChain, authorizeChainFetch. repeat probe_step; done. Qed.

(** A call that leaves it alone. *)
Lemma mwp_leaves {X} (m : M (Server W) X) Q (s : Server W) :
  leaves_probe m → (∀ s' o, healthResp s' = healthResp s → Q s' o) → mwp m Q s.
Proof. intros Hm HQ. eapply mwp_mono; [apply Hm|]. auto. Qed.

Lemma listEntries_probe paths : leaves_probe (listEntries paths).
Proof.
  induction paths as [|p paths IH]; intros s; cbn [listEntries]; [by repeat wp_step|]. unfold listEntry.
  repeat first [apply (mwp_leaves _ _ _ IH); intros ? [] ?|probe_step]; done.
Qed.

Ltac leaves :=
  repeat first [ apply (mwp_leaves _ _ _ (authorizeChain_probe _ _)); intros ? [] ?
               | apply (mwp_leaves _ _ _ (listEntries_probe _)); intros ? [] ?
               | probe_step ];
  intros; simpl in *; congruence.

Lemma secured_probe a r pv : a ∈ secured_ops → leaves_probe (ao_handler a r pv).
Proof.
  unfold secured_ops. intros Ha s.
  repeat (apply elem_of_cons in Ha as [->|Ha]); [..|by apply not_elem_of_nil in Ha]; cbn [ao_handler].
  - unfold listKeys. leaves.
  - unfold createKey, decodeBody, probeKey. leaves.
  - unfold showKey. leaves.
  - unfold updateKeyChains, decodeBody. leaves.
  - unfold signCosmos, decodeBody, cosmosModes, requireChain. leaves.
  - unfold signEVM, decodeBody, signEVMRawTx, signEVMPersonal, signEVMEIP712, requireChain. leaves.
Qed.

(** ** Through the chain *)

Definition Panic_schema : schema := SObject [req "error" SString; req "request_id" SString].

(** What the chain answers by itself, without and with the token check. *)
Definition limit_answers : list (Z * schema) := [(429%Z, ErrorResponse_schema); (500%Z, Panic_schema)].

Definition gate_answers : list (Z * schema) := (401%Z, ErrorResponse_schema) :: limit_answers.

Lemma limit_answers_in allowed x : x ∈ limit_answers → x ∈ allowed ++ limit_answers ∧ x ∈ allowed ++ gate_answers.
Proof. intros Hx. rewrite !elem_of_app. split; right; [done|by right]. Qed.

Lemma limit_429 : (429%Z, ErrorResponse_schema) ∈ limit_answers.
Proof. left. Qed.

Lemma limit_500 : (500%Z, Panic_schema) ∈ limit_answers.
Proof. right. left. Qed.

Lemma replies_mono allowed allowed' resp :
  replies allowed resp → (∀ x, x ∈ allowed → x ∈ allowed') → replies allowed' resp.
Proof. intros (t & t' & S & ? & ? & ? & ?) Hs. exists t, t', S. auto. Qed.

(** A JSON answer of the listed types, with the probe's cache in order. *)
Definition json_answer (allowed : list (Z * schema)) (x : GState W * outcome HttpResponse) : Prop :=
  probe_cache (healthResp (g_server x.1)) ∧
  ∀ resp, x.2 = Val resp →
    replies allowed resp ∧ g_headers x.1 !! "Content-Type" = Some "application/json".

Lemma serve_answers h r pv g allowed gate :
  mwp (h r pv) (λ s' o, answered allowed s' o ∧ probe_cache (healthResp s')) (g_server g) →
  json_answer (allowed ++ gate) (serve h r pv g).
Proof.
  unfold serve, mwp, json_answer. destruct (h r pv (g_server g)) as [s' [resp|m]]; intros [Ha Hp]; cbn in *.
  - split; [done|]. intros ? [= <-]. rewrite lookup_insert_eq. split; [|done].
    eapply replies_mono; [by apply Ha|]. intros x. rewrite elem_of_app. auto.
  - by split.
Qed.

Lemma reject_answers allowed status msg g :
  (status, ErrorResponse_schema) ∈ allowed → probe_cache (healthResp (g_server g)) →
  json_answer allowed (reject status msg g).
Proof.
  intros Hst Hp. split; [done|]. intros ? [= <-]. cbn. rewrite lookup_insert_eq. split; [|done].
  by eapply (replies_intro _ _ _ ErrorResponse_schema).
Qed.

Lemma auth_answers h r pv g allowed :
  (401%Z, ErrorResponse_schema) ∈ allowed →
  probe_cache (healthResp (g_server g)) → json_answer allowed (h r pv g) → json_answer allowed (auth cfg h r pv g).
Proof. intros Hin Hp Hh. unfold auth. destruct (auth_check _ _); [by apply reject_answers|done]. Qed.

(** A rate limiter in front of a handler; it leaves the server alone. *)
Lemma limited_answers (h : Handler (W:=W)) (allow : M (GState W) bool) r pv g allowed :
  (429%Z, ErrorResponse_schema) ∈ allowed →
  (∃ ok, (allow g).2 = Val ok) → g_server (allow g).1 = g_server g →
  probe_cache (healthResp (g_server g)) →
  (∀ g0, g_server g0 = g_server g → json_answer allowed (h r pv g0)) →
  json_answer allowed
    (body (let! ok := call allow in
           if ok : bool then call (h r pv)
           else call (onRateLimitRejected (rq_Path r)) ;;;
                call (reject StatusTooManyRequests "rate limit exceeded")) g).
Proof.
  intros Hin [ok Hok] Hs Hp Hh. unfold body, bind, call. destruct (allow g) as [g0 o]. cbn in Hok, Hs. subst o.
  destruct ok.
  - specialize (Hh g0 Hs). by destruct (h r pv g0) as [g1 []].
  - apply (reject_answers allowed StatusTooManyRequests "rate limit exceeded"
             (set_server (inc kmsRateLimitRejectionsTotal [rq_Path r] (g_server g0)).1 g0)); [done|].
    cbn. by rewrite Hs.
Qed.

Lemma allow_server (key : string) (g : GState W) :
  ((∃ ok, (allowPrincipal iter key g).2 = Val ok) ∧ g_server (allowPrincipal iter key g).1 = g_server g) ∧
  ((∃ ok, (allowHealth iter key g).2 = Val ok) ∧ g_server (allowHealth iter key g).1 = g_server g).
Proof. unfold allowPrincipal, allowHealth. split; destruct (limiters_allow _ _ _ _); eauto. Qed.

Lemma chain_answers fresh r g allowed :
  (500%Z, Panic_schema) ∈ allowed →
  (∀ g0, g_server g0 = g_server g → json_answer allowed (dispatch r g0)) → json_answer allowed (chain fresh r g).
Proof.
  intros Hin Hd. rewrite routes_entered, outer_run.
  specialize (Hd (entered (effective_id fresh r) g) eq_refl).
  destruct (dispatch r _) as [g1 [resp|m]]; destruct Hd as [Hp Ha]; cbn in *.
  - split; [done|]. intros ? [= <-]. cbn. by apply Ha.
  - split; [done|]. intros ? [= <-]. cbn. rewrite lookup_insert_eq. split; [|done].
    eapply (replies_intro _ _ _ Panic_schema); [reflexivity|vm_compute; reflexivity|done|reflexivity].
Qed.

Definition healthHandler : Handler := healthRateLimit iter (serve (λ _ _, health (cfg_vault cfg))).

Lemma health_dispatch r op :
  addresses r ("/v1/health", "get", op) → dispatch r = healthHandler r "".
Proof.
  intros [[= Hm] Hp]. cbn in Hp. etrans; [apply mux_exact;
         [rewrite <- Hm, Hp; find_route|rewrite Hp; reflexivity|by eexists]|reflexivity].
Qed.

(** The operations of the document: the probe, and the guarded ones. *)
Lemma operation_cases op :
  op ∈ api_operations openapi →
  (op.1 = ("/v1/health", "get") ∧ secured op.2 = false ∧ covered op (health_answers ++ limit_answers) = true) ∨
  (∃ a, a ∈ secured_ops ∧ op.1 = (ao_path a, ao_method a) ∧ secured op.2 = true ∧
        covered op (ao_answers a ++ gate_answers) = true).
Proof.
  rewrite api_operations_openapi. intros Hop.
  apply elem_of_cons in Hop as [->|Hop]; [left; split_and!; reflexivity|right].
  let pick n := (apply elem_of_cons in Hop as [->|Hop];
    [eexists; split; [apply (list_elem_of_lookup_2 secured_ops n); reflexivity|split_and!; reflexivity]|]) in
  pick 0; pick 1; pick 2; pick 3; pick 4; pick 5.
  by apply not_elem_of_nil in Hop.
Qed.

Lemma documented_chain op fresh r g :
  op ∈ api_operations openapi → addresses r op →
  probe_cache (healthResp (g_server g)) → (zero_time ≤ clock (world (g_server g)))%Z →
  ∃ allowed, covered op allowed = true ∧ json_answer allowed (chain fresh r g).
Proof.
  destruct op as [[path meth] op]. intros Hop Ha Hp Ht.
  destruct (operation_cases _ Hop) as [([= -> ->] & _ & Hc)|(a & Hin & [= -> ->] & _ & Hc)].
  - exists (health_answers ++ limit_answers). split; [done|].
    apply chain_answers; [apply limit_answers_in, limit_500|]. intros g0 Hg0.
    rewrite (health_dispatch r op Ha). destruct (allow_server ("ip|" +:+ ipFromRemoteAddr (rq_RemoteAddr r)) g0) as [_ [? ?]].
    apply limited_answers; [apply limit_answers_in, limit_429|done|done|by rewrite Hg0|].
    intros g1 Hg1. apply serve_answers. rewrite Hg1, Hg0. by apply health_answers_probe.
  - exists (ao_answers a ++ gate_answers). split; [done|].
    apply chain_answers; [apply limit_answers_in, limit_500|]. intros g0 Hg0.
    destruct (secured_dispatch a r op Hin Ha) as [pv ->].
    destruct (allow_server (principalKey (cfg_auth cfg) (rq_Authorization r) (rq_RemoteAddr r)) g0) as [[? ?] _].
    apply limited_answers; [apply limit_answers_in, limit_429|done|done|by rewrite Hg0|].
    intros g1 Hg1. apply auth_answers; [apply elem_of_app; right; left|by rewrite Hg1, Hg0|].
    apply serve_answers. pose proof (secured_answers a r pv (g_server g1) Hin) as Hans.
    pose proof (secured_probe a r pv Hin (g_server g1)) as Hpr. unfold mwp in *. split; [done|].
    by rewrite Hpr, Hg1, Hg0.
Qed.

(** C13. The gateway answers as documented: for every operation of the published
    document and every request that addresses it, the chain answers with JSON,
    and when the document lists the status of the answer for that operation,
    the body is an instance of the schema it gives, references, required
    members, enumerations and additional properties included.  The other
    statuses are the ones of [undocumented].  The probe's cache keeps answers
    of the probe. *)
Theorem responses_documented op (fresh : string) (r : Request) (g g' : GState W) (resp : HttpResponse) :
  op ∈ api_operations openapi → addresses r op →
  probe_cache (healthResp (g_server g)) → (zero_time ≤ clock (world (g_server g)))%Z →
  chain fresh r g = (g', Val resp) →
  documented op resp ∧ g_headers g' !! "Content-Type" = Some "application/json" ∧
  probe_cache (healthResp (g_server g')).
Proof.
  intros Hop Ha Hp Ht Hrun. destruct (documented_chain op fresh r g Hop Ha Hp Ht) as (allowed & Hc & Hj).
  rewrite Hrun in Hj. destruct Hj as [Hp' Hj]. cbn [fst snd] in *. destruct (Hj resp eq_refl) as [Hr Hct].
  split_and!; [by eapply covered_sound|done..].
Qed.

(** ** Routes and authentication *)

(** A documented operation and a route of [appRoutes] under the [/v1] prefix. *)
Definition names_route (path meth : string) (e : routeEntry (W:=W)) : Prop :=
  template (prefixed (re_pattern e)) = path ∧ verb meth = Some (re_method e).

Lemma documented_routes path meth :
  (∃ op, (path, meth, op) ∈ api_operations openapi) → ∃ e, e ∈ appRoutes iter cfg ∧ names_route path meth e.
Proof.
  rewrite api_operations_openapi. intros [op Hop].
  let pick n := (apply elem_of_cons in Hop as [[= -> -> ->]|Hop];
    [eexists; split; [apply (list_elem_of_lookup_2 _ n); reflexivity|split; reflexivity]|]) in
  pick 0; pick 6; pick 3; pick 5; pick 4; pick 2; pick 1.
  by apply not_elem_of_nil in Hop.
Qed.

Lemma verb_inj m m' v : verb m = Some v → verb m' = Some v → m = m'.
Proof.
  unfold verb. cbn [assoc]. repeat case_decide; subst; congruence.
Qed.

Lemma routes_documented e :
  e ∈ appRoutes iter cfg → ∃ meth op, verb meth = Some (re_method e) ∧
    (template (prefixed (re_pattern e)), meth, op) ∈ api_operations openapi.
Proof.
  rewrite api_operations_openapi. unfold appRoutes. intros He.
  let pick n := (apply elem_of_cons in He as [->|He];
    [do 2 eexists; split; [|apply (list_elem_of_lookup_2 _ n); reflexivity]; reflexivity|]) in
  pick 0; pick 6; pick 5; pick 2; pick 4; pick 3; pick 1.
  by apply not_elem_of_nil in He.
Qed.

(** The route an operation names is the one that serves the requests that
    address it. *)
Lemma documented_dispatch op r :
  op ∈ api_operations openapi → addresses r op →
  ∃ e pv, e ∈ appRoutes iter cfg ∧ names_route op.1.1 op.1.2 e ∧ dispatch r = re_handler e r pv ∧
    if secured op.2 then ∃ h, re_handler e = guardedHandler h else re_handler e = healthHandler.
Proof.
  destruct op as [[path meth] op]. intros Hop Ha. cbn [fst snd].
  destruct (operation_cases _ Hop) as [([= -> ->] & Hs & Hc)|(a & Hin & [= -> ->] & Hs & Hc)];
    cbn [snd] in Hs; rewrite Hs; clear Hs.
  - rewrite (health_dispatch r op Ha). eexists _, "".
    split; [apply (list_elem_of_lookup_2 _ 0); reflexivity|]. split; [done|]. split; reflexivity.
  - destruct (secured_dispatch a r op Hin Ha) as [pv ->]. clear Hop Ha Hc. unfold secured_ops in Hin.
    let pick n := (apply elem_of_cons in Hin as [->|Hin];
      [eexists _, pv; split; [apply (list_elem_of_lookup_2 _ n); reflexivity|];
       split; [done|split; [reflexivity|eexists; reflexivity]]|]) in
    pick 6; pick 3; pick 5; pick 4; pick 2; pick 1.
    by apply not_elem_of_nil in Hin.
Qed.

(** A refusal by the token check or the limiter before it. *)
Lemma guardedHandler_refuses h r pv g :
  auth_check (cfg_auth cfg) (rq_Authorization r) ≠ None →
  ∃ g' resp, guardedHandler h r pv g = (g', Val resp) ∧ rs_status resp ∈ [401; 429]%Z ∧
    same_server (g_server g) (g_server g').
Proof.
  intros Ha. unfold guardedHandler, rateLimit, body, bind, call, allowPrincipal, auth.
  destruct (limiters_allow _ _ _ _) as [p [|]].
  - destruct (auth_check _ _); [|done]. do 2 eexists. split; [reflexivity|]. split; [left|done].
  - do 2 eexists. split; [reflexivity|]. split; [right; left|done].
Qed.

(** C14. The document and the routes agree: the documented operations are exactly
    the routes of [appRoutes] under [/v1]; every request that addresses an
    operation is served by its route, never by a redirect, a 404 or a 405; the
    operations without a security requirement are those of [/v1/health]; and
    on every other one a request without the bearer token is answered 401, or
    429 by the limiter in front, without touching the server. *)
Theorem operations_routed :
  (∀ path meth, (∃ op, (path, meth, op) ∈ api_operations openapi) ↔
     ∃ e, e ∈ appRoutes iter cfg ∧ names_route path meth e) ∧
  (∀ op r, op ∈ api_operations openapi → addresses r op →
     ∃ e pv, e ∈ appRoutes iter cfg ∧ names_route op.1.1 op.1.2 e ∧ dispatch r = re_handler e r pv) ∧
  (∀ op, op ∈ api_operations openapi → secured op.2 = false ↔ op.1.1 = "/v1/health") ∧
  (∀ op fresh r g, op ∈ api_operations openapi → addresses r op → secured op.2 = true →
     auth_check (cfg_auth cfg) (rq_Authorization r) ≠ None →
     ∃ g' resp, chain fresh r g = (g', Val resp) ∧ rs_status resp ∈ [401; 429]%Z ∧
       same_server (g_server g) (g_server g')).
Proof.
  split_and!.
  - intros path meth. split; [apply documented_routes|]. intros (e & He & <- & Hv).
    destruct (routes_documented e He) as (meth' & op & Hv' & Hop). exists op. by rewrite (verb_inj _ _ _ Hv Hv').
  - intros op r Hop Ha. destruct (documented_dispatch op r Hop Ha) as (e & pv & ? & ? & ? & _). eauto.
  - intros op Hop. destruct (operation_cases _ Hop) as [(-> & -> & _)|(a & Hin & -> & -> & _)]; [done|].
    split; [done|]. unfold secured_ops in Hin.
    by repeat (apply elem_of_cons in Hin as [->|Hin]; [done|]); apply not_elem_of_nil in Hin.
  - intros op fresh r g Hop Ha Hs Hauth. destruct (documented_dispatch op r Hop Ha) as (e & pv & _ & _ & Hd & Hh).
    rewrite Hs in Hh. destruct Hh as [h Hh]. rewrite Hh in Hd. rewrite routes_entered, outer_run, Hd.
    destruct (guardedHandler_refuses h r pv (entered (effective_id fresh r) g) Hauth) as (g' & resp & -> & Hst & Hsame).
    do 2 eexists. split; [reflexivity|]. done.
Qed.
End contract.
