(* ===== verification/MiddlewareChecks.v ===== *)
(** * Requests through the whole chain

    The request chain in front of the gateway of [GatewayChecks]: requests
    with and without the token, and the witnesses of the chain's theorems. *)

From S2P Require Import Prelude GoLib Types KeyPath Crypto Plugin PluginModel PluginProps.
From S2P Require Import PluginTheorems Interfaces VaultClient Mount EvmSigner CosmosSigner Json HttpJson.
From S2P Require Import SignerTheorems EndToEnd EndToEndTheorems Sha256 Limiter Gateway GatewayHandlers.
From S2P Require Import GatewayTheorems GatewayListing GatewayChecks Middleware MiddlewareTheorems.
From S2P Require Import Float64 Telemetry TelemetryTheorems Startup JsonIndent SwaggerPost SwaggerTheorems OpenApi OpenApiTheorems ApiContract.

Module MiddlewareChecks.
Import ToyCrypto MemVault MemServer PluginWitness EndToEndChecks GatewayChecks.

#[local] Existing Instance SignerChecks.toy_tx.
#[local] Existing Instance SignerChecks.toy_cosmos.
#[local] Existing Instance vault_clock.
#[local] Existing Instance vault_evm.
#[local] Existing Instance vault_cosmos.
#[local] Existing Instance LimiterChecks.toy_rate.

Definition page : Handler (W:=vault) := λ _ _ g, (g, Val (mkResponse StatusOK (TextBody "page"))).

Lemma page_keeps : keeps page.
Proof. intros r pv g. done. Qed.

Definition config1 : ChainConfig :=
  mkChainConfig (mkAuthConfig [Byte.x01] "token") "Thu, 01 Jan 2026 00:00:00 GMT" false true false.

Definition request_with (body : bytes) (method path authorization id : string) : Request :=
  mkRequest method path "kms.local" false authorization id "" "" "10.0.0.1:5000" "" (λ _, "") body.

Definition request : string → string → string → string → Request := request_with [].

Definition start : GState vault :=
  mkGState gateway (newPrincipalLimiters (f64_of_Z 1) 2 10) (newPrincipalLimiters (f64_of_Z 1) 2 10) ∅ "".

Definition answer (r : Request) : HttpResponse :=
  response (routes LimiterChecks.toy_iter config1 page page page "fresh-1" r start).2.

Definition after (r : Request) : GState vault :=
  (routes LimiterChecks.toy_iter config1 page page page "fresh-1" r start).1.

(** Redirects, unknown paths and wrong methods. *)
Example chain_statuses :
  (λ mp : string * string, rs_status (answer (request mp.1 mp.2 "" ""))) <$>
    [("GET", "/livez"); ("GET", "/v1/health"); ("POST", "/v1/sign/evm"); ("GET", "/v1/sign/evm");
     ("PATCH", "/keys"); ("GET", "/v1//keys"); ("GET", "/swagger"); ("GET", "/swagger/x"); ("GET", "/nope")]
  = [200; 200; 401; 405; 301; 301; 301; 200; 404]%Z.
Proof. vm_compute. reflexivity. Qed.

Example allow_header :
  g_headers (after (request "DELETE" "/v1/keys" "" "")) !! "Allow" = Some "GET, HEAD, PATCH, POST".
Proof. vm_compute. reflexivity. Qed.

Lemma unauthenticated_refused_witness :
  ∃ g' resp, routes LimiterChecks.toy_iter config1 page page page "fresh-1"
      (request "POST" "/v1/sign/evm" "Bearer wrong" "") start = (g', Val resp) ∧
    rs_status resp ∈ [301; 401; 404; 405; 429]%Z ∧ same_server (g_server start) (g_server g').
Proof.
  apply unauthenticated_refused.
  - vm_compute. discriminate.
  - intros [Hp|(_ & _ & Hp)]; [|done].
    repeat (apply elem_of_cons in Hp as [Hp|Hp]; [done|]). by apply not_elem_of_nil in Hp.
Defined.

Lemma every_request_answered_witness :
  ∃ g' resp id, routes LimiterChecks.toy_iter config1 page page page "fresh-1"
      (request "GET" "/nope" "" "bad id") start = (g', Val resp) ∧
    g_headers g' !! "X-Request-ID" = Some id ∧ requestIDPattern_Match id = true ∧
    (requestIDPattern_Match "bad id" = true → id = "bad id") ∧
    (∀ g1 msg, mux LimiterChecks.toy_iter config1 page page page (request "GET" "/nope" "" "bad id")
                 (entered id start) = (g1, Panic msg) →
       resp = mkResponse StatusInternalServerError
                (MapBody (<["error" := "internal server error"]> {["request_id" := id]}))).
Proof.
  apply (every_request_answered LimiterChecks.toy_iter config1 page page page "fresh-1"
           (request "GET" "/nope" "" "bad id") start); [reflexivity|apply page_keeps..].
Defined.

(** A body whose keys differ in case from the struct's, with trailing data. *)
Definition sign_body : bytes :=
  bytes_of_string (print_text (TObject
    [("type", TString "personal_message"); ("Key_Path", TString alice); ("other", TNull);
     ("personal_message", TString "0x68")]) +:+ " trailing").

Example sign_body_decoded : decode_EVM sign_body = Some personal.
Proof. vm_compute. reflexivity. Qed.

Definition sign_request : Request := request_with sign_body "POST" "/v1/sign/evm" "Bearer token" "req-7".

Lemma sign_endpoint_gate_witness :
  rq_Method sign_request = "POST" ∧
  served LimiterChecks.toy_iter config1 sign_request (sign_handler sign_request) start
    (after sign_request) (answer sign_request).
Proof.
  apply (sign_endpoint_gate LimiterChecks.toy_iter config1 page page page "fresh-1").
  - apply list_elem_of_further, list_elem_of_here.
  - vm_compute. reflexivity.
  - vm_compute. reflexivity.
Defined.
(** ** What is emitted *)

Lemma page_quiet : quiet_handler page.
Proof. intros r pv g. reflexivity. Qed.

Abbreviation nope := (routes LimiterChecks.toy_iter config1 page page page "fresh-1" (request "GET" "/nope" "" "")).

Lemma requests_accounted_witness :
  ∃ g' resp inner last, nope start = (g', Val resp) ∧
    trace g' = trace start ++ inner ++ last ∧ Forall inner_event inner ∧ Forall well_labelled last ∧
    (last = request_events (request "GET" "/nope" "" "") (clock (world (g_server start))) (clock (world (g_server g'))) resp ∨
     ∃ m, last = panic_events (request "GET" "/nope" "" "") m ∧ rs_status resp = StatusInternalServerError).
Proof. apply requests_accounted; apply page_quiet. Defined.

(** Two wrong tokens. *)
Definition guess (token : string) : Request := request "POST" "/v1/sign/evm" ("Bearer " +:+ token) "".

Lemma token_not_revealed_witness :
  same_view (routes LimiterChecks.toy_iter config1 page page page "fresh-1" (set_Authorization "Bearer b" (guess "a")) start)
            (routes LimiterChecks.toy_iter config1 page page page "fresh-1" (guess "a") start).
Proof.
  apply token_not_revealed; [done|done|done|vm_compute; reflexivity|vm_compute; reflexivity].
Defined.

Example wrong_token_logged :
  trace (after (guess "a")) =
    [Logged (mkRecord LevelWarn "unauthorized request" [("reason", "mismatch")]);
     Observed kmsHTTPRequestsTotal ["/v1/sign/evm"; "POST"; "401"];
     Observed kmsHTTPRequestDuration ["/v1/sign/evm"; "POST"];
     Logged (mkRecord LevelInfo "request"
       [("method", "POST"); ("path", "/v1/sign/evm"); ("status", "401"); ("duration_ms", "0");
        ("remote_addr", "10.0.0.1:5000")])].
Proof. vm_compute. reflexivity. Qed.

(** A request for a key that is not there. *)
Definition nobody : Request :=
  mkRequest "GET" "/v1/keys/info" "kms.local" false "Bearer token" "" "" "" "10.0.0.1:5000" "path=p/e/nobody"
    (λ k, if decide (k = "path") then "p/e/nobody" else "") [].

Example missing_key_logged :
  ∃ err, trace (after nobody) =
    [Logged (mkRecord LevelError "key operation failed"
       [("error", err); ("key_path", "p/e/nobody"); ("op", "GetKeyChains")]);
     Observed kmsHTTPRequestsTotal ["/v1/keys/info"; "GET"; "404"];
     Observed kmsHTTPRequestDuration ["/v1/keys/info"; "GET"];
     Logged (mkRecord LevelInfo "request"
       [("method", "GET"); ("path", "/v1/keys/info"); ("status", "404"); ("duration_ms", "0");
        ("remote_addr", "10.0.0.1:5000")])].
Proof. eexists. vm_compute. reflexivity. Qed.

(** ** The published document *)

(** [docs.go] around its template. *)
Definition docs_head : string := "// Package docs Code generated by swaggo/swag. DO NOT EDIT" +:+ newline.
Definition docs_tail : string := newline +:+ "var SwaggerInfo = &swag.Spec{}" +:+ newline.

Definition docs_files : FS :=
  mkFS {["docs/swagger.json" := SwaggerTemplate SwaggerInfo; "docs/swagger.yaml" := SwaggerTemplate SwaggerInfo;
         "docs/docs.go" := docs_head +:+ startMarker +:+ SwaggerTemplate SwaggerInfo +:+ endMarker +:+ docs_tail]} ∅.

Lemma openapi_published_witness :
  run docs_files = (docs_files, Val (Ok tt)) ∧
  Unmarshal (SwaggerTemplate SwaggerInfo) = Ok (JObject openapi) ∧
  refs_resolve openapi ∧ discriminators_resolve openapi.
Proof.
  apply (openapi_published docs_files docs_head docs_tail);
    [done|reflexivity|reflexivity|reflexivity|vm_compute; reflexivity].
Defined.

(** The variant schemas of the sign request do not list the discriminator
    property: a body of the raw-transaction schema is refused without it. *)
Definition untyped : jtext :=
  TObject [("key_path", TString alice); ("raw_tx", TString "0x00"); ("chain_id", TNumber (int_lit 1))].

Example untyped_request_refused :
  conforms 16 openapi doc_EVMSignRawTxRequest untyped = true ∧
  answer (request_with (bytes_of_string (print_text untyped)) "POST" "/v1/sign/evm" "Bearer token" "")
  = writeError StatusBadRequest "type is required and must be one of raw_tx|personal_message|eip712_digest".
Proof. vm_compute. split; reflexivity. Qed.

(** The server as it starts, and a sign request to it. *)
Definition started : GState vault :=
  mkGState (mkServerState (world gateway) (chains gateway) (mkHealthCache zero_time 0 (TextBody "")) [])
    (principals start) (healthLimiters start) ∅ "".

Abbreviation sign_run :=
  (routes LimiterChecks.toy_iter config1 page page page "fresh-1" sign_request started).

Lemma responses_documented_witness :
  documented ("/v1/sign/evm", "post", as_object op_post_sign_evm) (response sign_run.2) ∧
  g_headers sign_run.1 !! "Content-Type" = Some "application/json" ∧
  probe_cache (healthResp (g_server sign_run.1)).
Proof.
  destruct sign_run as [g' o] eqn:Hrun. assert (∃ resp, o = Val resp) as [resp ->].
  { apply (f_equal snd) in Hrun. cbn [snd] in Hrun. rewrite <- Hrun. vm_compute. eauto. }
  apply (responses_documented LimiterChecks.toy_iter config1 page page page
           ("/v1/sign/evm", "post", as_object op_post_sign_evm) "fresh-1" sign_request started g' resp).
  - rewrite api_operations_openapi. by apply (list_elem_of_lookup_2 _ 6).
  - split; reflexivity.
  - left. done.
  - by vm_compute.
  - exact Hrun.
Defined.
End MiddlewareChecks.
